(** * reop: the key, signature and envelope layer of [reop.c]

    A shallow embedding of the library half of [reop.c] (the wrappers
    around the NaCl primitives, the KDF wrapping of secret keys, the
    armored codec, signing and public-key encryption) together with the
    command-line half: reading a file, loading a key from a file or from
    the key ring, the commands that sign, verify, encrypt and decrypt a
    file, and the option handling of [main].

    Conventions.
    - A byte is an [ascii]; a buffer is a [list ascii].  A [char *] that
      points into a buffer is the list of the bytes from that address on;
      the C string it denotes is [c_str], the bytes before the first NUL.
    - The cryptographic library (libsodium, [bcrypt_pbkdf]) is an
      interface, the class [Crypto]; what the library promises is the
      class [CryptoLaws].
    - Effects (the random source, the environment, the terminal, process
      exit through [errx], and the sequence of calls made to the
      cryptographic library) are threaded through the monad [M] over a
      [world].
    - Heap allocation is taken to succeed. *)

From Stdlib Require Import Ascii String Bool Arith ZArith Lia ZifyNat List.
Import ListNotations.

Set Implicit Arguments.

(** ** Bytes and C strings *)

Definition bytes := list ascii.

Definition NUL : ascii := "000"%char.
Definition NL : ascii := "010"%char.

Definition lit (s : string) : bytes := list_ascii_of_string s.

Definition bytes_eqb (a b : bytes) : bool :=
  if list_eq_dec ascii_dec a b then true else false.

(** [memcpy(dst, src, n)]: the [n] bytes [dst] then holds. *)
Definition memcpy (src : bytes) (n : nat) : bytes := firstn n src.

(** [memcmp(a, b, n) == 0] on two arrays of [n] bytes each. *)
Definition memcmp_eq (n : nat) (a b : bytes) : bool :=
  bytes_eqb (firstn n a) (firstn n b).

(** The C string at an address: the bytes before the first NUL. *)
Fixpoint c_str (p : bytes) : bytes :=
  match p with
  | [] => []
  | c :: p' => if Ascii.eqb c NUL then [] else c :: c_str p'
  end.

Definition strlen (p : bytes) : nat := length (c_str p).

Definition nonul (s : bytes) : bool := forallb (fun c => negb (Ascii.eqb c NUL)) s.

(** [strlcpy(dst, src, size)] leaves in [dst] the first [size - 1] bytes of
    the string [src]. *)
Definition strlcpy (src : bytes) (size : nat) : bytes :=
  firstn (size - 1) (c_str src).

(** [isspace] in the C locale. *)
Definition isspace (c : ascii) : bool :=
  let n := nat_of_ascii c in
  (n =? 32) || ((9 <=? n) && (n <=? 13)).

(** [p] is a prefix of [s]; with [p] a NUL-free literal this is
    [strncmp(s, p, strlen(p)) == 0]. *)
Fixpoint prefixb (p s : bytes) : bool :=
  match p, s with
  | [], _ => true
  | _ :: _, [] => false
  | a :: p', b :: s' => Ascii.eqb a b && prefixb p' s'
  end.

Definition strncmp_eq (s p : bytes) : bool := prefixb p (c_str s).

(** Offset of the first occurrence of [needle] in a NUL-free text. *)
Fixpoint find_sub (needle hay : bytes) : option nat :=
  if prefixb needle hay then Some 0
  else match hay with
       | [] => None
       | _ :: hay' => option_map S (find_sub needle hay')
       end.

(** [strstr(hay, needle)]: the offset of the match from [hay], [None] for a
    null result. *)
Definition strstr (hay needle : bytes) : option nat := find_sub needle (c_str hay).

Fixpoint find_chr (c : ascii) (s : bytes) : option nat :=
  match s with
  | [] => None
  | d :: s' => if Ascii.eqb d c then Some 0 else option_map S (find_chr c s')
  end.

(** [strchr(s, c)] for a [c] other than NUL. *)
Definition strchr (s : bytes) (c : ascii) : option nat := find_chr c (c_str s).

(** ** Constants of [reop.c] *)

(** Modelled from the spec: the sizes that the macros of [sodium.h] (not
    among the files) give to the short names of [reop.c]; they are the
    member sizes of the data model. *)
Definition SIGBYTES := 64.
Definition SIGSECRETBYTES := 64.
Definition SIGPUBLICBYTES := 32.
Definition ENCSECRETBYTES := 32.
Definition ENCPUBLICBYTES := 32.
Definition ENCNONCEBYTES := 24.
Definition ENCTAGBYTES := 16.
Definition SYMKEYBYTES := 32.
Definition SYMNONCEBYTES := 24.
Definition SYMTAGBYTES := 16.

Definition SIGALG : bytes := lit "Ed".
Definition ENCALG : bytes := lit "eC".
Definition OLDENCALG : bytes := lit "CS".
Definition ENCKEYALG : bytes := lit "CS".
Definition OLDEKCALG : bytes := lit "eS".
Definition SYMALG : bytes := lit "SP".
Definition KDFALG : bytes := lit "BK".
Definition IDENTLEN := 64.
Definition RANDOMIDLEN := 8.

(** ** The cryptographic library *)

(** A call made to the cryptographic library, with its inputs. *)
Inductive call : Type :=
| Call_randombytes (n : nat)
| Call_secretbox_detached (m nonce key : bytes)
| Call_secretbox_open_detached (c tag nonce key : bytes)
| Call_box_detached (m nonce pk sk : bytes)
| Call_box_open_detached (c tag nonce pk sk : bytes)
| Call_sign_detached (m sk : bytes)
| Call_sign_verify_detached (sig m pk : bytes)
| Call_sign_keypair
| Call_box_keypair
| Call_bcrypt_pbkdf (pass salt : bytes) (keylen : nat) (rounds : Z).

(** The functions of libsodium and libutil that [reop.c] calls.  A function
    that returns [0] or [-1] in C returns [true] or [false], or [Some] of
    what it stored and [None].  The two key generators draw 32 random
    bytes each; [sign_keypair_from] and [box_keypair_from] are the pairs
    (public, secret) they derive from those bytes. *)
Class Crypto : Type := {
  crypto_secretbox_detached : bytes -> bytes -> bytes -> bytes * bytes;
  crypto_secretbox_open_detached : bytes -> bytes -> bytes -> bytes -> option bytes;
  crypto_box_detached : bytes -> bytes -> bytes -> bytes -> bytes * bytes;
  crypto_box_open_detached : bytes -> bytes -> bytes -> bytes -> bytes -> option bytes;
  crypto_sign_detached : bytes -> bytes -> bytes;
  crypto_sign_verify_detached : bytes -> bytes -> bytes -> bool;
  sign_keypair_from : bytes -> bytes * bytes;
  box_keypair_from : bytes -> bytes * bytes;
  bcrypt_pbkdf : bytes -> bytes -> nat -> Z -> option bytes
}.

(** What the library promises: a box opens under the key it was sealed
    with, public-key boxes open under the mirrored key pair, a signature
    verifies under the public half of the signing key pair, the KDF
    accepts every non-degenerate request; a detached box is as long as its
    text, a tag has 16 bytes, a signature 64, and the keys have the sizes
    the library declares. *)
Class CryptoLaws (C : Crypto) : Prop := {
  secretbox_open_seal : forall m nonce key,
    crypto_secretbox_open_detached
      (fst (crypto_secretbox_detached m nonce key))
      (snd (crypto_secretbox_detached m nonce key)) nonce key = Some m;
  box_open_seal : forall seedA seedB m nonce,
    crypto_box_open_detached
      (fst (crypto_box_detached m nonce (fst (box_keypair_from seedB))
                                        (snd (box_keypair_from seedA))))
      (snd (crypto_box_detached m nonce (fst (box_keypair_from seedB))
                                        (snd (box_keypair_from seedA))))
      nonce
      (fst (box_keypair_from seedA))
      (snd (box_keypair_from seedB)) = Some m;
  sign_verify : forall seed m,
    crypto_sign_verify_detached
      (crypto_sign_detached m (snd (sign_keypair_from seed)))
      m (fst (sign_keypair_from seed)) = true;
  bcrypt_pbkdf_total : forall pass salt keylen rounds,
    pass <> [] -> salt <> [] -> 0 < keylen <= 1024 -> (1 <= rounds)%Z ->
    bcrypt_pbkdf pass salt keylen rounds <> None;
  secretbox_length : forall m nonce key,
    length (fst (crypto_secretbox_detached m nonce key)) = length m;
  secretbox_tag_length : forall m nonce key,
    length (snd (crypto_secretbox_detached m nonce key)) = SYMTAGBYTES;
  sign_length : forall m sk,
    length (crypto_sign_detached m sk) = SIGBYTES;
  sign_keypair_length : forall seed,
    length (fst (sign_keypair_from seed)) = SIGPUBLICBYTES
    /\ length (snd (sign_keypair_from seed)) = SIGSECRETBYTES;
  box_keypair_length : forall seed,
    length (fst (box_keypair_from seed)) = ENCPUBLICBYTES
    /\ length (snd (box_keypair_from seed)) = ENCSECRETBYTES
}.

(** ** The world and the monad of effects *)

Record world : Type := mkWorld {
  rng : nat -> ascii;                 (* the bytes the random source delivers *)
  rng_pos : nat;                      (* how many have been drawn *)
  trace : list call;                  (* calls made to the library, in order *)
  env_REOP_PASSPHRASE : option bytes; (* getenv("REOP_PASSPHRASE") *)
  tty : list (option bytes);          (* what readpassphrase will read; None: it fails *)
  stack : nat -> ascii                (* contents of uninitialised automatic buffers *)
}.

(** A computation returns, or leaves the process through [errx(1, ...)]. *)
Inductive outcome (A : Type) : Type :=
| Done (a : A)
| Errx (msg : string).
Arguments Done {A} a.
Arguments Errx {A} msg.

Definition M (A : Type) : Type := world -> outcome A * world.

Definition ret {A} (a : A) : M A := fun w => (Done a, w).

Definition bind {A B} (m : M A) (k : A -> M B) : M B :=
  fun w => match m w with
           | (Done a, w') => k a w'
           | (Errx msg, w') => (Errx msg, w')
           end.

Definition errx {A} (msg : string) : M A := fun w => (Errx msg, w).

Declare Scope monad_scope.
Delimit Scope monad_scope with monad.
Notation "x <- m ;; k" := (bind m (fun x => k))
  (at level 61, m at next level, right associativity) : monad_scope.
Notation "' pat <- m ;; k" := (bind m (fun x => match x with pat => k end))
  (at level 61, pat pattern, m at next level, right associativity) : monad_scope.
Notation "m ;;; k" := (bind m (fun _ => k))
  (at level 61, right associativity) : monad_scope.
Open Scope monad_scope.

(** The world after one more call to the library. *)
Definition logged (w : world) (c : call) : world :=
  mkWorld (rng w) (rng_pos w) (trace w ++ [c])
          (env_REOP_PASSPHRASE w) (tty w) (stack w).

Definition log (c : call) : M unit := fun w => (Done tt, logged w c).

(** [randombytes(buf, n)] *)
Definition randombytes (n : nat) : M bytes :=
  fun w => (Done (map (rng w) (seq (rng_pos w) n)),
            mkWorld (rng w) (rng_pos w + n) (trace w ++ [Call_randombytes n])
                    (env_REOP_PASSPHRASE w) (tty w) (stack w)).

Definition getenv_REOP_PASSPHRASE : M (option bytes) :=
  fun w => (Done (env_REOP_PASSPHRASE w), w).

(** [readpassphrase(prompt, buf, bufsiz, flags)]: a null result is [None]. *)
Definition readpassphrase (bufsiz : nat) : M (option bytes) :=
  fun w => match tty w with
           | [] => (Done None, w)
           | a :: rest =>
               (Done (option_map (fun s => firstn (bufsiz - 1) (c_str s)) a),
                mkWorld (rng w) (rng_pos w) (trace w)
                        (env_REOP_PASSPHRASE w) rest (stack w))
           end.

(** The contents of an uninitialised automatic array of [n] bytes. *)
Definition uninitialised (n : nat) : M bytes :=
  fun w => (Done (map (stack w) (seq 0 n)), w).

(** Random bytes drawn inside the library (by the key generators). *)
Definition draw (n : nat) : M bytes :=
  fun w => (Done (map (rng w) (seq (rng_pos w) n)),
            mkWorld (rng w) (rng_pos w + n) (trace w)
                    (env_REOP_PASSPHRASE w) (tty w) (stack w)).

(** ** Structures *)

Record reop_seckey : Type := mkSeckey {
  sec_sigalg : bytes;      (* uint8_t sigalg[2] *)
  sec_encalg : bytes;      (* uint8_t encalg[2] *)
  sec_symalg : bytes;      (* uint8_t symalg[2] *)
  sec_kdfalg : bytes;      (* uint8_t kdfalg[2] *)
  sec_randomid : bytes;    (* uint8_t randomid[RANDOMIDLEN] *)
  sec_kdfrounds : bytes;   (* uint32_t kdfrounds, as its 4 bytes in memory *)
  sec_salt : bytes;        (* uint8_t salt[16] *)
  sec_nonce : bytes;       (* uint8_t nonce[SYMNONCEBYTES] *)
  sec_tag : bytes;         (* uint8_t tag[SYMTAGBYTES] *)
  sec_sigkey : bytes;      (* uint8_t sigkey[SIGSECRETBYTES] *)
  sec_enckey : bytes;      (* uint8_t enckey[ENCSECRETBYTES] *)
  sec_ident : bytes        (* char ident[IDENTLEN], the string it holds *)
}.

Record reop_sig : Type := mkSig {
  sig_sigalg : bytes;      (* uint8_t sigalg[2] *)
  sig_randomid : bytes;    (* uint8_t randomid[RANDOMIDLEN] *)
  sig_sig : bytes;         (* uint8_t sig[SIGBYTES] *)
  sig_ident : bytes        (* char ident[IDENTLEN] *)
}.

Record reop_pubkey : Type := mkPubkey {
  pub_sigalg : bytes;      (* uint8_t sigalg[2] *)
  pub_encalg : bytes;      (* uint8_t encalg[2] *)
  pub_randomid : bytes;    (* uint8_t randomid[RANDOMIDLEN] *)
  pub_sigkey : bytes;      (* uint8_t sigkey[SIGPUBLICBYTES] *)
  pub_enckey : bytes;      (* uint8_t enckey[ENCPUBLICBYTES] *)
  pub_ident : bytes        (* char ident[IDENTLEN] *)
}.

Record reop_symmsg : Type := mkSymmsg {
  sym_symalg : bytes;      (* uint8_t symalg[2] *)
  sym_kdfalg : bytes;      (* uint8_t kdfalg[2] *)
  sym_kdfrounds : bytes;   (* uint32_t kdfrounds, as its 4 bytes in memory *)
  sym_salt : bytes;        (* uint8_t salt[16] *)
  sym_nonce : bytes;       (* uint8_t nonce[SYMNONCEBYTES] *)
  sym_tag : bytes          (* uint8_t tag[SYMTAGBYTES] *)
}.

Record reop_encmsg : Type := mkEncmsg {
  enc_encalg : bytes;      (* uint8_t encalg[2] *)
  enc_secrandomid : bytes; (* uint8_t secrandomid[RANDOMIDLEN] *)
  enc_pubrandomid : bytes; (* uint8_t pubrandomid[RANDOMIDLEN] *)
  enc_ephpubkey : bytes;   (* uint8_t ephpubkey[ENCPUBLICBYTES] *)
  enc_ephnonce : bytes;    (* uint8_t ephnonce[ENCNONCEBYTES] *)
  enc_ephtag : bytes;      (* uint8_t ephtag[ENCTAGBYTES] *)
  enc_nonce : bytes;       (* uint8_t nonce[ENCNONCEBYTES] *)
  enc_tag : bytes;         (* uint8_t tag[ENCTAGBYTES] *)
  enc_ident : bytes        (* char ident[IDENTLEN] *)
}.

Record oldencmsg : Type := mkOldencmsg {
  old_encalg : bytes;      (* uint8_t encalg[2] *)
  old_secrandomid : bytes; (* uint8_t secrandomid[RANDOMIDLEN] *)
  old_pubrandomid : bytes; (* uint8_t pubrandomid[RANDOMIDLEN] *)
  old_nonce : bytes;       (* uint8_t nonce[ENCNONCEBYTES] *)
  old_tag : bytes          (* uint8_t tag[ENCTAGBYTES] *)
}.

Record reop_keypair : Type := mkKeypair {
  pubkey : reop_pubkey;
  seckey : reop_seckey
}.

(** Modelled from the spec: the result types of [reop.h] (not among the
    files), with the enumerators that [reop.c] names; the value that
    [reop.c] writes [(reop_decrypt_result) { 0 }] is [REOP_D_OK]. *)
Inductive reop_verify_result : Type := REOP_V_OK | REOP_V_FAIL | REOP_V_MISMATCH.
Inductive reop_decrypt_result : Type :=
  REOP_D_OK | REOP_D_FAIL | REOP_D_MISMATCH | REOP_D_INVALID.

(** [htonl(x)] stored in a [uint32_t], as the 4 bytes the field then
    holds (most significant first), and [ntohl] of such a field. *)
Definition htonl (x : Z) : bytes :=
  let x := (x mod 2 ^ 32)%Z in
  map (fun k => ascii_of_N (Z.to_N ((x / 2 ^ (8 * k)) mod 256)%Z)) [3; 2; 1; 0]%Z.

Definition ntohl (b : bytes) : Z :=
  fold_left (fun acc c => (acc * 256 + Z.of_N (N_of_ascii c))%Z) (firstn 4 b) 0%Z.

(** Conversion of a [uint32_t] to [int], and of an [int] to [unsigned]. *)
Definition to_int (x : Z) : Z :=
  let x := (x mod 2 ^ 32)%Z in if (x <? 2 ^ 31)%Z then x else (x - 2 ^ 32)%Z.
Definition to_unsigned (x : Z) : Z := (x mod 2 ^ 32)%Z.

(** ** Base64 *)

Definition Base64 : bytes :=
  lit "ABCDEFGHIJKLMNOPQRSTUVWXYZabcdefghijklmnopqrstuvwxyz0123456789+/".
Definition Pad64 : ascii := "="%char.

Definition b64_char (n : nat) : ascii := nth n Base64 Pad64.

Fixpoint index_of (c : ascii) (l : bytes) : option nat :=
  match l with
  | [] => None
  | d :: l' => if Ascii.eqb d c then Some 0 else option_map S (index_of c l')
  end.

Definition b64_val (c : ascii) : option nat := index_of c Base64.

Definition byte_of (n : nat) : ascii := ascii_of_nat n.

(** Modelled from the spec: the base64 encoder [reopb64_ntop] of
    [reopbase64.h], whose source is not among the files.  Standard
    alphabet, [=] padding, three bytes to four characters. *)
Fixpoint b64_encode (src : bytes) : bytes :=
  match src with
  | [] => []
  | [a] =>
      let a := nat_of_ascii a in
      [b64_char (a / 4); b64_char (a mod 4 * 16); Pad64; Pad64]
  | [a; b] =>
      let a := nat_of_ascii a in
      let b := nat_of_ascii b in
      [b64_char (a / 4); b64_char (a mod 4 * 16 + b / 16);
       b64_char (b mod 16 * 4); Pad64]
  | a :: b :: c :: rest =>
      let a := nat_of_ascii a in
      let b := nat_of_ascii b in
      let c := nat_of_ascii c in
      b64_char (a / 4) :: b64_char (a mod 4 * 16 + b / 16)
        :: b64_char (b mod 16 * 4 + c / 64) :: b64_char (c mod 64)
        :: b64_encode rest
  end.

(** Modelled from the spec: [reopb64_ntop(src, srclength, target, targsize)],
    [None] for [-1]: the text and its terminating NUL must fit in
    [targsize] bytes. *)
Definition reopb64_ntop (src : bytes) (targsize : nat) : option bytes :=
  let t := b64_encode src in
  if length t <? targsize then Some t else None.

(** Modelled from the spec: decoding of a text from which white space has
    been removed.  Groups of four characters of the alphabet give three
    bytes; the last group may end in [=] or [==], and the bits it leaves
    over must be zero; nothing follows the padding. *)
Fixpoint b64_decode (t : bytes) : option bytes :=
  match t with
  | [] => Some []
  | c0 :: c1 :: c2 :: c3 :: rest =>
      match b64_val c0, b64_val c1 with
      | Some v0, Some v1 =>
          if Ascii.eqb c2 Pad64 then
            if Ascii.eqb c3 Pad64 && (length rest =? 0) && (v1 mod 16 =? 0)
            then Some [byte_of (v0 * 4 + v1 / 16)]
            else None
          else
            match b64_val c2 with
            | None => None
            | Some v2 =>
                if Ascii.eqb c3 Pad64 then
                  if (length rest =? 0) && (v2 mod 4 =? 0)
                  then Some [byte_of (v0 * 4 + v1 / 16);
                             byte_of (v1 mod 16 * 16 + v2 / 4)]
                  else None
                else
                  match b64_val c3 with
                  | None => None
                  | Some v3 =>
                      option_map
                        (fun r => byte_of (v0 * 4 + v1 / 16)
                                    :: byte_of (v1 mod 16 * 16 + v2 / 4)
                                    :: byte_of (v2 mod 4 * 64 + v3) :: r)
                        (b64_decode rest)
                  end
            end
      | _, _ => None
      end
  | _ => None
  end.

Definition strip_space (s : bytes) : bytes := filter (fun c => negb (isspace c)) s.

(** Modelled from the spec: [reopb64_pton(src, target, targsize)], [None]
    for [-1], otherwise the bytes stored (the return value is their
    number).  White space anywhere in [src] is skipped; more than
    [targsize] bytes is an error. *)
Definition reopb64_pton (src : bytes) (targsize : nat) : option bytes :=
  match b64_decode (strip_space (c_str src)) with
  | Some b => if length b <=? targsize then Some b else None
  | None => None
  end.

(** ** The armored codec *)

Definition memmove (buf : bytes) (dst src n : nat) : bytes :=
  firstn dst buf ++ firstn n (skipn src buf) ++ skipn (dst + n) buf.

(** [buf[i] = c] *)
Definition poke (buf : bytes) (i : nat) (c : ascii) : bytes :=
  firstn i buf ++ c :: skipn (i + 1) buf.

(** The string [t] and its NUL written at the start of [buf]. *)
Definition store_str (buf t : bytes) : bytes :=
  t ++ NUL :: skipn (length t + 1) buf.

Fixpoint wraplines_loop (str : bytes) (len num : nat) : bytes :=
  match num with
  | 0 => str
  | S num' =>
      let pos := 76 * num - 1 in
      let amt := if len - pos <? 76 then len - pos else 76 in
      let str := memmove str (pos + num) pos (amt + 1) in
      let str := poke str (pos + num) NL in
      wraplines_loop str len num'
  end.

(** [wraplines(str, space)]: the buffer afterwards.  [len - 1] is computed
    in [size_t] (64 bits), so an empty string fails the size test. *)
Definition wraplines (str : bytes) (space : nat) : bytes :=
  let len := strlen str in
  let num := Z.to_nat (((Z.of_nat len - 1) mod 2 ^ 64) / 76)%Z in
  if space <? len + num + 1 then str
  else wraplines_loop str len num.

(** [snprintf(buf, size, ...)] of a text keeps its first [size - 1] bytes. *)
Definition snprintf (size : nat) (text : bytes) : bytes := firstn (size - 1) text.

Definition strdup (s : bytes) : bytes := c_str s.

(** [sscanf(buf, "ident:%63s", ident)]: [Some] of the word stored when the
    call returns 1.  [%63s] skips white space, then takes characters up to
    the next white space, at most 63. *)
Fixpoint skip_space (s : bytes) : bytes :=
  match s with
  | [] => []
  | c :: s' => if isspace c then skip_space s' else s
  end.

Fixpoint scan_word (n : nat) (s : bytes) : bytes :=
  match n, s with
  | S n', c :: s' => if isspace c then [] else c :: scan_word n' s'
  | _, _ => []
  end.

Definition sscanf_ident (buf : bytes) : option bytes :=
  let s := c_str buf in
  if prefixb (lit "ident:") s then
    match scan_word 63 (skip_space (skipn 6 s)) with
    | [] => None
    | w => Some w
    end
  else None.

(** [readident(buf, ident)]: the identity and the rest of the text after
    the line.  (The message of [errx] is given without the text it
    quotes.) *)
Definition readident (buf : bytes) : M (bytes * bytes) :=
  match sscanf_ident buf with
  | None => errx "no ident found"
  | Some ident =>
      match strchr (skipn 1 buf) NL with
      | None => errx "invalid header"
      | Some i => ret (ident, skipn (1 + i + 1) buf)
      end
  end.

(** [parsekeydata(keydataorig, keytype, key, keylen, ident)]: the [keylen]
    bytes stored at [key] and the identity stored at [ident]. *)
Definition parsekeydata (keydataorig keytype : bytes) (keylen : nat)
    : M (bytes * bytes) :=
  let beginkey := lit "-----BEGIN REOP " in
  let endkey := lit "-----END REOP " in
  let keydata := strdup keydataorig in
  if negb (strncmp_eq keydata beginkey) then errx "invalid key data"
  else if negb (strncmp_eq (skipn (strlen beginkey) keydata) keytype)
  then errx "invalid key data"
  else
    match strstr keydata endkey with
    | None => errx "invalid key data"
    | Some e =>
        let keydata := poke keydata e NUL in
        match strchr keydata NL with
        | None => errx "invalid key data"
        | Some b =>
            '(ident, begin) <- readident (skipn (b + 1) keydata) ;;
            match reopb64_pton begin keylen with
            | None => errx "invalid b64 encoding"
            | Some key =>
                if length key =? keylen then ret (key, ident)
                else errx "invalid b64 encoding"
            end
        end
    end.

(** [encodekey(info, key, keylen, ident)] *)
Definition encodekey (info key ident : bytes) : M bytes :=
  b64 <- uninitialised 1024 ;;
  match reopb64_ntop key 1024 with
  | None => errx "b64 encode failed"
  | Some t =>
      let b64 := store_str b64 t in
      let b64 := wraplines b64 1024 in
      let buf := snprintf 1024
                   (lit "-----BEGIN REOP " ++ c_str info ++ lit "-----" ++ [NL]
                    ++ lit "ident:" ++ c_str ident ++ [NL]
                    ++ c_str b64 ++ [NL]
                    ++ lit "-----END REOP " ++ c_str info ++ lit "-----" ++ [NL]) in
      ret (strdup buf)
  end.

(** The bytes of each structure up to its [ident] member, and the
    structure that such bytes and an identity make. *)
Definition slice (off n : nat) (b : bytes) : bytes := firstn n (skipn off b).

Definition seckeysize := 172.
Definition sigsize := 74.
Definition pubkeysize := 76.

Definition seckey_image (k : reop_seckey) : bytes :=
  sec_sigalg k ++ sec_encalg k ++ sec_symalg k ++ sec_kdfalg k ++ sec_randomid k
  ++ sec_kdfrounds k ++ sec_salt k ++ sec_nonce k ++ sec_tag k
  ++ sec_sigkey k ++ sec_enckey k.

Definition seckey_of_image (b ident : bytes) : reop_seckey :=
  mkSeckey (slice 0 2 b) (slice 2 2 b) (slice 4 2 b) (slice 6 2 b) (slice 8 8 b)
           (slice 16 4 b) (slice 20 16 b) (slice 36 24 b) (slice 60 16 b)
           (slice 76 64 b) (slice 140 32 b) ident.

Definition sig_image (s : reop_sig) : bytes :=
  sig_sigalg s ++ sig_randomid s ++ sig_sig s.

Definition sig_of_image (b ident : bytes) : reop_sig :=
  mkSig (slice 0 2 b) (slice 2 8 b) (slice 10 64 b) ident.

Definition pubkey_image (k : reop_pubkey) : bytes :=
  pub_sigalg k ++ pub_encalg k ++ pub_randomid k ++ pub_sigkey k ++ pub_enckey k.

Definition pubkey_of_image (b ident : bytes) : reop_pubkey :=
  mkPubkey (slice 0 2 b) (slice 2 2 b) (slice 4 8 b) (slice 12 32 b)
           (slice 44 32 b) ident.

(** [reop_parsepubkey(pubkeydata)], [reop_encodepubkey(pubkey)],
    [reop_parsesig(sigdata)], [reop_encodesig(sig)] *)
Definition reop_parsepubkey (pubkeydata : bytes) : M reop_pubkey :=
  '(img, ident) <- parsekeydata pubkeydata (lit "PUBLIC KEY") pubkeysize ;;
  ret (pubkey_of_image img ident).

Definition reop_encodepubkey (pubkey : reop_pubkey) : M bytes :=
  encodekey (lit "PUBLIC KEY") (pubkey_image pubkey) (pub_ident pubkey).

Definition reop_parsesig (sigdata : bytes) : M reop_sig :=
  '(img, ident) <- parsekeydata sigdata (lit "SIGNATURE") sigsize ;;
  ret (sig_of_image img ident).

Definition reop_encodesig (sig : reop_sig) : M bytes :=
  encodekey (lit "SIGNATURE") (sig_image sig) (sig_ident sig).

(** [writeb64data(fd, filename, b64)]: the bytes written.  A round writes
    the next 76 bytes at most of what remains, [s], and a line break; one
    round per byte of the string is never exhausted. *)
Fixpoint writeb64data_loop (fuel : nat) (s : bytes) : bytes :=
  match fuel with
  | 0 => []
  | S fuel' =>
      match s with
      | [] => []
      | _ => firstn 76 s ++ NL :: writeb64data_loop fuel' (skipn 76 s)
      end
  end.

Definition writeb64data (b64 : bytes) : bytes :=
  writeb64data_loop (strlen b64) (c_str b64).

(** [writesignedmsg(filename, sig, ident, msg, msglen)]: the contents of
    the file written. *)
Definition writesignedmsg (sig : reop_sig) (ident msg : bytes) : M bytes :=
  let header1 := snprintf 1024 (lit "-----BEGIN REOP SIGNED MESSAGE-----" ++ [NL]) in
  let header2 := snprintf 1024 (lit "-----BEGIN REOP SIGNATURE-----" ++ [NL]
                                ++ lit "ident:" ++ c_str ident ++ [NL]) in
  match reopb64_ntop (sig_image sig) 1024 with
  | None => errx "b64 encode failed"
  | Some b64 =>
      let header3 := snprintf 1024 (lit "-----END REOP SIGNED MESSAGE-----" ++ [NL]) in
      ret (c_str header1 ++ msg ++ c_str header2 ++ writeb64data b64 ++ c_str header3)
  end.

(** ** Vocabulary of the statements *)

(** The characters of an encoding: letters, digits, [+], [/] and [=]. *)
Definition b64_alphabet (c : ascii) : bool :=
  match b64_val c with
  | Some _ => true
  | None => Ascii.eqb c Pad64
  end.

Definition DASH : ascii := "-"%char.

Definition nospace (s : bytes) : bool := forallb (fun c => negb (isspace c)) s.

(** The first [k + 1] lines of 76 characters of a text, a line break
    between them. *)
Fixpoint lines_upto (k : nat) (t : bytes) : bytes :=
  match k with
  | 0 => firstn 76 t
  | S k' => firstn 76 t ++ NL :: lines_upto k' (skipn 76 t)
  end.

(** A text with a line break after every 76 characters but the last ones;
    [n] is the number of breaks. *)
Definition wrapped (n : nat) (t : bytes) : bytes :=
  match n with
  | 0 => t
  | S n' => lines_upto n' t ++ NL :: skipn (76 * n) t
  end.

(** The three kinds of block that [encodekey] is called for. *)
Inductive keykind : Type := PUBLIC_KEY | SECRET_KEY | SIGNATURE.

Definition kind_name (k : keykind) : bytes :=
  match k with
  | PUBLIC_KEY => lit "PUBLIC KEY"
  | SECRET_KEY => lit "SECRET KEY"
  | SIGNATURE => lit "SIGNATURE"
  end.

Definition kind_size (k : keykind) : nat :=
  match k with
  | PUBLIC_KEY => pubkeysize
  | SECRET_KEY => seckeysize
  | SIGNATURE => sigsize
  end.

(** An armored block up to its closing line, and a whole block; [payload]
    is the lines of base64, each with its line break. *)
Definition begin_line (info : bytes) : bytes :=
  lit "-----BEGIN REOP " ++ info ++ lit "-----" ++ [NL].

Definition endkey : bytes := lit "-----END REOP ".

Definition armor_head (info ident payload : bytes) : bytes :=
  begin_line info ++ lit "ident:" ++ ident ++ NL :: payload.

Definition armored (info ident payload : bytes) : bytes :=
  armor_head info ident payload ++ endkey ++ info ++ lit "-----" ++ [NL].

(** The payload of the armored block of a structure: its base64 text in
    lines of 76 characters, each closed by a line break. *)
Definition payload_of (key : bytes) : bytes :=
  writeb64data_loop (length (b64_encode key)) (b64_encode key).

(** An identity that stays on its line and does not look like the end of
    a block. *)
Definition ident_line (ident : bytes) : bool :=
  match find_chr NL ident, find_sub endkey ident with
  | None, None => true
  | _, _ => false
  end.

(** A public key and a signature whose members have their declared sizes
    and whose identity is a string of at most 63 bytes. *)
Definition pubkey_wf (k : reop_pubkey) : bool :=
  (length (pub_sigalg k) =? 2) && (length (pub_encalg k) =? 2)
  && (length (pub_randomid k) =? RANDOMIDLEN)
  && (length (pub_sigkey k) =? SIGPUBLICBYTES)
  && (length (pub_enckey k) =? ENCPUBLICBYTES)
  && nonul (pub_ident k) && (length (pub_ident k) <=? IDENTLEN - 1).

Definition sig_wf (s : reop_sig) : bool :=
  (length (sig_sigalg s) =? 2) && (length (sig_randomid s) =? RANDOMIDLEN)
  && (length (sig_sig s) =? SIGBYTES)
  && nonul (sig_ident s) && (length (sig_ident s) <=? IDENTLEN - 1).

(** A secret key as the library hands it out: the members have their
    declared sizes, [kdfalg] is [BK], the identity is a string of at most
    63 bytes.  (The KDF parameters and the box are written by
    [encryptseckey].) *)
Definition seckey_wf (k : reop_seckey) : bool :=
  (length (sec_sigalg k) =? 2) && (length (sec_encalg k) =? 2)
  && (length (sec_symalg k) =? 2) && bytes_eqb (sec_kdfalg k) KDFALG
  && (length (sec_randomid k) =? RANDOMIDLEN)
  && (length (sec_sigkey k) =? SIGSECRETBYTES)
  && (length (sec_enckey k) =? ENCSECRETBYTES)
  && nonul (sec_ident k) && (length (sec_ident k) <=? IDENTLEN - 1).

(** An identity that, besides, does not contain the opener of a
    signature. *)
Definition ident_unmarked (ident : bytes) : bool :=
  ident_line ident
  && match find_sub (lit "-----BEGIN REOP SIGNATURE-----") ident with
     | None => true
     | Some _ => false
     end.

Definition beginmsg : bytes := lit "-----BEGIN REOP SIGNED MESSAGE-----" ++ [NL].
Definition beginsig : bytes := lit "-----BEGIN REOP SIGNATURE-----" ++ [NL].

(** [needle] occurs in [hay] at offset [p] and at no later offset. *)
Definition last_occurrence (needle hay : bytes) (p : nat) : Prop :=
  prefixb needle (skipn p hay) = true
  /\ forall q, p < q -> prefixb needle (skipn q hay) = false.

Section Reop.

Context {C : Crypto}.

(** ** Wrappers around the primitives *)

(** [symencryptraw(buf, buflen, nonce, tag, symkey)]: the new contents of
    [buf], [nonce] and [tag]. *)
Definition symencryptraw (buf symkey : bytes) : M (bytes * bytes * bytes) :=
  nonce <- randombytes SYMNONCEBYTES ;;
  log (Call_secretbox_detached buf nonce symkey) ;;;
  let r := crypto_secretbox_detached buf nonce symkey in
  ret (fst r, nonce, snd r).

(** [symdecryptraw(buf, buflen, nonce, tag, symkey)]: the return value and
    the contents of [buf] afterwards (untouched when the tag is wrong). *)
Definition symdecryptraw (buf nonce tag symkey : bytes) : M (Z * bytes) :=
  log (Call_secretbox_open_detached buf tag nonce symkey) ;;;
  match crypto_secretbox_open_detached buf tag nonce symkey with
  | None => ret ((-1)%Z, buf)
  | Some m => ret (0%Z, m)
  end.

Definition pubencryptraw (buf pubkey seckey : bytes) : M (bytes * bytes * bytes) :=
  nonce <- randombytes ENCNONCEBYTES ;;
  log (Call_box_detached buf nonce pubkey seckey) ;;;
  let r := crypto_box_detached buf nonce pubkey seckey in
  ret (fst r, nonce, snd r).

Definition pubdecryptraw (buf nonce tag pubkey seckey : bytes) : M (Z * bytes) :=
  log (Call_box_open_detached buf tag nonce pubkey seckey) ;;;
  match crypto_box_open_detached buf tag nonce pubkey seckey with
  | None => ret ((-1)%Z, buf)
  | Some m => ret (0%Z, m)
  end.

Definition signraw (seckey buf : bytes) : M bytes :=
  log (Call_sign_detached buf seckey) ;;;
  ret (crypto_sign_detached buf seckey).

Definition verifyraw (pubkey buf sig : bytes) : M Z :=
  log (Call_sign_verify_detached sig buf pubkey) ;;;
  if crypto_sign_verify_detached sig buf pubkey then ret 0%Z else ret (-1)%Z.

(** [crypto_sign_ed25519_keypair(pk, sk)] and [crypto_box_keypair(pk, sk)]
    draw 32 random bytes and derive the pair from them. *)
Definition crypto_sign_ed25519_keypair : M (bytes * bytes) :=
  log Call_sign_keypair ;;;
  seed <- draw 32 ;;
  let kp := sign_keypair_from seed in
  ret (fst kp, snd kp).

Definition crypto_box_keypair : M (bytes * bytes) :=
  log Call_box_keypair ;;;
  seed <- draw 32 ;;
  let kp := box_keypair_from seed in
  ret (fst kp, snd kp).

(** ** KDF wrapping of secret keys *)

(** [kdf(salt, saltlen, rounds, password, confirm, key, keylen)]: the key.
    A null [password] is [None]. *)
Definition kdf (salt : bytes) (rounds : Z) (password : option bytes)
    (confirm : bool) (keylen : nat) : M bytes :=
  if (rounds =? 0)%Z then ret (repeat NUL keylen)
  else
    password <- match password with
                | Some p => ret (Some p)
                | None => getenv_REOP_PASSPHRASE
                end ;;
    password <- match password with
                | Some p => ret p
                | None =>
                    r <- readpassphrase 1024 ;;
                    match r with
                    | None => errx "unable to read passphrase"
                    | Some passbuf =>
                        if strlen passbuf =? 0 then errx "please provide a password"
                        else
                          (if confirm then
                             r2 <- readpassphrase 1024 ;;
                             match r2 with
                             | None => errx "unable to read passphrase"
                             | Some pass2 =>
                                 if bytes_eqb passbuf pass2 then ret tt
                                 else errx "passwords don't match"
                             end
                           else ret tt) ;;;
                          ret passbuf
                    end
                end ;;
    log (Call_bcrypt_pbkdf (c_str password) salt keylen (to_unsigned rounds)) ;;;
    match bcrypt_pbkdf (c_str password) salt keylen (to_unsigned rounds) with
    | None => errx "bcrypt pbkdf"
    | Some key => ret key
    end.

(** [encryptseckey(seckey, password)]: the structure afterwards. *)
Definition encryptseckey (seckey : reop_seckey) (password : option bytes)
    : M reop_seckey :=
  let rounds := match password with
                | Some p => if strlen p =? 0 then 0%Z else 42%Z
                | None => 42%Z
                end in
  salt <- randombytes 16 ;;
  let kdfrounds := htonl rounds in
  symkey <- kdf salt rounds password true SYMKEYBYTES ;;
  '(buf, nonce, tag) <- symencryptraw (sec_sigkey seckey ++ sec_enckey seckey) symkey ;;
  ret (mkSeckey (sec_sigalg seckey) (sec_encalg seckey) (sec_symalg seckey)
                (sec_kdfalg seckey) (sec_randomid seckey) kdfrounds salt nonce tag
                (firstn SIGSECRETBYTES buf) (skipn SIGSECRETBYTES buf)
                (sec_ident seckey)).

(** [decryptseckey(seckey, password)]: the return value and the structure
    afterwards. *)
Definition decryptseckey (seckey : reop_seckey) (password : option bytes)
    : M (Z * reop_seckey) :=
  if negb (memcmp_eq 2 (sec_kdfalg seckey) KDFALG) then ret ((-2)%Z, seckey)
  else
    let rounds := to_int (ntohl (sec_kdfrounds seckey)) in
    symkey <- kdf (sec_salt seckey) rounds password false SYMKEYBYTES ;;
    '(rv, buf) <- symdecryptraw (sec_sigkey seckey ++ sec_enckey seckey)
                                (sec_nonce seckey) (sec_tag seckey) symkey ;;
    let seckey' :=
      mkSeckey (sec_sigalg seckey) (sec_encalg seckey) (sec_symalg seckey)
               (sec_kdfalg seckey) (sec_randomid seckey) (sec_kdfrounds seckey)
               (sec_salt seckey) (sec_nonce seckey) (sec_tag seckey)
               (firstn SIGSECRETBYTES buf) (skipn SIGSECRETBYTES buf)
               (sec_ident seckey) in
    if negb (rv =? 0)%Z then ret (rv, seckey')
    else ret (0%Z, seckey').

(** ** Keys, signatures, public-key and symmetric encryption *)

Definition zeros (n : nat) : bytes := repeat NUL n.

(** [reop_generate(ident)] *)
Definition reop_generate (ident : bytes) : M reop_keypair :=
  let ident' := strlcpy ident IDENTLEN in
  '(pub_sig, sec_sig) <- crypto_sign_ed25519_keypair ;;
  '(pub_enc, sec_enc) <- crypto_box_keypair ;;
  randomid <- randombytes RANDOMIDLEN ;;
  let seckey :=
    mkSeckey (memcpy SIGALG 2) (memcpy ENCKEYALG 2) (memcpy SYMALG 2) (memcpy KDFALG 2)
             (memcpy randomid RANDOMIDLEN)
             (zeros 4) (zeros 16) (zeros SYMNONCEBYTES) (zeros SYMTAGBYTES)
             sec_sig sec_enc ident' in
  let pubkey := mkPubkey (memcpy SIGALG 2) (memcpy ENCKEYALG 2)
                         (memcpy randomid RANDOMIDLEN) pub_sig pub_enc ident' in
  ret (mkKeypair pubkey seckey).

(** [reop_sign(seckey, msg, msglen)] *)
Definition reop_sign (seckey : reop_seckey) (msg : bytes) : M reop_sig :=
  sig <- signraw (sec_sigkey seckey) msg ;;
  ret (mkSig (memcpy SIGALG 2) (memcpy (sec_randomid seckey) RANDOMIDLEN) sig
             (strlcpy (sec_ident seckey) IDENTLEN)).

(** [reop_verify(pubkey, msg, msglen, sig)] *)
Definition reop_verify (pubkey : reop_pubkey) (msg : bytes) (sig : reop_sig)
    : M reop_verify_result :=
  if negb (memcmp_eq RANDOMIDLEN (pub_randomid pubkey) (sig_randomid sig))
  then ret REOP_V_MISMATCH
  else
    rv <- verifyraw (pub_sigkey pubkey) msg (sig_sig sig) ;;
    if (rv =? -1)%Z then ret REOP_V_FAIL
    else ret REOP_V_OK.

(** [reop_pubencrypt(pubkey, seckey, msg, msglen)]: the envelope and the
    contents of [msg] afterwards. *)
Definition reop_pubencrypt (pubkey : reop_pubkey) (seckey : reop_seckey)
    (msg : bytes) : M (reop_encmsg * bytes) :=
  '(ephpubkey, ephseckey) <- crypto_box_keypair ;;
  '(msg', nonce, tag) <- pubencryptraw msg (pub_enckey pubkey) ephseckey ;;
  '(ephpubkey', ephnonce, ephtag) <-
     pubencryptraw ephpubkey (pub_enckey pubkey) (sec_enckey seckey) ;;
  ret (mkEncmsg (memcpy ENCALG 2) (memcpy (sec_randomid seckey) RANDOMIDLEN)
                (memcpy (pub_randomid pubkey) RANDOMIDLEN)
                ephpubkey' ephnonce ephtag nonce tag
                (strlcpy (sec_ident seckey) IDENTLEN),
       msg').

(** [reop_pubdecrypt(encmsg, pubkey, seckey, msg, msglen)]: the result and
    the contents of [msg] afterwards. *)
Definition reop_pubdecrypt (encmsg : reop_encmsg) (pubkey : reop_pubkey)
    (seckey : reop_seckey) (msg : bytes) : M (reop_decrypt_result * bytes) :=
  if negb (memcmp_eq RANDOMIDLEN (enc_pubrandomid encmsg) (sec_randomid seckey))
     || negb (memcmp_eq RANDOMIDLEN (enc_secrandomid encmsg) (pub_randomid pubkey))
  then ret (REOP_D_MISMATCH, msg)
  else if negb (memcmp_eq 2 (pub_encalg pubkey) ENCKEYALG)
  then ret (REOP_D_INVALID, msg)
  else if negb (memcmp_eq 2 (sec_encalg seckey) ENCKEYALG)
  then ret (REOP_D_INVALID, msg)
  else
    '(rv, ephpubkey) <- pubdecryptraw (enc_ephpubkey encmsg) (enc_ephnonce encmsg)
                          (enc_ephtag encmsg) (pub_enckey pubkey) (sec_enckey seckey) ;;
    if negb (rv =? 0)%Z then ret (REOP_D_FAIL, msg)
    else
      '(rv, msg') <- pubdecryptraw msg (enc_nonce encmsg) (enc_tag encmsg)
                       ephpubkey (sec_enckey seckey) ;;
      if negb (rv =? 0)%Z then ret (REOP_D_FAIL, msg')
      else ret (REOP_D_OK, msg').

(** [reop_symdecrypt(symmsg, password, msg, msglen)]; the [password]
    argument is not passed on to [kdf], which is given a null password. *)
Definition reop_symdecrypt (symmsg : reop_symmsg) (password : option bytes)
    (msg : bytes) : M (reop_decrypt_result * bytes) :=
  if negb (memcmp_eq 2 (sym_kdfalg symmsg) KDFALG) then ret (REOP_D_INVALID, msg)
  else
    let rounds := to_int (ntohl (sym_kdfrounds symmsg)) in
    symkey <- kdf (sym_salt symmsg) rounds None false SYMKEYBYTES ;;
    '(rv, msg') <- symdecryptraw msg (sym_nonce symmsg) (sym_tag symmsg) symkey ;;
    if negb (rv =? 0)%Z then ret (REOP_D_FAIL, msg')
    else ret (REOP_D_OK, msg').

(** [reop_symencrypt(msg, msglen, password)] *)
Definition reop_symencrypt (msg : bytes) (password : option bytes)
    : M (reop_symmsg * bytes) :=
  let rounds := 42%Z in
  salt <- randombytes 16 ;;
  symkey <- kdf salt rounds password true SYMKEYBYTES ;;
  '(msg', nonce, tag) <- symencryptraw msg symkey ;;
  ret (mkSymmsg (memcpy SYMALG 2) (memcpy KDFALG 2) (htonl rounds) salt nonce tag, msg').

(** The [OLDENCALG] branch of [decrypt], from the two keys that
    [reop_getpubkey] and [reop_getseckey] returned (null is [None]) to the
    decrypted message; the header size has been checked. *)
Definition decrypt_oldencmsg (hdr : oldencmsg) (pubkey : option reop_pubkey)
    (seckey : option reop_seckey) (msg : bytes) : M bytes :=
  match pubkey with
  | None => errx "no pubkey"
  | Some pubkey =>
  match seckey with
  | None => errx "no seckey"
  | Some seckey =>
    (* pub/sec pairs work both ways *)
    (if memcmp_eq RANDOMIDLEN (old_pubrandomid hdr) (pub_randomid pubkey) then
       if negb (memcmp_eq RANDOMIDLEN (old_secrandomid hdr) (sec_randomid seckey))
       then errx "key mismatch" else ret tt
     else if negb (memcmp_eq RANDOMIDLEN (old_pubrandomid hdr) (sec_randomid seckey))
             || negb (memcmp_eq RANDOMIDLEN (old_pubrandomid hdr) (sec_randomid seckey))
     then errx "key mismatch" else ret tt) ;;;
    (if negb (memcmp_eq 2 (pub_encalg pubkey) ENCKEYALG)
     then errx "unsupported key format" else ret tt) ;;;
    (if negb (memcmp_eq 2 (sec_encalg seckey) ENCKEYALG)
     then errx "unsupported key format" else ret tt) ;;;
    '(rv, msg') <- pubdecryptraw msg (old_nonce hdr) (old_tag hdr)
                     (pub_enckey pubkey) (sec_enckey seckey) ;;
    if negb (rv =? 0)%Z then errx "pub decryption failed"
    else ret msg'
  end end.

(** [reop_parseseckey(seckeydata, password)]: [None] is a null result. *)
Definition reop_parseseckey (seckeydata : bytes) (password : option bytes)
    : M (option reop_seckey) :=
  '(img, ident) <- parsekeydata seckeydata (lit "SECRET KEY") seckeysize ;;
  let seckey := seckey_of_image img ident in
  '(rv, seckey) <- decryptseckey seckey password ;;
  if negb (rv =? 0)%Z then ret None
  else ret (Some seckey).

(** [reop_encodeseckey(seckey, password)] *)
Definition reop_encodeseckey (seckey : reop_seckey) (password : option bytes)
    : M bytes :=
  copy <- encryptseckey seckey password ;;
  encodekey (lit "SECRET KEY") (seckey_image copy) (sec_ident seckey).

(** ** Reading files *)

(** What the operating system presents of an open file: the result of
    [fstat] ([None] when it fails), the bytes that successive calls of
    [read] deliver, how many of them each call delivers at most, and
    which call, if any, fails. *)
Record stat : Type := mkStat {
  st_isdir : bool;       (* S_ISDIR(sb.st_mode) *)
  st_isreg : bool;       (* S_ISREG(sb.st_mode) *)
  st_size : Z            (* sb.st_size *)
}.

Record handle : Type := mkHandle {
  h_fstat : option stat;
  h_data : bytes;
  h_chunk : nat -> nat;  (* the read number k delivers at most 1 + h_chunk k bytes *)
  h_error : option nat   (* the number of the read that returns -1 *)
}.

(** A file descriptor: an open file, or a negative number. *)
Inductive fd : Type :=
| Fd (h : handle)
| NoFd (n : Z).

(** The operating system as the file utilities meet it: [open] for
    reading, [dup(STDIN_FILENO)] (a null result is [None]), [getenv("HOME")],
    [stat] of a path ([true]: it succeeds and finds a directory), and the
    contents of a file that [fopen(path, "r")] opens. *)
Record os : Type := mkOs {
  os_open : bytes -> option handle;
  os_dup_stdin : option handle;
  os_HOME : option bytes;
  os_isdir : bytes -> bool;
  os_fopen : bytes -> option bytes
}.

(** [xopen(filename, O_RDONLY | O_NOFOLLOW, 0)] *)
Definition xopen (o : os) (filename : bytes) : fd :=
  match (if bytes_eqb (c_str filename) (lit "-")
         then match os_dup_stdin o with
              | None => inr (-2)%Z
              | Some h => inl h
              end
         else match os_open o filename with
              | None => inr (-1)%Z
              | Some h => inl h
              end) with
  | inr rv => NoFd rv
  | inl h =>
      match h_fstat h with
      | None => NoFd (-3)
      | Some sb => if st_isdir sb then NoFd (-3) else Fd h
      end
  end.

(** The result of [readall]: its return value with what it left in
    [*msgp] (null is [None]) and in [*msglenp]; or a write beyond the
    bytes allocated; or a loop that was cut short. *)
Inductive readall_result : Type :=
| Read_done (rv : Z) (msg : option bytes) (msglen : Z)
| Read_overrun
| Read_unfinished.

Definition maxmsgsize : Z := 2 ^ 30.

(** The loop of [readall], before the read number [k]: [rest] is what
    the file has yet to deliver, [msg] the bytes read, [space] the room
    left and [alloc] the size of the allocation.  A round reads a byte at
    least or ends the loop. *)
Fixpoint readall_loop (fuel : nat) (h : handle) (k : nat) (rest msg : bytes)
    (space alloc : Z) : readall_result :=
  match fuel with
  | 0 => Read_unfinished
  | S fuel' =>
      let msglen := Z.of_nat (length msg) in
      if (space =? 0)%Z && (maxmsgsize <? msglen * 2)%Z then Read_done (-2) None 0
      else
        let alloc := if (space =? 0)%Z then (msglen + msglen + 1)%Z else alloc in
        let space := if (space =? 0)%Z then msglen else space in
        (* x = read(fd, msg + msglen, space) *)
        if (alloc <? msglen + space)%Z then Read_overrun
        else if match h_error h with
                | Some e => e =? k
                | None => false
                end
        then Read_done (-3) None 0
        else
          let x := Nat.min (Z.to_nat space) (Nat.min (S (h_chunk h k)) (length rest)) in
          if x =? 0 then
            (* msg[msglen] = 0 *)
            if (alloc <=? msglen)%Z then Read_overrun
            else Read_done 0 (Some (msg ++ [NUL])) msglen
          else
            readall_loop fuel' h (S k) (skipn x rest) (msg ++ firstn x rest)
                         (space - Z.of_nat x) alloc
  end.

(** [readall(filename, msgp, msglenp)].  On a descriptor that is not
    open, [fstat] and [read] fail. *)
Definition readall (o : os) (filename : bytes) : readall_result :=
  match xopen o filename with
  | NoFd n =>
      if (n =? -1)%Z then Read_done (-1) None 0
      else Read_done (-3) None 0
  | Fd h =>
      match (match h_fstat h with
             | Some sb =>
                 if st_isreg sb then
                   if (maxmsgsize <? st_size sb mod 2 ^ 64)%Z then None
                   else Some (st_size sb + 1)%Z
                 else Some (64 * 1024 - 1)%Z
             | None => Some (64 * 1024 - 1)%Z
             end) with
      | None => Read_done (-2) None 0
      | Some space =>
          readall_loop (S (length (h_data h))) h 0 (h_data h) [] space (space + 1)
      end
  end.

(** What a caller finds in [*msgp] after [readall]. *)
Definition readall_msg (r : readall_result) : option bytes :=
  match r with
  | Read_done _ msg _ => msg
  | _ => None
  end.

(** A regular file of [text] that [filename] opens: [fstat] reports its
    size, and no read fails. *)
Definition regular_file (o : os) (filename text : bytes) : Prop :=
  exists h, xopen o filename = Fd h /\ h_data h = text /\ h_error h = None
            /\ exists sb, h_fstat h = Some sb /\ st_isreg sb = true
                          /\ st_size sb = Z.of_nat (length text).

(** A run that leaves what C defines or does not end: a write beyond a
    buffer, a null pointer read, a loop cut short.  The theorems on
    [readall] show that none of them occurs. *)
Definition stuck {A} (what : string) : M A := errx what.

(** [readallorfail(filename, msgp, msglenp)]: what it leaves in [*msgp]
    and in [*msglenp].  ([err] and [errx] are not told apart, and the
    messages are given without the file name.) *)
Definition readallorfail (o : os) (filename : bytes) : M (bytes * Z) :=
  match readall o filename with
  | Read_done rv msg msglen =>
      if (rv =? 0)%Z then
        match msg with
        | Some m => ret (m, msglen)
        | None => stuck "null pointer"
        end
      else if (rv =? -1)%Z then errx "could not open"
      else if (rv =? -2)%Z then errx "is too large"
      else errx "could not read"
  | Read_overrun => stuck "buffer overrun"
  | Read_unfinished => stuck "loop"
  end.

(** ** Loading keys *)

(** [fgets(line, size, fp)] on the bytes that the stream has yet to
    deliver: the contents of [line] and what the stream has left; [None]
    for a null result, at the end of the file. *)
Definition fgets (size : nat) (stream : bytes) : option (bytes * bytes) :=
  match stream with
  | [] => None
  | _ =>
      let n := match find_chr NL (firstn (size - 1) stream) with
               | Some i => i + 1
               | None => Nat.min (size - 1) (length stream)
               end in
      Some (firstn n stream ++ [NUL], skipn n stream)
  end.

(** [strlcat(dst, src, size)] on a [dst] that holds a string shorter than
    [size]: the string it then holds. *)
Definition strlcat (dst src : bytes) (size : nat) : bytes :=
  firstn (size - 1) (c_str dst ++ c_str src).

(** The inner loop of [findpubkey], after the opener line of a key: the
    identity, the lines of base64 gathered in [buf] and what the stream
    has left after the closing line; [None] where the code jumps to
    [fail]. *)
Fixpoint findpubkey_key (fuel : nat) (stream : bytes) (identline : bool)
    (identbuf buf : bytes) : M (option (bytes * bytes * bytes)) :=
  let endkey := lit "-----END REOP PUBLIC KEY-----" ++ [NL] in
  match fuel with
  | 0 => ret None
  | S fuel' =>
      match fgets 1024 stream with
      | None => ret None
      | Some (line, stream') =>
          if identline then
            '(ident, _) <- readident line ;;
            findpubkey_key fuel' stream' false ident buf
          else if strncmp_eq line endkey then ret (Some (identbuf, buf, stream'))
          else findpubkey_key fuel' stream' false identbuf (strlcat buf line 1024)
      end
  end.

(** The outer loop of [findpubkey] over the lines of the key ring; every
    round takes a line at least, so [fuel] rounds, one per byte of the
    stream, are never exhausted. *)
Fixpoint findpubkey_loop (fuel : nat) (stream ident : bytes) : M (option reop_pubkey) :=
  let beginkey := lit "-----BEGIN REOP PUBLIC KEY-----" ++ [NL] in
  match fuel with
  | 0 => ret None
  | S fuel' =>
      match fgets 1024 stream with
      | None => ret None
      | Some (line, stream') =>
          if match line with
             | c :: _ => Ascii.eqb c NUL || Ascii.eqb c NL
             | [] => true
             end
          then findpubkey_loop fuel' stream' ident
          else if negb (strncmp_eq line beginkey) then ret None
          else
            r <- findpubkey_key (length stream') stream' true [] [] ;;
            match r with
            | None => ret None
            | Some (identbuf, buf, stream'') =>
                if bytes_eqb (c_str ident) (c_str identbuf) then
                  match reopb64_pton buf pubkeysize with
                  | Some img =>
                      if length img =? pubkeysize
                      then ret (Some (pubkey_of_image img (strlcpy identbuf IDENTLEN)))
                      else ret None
                  | None => ret None
                  end
                else findpubkey_loop fuel' stream'' ident
            end
      end
  end.

(** [gethomefile(filename, buf, buflen)]: the name left in [buf] when the
    result is 0, [None] when it is -1. *)
Definition gethomefile (o : os) (filename : bytes) (buflen : nat) : option bytes :=
  match os_HOME o with
  | None => None
  | Some home =>
      let buf := snprintf buflen (c_str home ++ lit "/.reop") in
      if negb (os_isdir o buf) then None
      else Some (snprintf buflen (c_str home ++ lit "/.reop/" ++ c_str filename))
  end.

(** [findpubkey(ident, key)]: the key stored when the result is 0. *)
Definition findpubkey (o : os) (ident : bytes) : M (option reop_pubkey) :=
  match gethomefile o (lit "pubkeyring") 1024 with
  | None => ret None
  | Some keyringname =>
      match os_fopen o keyringname with
      | None => ret None
      | Some stream => findpubkey_loop (length stream) stream ident
      end
  end.

(** [reop_getpubkey(pubkeyfile, ident)]; null arguments and a null result
    are [None]. *)
Definition reop_getpubkey (o : os) (pubkeyfile ident : option bytes)
    : M (option reop_pubkey) :=
  match pubkeyfile, ident with
  | None, Some ident => findpubkey o ident
  | _, _ =>
      match (match pubkeyfile with
             | Some f => Some f
             | None => gethomefile o (lit "pubkey") 1024
             end) with
      | None => ret None
      | Some pubkeyfile =>
          match readall_msg (readall o pubkeyfile) with
          | None => ret None
          | Some keydata =>
              '(img, ident) <- parsekeydata keydata (lit "PUBLIC KEY") pubkeysize ;;
              ret (Some (pubkey_of_image img ident))
          end
      end
  end.

(** [reop_getseckey(seckeyfile, password)] *)
Definition reop_getseckey (o : os) (seckeyfile password : option bytes)
    : M (option reop_seckey) :=
  match (match seckeyfile with
         | Some f => Some f
         | None => gethomefile o (lit "seckey") 1024
         end) with
  | None => ret None
  | Some seckeyfile =>
      match readall_msg (readall o seckeyfile) with
      | None => ret None
      | Some keydata =>
          '(img, ident) <- parsekeydata keydata (lit "SECRET KEY") seckeysize ;;
          '(rv, seckey) <- decryptseckey (seckey_of_image img ident) password ;;
          if negb (rv =? 0)%Z then ret None
          else ret (Some seckey)
      end
  end.

(** The scan of [verifyembedded] for the last signature opener: from an
    occurrence at [sigdata], [strstr(sigdata + 1, beginsig)] is repeated
    while it finds one.  Every round advances by one byte at least, so
    [fuel] rounds, one per byte of the text, are never exhausted. *)
Fixpoint last_sig_loop (fuel : nat) (msg beginsig : bytes) (sigdata : nat) : nat :=
  match fuel with
  | 0 => sigdata
  | S fuel' =>
      match strstr (skipn (sigdata + 1) msg) beginsig with
      | None => sigdata
      | Some k => last_sig_loop fuel' msg beginsig (sigdata + 1 + k)
      end
  end.

(** [verifyembedded(pubkeyfile, sigfile, quiet)].  The result is the span
    of the message whose signature was verified. *)
Definition verifyembedded (o : os) (pubkeyfile : option bytes) (sigfile : bytes)
    : M bytes :=
  let beginmsg := lit "-----BEGIN REOP SIGNED MESSAGE-----" ++ [NL] in
  let beginsig := lit "-----BEGIN REOP SIGNATURE-----" ++ [NL] in
  '(msgdata, _) <- readallorfail o sigfile ;;
  if negb (strncmp_eq msgdata beginmsg) then errx "invalid signature"
  else
    let msg := skipn 36 msgdata in
    match strstr msg beginsig with
    | None => errx "invalid signature"
    | Some sigdata =>
        let sigdata := last_sig_loop (strlen msg) msg beginsig sigdata in
        let msglen := sigdata in
        sig <- reop_parsesig (skipn sigdata msg) ;;
        pubkey <- reop_getpubkey o pubkeyfile (Some (sig_ident sig)) ;;
        match pubkey with
        | None => errx "no pubkey"
        | Some pubkey =>
            rv <- reop_verify pubkey (firstn msglen msg) sig ;;
            match rv with
            | REOP_V_OK => ret (firstn msglen msg)
            | REOP_V_MISMATCH => errx "verification failed: checked against wrong key"
            | REOP_V_FAIL => errx "signature verification failed"
            end
        end
    end.

(** [signfile] with [embedded] set, from the message and the key that
    [reop_getseckey] returned: the contents of the file written. *)
Definition signfile_embedded (seckey : option reop_seckey) (msg : bytes) : M bytes :=
  match seckey with
  | None => errx "no seckey"
  | Some seckey =>
      sig <- reop_sign seckey msg ;;
      writesignedmsg sig (sig_ident sig) msg
  end.

(** A key pair is generated when some call of [reop_generate] returns it. *)
Definition generated (kp : reop_keypair) : Prop :=
  exists ident w w', reop_generate ident w = (Done kp, w').

(** The two halves of one key pair: the same random id of 8 bytes, the
    tag [CS] on both, and keys that the library derived together. *)
Definition key_pair (pk : reop_pubkey) (sk : reop_seckey) : Prop :=
  length (pub_randomid pk) = RANDOMIDLEN
  /\ pub_randomid pk = sec_randomid sk
  /\ pub_encalg pk = ENCKEYALG /\ sec_encalg sk = ENCKEYALG
  /\ (exists seed, pub_sigkey pk = fst (sign_keypair_from seed)
                   /\ sec_sigkey sk = snd (sign_keypair_from seed))
  /\ (exists seed, pub_enckey pk = fst (box_keypair_from seed)
                   /\ sec_enckey sk = snd (box_keypair_from seed)).

End Reop.

(** The text of a key ring: the blocks of its keys, as
    [reop_encodepubkey] writes them, each after any number of empty
    lines. *)
Definition pubkey_block (k : reop_pubkey) : bytes :=
  armored (kind_name PUBLIC_KEY) (pub_ident k) (payload_of (pubkey_image k)).

(** A key as a key ring holds it: members of the declared sizes, an
    identity of one word. *)
Definition ring_key (k : reop_pubkey) : bool :=
  pubkey_wf k && nospace (pub_ident k) && (1 <=? length (pub_ident k)).

Fixpoint keyring_text (ks : list (nat * reop_pubkey)) : bytes :=
  match ks with
  | [] => []
  | (blank, k) :: ks' => repeat NL blank ++ pubkey_block k ++ keyring_text ks'
  end.

(** ** A small instance of the library

    An instance of [Crypto] on which the operations can be run: a box
    reverses its text and tags it with the key, the shared key of a pair is
    the exclusive-or of the two halves, a signature is the public key
    followed by the start of the message. *)
Module Toy.

Definition pad (n : nat) (b : bytes) : bytes := firstn n (b ++ repeat NUL n).

Definition xor_ascii (a b : ascii) : ascii :=
  ascii_of_N (N.lxor (N_of_ascii a) (N_of_ascii b)).

Definition shared (pk sk : bytes) : bytes :=
  map (fun p => xor_ascii (fst p) (snd p)) (combine (pad 32 pk) (pad 32 sk)).

Definition secretbox (m nonce key : bytes) : bytes * bytes := (rev m, pad 16 key).

Definition secretbox_open (c tag nonce key : bytes) : option bytes :=
  if bytes_eqb tag (pad 16 key) then Some (rev c) else None.

Definition box (m nonce pk sk : bytes) : bytes * bytes :=
  secretbox m nonce (shared pk sk).

Definition box_open (c tag nonce pk sk : bytes) : option bytes :=
  secretbox_open c tag nonce (shared pk sk).

Definition sign (m sk : bytes) : bytes := pad 32 sk ++ pad 32 m.

Definition verify (sig m pk : bytes) : bool := bytes_eqb sig (pad 32 pk ++ pad 32 m).

Definition sign_seed_keypair (seed : bytes) : bytes * bytes :=
  (pad 32 seed, pad 32 seed ++ pad 32 seed).

Definition box_seed_keypair (seed : bytes) : bytes * bytes :=
  (pad 32 seed, pad 32 seed).

Definition pbkdf (pass salt : bytes) (keylen : nat) (rounds : Z) : option bytes :=
  if (rounds <? 1)%Z || (length pass =? 0) || (length salt =? 0)
     || (keylen =? 0) || (1024 <? keylen)
  then None
  else Some (pad keylen (pass ++ salt)).

Definition crypto : Crypto :=
  Build_Crypto secretbox secretbox_open box box_open sign verify
               sign_seed_keypair box_seed_keypair pbkdf.

(** A world whose random source counts upwards from the letter A. *)
Definition world0 : world :=
  mkWorld (fun i => ascii_of_nat (65 + i mod 26)) 0 [] None [] (fun _ => "#"%char).

End Toy.

(** ** Concrete runs on the small instance *)
Module Examples.
Import Toy.

Definition value {A} (d : A) (r : outcome A * world) : A :=
  match fst r with
  | Done a => a
  | Errx _ => d
  end.

Definition no_pubkey : reop_pubkey := mkPubkey [] [] [] [] [] [].
Definition no_seckey : reop_seckey := mkSeckey [] [] [] [] [] [] [] [] [] [] [] [].
Definition no_sig : reop_sig := mkSig [] [] [] [].

(** Two key pairs, generated one after the other. *)
Definition alice_run := reop_generate (C := crypto) (lit "alice") world0.
Definition alice : reop_keypair := value (mkKeypair no_pubkey no_seckey) alice_run.
Definition world1 : world := snd alice_run.
Definition bob_run := reop_generate (C := crypto) (lit "bob") world1.
Definition bob : reop_keypair := value (mkKeypair no_pubkey no_seckey) bob_run.
Definition world2 : world := snd bob_run.

Definition hello : bytes := lit "hello" ++ [NL].

(** Alice's signature of [hello], and the same with a foreign [sigalg] and
    another identity. *)
Definition hello_sig : reop_sig :=
  value no_sig (reop_sign (C := crypto) (seckey alice) hello world2).

Definition hello_sig_XX : reop_sig :=
  mkSig (lit "XX") (sig_randomid hello_sig) (sig_sig hello_sig) (lit "mallory").

(** A legacy envelope whose [pubrandomid] is Bob's id and whose
    [secrandomid] is the id of neither key, with Alice's public key. *)
Definition stray_id : bytes := lit "ZZZZZZZZ".

Definition stray_envelope : oldencmsg :=
  mkOldencmsg OLDENCALG stray_id (sec_randomid (seckey bob))
              (repeat "n"%char ENCNONCEBYTES)
              (pad 16 (shared (pub_enckey (pubkey alice)) (sec_enckey (seckey bob)))).

(** Alice's public key under an identity of two words. *)
Definition john : reop_pubkey :=
  mkPubkey (pub_sigalg (pubkey alice)) (pub_encalg (pubkey alice))
           (pub_randomid (pubkey alice)) (pub_sigkey (pubkey alice))
           (pub_enckey (pubkey alice)) (lit "John Doe").

Definition john_again : outcome reop_pubkey :=
  fst ((text <- reop_encodepubkey john ;; reop_parsepubkey text) world2).

(** A key pair generated under an identity of two lines, what its secret
    key is encoded to under the passphrase [pw], and what parsing that
    under the same passphrase gives. *)
Definition two_lines : bytes := lit "a" ++ [NL] ++ lit "b".

Definition carol : reop_keypair :=
  value (mkKeypair no_pubkey no_seckey)
        (reop_generate (C := crypto) two_lines world2).

Definition carol_again : outcome (option reop_seckey) :=
  fst ((text <- reop_encodeseckey (C := crypto) (seckey carol) (Some (lit "pw")) ;;
        reop_parseseckey (C := crypto) text (Some (lit "pw"))) world2).

(** Alice's secret key encoded under the empty passphrase and parsed under
    the passphrase [x]. *)
Definition alice_unlocked : outcome (option reop_seckey) :=
  fst ((text <- reop_encodeseckey (C := crypto) (seckey alice) (Some []) ;;
        reop_parseseckey (C := crypto) text (Some (lit "x"))) world2).

(** The same for a key pair generated under an identity that contains the
    closing marker. *)
Definition end_marked : bytes := lit "x-----END REOP y".

Definition dave : reop_keypair :=
  value (mkKeypair no_pubkey no_seckey)
        (reop_generate (C := crypto) end_marked world2).

Definition dave_again : outcome (option reop_seckey) :=
  fst ((text <- reop_encodeseckey (C := crypto) (seckey dave) (Some (lit "pw")) ;;
        reop_parseseckey (C := crypto) text (Some (lit "pw"))) world2).

(** Alice's public key under the empty identity. *)
Definition anonymous : reop_pubkey :=
  mkPubkey (pub_sigalg (pubkey alice)) (pub_encalg (pubkey alice))
           (pub_randomid (pubkey alice)) (pub_sigkey (pubkey alice))
           (pub_enckey (pubkey alice)) [].

Definition anonymous_again : outcome reop_pubkey :=
  fst ((text <- reop_encodepubkey anonymous ;; reop_parsepubkey text) world2).

(** A message with a signature opener line of its own, and the same
    followed by a NUL byte; a message signed in embedded form and verified
    with the public key of the signer. *)
Definition decoy_body : bytes :=
  lit "abc" ++ [NL] ++ lit "-----BEGIN REOP SIGNATURE-----" ++ [NL] ++ lit "fake" ++ [NL].

Definition binary_body : bytes := decoy_body ++ [NUL].

(** A file system of regular files: a home directory with [.reop] in it;
    there the public and the secret key of Alice, stored without a
    passphrase, and a key ring with the keys of Alice and of Bob, two
    empty lines between them; Bob's keys in [bob.pub] and [bob.sec], the
    secret one stored under the passphrase [pw].  A read delivers seven
    bytes at most. *)
Definition regular (text : bytes) : handle :=
  mkHandle (Some (mkStat false true (Z.of_nat (length text)))) text (fun _ => 6) None.

Fixpoint lookup_file (files : list (bytes * bytes)) (name : bytes) : option bytes :=
  match files with
  | [] => None
  | (n, text) :: files' => if bytes_eqb name n then Some text else lookup_file files' name
  end.

Definition disk_of (files : list (bytes * bytes)) : os :=
  mkOs (fun f => option_map regular (lookup_file files (c_str f)))
       None
       (Some (lit "/home/u"))
       (fun d => bytes_eqb (c_str d) (lit "/home/u/.reop"))
       (fun f => lookup_file files (c_str f)).

Definition alice_pub_text : bytes :=
  value [] (reop_encodepubkey (pubkey alice) world2).

Definition alice_sec_text : bytes :=
  value [] (reop_encodeseckey (C := crypto) (seckey alice) (Some []) world2).

Definition bob_pub_text : bytes :=
  value [] (reop_encodepubkey (pubkey bob) world2).

Definition bob_sec_text : bytes :=
  value [] (reop_encodeseckey (C := crypto) (seckey bob) (Some (lit "pw")) world2).

Definition ring : list (nat * reop_pubkey) := [(0, pubkey alice); (2, pubkey bob)].

Definition key_files : list (bytes * bytes) :=
  [(lit "/home/u/.reop/pubkey", alice_pub_text);
   (lit "/home/u/.reop/seckey", alice_sec_text);
   (lit "/home/u/.reop/pubkeyring", keyring_text ring);
   (lit "bob.pub", bob_pub_text);
   (lit "bob.sec", bob_sec_text)].

Definition disk : os := disk_of key_files.

(** The disk with one more file. *)
Definition disk_with (name text : bytes) : os := disk_of ((name, text) :: key_files).

(** The keys that the loaders return from the disk. *)
Definition alice_pub : reop_pubkey :=
  match fst (reop_getpubkey disk None None world2) with
  | Done (Some k) => k
  | _ => no_pubkey
  end.

Definition alice_sec : reop_seckey :=
  match fst (reop_getseckey (C := crypto) disk None None world2) with
  | Done (Some k) => k
  | _ => no_seckey
  end.

(** A message signed in embedded form with the secret key in
    [~/.reop/seckey], written to [msg.sig] and verified with the key that
    the key ring holds for the identity of the signature. *)
Definition sign_and_verify (body : bytes) : outcome bytes :=
  fst ((sk <- reop_getseckey (C := crypto) disk None None ;;
        file <- signfile_embedded (C := crypto) sk body ;;
        verifyembedded (C := crypto) (disk_with (lit "msg.sig") file) None (lit "msg.sig"))
         world2).

(** A symmetric envelope made under the passphrase of the environment. *)
Definition world_pw : world :=
  mkWorld (rng world2) (rng_pos world2) (trace world2) (Some (lit "pw")) [] (stack world2).

Definition sealed : reop_symmsg * bytes :=
  value (mkSymmsg [] [] [] [] [] [], [])
        (reop_symencrypt (C := crypto) (lit "secret") None world_pw).

(** Bob's keys as the loaders return them, the secret one with the
    passphrase in the environment. *)
Definition bob_pub : reop_pubkey :=
  match fst (reop_getpubkey disk (Some (lit "bob.pub")) None world2) with
  | Done (Some k) => k
  | _ => no_pubkey
  end.

Definition bob_sec : reop_seckey :=
  match fst (reop_getseckey (C := crypto) disk (Some (lit "bob.sec")) None world_pw) with
  | Done (Some k) => k
  | _ => no_seckey
  end.

End Examples.

(** ** The command-line half: signing and verifying files *)

(** What [printf("Signature Verified\n")] prints unless [quiet] is set. *)
Definition verified_message (quiet : bool) : bytes :=
  if quiet then [] else lit "Signature Verified" ++ [NL].

(** What the library promises besides of a public-key box: like a secret
    box it is as long as its text, and its tag has 16 bytes. *)
Class BoxLaws (C : Crypto) : Prop := {
  box_length : forall m nonce pk sk,
    length (fst (crypto_box_detached m nonce pk sk)) = length m;
  box_tag_length : forall m nonce pk sk,
    length (snd (crypto_box_detached m nonce pk sk)) = ENCTAGBYTES
}.

(** ** Encrypted files *)

(** [REOP_BINARY], the four bytes that open a binary envelope: the string
    "RBF" and its NUL. *)
Definition REOP_BINARY : bytes := lit "RBF" ++ [NUL].

Record oldekcmsg : Type := mkOldekcmsg {
  ekc_ekcalg : bytes;      (* uint8_t ekcalg[2] *)
  ekc_pubrandomid : bytes; (* uint8_t pubrandomid[RANDOMIDLEN] *)
  ekc_pubkey : bytes;      (* uint8_t pubkey[ENCPUBLICBYTES] *)
  ekc_nonce : bytes;       (* uint8_t nonce[ENCNONCEBYTES] *)
  ekc_tag : bytes          (* uint8_t tag[ENCTAGBYTES] *)
}.

(** [symmsgsize], [encmsgsize], [sizeof(struct oldencmsg)],
    [sizeof(struct oldekcmsg)], and the size of the header union of
    [decrypt]: that of its largest member, [struct reop_encmsg] with its
    identity (194 bytes), rounded up to the alignment of the [uint32_t]
    in [struct reop_symmsg]. *)
Definition symmsgsize := 64.
Definition encmsgsize := 130.
Definition oldencmsgsize := 58.
Definition oldekcmsgsize := 82.
Definition hdrsize_max := 196.

(** The bytes of each header, and the header that bytes make. *)
Definition symmsg_image (m : reop_symmsg) : bytes :=
  sym_symalg m ++ sym_kdfalg m ++ sym_kdfrounds m ++ sym_salt m
  ++ sym_nonce m ++ sym_tag m.

Definition symmsg_of_image (b : bytes) : reop_symmsg :=
  mkSymmsg (slice 0 2 b) (slice 2 2 b) (slice 4 4 b) (slice 8 16 b)
           (slice 24 24 b) (slice 48 16 b).

Definition encmsg_image (m : reop_encmsg) : bytes :=
  enc_encalg m ++ enc_secrandomid m ++ enc_pubrandomid m ++ enc_ephpubkey m
  ++ enc_ephnonce m ++ enc_ephtag m ++ enc_nonce m ++ enc_tag m.

Definition encmsg_of_image (b : bytes) : reop_encmsg :=
  mkEncmsg (slice 0 2 b) (slice 2 8 b) (slice 10 8 b) (slice 18 32 b)
           (slice 50 24 b) (slice 74 16 b) (slice 90 24 b) (slice 114 16 b)
           (c_str (slice 130 64 b)).

Definition oldencmsg_image (m : oldencmsg) : bytes :=
  old_encalg m ++ old_secrandomid m ++ old_pubrandomid m ++ old_nonce m ++ old_tag m.

Definition oldencmsg_of_image (b : bytes) : oldencmsg :=
  mkOldencmsg (slice 0 2 b) (slice 2 8 b) (slice 10 8 b) (slice 18 24 b)
              (slice 42 16 b).

Definition oldekcmsg_of_image (b : bytes) : oldekcmsg :=
  mkOldekcmsg (slice 0 2 b) (slice 2 8 b) (slice 10 32 b) (slice 42 24 b)
              (slice 66 16 b).

(** [writeencfile(filename, hdr, hdrlen, ident, msg, msglen, binary)]: the
    contents of the file written. *)
Definition writeencfile (hdr ident msg : bytes) (binary : bool) : M bytes :=
  if binary then
    let identlen := htonl (Z.of_nat (strlen ident)) in
    ret (memcpy REOP_BINARY 4 ++ hdr ++ identlen ++ firstn (strlen ident) ident ++ msg)
  else
    let b64len := (length msg + 2) / 3 * 4 + 1 in
    match reopb64_ntop msg b64len with
    | None => errx "b64 encode failed"
    | Some b64data =>
        let header1 := snprintf 1024 (lit "-----BEGIN REOP ENCRYPTED MESSAGE-----" ++ [NL]) in
        let header2 := snprintf 1024 (lit "ident:" ++ c_str ident ++ [NL]) in
        match reopb64_ntop hdr 1024 with
        | None => errx "b64 encode failed"
        | Some b64 =>
            let header3 :=
              snprintf 1024 (lit "-----BEGIN REOP ENCRYPTED MESSAGE DATA-----" ++ [NL]) in
            let header4 := snprintf 1024 (lit "-----END REOP ENCRYPTED MESSAGE-----" ++ [NL]) in
            ret (c_str header1 ++ c_str header2 ++ writeb64data b64
                 ++ c_str header3 ++ writeb64data b64data ++ c_str header4)
        end
    end.

(** The size that [decrypt] expects of a header, by its tag. *)
Definition header_size (hdr : bytes) : option nat :=
  if memcmp_eq 2 hdr SYMALG then Some symmsgsize
  else if memcmp_eq 2 hdr ENCALG then Some encmsgsize
  else if memcmp_eq 2 hdr OLDENCALG then Some oldencmsgsize
  else if memcmp_eq 2 hdr OLDEKCALG then Some oldekcmsgsize
  else None.

(** The layout of a binary envelope. *)
Definition binary_envelope (hdr ident msg : bytes) : bytes :=
  REOP_BINARY ++ hdr ++ htonl (Z.of_nat (length ident)) ++ ident ++ msg.

(** The layout of an armored envelope: the opener, the identity line, the
    header in lines of base64, the opener of the data, the message in
    lines of base64, the closing line. *)
Definition beginencmsg : bytes := lit "-----BEGIN REOP ENCRYPTED MESSAGE-----" ++ [NL].
Definition begindata : bytes := lit "-----BEGIN REOP ENCRYPTED MESSAGE DATA-----" ++ [NL].
Definition endencmsg : bytes := lit "-----END REOP ENCRYPTED MESSAGE-----" ++ [NL].

Definition armored_body (hdr msg : bytes) : bytes :=
  payload_of hdr ++ begindata ++ payload_of msg ++ endencmsg.

Definition armored_envelope (hdr ident msg : bytes) : bytes :=
  beginencmsg ++ lit "ident:" ++ ident ++ NL :: armored_body hdr msg.

(** The header union of [decrypt] once the bytes [b] are stored at its
    start; [hdr0] is what the union held before. *)
Definition hdr_store (hdr0 b : bytes) : bytes := b ++ skipn (length b) hdr0.

(** The first half of [decrypt], for a binary envelope: the header union,
    [hdrsize], the identity and the message that it takes from the
    [encdatalen] bytes of [encdata]. *)
Definition decrypt_binary (hdr0 encdata : bytes) (encdatalen : nat)
    : M (bytes * nat * bytes * bytes) :=
  let ptr := 4 in
  let endptr := encdatalen in
  let copy (hdrsize : nat) : M (bytes * nat) :=
    if endptr <? ptr + hdrsize then errx "invalid encrypted message"
    else ret (hdr_store hdr0 (memcpy (skipn ptr encdata) hdrsize), hdrsize) in
  '(hdr, hdrsize) <-
     (if memcmp_eq 2 (skipn ptr encdata) SYMALG then copy symmsgsize
      else if memcmp_eq 2 (skipn ptr encdata) ENCALG then copy encmsgsize
      else if memcmp_eq 2 (skipn ptr encdata) OLDENCALG then copy oldencmsgsize
      else if memcmp_eq 2 (skipn ptr encdata) OLDEKCALG then copy oldekcmsgsize
      else errx "invalid encrypted message") ;;
  let ptr := ptr + hdrsize in
  if endptr <? ptr + 4 then errx "invalid encrypted message"
  else
    let identlen := Z.to_nat (ntohl (memcpy (skipn ptr encdata) 4)) in
    let ptr := ptr + 4 in
    if IDENTLEN <=? identlen then errx "invalid encrypted message"
    else if endptr <? ptr + identlen then errx "invalid encrypted message"
    else
      let ident := memcpy (skipn ptr encdata) identlen ++ [NUL] in
      let ptr := ptr + identlen in
      ret (hdr, hdrsize, c_str ident, firstn (endptr - ptr) (skipn ptr encdata)).

(** The first half of [decrypt], for an armored envelope. *)
Definition decrypt_armored (hdr0 encdata : bytes) : M (bytes * nat * bytes * bytes) :=
  let beginmsg := lit "-----BEGIN REOP ENCRYPTED MESSAGE-----" ++ [NL] in
  let begindata := lit "-----BEGIN REOP ENCRYPTED MESSAGE DATA-----" ++ [NL] in
  let endmsg := lit "-----END REOP ENCRYPTED MESSAGE-----" ++ [NL] in
  if negb (strncmp_eq encdata beginmsg) then errx "invalid encrypted message"
  else
    '(ident, begin) <- readident (skipn (strlen beginmsg) encdata) ;;
    match strstr begin begindata with
    | None => errx "invalid encrypted message"
    | Some e =>
        let begin := poke begin e NUL in
        match reopb64_pton begin hdrsize_max with
        | None => errx "invalid encrypted message"
        | Some h =>
            let hdrsize := length h in
            let begin := skipn (e + strlen begindata) begin in
            match strstr begin endmsg with
            | None => errx "invalid encrypted message"
            | Some e' =>
                let begin := poke begin e' NUL in
                let msglen := (strlen begin + 3) / 4 * 3 + 1 in
                match reopb64_pton begin msglen with
                | None => errx "invalid encrypted message"
                | Some msg => ret (hdr_store hdr0 h, hdrsize, ident, msg)
                end
            end
        end
    end.

Section Commands.

Context {C : Crypto}.

(** [signfile(seckeyfile, msgfile, sigfile, embedded)], from the message
    that [readallorfail] read and the loading of the secret key
    ([reop_getseckey(seckeyfile, NULL)], a null result is [None]): the
    contents of the file written. *)
Definition signfile (getseckey : M (option reop_seckey)) (msg : bytes)
    (embedded : bool) : M bytes :=
  seckey <- getseckey ;;
  match seckey with
  | None => errx "no seckey"
  | Some seckey =>
      sig <- reop_sign seckey msg ;;
      if embedded then writesignedmsg sig (sig_ident sig) msg
      else
        sigdata <- reop_encodesig sig ;;
        ret (firstn (strlen sigdata) sigdata)
  end.

(** [readsigfile(sigfile)], from what [readall] left in [sigdata] (null is
    [None]). *)
Definition readsigfile (sigdata : option bytes) : M reop_sig :=
  match sigdata with
  | None => errx "could not read"
  | Some sigdata => reop_parsesig sigdata
  end.

(** [verifysimple(pubkeyfile, msgfile, sigfile, quiet)], from the message,
    what [readall] left of the signature file, and the loading of the
    public key for an identity ([reop_getpubkey(pubkeyfile, ident)]): what
    is printed. *)
Definition verifysimple (getpubkey : bytes -> M (option reop_pubkey))
    (msg : bytes) (sigdata : option bytes) (quiet : bool) : M bytes :=
  sig <- readsigfile sigdata ;;
  pubkey <- getpubkey (sig_ident sig) ;;
  match pubkey with
  | None => errx "no pubkey"
  | Some pubkey =>
      rv <- reop_verify pubkey msg sig ;;
      match rv with
      | REOP_V_OK => ret (verified_message quiet)
      | REOP_V_MISMATCH => errx "verification failed: checked against wrong key"
      | REOP_V_FAIL => errx "signature verification failed"
      end
  end.

(** [pubencrypt(pubkeyfile, ident, seckeyfile, msgfile, encfile, binary)],
    from the message read and the loading of the two keys: the contents of
    the file written. *)
Definition pubencrypt (getpubkey : M (option reop_pubkey))
    (getseckey : M (option reop_seckey)) (msg : bytes) (binary : bool) : M bytes :=
  pubkey <- getpubkey ;;
  match pubkey with
  | None => errx "no pubkey"
  | Some pubkey =>
      seckey <- getseckey ;;
      match seckey with
      | None => errx "no seckey"
      | Some seckey =>
          if negb (memcmp_eq 2 (pub_encalg pubkey) ENCKEYALG)
          then errx "unsupported key format"
          else if negb (memcmp_eq 2 (sec_encalg seckey) ENCKEYALG)
          then errx "unsupported key format"
          else
            '(encmsg, msg') <- reop_pubencrypt pubkey seckey msg ;;
            writeencfile (encmsg_image encmsg) (enc_ident encmsg) msg' binary
      end
  end.

(** [v1pubencrypt(...)], the version 1.0 variant. *)
Definition v1pubencrypt (getpubkey : M (option reop_pubkey))
    (getseckey : M (option reop_seckey)) (msg : bytes) (binary : bool) : M bytes :=
  pubkey <- getpubkey ;;
  match pubkey with
  | None => errx "no pubkey"
  | Some pubkey =>
      seckey <- getseckey ;;
      match seckey with
      | None => errx "no seckey"
      | Some seckey =>
          if negb (memcmp_eq 2 (pub_encalg pubkey) ENCKEYALG)
          then errx "unsupported key format"
          else if negb (memcmp_eq 2 (sec_encalg seckey) ENCKEYALG)
          then errx "unsupported key format"
          else
            '(msg', nonce, tag) <-
               pubencryptraw msg (pub_enckey pubkey) (sec_enckey seckey) ;;
            let oldencmsg :=
              mkOldencmsg (memcpy OLDENCALG 2)
                          (memcpy (sec_randomid seckey) RANDOMIDLEN)
                          (memcpy (pub_randomid pubkey) RANDOMIDLEN) nonce tag in
            writeencfile (oldencmsg_image oldencmsg) (sec_ident seckey) msg' binary
      end
  end.

(** [symencrypt(msgfile, encfile, binary)] *)
Definition symencrypt (msg : bytes) (binary : bool) : M bytes :=
  '(symmsg, msg') <- reop_symencrypt msg None ;;
  writeencfile (symmsg_image symmsg) (lit "<symmetric>") msg' binary.

(** The second half of [decrypt]: from the header union, [hdrsize], the
    identity and the message bytes to the decrypted message. *)
Definition decrypt_message (getpubkey : bytes -> M (option reop_pubkey))
    (getseckey : M (option reop_seckey)) (hdr : bytes) (hdrsize : nat)
    (ident msg : bytes) : M bytes :=
  if memcmp_eq 2 hdr SYMALG then
    if negb (hdrsize =? symmsgsize) then errx "invalid encrypted message"
    else
      '(rv, msg') <- reop_symdecrypt (symmsg_of_image hdr) None msg ;;
      match rv with
      | REOP_D_OK => ret msg'
      | REOP_D_FAIL => errx "sym decryption failed"
      | REOP_D_INVALID => errx "unsupported key format"
      | _ => errx "sym decryption failed"
      end
  else if memcmp_eq 2 hdr ENCALG then
    if negb (hdrsize =? encmsgsize) then errx "invalid encrypted message"
    else
      pubkey <- getpubkey ident ;;
      match pubkey with
      | None => errx "no pubkey"
      | Some pubkey =>
          seckey <- getseckey ;;
          match seckey with
          | None => errx "no seckey"
          | Some seckey =>
              '(rv, msg') <- reop_pubdecrypt (encmsg_of_image hdr) pubkey seckey msg ;;
              match rv with
              | REOP_D_OK => ret msg'
              | REOP_D_FAIL => errx "pub decryption failed"
              | REOP_D_MISMATCH => errx "key mismatch"
              | REOP_D_INVALID => errx "unsupported key format"
              end
          end
      end
  else if memcmp_eq 2 hdr OLDENCALG then
    if negb (hdrsize =? oldencmsgsize) then errx "invalid encrypted message"
    else
      pubkey <- getpubkey ident ;;
      match pubkey with
      | None => errx "no pubkey"
      | Some pubkey =>
          seckey <- getseckey ;;
          decrypt_oldencmsg (oldencmsg_of_image hdr) (Some pubkey) seckey msg
      end
  else if memcmp_eq 2 hdr OLDEKCALG then
    if negb (hdrsize =? oldekcmsgsize) then errx "invalid encrypted message"
    else
      seckey <- getseckey ;;
      match seckey with
      | None => errx "no seckey"
      | Some seckey =>
          let h := oldekcmsg_of_image hdr in
          if negb (memcmp_eq RANDOMIDLEN (ekc_pubrandomid h) (sec_randomid seckey))
          then errx "key mismatch"
          else
            '(rv, msg') <- pubdecryptraw msg (ekc_nonce h) (ekc_tag h)
                             (ekc_pubkey h) (sec_enckey seckey) ;;
            if negb (rv =? 0)%Z then errx "pub decryption failed"
            else ret msg'
      end
  else errx "invalid encrypted message".

(** [decrypt(pubkeyfile, seckeyfile, msgfile, encfile)] once [encfile] is
    read, with the loading of the keys as given: from [encdata] and
    [encdatalen] to the contents of the message file written. *)
Definition decrypt_encdata (getpubkey : bytes -> M (option reop_pubkey))
    (getseckey : M (option reop_seckey)) (encdata : bytes) (encdatalen : nat)
    : M bytes :=
  hdr0 <- uninitialised hdrsize_max ;;
  '(hdr, hdrsize, ident, msg) <-
     (if (6 <=? encdatalen) && memcmp_eq 4 encdata REOP_BINARY
      then decrypt_binary hdr0 encdata encdatalen
      else decrypt_armored hdr0 encdata) ;;
  decrypt_message getpubkey getseckey hdr hdrsize ident msg.

(** [decrypt(pubkeyfile, seckeyfile, msgfile, encfile)]: the contents of
    the message file written. *)
Definition decrypt (o : os) (pubkeyfile seckeyfile : option bytes) (encfile : bytes)
    : M bytes :=
  '(encdata, encdatalen) <- readallorfail o encfile ;;
  decrypt_encdata (fun ident => reop_getpubkey o pubkeyfile (Some ident))
                  (reop_getseckey o seckeyfile None)
                  encdata (Z.to_nat encdatalen).

(** What [kdf] does once it holds the passphrase [p]: one call of
    [bcrypt_pbkdf], whose failure ends the process. *)
Definition kdf_with (p salt : bytes) (rounds : Z) (keylen : nat) (w : world)
    : outcome bytes * world :=
  (match bcrypt_pbkdf (c_str p) salt keylen (to_unsigned rounds) with
   | Some key => Done key
   | None => Errx "bcrypt pbkdf"
   end,
   logged w (Call_bcrypt_pbkdf (c_str p) salt keylen (to_unsigned rounds))).


End Commands.

(** ** The command line *)

Inductive verb_t : Type := NONE | AGENT | DECRYPT | ENCRYPT | GENERATE | SIGN | VERIFY.

(** The variables of [main] that the options set. *)
Record main_vars : Type := mkVars {
  m_pubkeyfile : option bytes;
  m_seckeyfile : option bytes;
  m_msgfile : option bytes;
  m_xfile : option bytes;
  m_ident : option bytes;
  m_embedded : bool;
  m_quiet : bool;
  m_v1compat : bool;
  m_password : option bytes;
  m_sockname : option bytes;
  m_binary : bool;
  m_verb : verb_t
}.

(** The command that [main] calls, with the arguments of the call; a null
    pointer is [None]. *)
Inductive command : Type :=
| Run_decrypt (pubkeyfile seckeyfile msgfile xfile : option bytes)
| Run_v1pubencrypt (pubkeyfile ident seckeyfile msgfile xfile : option bytes) (binary : bool)
| Run_pubencrypt (pubkeyfile ident seckeyfile msgfile xfile : option bytes) (binary : bool)
| Run_symencrypt (msgfile xfile : option bytes) (binary : bool)
| Run_generate (pubkeyfile seckeyfile ident password : option bytes)
| Run_signfile (seckeyfile msgfile xfile : option bytes) (embedded : bool)
| Run_verifysimple (pubkeyfile msgfile xfile : option bytes) (quiet : bool)
| Run_verifyembedded (pubkeyfile xfile : option bytes) (quiet : bool).

(** How [main] ends before it calls a command, [usage(error)], [errx] or
    [err], or the command that it calls. *)
Inductive main_end : Type :=
| Usage (error : option string)
| Exit_errx (msg : string)
| Exit_err (msg : string)
| Calls (c : command).

(** One round of the loop over [getopt]: [ch] is what [getopt] returned,
    [optarg] the string at [optarg] (for a letter that takes an argument,
    [getopt] has set it). *)
Definition main_option (ch : ascii) (optarg : bytes) (v : main_vars)
    : main_end + main_vars :=
  let '(mkVars pubkeyfile seckeyfile msgfile xfile ident embedded quiet v1compat
               password sockname binary verb) := v in
  let set_verb (verb' : verb_t) : main_end + main_vars :=
    match verb with
    | NONE => inr (mkVars pubkeyfile seckeyfile msgfile xfile ident embedded quiet
                          v1compat password sockname binary verb')
    | _ => inl (Usage None)
    end in
  match ch with
  | "1"%char => inr (mkVars pubkeyfile seckeyfile msgfile xfile ident embedded quiet
                            true password sockname binary verb)
  | "D"%char => set_verb DECRYPT
  | "E"%char => set_verb ENCRYPT
  | "G"%char => set_verb GENERATE
  | "S"%char => set_verb SIGN
  | "V"%char => set_verb VERIFY
  | "Z"%char => set_verb AGENT
  | "b"%char => inr (mkVars pubkeyfile seckeyfile msgfile xfile ident embedded quiet
                            v1compat password sockname true verb)
  | "e"%char => inr (mkVars pubkeyfile seckeyfile msgfile xfile ident true quiet
                            v1compat password sockname binary verb)
  | "i"%char => inr (mkVars pubkeyfile seckeyfile msgfile xfile (Some optarg) embedded
                            quiet v1compat password sockname binary verb)
  | "m"%char => inr (mkVars pubkeyfile seckeyfile (Some optarg) xfile ident embedded
                            quiet v1compat password sockname binary verb)
  | "n"%char => inr (mkVars pubkeyfile seckeyfile msgfile xfile ident embedded quiet
                            v1compat (Some []) sockname binary verb)
  | "p"%char => inr (mkVars (Some optarg) seckeyfile msgfile xfile ident embedded quiet
                            v1compat password sockname binary verb)
  | "q"%char => inr (mkVars pubkeyfile seckeyfile msgfile xfile ident embedded true
                            v1compat password sockname binary verb)
  | "s"%char => inr (mkVars pubkeyfile (Some optarg) msgfile xfile ident embedded quiet
                            v1compat password sockname binary verb)
  | "x"%char => inr (mkVars pubkeyfile seckeyfile msgfile (Some optarg) ident embedded
                            quiet v1compat password sockname binary verb)
  | "z"%char => inr (mkVars pubkeyfile seckeyfile msgfile xfile ident embedded quiet
                            v1compat password (Some optarg) binary verb)
  | _ => inl (Usage None)
  end.

(** The loop [while ((ch = getopt(...)) != -1)] over what [getopt] returns
    call after call. *)
Fixpoint main_options (opts : list (ascii * bytes)) (v : main_vars)
    : main_end + main_vars :=
  match opts with
  | [] => inr v
  | (ch, optarg) :: opts' =>
      match main_option ch optarg v with
      | inl e => inl e
      | inr v' => main_options opts' v'
      end
  end.

Definition main_vars0 : main_vars :=
  mkVars None None None None None false false false None None false NONE.

(** [main(argc, argv)]: [opts] is what [getopt] returns call after call,
    [operands] is [argc - optind] after the loop, [USER] is
    [getenv("USER")], and [mkdir_fails path] tells whether
    [mkdir(path, 0700) == -1 && errno != EEXIST]. *)
Definition main (o : os) (USER : option bytes) (mkdir_fails : bytes -> bool)
    (opts : list (ascii * bytes)) (operands : nat) : main_end :=
  match main_options opts main_vars0 with
  | inl e => e
  | inr (mkVars pubkeyfile seckeyfile msgfile xfile ident embedded quiet v1compat
                password sockname binary verb) =>
      if negb (operands =? 0) then Usage None
      else
        match (match verb with
               | AGENT =>
                   match sockname with
                   | None => inl (Usage (Some "You must specify an agent socket"%string))
                   | Some _ => inr xfile
                   end
               | ENCRYPT | DECRYPT =>
                   match msgfile with
                   | None => inl (Usage (Some "You must specify a message-file"%string))
                   | Some msg =>
                       match xfile with
                       | Some _ => inr xfile
                       | None =>
                           if bytes_eqb (c_str msg) (lit "-")
                           then inl (Usage (Some "must specify encfile with - message"%string))
                           else if 1024 <=? strlen msg + 4
                           then inl (Exit_errx "path too long")
                           else inr (Some (snprintf 1024 (c_str msg ++ lit ".enc")))
                       end
                   end
               | SIGN | VERIFY =>
                   match xfile, msgfile with
                   | None, Some msg =>
                       if bytes_eqb (c_str msg) (lit "-")
                       then inl (Usage (Some "must specify sigfile with - message"%string))
                       else if 1024 <=? strlen msg + 4
                       then inl (Exit_errx "path too long")
                       else inr (Some (snprintf 1024 (c_str msg ++ lit ".sig")))
                   | _, _ => inr xfile
                   end
               | _ => inr xfile
               end) with
        | inl e => e
        | inr xfile =>
            match verb with
            | DECRYPT => Calls (Run_decrypt pubkeyfile seckeyfile msgfile xfile)
            | ENCRYPT =>
                match seckeyfile, pubkeyfile, ident with
                | Some _, None, None => Usage (Some "specify a pubkey or ident"%string)
                | _, None, None => Calls (Run_symencrypt msgfile xfile binary)
                | _, _, _ =>
                    if v1compat
                    then Calls (Run_v1pubencrypt pubkeyfile ident seckeyfile msgfile xfile
                                                 binary)
                    else Calls (Run_pubencrypt pubkeyfile ident seckeyfile msgfile xfile
                                               binary)
                end
            | GENERATE =>
                let ident := match ident with
                             | Some i => i
                             | None => match USER with
                                       | Some u => u
                                       | None => lit "unknown"
                                       end
                             end in
                match pubkeyfile, seckeyfile with
                | None, Some _ | Some _, None =>
                    Usage (Some "must specify pubkey and seckey"%string)
                | None, None =>
                    match os_HOME o with
                    | None => Exit_errx "can't find HOME"
                    | Some home =>
                        if mkdir_fails (snprintf 1024 (c_str home ++ lit "/.reop"))
                        then Exit_err "Unable to create ~/.reop"
                        else Calls (Run_generate pubkeyfile seckeyfile (Some ident) password)
                    end
                | Some _, Some _ =>
                    Calls (Run_generate pubkeyfile seckeyfile (Some ident) password)
                end
            | SIGN =>
                match msgfile with
                | None => Usage (Some "must specify message"%string)
                | Some _ => Calls (Run_signfile seckeyfile msgfile xfile embedded)
                end
            | VERIFY =>
                match msgfile, xfile with
                | None, None => Usage (Some "must specify message or sigfile"%string)
                | Some _, _ => Calls (Run_verifysimple pubkeyfile msgfile xfile quiet)
                | None, _ => Calls (Run_verifyembedded pubkeyfile xfile quiet)
                end
            | _ => Usage None
            end
        end
  end.

(** The verb that a letter asks for, the verbs that the options ask for,
    in their order, and the verb of a command. *)
Definition verb_of_letter (ch : ascii) : option verb_t :=
  match ch with
  | "D"%char => Some DECRYPT
  | "E"%char => Some ENCRYPT
  | "G"%char => Some GENERATE
  | "S"%char => Some SIGN
  | "V"%char => Some VERIFY
  | "Z"%char => Some AGENT
  | _ => None
  end.

Fixpoint verbs_given (opts : list (ascii * bytes)) : list verb_t :=
  match opts with
  | [] => []
  | (ch, _) :: opts' =>
      match verb_of_letter ch with
      | Some v => v :: verbs_given opts'
      | None => verbs_given opts'
      end
  end.

Definition command_verb (c : command) : verb_t :=
  match c with
  | Run_decrypt _ _ _ _ => DECRYPT
  | Run_v1pubencrypt _ _ _ _ _ _ | Run_pubencrypt _ _ _ _ _ _ | Run_symencrypt _ _ _ => ENCRYPT
  | Run_generate _ _ _ _ => GENERATE
  | Run_signfile _ _ _ _ => SIGN
  | Run_verifysimple _ _ _ _ | Run_verifyembedded _ _ _ => VERIFY
  end.

(** The letters that [main] has a case for. *)
Definition option_letters : bytes := lit "1DEGSVZbeimnpqsxz".

(** The argument of the last occurrence of the letter [ch], if any. *)
Fixpoint last_arg (ch : ascii) (opts : list (ascii * bytes)) : option bytes :=
  match opts with
  | [] => None
  | (c, a) :: opts' =>
      match last_arg ch opts' with
      | Some a' => Some a'
      | None => if Ascii.eqb c ch then Some a else None
      end
  end.

Definition given (ch : ascii) (opts : list (ascii * bytes)) : bool :=
  existsb (fun o => Ascii.eqb (fst o) ch) opts.

Definition or_else (A : Type) (x : option A) (d : option A) : option A :=
  match x with
  | Some a => Some a
  | None => d
  end.

(** The file that goes with the message file: the argument of the last
    [-x], or else the name of the message file with a suffix. *)
Definition xfile_for (opts : list (ascii * bytes)) (suffix : bytes) : option bytes :=
  or_else (last_arg "x" opts)
          (option_map (fun msg => c_str msg ++ suffix) (last_arg "m" opts)).

(** ** Concrete runs of the commands on the small instance *)
Module FileExamples.
Import Toy Examples.

(** The detached signature file that the key in [~/.reop/seckey] makes of
    [binary_body]. *)
Definition binary_body_sigfile : bytes :=
  value [] (signfile (C := crypto) (reop_getseckey (C := crypto) disk None None)
                     binary_body false world2).

(** A binary envelope written by hand: a [CS] header of 58 bytes, the
    identity [bob], four bytes of message. *)
Definition handmade_header : bytes := lit "CS" ++ repeat "x"%char 56.

Definition handmade_envelope : bytes :=
  REOP_BINARY ++ handmade_header ++ htonl 3 ++ lit "bob" ++ lit "data".


(** Base64 text of two full lines in a buffer of 160 bytes. *)
Definition two_full_lines : bytes := repeat "A"%char 152.
Definition two_full_lines_junk : bytes := lit "garbage".

(** A world with no passphrase in the environment and the given entries
    at the terminal. *)
Definition world_tty (entries : list (option bytes)) : world :=
  mkWorld (rng world2) (rng_pos world2) (trace world2) None entries (stack world2).



(** What [getopt] returns for [reop -E -m msg -p bob.pub], and the call
    that [main] then makes. *)
Definition encrypt_to_bob : list (ascii * bytes) :=
  [("E"%char, []); ("m"%char, lit "msg"); ("p"%char, lit "bob.pub")].

Definition encrypt_to_bob_call : command :=
  Run_pubencrypt (Some (lit "bob.pub")) None None (Some (lit "msg"))
                 (Some (lit "msg.enc")) false.

End FileExamples.
Lemma bytes_eqb_eq (a b : bytes) : bytes_eqb a b = true <-> a = b.
Proof.
  unfold bytes_eqb. destruct (list_eq_dec ascii_dec a b); split; congruence.
Qed.

Lemma bytes_eqb_refl (a : bytes) : bytes_eqb a a = true.
Proof. apply bytes_eqb_eq. reflexivity. Qed.

Lemma bytes_eqb_neq (a b : bytes) : bytes_eqb a b = false <-> a <> b.
Proof.
  unfold bytes_eqb. destruct (list_eq_dec ascii_dec a b); split; congruence.
Qed.


Ltac Zify.zify_post_hook ::= Z.div_mod_to_equations.

(** * Properties *)

(** ** The small instance keeps the library's promises *)

Module ToyFacts.
Import Toy.

Lemma pad_length n b : length (pad n b) = n.
Proof.
  unfold pad. rewrite length_firstn, length_app, repeat_length. lia.
Qed.

Lemma pad_id n b : length b = n -> pad n b = b.
Proof.
  intros H. unfold pad. rewrite firstn_app, H, Nat.sub_diag. simpl.
  rewrite app_nil_r. apply firstn_all2. lia.
Qed.

Lemma pad_app_exact n a b : length a = n -> pad n (a ++ b) = a.
Proof.
  intros H. unfold pad. rewrite <- app_assoc, firstn_app, H, Nat.sub_diag.
  rewrite firstn_O, app_nil_r. apply firstn_all2. lia.
Qed.

Lemma xor_ascii_comm a b : xor_ascii a b = xor_ascii b a.
Proof. unfold xor_ascii. now rewrite N.lxor_comm. Qed.

Lemma shared_comm a b : shared a b = shared b a.
Proof.
  unfold shared. generalize (pad 32 a) (pad 32 b). intros x.
  induction x as [|c x IH]; intros [|d y]; simpl; try reflexivity.
  now rewrite xor_ascii_comm, IH.
Qed.

Lemma laws : CryptoLaws crypto.
Proof.
  constructor; simpl.
  - intros m nonce key. unfold secretbox_open, secretbox. simpl.
    now rewrite bytes_eqb_refl, rev_involutive.
  - intros seedA seedB m nonce. unfold box_open, box, secretbox_open, secretbox.
    simpl. rewrite (shared_comm (pad 32 seedA)), bytes_eqb_refl.
    now rewrite rev_involutive.
  - intros seed m. unfold verify, sign. simpl.
    rewrite (@pad_id 32 (pad 32 seed)) by apply pad_length.
    rewrite pad_app_exact by apply pad_length.
    apply bytes_eqb_refl.
  - intros pass salt keylen rounds Hp Hs Hk Hr. unfold pbkdf.
    destruct pass; [congruence|]. destruct salt; [congruence|]. simpl.
    replace (rounds <? 1)%Z with false by (symmetry; apply Z.ltb_ge; lia).
    replace (keylen =? 0) with false by (symmetry; apply Nat.eqb_neq; lia).
    replace (1024 <? keylen) with false by (symmetry; apply Nat.ltb_ge; lia).
    simpl. discriminate.
  - intros. unfold secretbox. simpl. apply length_rev.
  - intros. unfold secretbox. simpl. apply pad_length.
  - intros. unfold sign. rewrite length_app, !pad_length. reflexivity.
  - intros. unfold sign_seed_keypair. simpl. rewrite length_app, !pad_length. auto.
  - intros. unfold box_seed_keypair. simpl. rewrite !pad_length. auto.
Qed.

End ToyFacts.

(** ** Byte comparison *)

Lemma memcmp_eq_true n a b : memcmp_eq n a b = true <-> firstn n a = firstn n b.
Proof. unfold memcmp_eq. apply bytes_eqb_eq. Qed.

Lemma memcmp_eq_false n a b : memcmp_eq n a b = false <-> firstn n a <> firstn n b.
Proof. unfold memcmp_eq. apply bytes_eqb_neq. Qed.

Lemma memcmp_eq_refl n a : memcmp_eq n a a = true.
Proof. apply memcmp_eq_true. reflexivity. Qed.

Lemma memcmp_eq_memcpy_l n a : memcmp_eq n (memcpy a n) a = true.
Proof.
  apply memcmp_eq_true. unfold memcpy. rewrite firstn_firstn, Nat.min_id. reflexivity.
Qed.

Lemma memcpy_randombytes (f : nat -> ascii) p n : memcpy (map f (seq p n)) n = map f (seq p n).
Proof. unfold memcpy. apply firstn_all2. rewrite length_map, length_seq. lia. Qed.

(** ** C strings *)

Lemma nonul_c_str s : nonul (c_str s) = true.
Proof.
  induction s as [|c s IH]; simpl; [reflexivity|].
  destruct (Ascii.eqb c NUL) eqn:E; simpl; [reflexivity|].
  now rewrite E, IH.
Qed.

Lemma c_str_id s : nonul s = true -> c_str s = s.
Proof.
  induction s as [|c s IH]; simpl; [reflexivity|].
  intros H. apply andb_true_iff in H. destruct H as [H1 H2].
  apply negb_true_iff in H1. rewrite H1. now rewrite IH.
Qed.

Lemma nonul_app a b : nonul (a ++ b) = nonul a && nonul b.
Proof. apply forallb_app. Qed.

Lemma nonul_firstn n s : nonul s = true -> nonul (firstn n s) = true.
Proof.
  revert n. induction s as [|c s IH]; intros [|n]; simpl; auto.
  intros H. apply andb_true_iff in H. destruct H as [H1 H2].
  now rewrite H1, IH.
Qed.

Lemma nonul_skipn n s : nonul s = true -> nonul (skipn n s) = true.
Proof.
  revert n. induction s as [|c s IH]; intros [|n]; simpl; auto.
  intros H. apply andb_true_iff in H. destruct H as [H1 H2]. auto.
Qed.

Lemma nonul_strlcpy s n : nonul (strlcpy s n) = true.
Proof. unfold strlcpy. apply nonul_firstn, nonul_c_str. Qed.

Lemma strlcpy_length s n : length (strlcpy s n) <= n - 1.
Proof. unfold strlcpy. rewrite length_firstn. lia. Qed.

Lemma strlcpy_id s n : nonul s = true -> length s <= n - 1 -> strlcpy s n = s.
Proof.
  intros H1 H2. unfold strlcpy. rewrite c_str_id by assumption.
  now apply firstn_all2.
Qed.

Lemma strlcpy_idem s n : strlcpy (strlcpy s n) n = strlcpy s n.
Proof. apply strlcpy_id; [apply nonul_strlcpy | apply strlcpy_length]. Qed.

(** Steps of the effect monad. *)
Ltac mrun :=
  unfold bind, ret, log, logged, errx, randombytes, draw, getenv_REOP_PASSPHRASE;
  cbn [fst snd rng rng_pos trace env_REOP_PASSPHRASE tty stack].

Section SignAndBox.

Context {C : Crypto}.

(** What [reop_generate] returns: the two halves share the random id, carry
    the fixed tags, and hold the two pairs the library derived. *)
Lemma generated_inv kp :
  generated kp ->
  exists seedS seedE rid ident,
    kp = mkKeypair
           (mkPubkey SIGALG ENCKEYALG rid (fst (sign_keypair_from seedS))
                     (fst (box_keypair_from seedE)) ident)
           (mkSeckey SIGALG ENCKEYALG SYMALG KDFALG rid
                     (zeros 4) (zeros 16) (zeros SYMNONCEBYTES) (zeros SYMTAGBYTES)
                     (snd (sign_keypair_from seedS))
                     (snd (box_keypair_from seedE)) ident)
    /\ length rid = RANDOMIDLEN
    /\ nonul ident = true /\ length ident <= IDENTLEN - 1.
Proof.
  intros (ident & w & w' & H).
  unfold reop_generate, crypto_sign_ed25519_keypair, crypto_box_keypair in H.
  revert H. mrun. rewrite memcpy_randombytes. intros H. inversion H; subst; clear H.
  do 4 eexists. split; [reflexivity|]. split; [|split].
  - reflexivity.
  - apply nonul_strlcpy.
  - apply strlcpy_length.
Qed.

(** C3.  For every key pair that the generator produced and every message,
    the signature that [reop_sign] makes with the secret half is accepted
    by [reop_verify] under the public half: the result is [REOP_V_OK]. *)
Theorem sign_verify_roundtrip (L : CryptoLaws C) kp msg w :
  generated kp ->
  exists sig w1,
    reop_sign (seckey kp) msg w = (Done sig, w1)
    /\ forall w2, fst (reop_verify (pubkey kp) msg sig w2) = Done REOP_V_OK.
Proof.
  intros G. destruct (generated_inv G) as (seedS & seedE & rid & ident & -> & Hrid & _).
  unfold reop_sign, signraw. mrun. do 2 eexists. split; [reflexivity|].
  intros w2. unfold reop_verify, verifyraw. cbn [pubkey pub_randomid sig_randomid
    pub_sigkey sig_sig seckey sec_sigkey sec_randomid].
  rewrite (proj2 (memcmp_eq_true _ _ _)).
  2:{ unfold memcpy. now rewrite firstn_firstn, Nat.min_id. }
  mrun. rewrite sign_verify. reflexivity.
Qed.

(** C2.  For two generated key pairs, sender [S] and recipient [R], and
    every message [m]: [reop_pubencrypt] with [R]'s public and [S]'s secret
    key makes an [eC] envelope, and [reop_pubdecrypt] of that envelope with
    [S]'s public and [R]'s secret key returns [REOP_D_OK] and leaves
    exactly [m] in the buffer. *)
Theorem pubencrypt_pubdecrypt_roundtrip (L : CryptoLaws C) S R m w :
  generated S -> generated R ->
  exists encmsg c w1,
    reop_pubencrypt (pubkey R) (seckey S) m w = (Done (encmsg, c), w1)
    /\ enc_encalg encmsg = ENCALG
    /\ forall w2,
         fst (reop_pubdecrypt encmsg (pubkey S) (seckey R) c w2) = Done (REOP_D_OK, m).
Proof.
  intros GS GR.
  destruct (generated_inv GS) as (sS & eS & ridS & idS & -> & HS & _).
  destruct (generated_inv GR) as (sR & eR & ridR & idR & -> & HR & _).
  unfold reop_pubencrypt, crypto_box_keypair, pubencryptraw. mrun.
  do 3 eexists. split; [reflexivity|]. split; [reflexivity|].
  intros w2. unfold reop_pubdecrypt, pubdecryptraw.
  cbn [pubkey seckey pub_randomid sec_randomid pub_encalg sec_encalg pub_enckey
       sec_enckey enc_pubrandomid enc_secrandomid enc_ephpubkey enc_ephnonce
       enc_ephtag enc_nonce enc_tag].
  rewrite !memcmp_eq_memcpy_l, !memcmp_eq_refl. cbn [negb orb].
  mrun. rewrite box_open_seal. cbn [Z.eqb negb]. rewrite box_open_seal.
  reflexivity.
Qed.

(** C4.  [reop_verify] returns [REOP_V_MISMATCH], and makes no call to the
    library, when the random id of the public key differs from that of the
    signature.  When they are equal it calls the verification primitive
    once, on the signature bytes, the message and the public signing key,
    and returns [REOP_V_FAIL] if the primitive fails and [REOP_V_OK]
    otherwise. *)
Theorem verify_detached_cases pub msg sig w :
  (firstn RANDOMIDLEN (pub_randomid pub) <> firstn RANDOMIDLEN (sig_randomid sig) ->
   reop_verify pub msg sig w = (Done REOP_V_MISMATCH, w))
  /\ (firstn RANDOMIDLEN (pub_randomid pub) = firstn RANDOMIDLEN (sig_randomid sig) ->
      reop_verify pub msg sig w =
      (Done (if crypto_sign_verify_detached (sig_sig sig) msg (pub_sigkey pub)
             then REOP_V_OK else REOP_V_FAIL),
       logged w (Call_sign_verify_detached (sig_sig sig) msg (pub_sigkey pub)))).
Proof.
  unfold reop_verify, verifyraw. split; intros H.
  - apply memcmp_eq_false in H. rewrite H. reflexivity.
  - apply memcmp_eq_true in H. rewrite H. mrun.
    destruct (crypto_sign_verify_detached _ _ _); reflexivity.
Qed.

(** C10.  The outcome of [reop_verify] is a function of the random id and
    signing key of the public key, the random id and signature bytes of
    the signature, and the message: two runs that agree on these (and
    differ in the identities, in the [sigalg] tags, or in the encryption
    tag and key of the public key) end alike.  The identity carried by a
    signature is thus not authenticated. *)
Theorem verify_depends_only_on_ids_and_keys pub pub' sig sig' msg w :
  pub_randomid pub = pub_randomid pub' ->
  pub_sigkey pub = pub_sigkey pub' ->
  sig_randomid sig = sig_randomid sig' ->
  sig_sig sig = sig_sig sig' ->
  reop_verify pub msg sig w = reop_verify pub' msg sig' w.
Proof.
  intros H1 H2 H3 H4. unfold reop_verify. now rewrite H1, H2, H3, H4.
Qed.


(** C6, what the code does.  In the [CS] branch of [decrypt], when the
    envelope's [pubrandomid] is the id of the secret key and not that of
    the public key, [secrandomid] is compared with nothing: whatever it
    is, the branch goes on to open the box. *)
Theorem legacy_CS_swapped_pair_skips_secrandomid hdr pub sec msg w :
  firstn RANDOMIDLEN (old_pubrandomid hdr) <> firstn RANDOMIDLEN (pub_randomid pub) ->
  firstn RANDOMIDLEN (old_pubrandomid hdr) = firstn RANDOMIDLEN (sec_randomid sec) ->
  firstn 2 (pub_encalg pub) = ENCKEYALG ->
  firstn 2 (sec_encalg sec) = ENCKEYALG ->
  decrypt_oldencmsg hdr (Some pub) (Some sec) msg w =
  (match crypto_box_open_detached msg (old_tag hdr) (old_nonce hdr)
           (pub_enckey pub) (sec_enckey sec) with
   | Some m => Done m
   | None => Errx "pub decryption failed"
   end,
   logged w (Call_box_open_detached msg (old_tag hdr) (old_nonce hdr)
                                    (pub_enckey pub) (sec_enckey sec))).
Proof.
  intros H1 H2 H3 H4. unfold decrypt_oldencmsg, pubdecryptraw.
  apply memcmp_eq_false in H1. apply memcmp_eq_true in H2.
  rewrite H1, H2. cbn [negb orb].
  rewrite (proj2 (memcmp_eq_true 2 (pub_encalg pub) ENCKEYALG)) by exact H3.
  rewrite (proj2 (memcmp_eq_true 2 (sec_encalg sec) ENCKEYALG)) by exact H4.
  mrun. destruct (crypto_box_open_detached _ _ _ _ _); reflexivity.
Qed.

End SignAndBox.

(** ** Base64 *)

Lemma below_64 (P : nat -> bool) :
  forallb P (seq 0 64) = true -> forall n, n < 64 -> P n = true.
Proof.
  intros H n Hn. rewrite forallb_forall in H. apply H. apply in_seq. lia.
Qed.

Lemma b64_val_char n : n < 64 -> b64_val (b64_char n) = Some n.
Proof.
  intros Hn.
  pose proof (below_64 (fun n => match b64_val (b64_char n) with
                                  | Some m => m =? n
                                  | None => false
                                  end)
                       ltac:(vm_compute; reflexivity) Hn) as H.
  cbv beta in H. destruct (b64_val (b64_char n)); [|discriminate].
  apply Nat.eqb_eq in H. congruence.
Qed.

Lemma b64_char_not_pad n : n < 64 -> Ascii.eqb (b64_char n) Pad64 = false.
Proof.
  intros Hn.
  pose proof (below_64 (fun n => negb (Ascii.eqb (b64_char n) Pad64))
                       ltac:(vm_compute; reflexivity) Hn) as H.
  cbv beta in H. now apply negb_true_iff in H.
Qed.

(** Induction on a list three elements at a time. *)
Lemma list_ind3 (A : Type) (P : list A -> Prop) :
  P [] -> (forall a, P [a]) -> (forall a b, P [a; b]) ->
  (forall a b c l, P l -> P (a :: b :: c :: l)) ->
  forall l, P l.
Proof.
  intros H0 H1 H2 H3.
  refine (fix F (l : list A) : P l :=
            match l with
            | [] => H0
            | [a] => H1 a
            | [a; b] => H2 a b
            | a :: b :: c :: l' => H3 a b c l' (F l')
            end).
Qed.

Lemma byte_of_nat_of_ascii a : byte_of (nat_of_ascii a) = a.
Proof. apply ascii_nat_embedding. Qed.

(** Decoding undoes encoding. *)
Lemma b64_decode_encode src : b64_decode (b64_encode src) = Some src.
Proof.
  induction src as [|a|a b|a b c l IH] using list_ind3.
  - reflexivity.
  - cbn [b64_encode b64_decode].
    pose proof (nat_ascii_bounded a) as Ha.
    rewrite !b64_val_char by lia. rewrite Ascii.eqb_refl.
    cbn [length Nat.eqb andb].
    replace (nat_of_ascii a mod 4 * 16 mod 16 =? 0) with true
      by (symmetry; apply Nat.eqb_eq; lia).
    replace (nat_of_ascii a / 4 * 4 + nat_of_ascii a mod 4 * 16 / 16)
      with (nat_of_ascii a) by lia.
    now rewrite byte_of_nat_of_ascii.
  - cbn [b64_encode b64_decode].
    pose proof (nat_ascii_bounded a) as Ha. pose proof (nat_ascii_bounded b) as Hb.
    rewrite !b64_val_char by lia. rewrite b64_char_not_pad by lia.
    rewrite Ascii.eqb_refl. cbn [length Nat.eqb andb].
    replace (nat_of_ascii b mod 16 * 4 mod 4 =? 0) with true
      by (symmetry; apply Nat.eqb_eq; lia).
    replace (nat_of_ascii a / 4 * 4 + (nat_of_ascii a mod 4 * 16 + nat_of_ascii b / 16) / 16)
      with (nat_of_ascii a) by lia.
    replace ((nat_of_ascii a mod 4 * 16 + nat_of_ascii b / 16) mod 16 * 16
             + nat_of_ascii b mod 16 * 4 / 4)
      with (nat_of_ascii b) by lia.
    now rewrite !byte_of_nat_of_ascii.
  - cbn [b64_encode b64_decode].
    pose proof (nat_ascii_bounded a) as Ha. pose proof (nat_ascii_bounded b) as Hb.
    pose proof (nat_ascii_bounded c) as Hc.
    rewrite !b64_val_char by lia. rewrite !b64_char_not_pad by lia.
    rewrite IH. cbn [option_map].
    replace (nat_of_ascii a / 4 * 4 + (nat_of_ascii a mod 4 * 16 + nat_of_ascii b / 16) / 16)
      with (nat_of_ascii a) by lia.
    replace ((nat_of_ascii a mod 4 * 16 + nat_of_ascii b / 16) mod 16 * 16
             + (nat_of_ascii b mod 16 * 4 + nat_of_ascii c / 64) / 4)
      with (nat_of_ascii b) by lia.
    replace ((nat_of_ascii b mod 16 * 4 + nat_of_ascii c / 64) mod 4 * 64
             + nat_of_ascii c mod 64)
      with (nat_of_ascii c) by lia.
    now rewrite !byte_of_nat_of_ascii.
Qed.

Lemma b64_encode_length src : length (b64_encode src) = 4 * ((length src + 2) / 3).
Proof.
  induction src as [|a|a b|a b c l IH] using list_ind3; try reflexivity.
  cbn [b64_encode length]. rewrite IH.
  replace (S (S (S (length l))) + 2) with (1 * 3 + (length l + 2)) by lia.
  rewrite Nat.div_add_l by lia. lia.
Qed.

Lemma b64_alphabet_char n : n < 64 -> b64_alphabet (b64_char n) = true.
Proof. intros H. unfold b64_alphabet. now rewrite b64_val_char. Qed.

Lemma b64_encode_alphabet src : forallb b64_alphabet (b64_encode src) = true.
Proof.
  induction src as [|a|a b|a b c l IH] using list_ind3.
  - reflexivity.
  - pose proof (nat_ascii_bounded a). cbn [b64_encode forallb].
    rewrite !b64_alphabet_char by lia. reflexivity.
  - pose proof (nat_ascii_bounded a). pose proof (nat_ascii_bounded b).
    cbn [b64_encode forallb]. rewrite !b64_alphabet_char by lia. reflexivity.
  - pose proof (nat_ascii_bounded a). pose proof (nat_ascii_bounded b).
    pose proof (nat_ascii_bounded c).
    cbn [b64_encode forallb]. rewrite !b64_alphabet_char by lia. now rewrite IH.
Qed.

Lemma index_of_In c l n : index_of c l = Some n -> In c l.
Proof.
  revert n. induction l as [|d l IH]; simpl; [discriminate|].
  intros n. destruct (Ascii.eqb d c) eqn:E.
  - apply Ascii.eqb_eq in E. auto.
  - destruct (index_of c l); [|discriminate]. intros _. right. eapply IH. reflexivity.
Qed.

Lemma b64_alphabet_plain c :
  b64_alphabet c = true ->
  isspace c = false /\ Ascii.eqb c NUL = false /\ Ascii.eqb c DASH = false.
Proof.
  unfold b64_alphabet, b64_val. intros H.
  assert (Hin : In c (Pad64 :: Base64)).
  { destruct (index_of c Base64) eqn:E.
    - right. eapply index_of_In. exact E.
    - left. apply Ascii.eqb_eq in H. congruence. }
  clear H. vm_compute in Hin.
  repeat (destruct Hin as [Hin|Hin]; [subst c; vm_compute; auto|]).
  destruct Hin.
Qed.

(** ** Line wrapping *)

Lemma firstn_add (A : Type) (a b : nat) (l : list A) :
  firstn (a + b) l = firstn a l ++ firstn b (skipn a l).
Proof.
  revert l. induction a as [|a IH]; intros l; [reflexivity|].
  destruct l as [|x l]; simpl.
  - now rewrite firstn_nil.
  - now rewrite IH.
Qed.

Lemma skipn_app_exact (A : Type) (a b : list A) n :
  length a = n -> skipn n (a ++ b) = b.
Proof.
  intros <-. rewrite skipn_app, Nat.sub_diag, skipn_all. reflexivity.
Qed.

Lemma firstn_app_exact (A : Type) (a b : list A) n :
  length a = n -> firstn n (a ++ b) = a.
Proof.
  intros <-. rewrite firstn_app, Nat.sub_diag, firstn_all, firstn_O, app_nil_r.
  reflexivity.
Qed.

(** One round of the loop of [wraplines]: the bytes before [pos + k] stay,
    a line break follows, then the [amt] bytes that were after [pos]. *)
Lemma wraplines_round (B : bytes) pos k amt :
  pos + amt + 1 <= length B ->
  pos + k + amt + 1 <= length B ->
  poke (memmove B (pos + k) pos (amt + 1)) (pos + k) NL =
  firstn (pos + k) B ++ NL :: firstn amt (skipn (pos + 1) B)
    ++ skipn (pos + k + amt + 1) B.
Proof.
  intros H1 H2. unfold poke, memmove.
  assert (Hlen : length (firstn (pos + k) B) = pos + k)
    by (rewrite length_firstn; lia).
  rewrite firstn_app_exact by exact Hlen.
  f_equal. f_equal.
  rewrite skipn_app, Hlen.
  replace (pos + k + 1 - (pos + k)) with 1 by lia.
  rewrite skipn_all2 by lia. cbn [app].
  replace (skipn pos B) with (skipn 0 (skipn pos B)) by reflexivity.
  rewrite Nat.add_comm. rewrite firstn_add.
  destruct (skipn 0 (skipn pos B)) as [|x rest] eqn:E.
  - exfalso. cbn [skipn] in E.
    assert (length (skipn pos B) = 0) by now rewrite E.
    rewrite length_skipn in H. lia.
  - cbn [skipn] in E. cbn [firstn skipn app].
    replace (skipn (pos + 1) B) with rest.
    + do 2 f_equal. lia.
    + replace (pos + 1) with (1 + pos) by lia. rewrite <- skipn_skipn, E.
      reflexivity.
Qed.

Lemma lines_upto_snoc k t :
  lines_upto (S k) t = lines_upto k t ++ NL :: firstn 76 (skipn (76 * S k) t).
Proof.
  revert t. induction k as [|k IH]; intros t.
  - reflexivity.
  - change (lines_upto (S (S k)) t)
      with (firstn 76 t ++ NL :: lines_upto (S k) (skipn 76 t)).
    rewrite IH. cbn [lines_upto]. rewrite <- app_assoc. cbn [app].
    rewrite skipn_skipn.
    replace (76 * S k + 76) with (76 * S (S k)) by lia. reflexivity.
Qed.

(** The rounds below the first: with [stale] bytes between the untouched
    lines and the part [F] already in place, the loop lays the lines out
    in front of [F]. *)
Lemma wraplines_loop_rest t k :
  forall stale F,
    length stale = k ->
    76 * (k + 1) <= length t ->
    wraplines_loop (firstn (76 * (k + 1)) t ++ stale ++ F) (length t) k
    = lines_upto k t ++ F.
Proof.
  induction k as [|k IH]; intros stale F Hs Hlen.
  - destruct stale; [|discriminate]. reflexivity.
  - cbn [wraplines_loop].
    replace (length t - (76 * S k - 1) <? 76) with false
      by (symmetry; apply Nat.ltb_ge; lia).
    set (B := firstn (76 * (S k + 1)) t ++ stale ++ F).
    assert (HB : length B = 76 * (S k + 1) + S k + length F).
    { unfold B. rewrite !length_app, length_firstn, Hs. lia. }
    rewrite wraplines_round by lia.
    replace (76 * S k - 1 + 1) with (76 * S k) by lia.
    replace (76 * S k - 1 + S k + 76 + 1) with (76 * (S k + 1) + S k) by lia.
    assert (E1 : skipn (76 * (S k + 1) + S k) B = F).
    { unfold B. rewrite app_assoc. apply skipn_app_exact.
      rewrite length_app, length_firstn, Hs. lia. }
    assert (E2 : firstn 76 (skipn (76 * S k) B) = firstn 76 (skipn (76 * S k) t)).
    { unfold B. rewrite skipn_app.
      rewrite length_firstn.
      replace (76 * S k - Nat.min (76 * (S k + 1)) (length t)) with 0 by lia.
      cbn [skipn]. rewrite firstn_app.
      rewrite length_skipn, length_firstn.
      replace (76 - (Nat.min (76 * (S k + 1)) (length t) - 76 * S k)) with 0 by lia.
      rewrite firstn_O, app_nil_r.
      rewrite skipn_firstn_comm.
      replace (76 * (S k + 1) - 76 * S k) with 76 by lia.
      rewrite firstn_firstn, Nat.min_id. reflexivity. }
    assert (E3 : exists stale', length stale' = k
                  /\ firstn (76 * S k - 1 + S k) B = firstn (76 * (k + 1)) t ++ stale').
    { exists (firstn k (skipn (76 * (k + 1)) B)). split.
      - rewrite length_firstn, length_skipn. lia.
      - replace (76 * S k - 1 + S k) with (76 * (k + 1) + k) by lia.
        rewrite firstn_add. f_equal.
        unfold B. rewrite firstn_app, firstn_firstn.
        rewrite length_firstn.
        replace (76 * (k + 1) - Nat.min (76 * (S k + 1)) (length t)) with 0 by lia.
        rewrite firstn_O, app_nil_r. f_equal. lia. }
    destruct E3 as (stale' & Hs' & E3).
    rewrite E1, E2, E3, <- app_assoc.
    rewrite (IH stale' _ Hs') by lia.
    rewrite lines_upto_snoc, <- app_assoc. reflexivity.
Qed.

Lemma c_str_app_nul a b : nonul a = true -> c_str (a ++ NUL :: b) = a.
Proof.
  induction a as [|c a IH]; simpl; [reflexivity|].
  intros H. apply andb_true_iff in H. destruct H as [H1 H2].
  apply negb_true_iff in H1. rewrite H1. now rewrite IH.
Qed.

Lemma nonul_lines_upto k t : nonul t = true -> nonul (lines_upto k t) = true.
Proof.
  revert t. induction k as [|k IH]; intros t H; cbn [lines_upto].
  - now apply nonul_firstn.
  - rewrite nonul_app. rewrite nonul_firstn by exact H.
    cbn [nonul forallb andb]. fold (nonul (lines_upto k (skipn 76 t))).
    rewrite IH by now apply nonul_skipn. reflexivity.
Qed.

Lemma nonul_wrapped n t : nonul t = true -> nonul (wrapped n t) = true.
Proof.
  intros H. destruct n as [|n]; cbn [wrapped]; [exact H|].
  rewrite nonul_app, nonul_lines_upto by exact H.
  cbn [nonul forallb andb]. fold (nonul (skipn (76 * S n) t)).
  now rewrite nonul_skipn.
Qed.

Lemma size_t_lines len :
  1 <= len -> len < 1024 ->
  Z.to_nat (((Z.of_nat len - 1) mod 2 ^ 64) / 76)%Z = (len - 1) / 76.
Proof.
  intros H1 H2. change (2 ^ 64)%Z with 18446744073709551616%Z.
  rewrite Z.mod_small by lia. lia.
Qed.

(** [wraplines] on a buffer that holds the string [t]: afterwards it holds
    [t] with a line break after every 76 characters, provided the last line
    is not a full one. *)
Lemma wraplines_wrapped t junk space :
  nonul t = true ->
  1 <= length t -> length t < 1024 ->
  (length t - 1) / 76 = 0 \/ length t mod 76 <> 0 ->
  length t + (length t - 1) / 76 + 1 <= space ->
  length (t ++ NUL :: junk) = space ->
  c_str (wraplines (t ++ NUL :: junk) space) = wrapped ((length t - 1) / 76) t.
Proof.
  intros Hnul H1 H2 Hfull Hspace HB. unfold wraplines, strlen.
  rewrite c_str_app_nul by exact Hnul. rewrite size_t_lines by assumption.
  replace (space <? length t + (length t - 1) / 76 + 1) with false
    by (symmetry; apply Nat.ltb_ge; lia).
  set (B := t ++ NUL :: junk) in *.
  destruct ((length t - 1) / 76) as [|n] eqn:EN.
  - cbn [wraplines_loop wrapped]. unfold B. now apply c_str_app_nul.
  - assert (Hr : 76 * S n + 1 <= length t /\ length t <= 76 * S n + 75).
    { destruct Hfull as [?|Hfull]; [discriminate|]. lia. }
    cbn [wraplines_loop].
    replace (if length t - (76 * S n - 1) <? 76 then length t - (76 * S n - 1) else 76)
      with (length t - 76 * S n + 1)
      by (destruct (length t - (76 * S n - 1) <? 76) eqn:E;
          [lia | apply Nat.ltb_ge in E; lia]).
    rewrite wraplines_round by lia.
    replace (76 * S n - 1 + 1) with (76 * S n) by lia.
    replace (76 * S n - 1 + S n + (length t - 76 * S n + 1) + 1)
      with (length t + S n + 1) by lia.
    assert (E2 : firstn (length t - 76 * S n + 1) (skipn (76 * S n) B)
                 = skipn (76 * S n) t ++ [NUL]).
    { unfold B. rewrite skipn_app.
      replace (76 * S n - length t) with 0 by lia. cbn [skipn].
      rewrite firstn_app, length_skipn.
      replace (length t - 76 * S n + 1 - (length t - 76 * S n)) with 1 by lia.
      rewrite firstn_all2 by (rewrite length_skipn; lia). reflexivity. }
    assert (E3 : exists stale', length stale' = n
                  /\ firstn (76 * S n - 1 + S n) B = firstn (76 * (n + 1)) t ++ stale').
    { exists (firstn n (skipn (76 * (n + 1)) B)). split.
      - rewrite length_firstn, length_skipn. lia.
      - replace (76 * S n - 1 + S n) with (76 * (n + 1) + n) by lia.
        rewrite firstn_add. f_equal.
        unfold B. rewrite firstn_app.
        replace (76 * (n + 1) - length t) with 0 by lia.
        rewrite firstn_O, app_nil_r. reflexivity. }
    destruct E3 as (stale' & Hs' & E3).
    rewrite E2, E3, <- !app_assoc.
    rewrite (wraplines_loop_rest t (k := n) stale' _ Hs') by lia.
    cbn [app wrapped].
    replace (lines_upto n t ++ NL :: skipn (76 * S n) t ++ NUL :: skipn (length t + S n + 1) B)
      with ((lines_upto n t ++ NL :: skipn (76 * S n) t) ++ NUL :: skipn (length t + S n + 1) B)
      by (now rewrite <- app_assoc).
    apply c_str_app_nul.
    apply (nonul_wrapped (S n) t Hnul).
Qed.

Lemma writeb64data_loop_nil rem : writeb64data_loop rem [] = [].
Proof. destruct rem; reflexivity. Qed.

(** The lines that [wraplines] leaves, closed by a line break, are the
    lines that [writeb64data] writes. *)
Lemma wrapped_lines n :
  forall t rem,
    76 * n + 1 <= length t -> length t <= 76 * n + 76 -> n + 1 <= rem ->
    wrapped n t ++ [NL] = writeb64data_loop rem t.
Proof.
  induction n as [|n IH]; intros t rem H1 H2 H3.
  - destruct rem as [|rem]; [lia|]. destruct t as [|c t]; [simpl in H1; lia|].
    cbn [wrapped writeb64data_loop].
    rewrite firstn_all2 by lia. rewrite skipn_all2 by lia.
    now rewrite writeb64data_loop_nil.
  - destruct rem as [|rem]; [lia|]. destruct t as [|c t]; [simpl in H1; lia|].
    cbn [writeb64data_loop]. set (s := c :: t) in *.
    rewrite <- (IH (skipn 76 s) rem) by (rewrite ?length_skipn; lia).
    destruct n as [|n]; cbn [wrapped lines_upto].
    + rewrite <- app_assoc. reflexivity.
    + rewrite <- !app_assoc. cbn [app]. rewrite skipn_skipn.
      replace (76 * S n + 76) with (76 * S (S n)) by lia. reflexivity.
Qed.

(** ** The lines of an armored payload *)

Lemma strip_space_app a b : strip_space (a ++ b) = strip_space a ++ strip_space b.
Proof. apply filter_app. Qed.

Lemma strip_space_nospace s : nospace s = true -> strip_space s = s.
Proof.
  induction s as [|c s IH]; simpl; [reflexivity|].
  intros H. apply andb_true_iff in H. destruct H as [H1 H2].
  rewrite H1. now rewrite IH.
Qed.

Lemma strip_space_lines rem :
  forall t, length t <= rem -> strip_space (writeb64data_loop rem t) = strip_space t.
Proof.
  induction rem as [|rem IH]; intros t H.
  - destruct t; [reflexivity | simpl in H; lia].
  - destruct t as [|c t]; [reflexivity|].
    cbn [writeb64data_loop]. set (s := c :: t) in *.
    rewrite strip_space_app.
    change (strip_space (NL :: writeb64data_loop rem (skipn 76 s)))
      with (strip_space (writeb64data_loop rem (skipn 76 s))).
    rewrite IH by (rewrite length_skipn; unfold s in *; simpl in *; lia).
    rewrite <- strip_space_app, firstn_skipn. reflexivity.
Qed.

Lemma forallb_lines (P : ascii -> bool) rem :
  P NL = true ->
  forall t, forallb P t = true -> forallb P (writeb64data_loop rem t) = true.
Proof.
  intros HP. induction rem as [|rem IH]; intros t H; [reflexivity|].
  destruct t as [|c t]; [reflexivity|].
  cbn [writeb64data_loop]. set (s := c :: t) in *.
  rewrite <- (firstn_skipn 76 s), forallb_app in H.
  apply andb_true_iff in H. destruct H as [Ha Hb].
  rewrite forallb_app, Ha. cbn [forallb andb]. rewrite HP. now apply IH.
Qed.

Lemma length_lines rem :
  forall t, length (writeb64data_loop rem t) <= 2 * length t.
Proof.
  induction rem as [|rem IH]; intros t; [simpl; lia|].
  destruct t as [|c t]; [simpl; lia|].
  cbn [writeb64data_loop]. set (s := c :: t) in *.
  rewrite length_app. cbn [length].
  specialize (IH (skipn 76 s)). rewrite length_skipn in IH.
  rewrite length_firstn.
  assert (1 <= length s) by (unfold s; simpl; lia). lia.
Qed.

(** ** Searching a text *)

Lemma prefixb_refl_app n s : prefixb n (n ++ s) = true.
Proof.
  induction n as [|c n IH]; [reflexivity|]. simpl. now rewrite Ascii.eqb_refl.
Qed.

Lemma prefixb_app_l n1 n2 s : prefixb (n1 ++ n2) s = true -> prefixb n1 s = true.
Proof.
  revert s. induction n1 as [|c n1 IH]; intros s; [reflexivity|].
  destruct s as [|d s]; simpl; [discriminate|].
  intros H. apply andb_true_iff in H. destruct H as [H1 H2].
  rewrite H1. now apply IH.
Qed.

(** A match that would have to run across a byte that the needle does not
    contain is a match before that byte. *)
Lemma prefixb_app_stop n a c b :
  find_chr c n = None -> prefixb n (a ++ c :: b) = true -> prefixb n a = true.
Proof.
  revert a. induction n as [|x n IH]; intros a Hc H; [reflexivity|].
  simpl in Hc. destruct (Ascii.eqb x c) eqn:E; [discriminate|].
  destruct (find_chr c n) eqn:Hn; [discriminate|].
  destruct a as [|y a]; simpl in H |- *.
  - rewrite E in H. discriminate.
  - apply andb_true_iff in H. destruct H as [H1 H2].
    rewrite H1. now apply IH.
Qed.

Lemma find_sub_none_cons n x a :
  find_sub n (x :: a) = None -> prefixb n (x :: a) = false /\ find_sub n a = None.
Proof.
  cbn [find_sub]. destruct (prefixb n (x :: a)); [discriminate|].
  destruct (find_sub n a); [discriminate|]. auto.
Qed.

(** The needle [n1 ++ n2] is searched in [a ++ c :: b], where [a] does not
    contain [n1] and [n1] does not contain the byte [c]: the search goes on
    after [c]. *)
Lemma find_sub_skip_line n1 n2 a c b :
  n1 <> [] -> find_chr c n1 = None -> find_sub n1 a = None ->
  find_sub (n1 ++ n2) (a ++ c :: b)
  = option_map (fun k => length a + 1 + k) (find_sub (n1 ++ n2) b).
Proof.
  intros Hne Hc. induction a as [|x a IH]; intros Ha.
  - cbn [app find_sub length].
    replace (prefixb (n1 ++ n2) (c :: b)) with false.
    + destruct (find_sub (n1 ++ n2) b); reflexivity.
    + symmetry. destruct n1 as [|y n1]; [congruence|].
      simpl in Hc |- *. destruct (Ascii.eqb y c); [discriminate | reflexivity].
  - apply find_sub_none_cons in Ha. destruct Ha as [Hp Ha].
    cbn [app find_sub].
    replace (prefixb (n1 ++ n2) (x :: a ++ c :: b)) with false.
    + rewrite (IH Ha). destruct (find_sub (n1 ++ n2) b); reflexivity.
    + symmetry. destruct (prefixb (n1 ++ n2) (x :: a ++ c :: b)) eqn:E; [|reflexivity].
      apply prefixb_app_l in E.
      apply (prefixb_app_stop n1 (x :: a) c b Hc) in E. congruence.
Qed.

(** A text that does not contain the first byte of the needle is skipped. *)
Lemma find_sub_skip_free h n a b :
  find_chr h a = None ->
  find_sub (h :: n) (a ++ b) = option_map (fun k => length a + k) (find_sub (h :: n) b).
Proof.
  induction a as [|x a IH]; intros Ha.
  - cbn [app length]. destruct (find_sub (h :: n) b); reflexivity.
  - simpl in Ha. destruct (Ascii.eqb x h) eqn:E; [discriminate|].
    destruct (find_chr h a) eqn:Ha'; [discriminate|].
    cbn [app find_sub prefixb]. rewrite Ascii.eqb_sym, E. cbn [andb].
    rewrite IH by reflexivity. destruct (find_sub (h :: n) b); reflexivity.
Qed.

Lemma find_chr_app c a b :
  find_chr c a = None ->
  find_chr c (a ++ b) = option_map (fun k => length a + k) (find_chr c b).
Proof.
  induction a as [|x a IH]; intros Ha.
  - cbn [app length]. destruct (find_chr c b); reflexivity.
  - simpl in Ha |- *. destruct (Ascii.eqb x c); [discriminate|].
    destruct (find_chr c a) eqn:Ha'; [discriminate|].
    rewrite IH by reflexivity. destruct (find_chr c b); reflexivity.
Qed.

Lemma find_chr_forallb (P : ascii -> bool) c s :
  forallb P s = true -> P c = false -> find_chr c s = None.
Proof.
  intros H Hc. induction s as [|x s IH]; [reflexivity|].
  simpl in H |- *. apply andb_true_iff in H. destruct H as [H1 H2].
  destruct (Ascii.eqb x c) eqn:E.
  - apply Ascii.eqb_eq in E. congruence.
  - now rewrite IH.
Qed.

(** ** Parsing an armored block *)

Lemma c_str_idem s : c_str (c_str s) = c_str s.
Proof. apply c_str_id, nonul_c_str. Qed.

Lemma poke_app a b c : poke (a ++ b) (length a) c = a ++ c :: skipn 1 b.
Proof.
  unfold poke. rewrite firstn_app_exact by reflexivity.
  rewrite skipn_app, Nat.add_comm.
  replace (1 + length a - length a) with 1 by lia.
  rewrite skipn_all2 by lia. reflexivity.
Qed.

Lemma armor_head_eq info ident payload :
  armor_head info ident payload
  = begin_line info ++ lit "ident:" ++ ident ++ NL :: payload.
Proof. reflexivity. Qed.

Lemma find_sub_begin kind X :
  find_sub endkey (begin_line (kind_name kind) ++ lit "ident:" ++ X)
  = option_map (fun k => length (begin_line (kind_name kind) ++ lit "ident:") + k)
               (find_sub endkey X).
Proof.
  destruct kind; cbn; destruct (find_sub _ X); reflexivity.
Qed.

(** The closing marker is first found where the closing line starts, when
    the identity contains neither a line break nor the marker and the
    payload contains no dash. *)
Lemma find_sub_armor_head kind ident payload Z :
  find_chr NL ident = None ->
  find_sub endkey ident = None ->
  find_chr DASH payload = None ->
  find_sub endkey (armor_head (kind_name kind) ident payload ++ endkey ++ Z)
  = Some (length (armor_head (kind_name kind) ident payload)).
Proof.
  intros Hnl Hend Hdash. rewrite armor_head_eq.
  replace ((begin_line (kind_name kind) ++ lit "ident:" ++ ident ++ NL :: payload)
           ++ endkey ++ Z)
    with (begin_line (kind_name kind) ++ lit "ident:"
          ++ (ident ++ NL :: (payload ++ endkey ++ Z)))
    by (rewrite <- !app_assoc; reflexivity).
  rewrite find_sub_begin.
  rewrite <- (app_nil_r endkey) at 1 2.
  rewrite find_sub_skip_line; [| discriminate | reflexivity | exact Hend].
  rewrite app_nil_r.
  change endkey with (DASH :: lit "----END REOP ") at 1.
  rewrite find_sub_skip_free by exact Hdash.
  change (DASH :: lit "----END REOP ") with endkey.
  replace (find_sub endkey (endkey ++ Z)) with (Some 0).
  - cbn [option_map]. f_equal. rewrite !length_app. cbn [length]. lia.
  - symmetry. unfold find_sub. destruct (endkey ++ Z) eqn:E;
      rewrite <- E, prefixb_refl_app; reflexivity.
Qed.

Lemma scan_word_skip_space s n :
  strip_space s <> [] -> scan_word (S n) (skip_space s) <> [].
Proof.
  induction s as [|c s IH]; intros H; [now elim H|].
  cbn [skip_space]. destruct (isspace c) eqn:E.
  - apply IH. unfold strip_space in H |- *. cbn [filter] in H. now rewrite E in H.
  - cbn [scan_word]. rewrite E. discriminate.
Qed.

(** [readident] on an identity line and what follows it. *)
Lemma readident_line ident payload rest w :
  nonul ident = true -> nonul payload = true ->
  find_chr NL ident = None ->
  strip_space payload <> [] ->
  readident (lit "ident:" ++ ident ++ NL :: payload ++ NUL :: rest) w
  = (Done (scan_word 63 (skip_space (ident ++ NL :: payload)), payload ++ NUL :: rest), w).
Proof.
  intros Hi Hp Hnl Hne. unfold readident, sscanf_ident.
  assert (Hc : c_str (lit "ident:" ++ ident ++ NL :: payload ++ NUL :: rest)
               = lit "ident:" ++ ident ++ NL :: payload).
  { replace (lit "ident:" ++ ident ++ NL :: payload ++ NUL :: rest)
      with ((lit "ident:" ++ ident ++ NL :: payload) ++ NUL :: rest)
      by (rewrite <- !app_assoc; reflexivity).
    apply c_str_app_nul. rewrite !nonul_app, Hi. cbn [nonul forallb].
    fold (nonul payload). now rewrite Hp. }
  rewrite Hc.
  rewrite prefixb_refl_app.
  change (skipn 6 (lit "ident:" ++ ident ++ NL :: payload)) with (ident ++ NL :: payload).
  destruct (scan_word 63 (skip_space (ident ++ NL :: payload))) as [|x word] eqn:Ew.
  - exfalso. revert Ew. apply scan_word_skip_space.
    rewrite strip_space_app. intros H. apply app_eq_nil in H. destruct H as [_ H].
    change (strip_space (NL :: payload)) with (strip_space payload) in H. auto.
  - change (skipn 1 (lit "ident:" ++ ident ++ NL :: payload ++ NUL :: rest))
      with (lit "dent:" ++ ident ++ NL :: payload ++ NUL :: rest).
    unfold strchr.
    assert (Hc' : c_str (lit "dent:" ++ ident ++ NL :: payload ++ NUL :: rest)
                  = (lit "dent:" ++ ident) ++ NL :: payload).
    { replace (lit "dent:" ++ ident ++ NL :: payload ++ NUL :: rest)
        with (((lit "dent:" ++ ident) ++ NL :: payload) ++ NUL :: rest)
        by (rewrite <- !app_assoc; reflexivity).
      apply c_str_app_nul. rewrite !nonul_app, Hi. cbn [nonul forallb].
      fold (nonul payload). now rewrite Hp. }
    rewrite Hc'.
    rewrite find_chr_app.
    2:{ rewrite find_chr_app by reflexivity. now rewrite Hnl. }
    cbn [find_chr]. rewrite Ascii.eqb_refl. cbn [option_map ret].
    unfold ret. do 3 f_equal.
    replace (1 + (length (lit "dent:" ++ ident) + 0) + 1)
      with (length (lit "ident:" ++ ident ++ [NL]))
      by (rewrite !length_app; cbn [length lit list_ascii_of_string]; lia).
    replace (lit "ident:" ++ ident ++ NL :: payload ++ NUL :: rest)
      with ((lit "ident:" ++ ident ++ [NL]) ++ payload ++ NUL :: rest)
      by (rewrite <- !app_assoc; reflexivity).
    now apply skipn_app_exact.
Qed.

Lemma find_chr_begin kind X :
  find_chr NL (begin_line (kind_name kind) ++ X)
  = Some (length (begin_line (kind_name kind)) - 1).
Proof. destruct kind; reflexivity. Qed.

Lemma skipn_begin kind X :
  skipn (length (begin_line (kind_name kind)) - 1 + 1) (begin_line (kind_name kind) ++ X) = X.
Proof. destruct kind; reflexivity. Qed.

Lemma begin_line_kind kind X :
  strncmp_eq (skipn (strlen (lit "-----BEGIN REOP ")) (begin_line (kind_name kind) ++ X))
             (kind_name kind) = true.
Proof.
  unfold strncmp_eq.
  destruct kind; cbn [begin_line kind_name lit list_ascii_of_string app strlen c_str
                      Ascii.eqb Bool.eqb NUL length skipn prefixb andb]; reflexivity.
Qed.

(** [parsekeydata] on a text that is an armored block whose identity has no
    line break and does not contain the closing marker: the payload is
    decoded, and the identity returned is the word that [sscanf] reads. *)
Lemma parsekeydata_armored kind ident payload Z keydataorig key w :
  c_str keydataorig = armor_head (kind_name kind) ident payload ++ endkey ++ Z ->
  find_chr NL ident = None ->
  find_sub endkey ident = None ->
  find_chr DASH payload = None ->
  b64_decode (strip_space payload) = Some key ->
  1 <= length key ->
  parsekeydata keydataorig (kind_name kind) (length key) w
  = (Done (key, scan_word 63 (skip_space (ident ++ NL :: payload))), w).
Proof.
  intros Hc Hnl Hend Hdash Hdec Hkey.
  assert (HT : nonul (armor_head (kind_name kind) ident payload ++ endkey ++ Z) = true)
    by (rewrite <- Hc; apply nonul_c_str).
  assert (HH : nonul (armor_head (kind_name kind) ident payload) = true).
  { rewrite nonul_app in HT. now apply andb_true_iff in HT. }
  assert (Hi : nonul ident = true /\ nonul payload = true).
  { unfold armor_head in HH. rewrite !nonul_app in HH.
    apply andb_true_iff in HH. destruct HH as [_ HH].
    apply andb_true_iff in HH. destruct HH as [_ HH].
    apply andb_true_iff in HH. destruct HH as [HH1 HH2].
    split; [exact HH1|].
    cbn [nonul forallb] in HH2. apply andb_true_iff in HH2. apply HH2. }
  destruct Hi as [Hi Hp].
  assert (Hne : strip_space payload <> []).
  { intros E. rewrite E in Hdec. cbn [b64_decode] in Hdec.
    injection Hdec as <-. simpl in Hkey. lia. }
  unfold parsekeydata, strdup. rewrite Hc.
  set (T := armor_head (kind_name kind) ident payload ++ endkey ++ Z) in *.
  (* the opening line *)
  replace (strncmp_eq T (lit "-----BEGIN REOP ")) with true.
  2:{ symmetry. unfold strncmp_eq. rewrite c_str_id by exact HT.
      unfold T, armor_head, begin_line. rewrite <- !app_assoc.
      apply prefixb_refl_app. }
  cbn [negb].
  replace (strncmp_eq (skipn (strlen (lit "-----BEGIN REOP ")) T) (kind_name kind))
    with true.
  2:{ symmetry. unfold T, armor_head. rewrite <- !app_assoc. apply begin_line_kind. }
  cbn [negb].
  (* the closing marker *)
  unfold strstr. rewrite c_str_id by exact HT.
  unfold T. fold endkey. rewrite find_sub_armor_head by assumption.
  rewrite poke_app.
  (* the first line break *)
  unfold strchr. rewrite c_str_app_nul by exact HH.
  rewrite armor_head_eq, find_chr_begin.
  rewrite <- app_assoc, skipn_begin.
  replace ((lit "ident:" ++ ident ++ NL :: payload) ++ NUL :: skipn 1 (endkey ++ Z))
    with (lit "ident:" ++ ident ++ NL :: payload ++ NUL :: skipn 1 (endkey ++ Z))
    by (rewrite <- !app_assoc; reflexivity).
  unfold bind. rewrite readident_line by assumption.
  (* the payload *)
  unfold reopb64_pton. rewrite c_str_app_nul by exact Hp. rewrite Hdec.
  rewrite Nat.leb_refl, Nat.eqb_refl. reflexivity.
Qed.

(** ** Encoding an armored block *)

Lemma nonul_b64_encode key : nonul (b64_encode key) = true.
Proof.
  pose proof (b64_encode_alphabet key) as H. unfold nonul.
  rewrite forallb_forall in H |- *. intros c Hc.
  apply H, b64_alphabet_plain in Hc. destruct Hc as (_ & Hc & _). now rewrite Hc.
Qed.

Lemma nospace_b64_encode key : nospace (b64_encode key) = true.
Proof.
  pose proof (b64_encode_alphabet key) as H. unfold nospace.
  rewrite forallb_forall in H |- *. intros c Hc.
  apply H, b64_alphabet_plain in Hc. destruct Hc as (Hc & _ & _). now rewrite Hc.
Qed.

Lemma nodash_b64_encode key :
  forallb (fun c => negb (Ascii.eqb c DASH)) (b64_encode key) = true.
Proof.
  pose proof (b64_encode_alphabet key) as H.
  rewrite forallb_forall in H |- *. intros c Hc.
  apply H, b64_alphabet_plain in Hc. destruct Hc as (_ & _ & Hc). now rewrite Hc.
Qed.

Lemma nonul_payload key : nonul (payload_of key) = true.
Proof. apply forallb_lines; [reflexivity | apply nonul_b64_encode]. Qed.

Lemma nodash_payload key : find_chr DASH (payload_of key) = None.
Proof.
  apply find_chr_forallb with (P := fun c => negb (Ascii.eqb c DASH)).
  - apply forallb_lines; [reflexivity | apply nodash_b64_encode].
  - reflexivity.
Qed.

Lemma decode_payload key : b64_decode (strip_space (payload_of key)) = Some key.
Proof.
  unfold payload_of. rewrite strip_space_lines by apply Nat.le_refl.
  rewrite strip_space_nospace by apply nospace_b64_encode.
  apply b64_decode_encode.
Qed.

Lemma nonul_kind kind : nonul (kind_name kind) = true.
Proof. destruct kind; reflexivity. Qed.

Lemma length_kind kind : length (kind_name kind) <= 10.
Proof. destruct kind; simpl; lia. Qed.

Lemma b64_length_kind kind key :
  length key = kind_size kind ->
  let n := length (b64_encode key) in
  1 <= n /\ n <= 232 /\ ((n - 1) / 76 = 0 \/ n mod 76 <> 0) /\ (n - 1) / 76 + 1 <= n.
Proof.
  intros H. rewrite b64_encode_length, H.
  destruct kind; vm_compute; repeat split; try lia; right; discriminate.
Qed.

(** [encodekey] for a structure of one of the three kinds and an identity
    of at most 63 bytes: the armored block, with the payload in lines. *)
Lemma encodekey_armored kind key ident w :
  nonul ident = true -> length ident <= 63 ->
  length key = kind_size kind ->
  encodekey (kind_name kind) key ident w
  = (Done (armored (kind_name kind) ident (payload_of key)), w).
Proof.
  intros Hi Hlen Hkey.
  destruct (b64_length_kind kind key Hkey) as (Hn1 & Hn2 & Hfull & Hrem).
  cbv zeta in Hn1, Hn2, Hfull, Hrem.
  unfold encodekey, uninitialised, bind, reopb64_ntop.
  replace (length (b64_encode key) <? 1024) with true
    by (symmetry; apply Nat.ltb_lt; lia).
  unfold store_str.
  rewrite wraplines_wrapped;
    [ | apply nonul_b64_encode | lia | lia | exact Hfull | lia | ].
  2:{ rewrite length_app. cbn [length]. rewrite length_skipn, length_map, length_seq. lia. }
  rewrite !(c_str_id (kind_name kind)) by apply nonul_kind.
  rewrite (c_str_id ident) by exact Hi.
  set (t := b64_encode key) in *.
  assert (Hp : wrapped ((length t - 1) / 76) t ++ [NL] = payload_of key).
  { unfold payload_of. fold t. apply wrapped_lines; [| | lia].
    - pose proof (Nat.div_mod_eq (length t - 1) 76). lia.
    - pose proof (Nat.div_mod_eq (length t - 1) 76).
      pose proof (Nat.mod_upper_bound (length t - 1) 76). lia. }
  assert (Etext :
    lit "-----BEGIN REOP " ++ kind_name kind ++ lit "-----" ++ [NL]
      ++ lit "ident:" ++ ident ++ [NL]
      ++ wrapped ((length t - 1) / 76) t ++ [NL]
      ++ lit "-----END REOP " ++ kind_name kind ++ lit "-----" ++ [NL]
    = armored (kind_name kind) ident (payload_of key)).
  { unfold armored, armor_head, begin_line, endkey. rewrite <- Hp.
    rewrite <- !app_assoc. cbn [app]. rewrite <- !app_assoc. reflexivity. }
  rewrite Etext.
  assert (Hnul : nonul (armored (kind_name kind) ident (payload_of key)) = true).
  { unfold armored, armor_head, begin_line, endkey. rewrite !nonul_app.
    cbn [nonul forallb]. fold (nonul (payload_of key)).
    rewrite !nonul_kind, Hi, nonul_payload. reflexivity. }
  assert (Hsize : length (armored (kind_name kind) ident (payload_of key)) <= 1023).
  { unfold armored, armor_head, begin_line, endkey. rewrite !length_app.
    cbn [length lit list_ascii_of_string].
    pose proof (length_kind kind). pose proof (length_lines (length t) t).
    unfold payload_of. fold t. lia. }
  unfold snprintf, strdup, ret.
  rewrite firstn_all2 by (cbn [Nat.sub]; lia).
  rewrite c_str_id by exact Hnul. reflexivity.
Qed.

(** ** Encoding, then parsing *)

Lemma nonul_armored kind ident key :
  nonul ident = true -> nonul (armored (kind_name kind) ident (payload_of key)) = true.
Proof.
  intros Hi. unfold armored, armor_head, begin_line, endkey. rewrite !nonul_app.
  cbn [nonul forallb]. fold (nonul (payload_of key)).
  rewrite !nonul_kind, Hi, nonul_payload. reflexivity.
Qed.

Lemma ident_line_inv ident :
  ident_line ident = true -> find_chr NL ident = None /\ find_sub endkey ident = None.
Proof.
  unfold ident_line. destruct (find_chr NL ident); [discriminate|].
  destruct (find_sub endkey ident); [discriminate|]. auto.
Qed.

(** What [parsekeydata] makes of a block that [encodekey] made. *)
Lemma parsekeydata_encoded kind key ident w :
  nonul ident = true -> ident_line ident = true ->
  length key = kind_size kind ->
  parsekeydata (armored (kind_name kind) ident (payload_of key))
               (kind_name kind) (kind_size kind) w
  = (Done (key, scan_word 63 (skip_space (ident ++ NL :: payload_of key))), w).
Proof.
  intros Hi Hline Hkey. apply ident_line_inv in Hline. destruct Hline as [Hnl Hend].
  rewrite <- Hkey.
  apply parsekeydata_armored with (Z := kind_name kind ++ lit "-----" ++ [NL]).
  - apply c_str_id. now apply nonul_armored.
  - exact Hnl.
  - exact Hend.
  - apply nodash_payload.
  - apply decode_payload.
  - rewrite Hkey. destruct kind; vm_compute; lia.
Qed.

Lemma scan_word_line n ident rest :
  nospace ident = true -> length ident <= n ->
  scan_word n (ident ++ NL :: rest) = ident.
Proof.
  revert n. induction ident as [|c ident IH]; intros n Hs Hn.
  - destruct n; reflexivity.
  - destruct n as [|n]; [simpl in Hn; lia|].
    simpl in Hs. apply andb_true_iff in Hs. destruct Hs as [Hc Hs].
    apply negb_true_iff in Hc. cbn [app scan_word]. rewrite Hc.
    f_equal. apply IH; [exact Hs | simpl in Hn; lia].
Qed.

Lemma skip_space_word ident rest :
  nospace ident = true -> ident <> [] ->
  skip_space (ident ++ rest) = ident ++ rest.
Proof.
  destruct ident as [|c ident]; [congruence|]. intros Hs _.
  simpl in Hs. apply andb_true_iff in Hs. destruct Hs as [Hc _].
  apply negb_true_iff in Hc. cbn [app skip_space]. now rewrite Hc.
Qed.

Lemma prefixb_forallb (P : ascii -> bool) n s :
  prefixb n s = true -> forallb P s = true -> forallb P n = true.
Proof.
  revert s. induction n as [|x n IH]; intros s Hp Hs; [reflexivity|].
  destruct s as [|y s]; [discriminate|].
  simpl in Hp, Hs |- *. apply andb_true_iff in Hp. destruct Hp as [Hxy Hp].
  apply andb_true_iff in Hs. destruct Hs as [Hy Hs].
  apply Ascii.eqb_eq in Hxy. subst y. rewrite Hy. now apply IH with s.
Qed.

(** A text of bytes that all satisfy [P] contains no needle with a byte
    that does not. *)
Lemma find_sub_forallb (P : ascii -> bool) n s :
  forallb P n = false -> forallb P s = true -> find_sub n s = None.
Proof.
  intros Hn. induction s as [|y s IH]; intros Hs.
  - cbn [find_sub]. destruct (prefixb n []) eqn:E; [|reflexivity].
    apply prefixb_forallb with (P := P) in E; [congruence | reflexivity].
  - cbn [find_sub]. destruct (prefixb n (y :: s)) eqn:E.
    + apply prefixb_forallb with (P := P) in E; [congruence | exact Hs].
    + simpl in Hs. apply andb_true_iff in Hs. destruct Hs as [_ Hs].
      now rewrite IH.
Qed.

Lemma nospace_ident_line ident : nospace ident = true -> ident_line ident = true.
Proof.
  intros H. unfold ident_line.
  rewrite (find_chr_forallb (fun c => negb (isspace c)) NL ident H) by reflexivity.
  rewrite (find_sub_forallb (fun c => negb (isspace c)) endkey ident) by (reflexivity || exact H).
  reflexivity.
Qed.

(** C9, as amended.  The identity that parsing an armored block yields is
    the first word after [ident:], that is the bytes, 63 at most, from the
    first that is not white space to the next white space.  For a block
    that [encodekey] made it is therefore the identity that was encoded
    whenever that identity has from 1 to 63 bytes and no white space in
    it; the structure (of any of the three kinds) comes back as well. *)
Theorem ident_roundtrip_of_words kind key ident w :
  nonul ident = true -> length ident <= 63 ->
  length key = kind_size kind ->
  (ident_line ident = true ->
   (text <- encodekey (kind_name kind) key ident ;;
    parsekeydata text (kind_name kind) (kind_size kind)) w
   = (Done (key, scan_word 63 (skip_space (ident ++ NL :: payload_of key))), w))
  /\ (nospace ident = true -> 1 <= length ident ->
      (text <- encodekey (kind_name kind) key ident ;;
       parsekeydata text (kind_name kind) (kind_size kind)) w
      = (Done (key, ident), w)).
Proof.
  intros Hi Hlen Hkey.
  assert (Hrun : ident_line ident = true ->
                 (text <- encodekey (kind_name kind) key ident ;;
                  parsekeydata text (kind_name kind) (kind_size kind)) w
                 = (Done (key, scan_word 63 (skip_space (ident ++ NL :: payload_of key))), w)).
  { intros Hline. unfold bind. rewrite encodekey_armored by assumption.
    now apply parsekeydata_encoded. }
  split; [exact Hrun|].
  intros Hs Hne. rewrite Hrun by now apply nospace_ident_line.
  rewrite skip_space_word; [| exact Hs | destruct ident; [simpl in Hne; lia | discriminate]].
  rewrite scan_word_line by assumption. reflexivity.
Qed.

(** ** Secret keys through the armor *)

Lemma slice_app_r off n (a b : bytes) :
  length a <= off -> slice off n (a ++ b) = slice (off - length a) n b.
Proof.
  intros H. unfold slice. rewrite skipn_app, skipn_all2 by exact H. reflexivity.
Qed.

Lemma slice_app_l n (a b : bytes) : length a = n -> slice 0 n (a ++ b) = a.
Proof. intros H. unfold slice. cbn [skipn]. now apply firstn_app_exact. Qed.

Lemma seckey_of_image_image k ident :
  length (sec_sigalg k) = 2 -> length (sec_encalg k) = 2 ->
  length (sec_symalg k) = 2 -> length (sec_kdfalg k) = 2 ->
  length (sec_randomid k) = 8 -> length (sec_kdfrounds k) = 4 ->
  length (sec_salt k) = 16 -> length (sec_nonce k) = 24 ->
  length (sec_tag k) = 16 -> length (sec_sigkey k) = 64 ->
  length (sec_enckey k) = 32 ->
  seckey_of_image (seckey_image k) ident
  = mkSeckey (sec_sigalg k) (sec_encalg k) (sec_symalg k) (sec_kdfalg k)
             (sec_randomid k) (sec_kdfrounds k) (sec_salt k) (sec_nonce k)
             (sec_tag k) (sec_sigkey k) (sec_enckey k) ident.
Proof.
  intros H1 H2 H3 H4 H5 H6 H7 H8 H9 H10 H11.
  unfold seckey_of_image, seckey_image.
  rewrite <- (app_nil_r (sec_enckey k)) at 1 2 3 4 5 6 7 8 9 10 11.
  f_equal;
    repeat (first [ rewrite slice_app_l by assumption; reflexivity
                  | rewrite slice_app_r by lia;
                    rewrite ?H1, ?H2, ?H3, ?H4, ?H5, ?H6, ?H7, ?H8, ?H9, ?H10;
                    cbn [Nat.sub] ]).
Qed.

Lemma length_seckey_image k :
  length (sec_sigalg k) = 2 -> length (sec_encalg k) = 2 ->
  length (sec_symalg k) = 2 -> length (sec_kdfalg k) = 2 ->
  length (sec_randomid k) = 8 -> length (sec_kdfrounds k) = 4 ->
  length (sec_salt k) = 16 -> length (sec_nonce k) = 24 ->
  length (sec_tag k) = 16 -> length (sec_sigkey k) = 64 ->
  length (sec_enckey k) = 32 ->
  length (seckey_image k) = seckeysize.
Proof.
  intros. unfold seckey_image, seckeysize. rewrite !length_app. lia.
Qed.

Lemma seckey_wf_inv k :
  seckey_wf k = true ->
  length (sec_sigalg k) = 2 /\ length (sec_encalg k) = 2
  /\ length (sec_symalg k) = 2 /\ sec_kdfalg k = KDFALG
  /\ length (sec_randomid k) = 8 /\ length (sec_sigkey k) = 64
  /\ length (sec_enckey k) = 32 /\ nonul (sec_ident k) = true
  /\ length (sec_ident k) <= 63.
Proof.
  unfold seckey_wf. rewrite !andb_true_iff, !Nat.eqb_eq, Nat.leb_le, bytes_eqb_eq.
  intros H. unfold RANDOMIDLEN, SIGSECRETBYTES, ENCSECRETBYTES, IDENTLEN in H.
  cbn [Nat.sub] in H. tauto.
Qed.

Lemma length_htonl x : length (htonl x) = 4.
Proof. reflexivity. Qed.

Section SeckeyArmor.

Context {C : Crypto}.

(** Parsing the armored form of a wrapped secret key, with a passphrase
    from which [kdf] derives the key that sealed the box again. *)
Lemma parse_wrapped_key (L : CryptoLaws C) sk pw rounds salt nonce symkey w2 :
  seckey_wf sk = true ->
  ident_line (sec_ident sk) = true ->
  length salt = 16 -> length nonce = 24 ->
  to_int (ntohl (htonl rounds)) = rounds ->
  (forall w, exists w', kdf salt rounds pw false SYMKEYBYTES w = (Done symkey, w')) ->
  let box := crypto_secretbox_detached (sec_sigkey sk ++ sec_enckey sk) nonce symkey in
  let copy := mkSeckey (sec_sigalg sk) (sec_encalg sk) (sec_symalg sk) (sec_kdfalg sk)
                       (sec_randomid sk) (htonl rounds) salt nonce (snd box)
                       (firstn SIGSECRETBYTES (fst box)) (skipn SIGSECRETBYTES (fst box))
                       (sec_ident sk) in
  exists sk' w3,
    reop_parseseckey (armored (kind_name SECRET_KEY) (sec_ident sk)
                              (payload_of (seckey_image copy))) pw w2
    = (Done (Some sk'), w3)
    /\ sec_sigkey sk' = sec_sigkey sk /\ sec_enckey sk' = sec_enckey sk.
Proof.
  intros Hwf Hline Hsalt Hnonce Hrounds Hk box copy.
  destruct (seckey_wf_inv sk Hwf) as (H1 & H2 & H3 & H4 & H5 & H6 & H7 & Hnul & Hlen).
  assert (Hbox : length (fst box) = 96).
  { unfold box. rewrite secretbox_length, length_app. lia. }
  assert (Htag : length (snd box) = 16) by apply secretbox_tag_length.
  assert (Hkdfalg : length (sec_kdfalg sk) = 2) by now rewrite H4.
  assert (Hcopy : length (seckey_image copy) = kind_size SECRET_KEY).
  { apply length_seckey_image; unfold copy;
      cbn [sec_sigalg sec_encalg sec_symalg sec_kdfalg sec_randomid sec_kdfrounds
           sec_salt sec_nonce sec_tag sec_sigkey sec_enckey]; try assumption.
    - apply length_htonl.
    - unfold SIGSECRETBYTES. rewrite length_firstn. lia.
    - unfold SIGSECRETBYTES. rewrite length_skipn. lia. }
  unfold reop_parseseckey, bind.
  change (lit "SECRET KEY") with (kind_name SECRET_KEY).
  change seckeysize with (kind_size SECRET_KEY).
  rewrite parsekeydata_encoded by assumption.
  rewrite seckey_of_image_image; unfold copy;
    cbn [sec_sigalg sec_encalg sec_symalg sec_kdfalg sec_randomid sec_kdfrounds
         sec_salt sec_nonce sec_tag sec_sigkey sec_enckey]; try assumption;
    try apply length_htonl;
    try (unfold SIGSECRETBYTES; rewrite ?length_firstn, ?length_skipn; lia).
  unfold decryptseckey.
  cbn [sec_sigalg sec_encalg sec_symalg sec_kdfalg sec_randomid sec_kdfrounds
       sec_salt sec_nonce sec_tag sec_sigkey sec_enckey sec_ident].
  rewrite H4, memcmp_eq_refl. cbn [negb]. rewrite Hrounds.
  destruct (Hk w2) as [w' Hk']. unfold bind. rewrite Hk'.
  unfold symdecryptraw, bind, log, ret. rewrite firstn_skipn.
  unfold box. rewrite secretbox_open_seal. cbn [Z.eqb negb].
  do 2 eexists. split; [reflexivity|].
  cbn [sec_sigkey sec_enckey]. unfold SIGSECRETBYTES. split.
  - now apply firstn_app_exact.
  - now apply skipn_app_exact.
Qed.

Lemma zero_rounds_stored : to_int (ntohl (htonl 0)) = 0%Z.
Proof. reflexivity. Qed.

(** The size of the image of a secret key that [encryptseckey] wrapped. *)
Lemma length_wrapped_image (L : CryptoLaws C) sk rounds salt nonce symkey :
  seckey_wf sk = true ->
  length salt = 16 -> length nonce = 24 ->
  let box := crypto_secretbox_detached (sec_sigkey sk ++ sec_enckey sk) nonce symkey in
  length (seckey_image
            (mkSeckey (sec_sigalg sk) (sec_encalg sk) (sec_symalg sk)
               (sec_kdfalg sk) (sec_randomid sk) (htonl rounds) salt nonce
               (snd box) (firstn SIGSECRETBYTES (fst box))
               (skipn SIGSECRETBYTES (fst box)) (sec_ident sk)))
  = kind_size SECRET_KEY.
Proof.
  intros Hwf Hs Hn box.
  destruct (seckey_wf_inv sk Hwf) as (H1 & H2 & H3 & H4 & H5 & H6 & H7 & Hnul & Hlen).
  assert (Hbox : length (fst box) = 96)
    by (unfold box; rewrite secretbox_length, length_app; lia).
  apply length_seckey_image;
    cbn [sec_sigalg sec_encalg sec_symalg sec_kdfalg sec_randomid sec_kdfrounds
         sec_salt sec_nonce sec_tag sec_sigkey sec_enckey]; try assumption.
  - now rewrite H4.
  - apply length_htonl.
  - apply secretbox_tag_length.
  - unfold SIGSECRETBYTES. rewrite length_firstn. lia.
  - unfold SIGSECRETBYTES. rewrite length_skipn. lia.
Qed.

(** C1, as amended.  A secret key wrapped with the empty passphrase stores
    [kdfrounds] 0; its box is sealed under the all-zero key and no call to
    [bcrypt_pbkdf] is made.  Unwrapping it opens and checks that box under
    the all-zero key again, returns 0 and restores the signing and the
    encryption key, and does so whatever passphrase is supplied (the empty
    one, a non-empty one, or none): with [kdfrounds] 0 the passphrase is
    never consulted.  The same holds through the armor: the string that
    [reop_encodeseckey] makes under the empty passphrase is parsed by
    [reop_parseseckey] under every passphrase, for a key that the library
    hands out and whose identity stays on its line. *)
Theorem zero_round_key_opens_under_any_passphrase (L : CryptoLaws C) sk p0 w :
  strlen p0 = 0 ->
  firstn 2 (sec_kdfalg sk) = KDFALG ->
  length (sec_sigkey sk) = SIGSECRETBYTES ->
  (exists sk' w1 salt nonce,
     encryptseckey sk (Some p0) w = (Done sk', w1)
     /\ ntohl (sec_kdfrounds sk') = 0%Z
     /\ trace w1 = trace w ++ [Call_randombytes 16; Call_randombytes SYMNONCEBYTES;
                               Call_secretbox_detached (sec_sigkey sk ++ sec_enckey sk)
                                                       nonce (zeros SYMKEYBYTES)]
     /\ sec_salt sk' = salt /\ sec_nonce sk' = nonce
     /\ forall pw w2,
        exists sk'',
          decryptseckey sk' pw w2 =
          (Done (0%Z, sk''),
           logged w2 (Call_secretbox_open_detached
                        (sec_sigkey sk' ++ sec_enckey sk') (sec_tag sk') nonce
                        (zeros SYMKEYBYTES)))
          /\ sec_sigkey sk'' = sec_sigkey sk
          /\ sec_enckey sk'' = sec_enckey sk)
  /\ (seckey_wf sk = true -> ident_line (sec_ident sk) = true ->
      exists text w1,
        reop_encodeseckey sk (Some p0) w = (Done text, w1)
        /\ forall pw w2,
           exists sk' w3,
             reop_parseseckey text pw w2 = (Done (Some sk'), w3)
             /\ sec_sigkey sk' = sec_sigkey sk /\ sec_enckey sk' = sec_enckey sk).
Proof.
  intros Hp Hk Hlen. split.
  - unfold encryptseckey. rewrite Hp. cbn [Nat.eqb].
    unfold kdf, symencryptraw. cbn [Z.eqb]. mrun.
    do 4 eexists. split; [reflexivity|].
    split; [reflexivity|]. split; [now rewrite <- !app_assoc|].
    split; [reflexivity|]. split; [reflexivity|].
    intros pw w2. unfold decryptseckey.
    cbn [sec_kdfalg sec_kdfrounds sec_salt sec_nonce sec_tag sec_sigkey sec_enckey
         sec_sigalg sec_encalg sec_symalg sec_randomid sec_ident].
    rewrite (proj2 (memcmp_eq_true 2 (sec_kdfalg sk) KDFALG)) by exact Hk.
    cbn [negb]. rewrite zero_rounds_stored. unfold kdf, symdecryptraw. cbn [Z.eqb].
    mrun. rewrite firstn_skipn. unfold zeros. rewrite secretbox_open_seal.
    cbn [Z.eqb negb]. eexists. split; [reflexivity|].
    cbn [sec_sigkey sec_enckey]. split.
    + now apply firstn_app_exact.
    + now apply skipn_app_exact.
  - intros Hwf Hline.
    destruct (seckey_wf_inv sk Hwf) as (_ & _ & _ & _ & _ & _ & _ & Hnul & Hlen').
    unfold reop_encodeseckey, encryptseckey. rewrite Hp. cbn [Nat.eqb].
    unfold kdf, symencryptraw. cbn [Z.eqb]. mrun.
    change (lit "SECRET KEY") with (kind_name SECRET_KEY).
    rewrite encodekey_armored;
      [ | exact Hnul | exact Hlen'
        | apply length_wrapped_image;
          [exact L | exact Hwf | | ]; rewrite length_map, length_seq; reflexivity ].
    do 2 eexists. split; [reflexivity|]. intros pw w2.
    apply (parse_wrapped_key L sk pw (rounds := 0%Z)); try assumption.
    + rewrite length_map, length_seq. reflexivity.
    + rewrite length_map, length_seq. reflexivity.
    + reflexivity.
    + intros w0. eexists. reflexivity.
Qed.

(** The secret key of a generated pair is as [seckey_wf] requires. *)
Lemma generated_seckey_wf (L : CryptoLaws C) kp :
  generated kp -> seckey_wf (seckey kp) = true.
Proof.
  intros G. destruct (generated_inv G) as (sS & sE & rid & ident & -> & Hrid & Hnul & Hlen).
  unfold seckey_wf. cbn [seckey sec_sigalg sec_encalg sec_symalg sec_kdfalg
                         sec_randomid sec_sigkey sec_enckey sec_ident].
  rewrite Hrid, Hnul, (proj2 (sign_keypair_length sS)), (proj2 (box_keypair_length sE)).
  rewrite (proj2 (Nat.leb_le _ _) Hlen). reflexivity.
Qed.

(** C5, as amended.  A secret key whose identity has no line break in it
    and does not contain the text [-----END REOP ], encoded to its armored
    string under a passphrase and parsed back under the same passphrase:
    parsing succeeds and returns the 64-byte signing key and the 32-byte
    encryption key that were encoded.  The key is one that the library
    hands out ([seckey_wf]; the structure is private to [reop.c]), as the
    secret key of every generated pair is. *)
Theorem seckey_encode_parse_roundtrip (L : CryptoLaws C) sk pw w :
  seckey_wf sk = true ->
  ident_line (sec_ident sk) = true ->
  exists text w1,
    reop_encodeseckey sk (Some pw) w = (Done text, w1)
    /\ forall w2,
       exists sk' w3,
         reop_parseseckey text (Some pw) w2 = (Done (Some sk'), w3)
         /\ sec_sigkey sk' = sec_sigkey sk /\ sec_enckey sk' = sec_enckey sk.
Proof.
  intros Hwf Hline.
  destruct (seckey_wf_inv sk Hwf) as (H1 & H2 & H3 & H4 & H5 & H6 & H7 & Hnul & Hlen).
  unfold reop_encodeseckey, encryptseckey.
  destruct (strlen pw =? 0) eqn:Epw.
  - (* the empty passphrase: no rounds, the zero key *)
    unfold kdf, symencryptraw. cbn [Z.eqb]. mrun.
    change (lit "SECRET KEY") with (kind_name SECRET_KEY).
    rewrite encodekey_armored;
      [ | exact Hnul | exact Hlen
        | apply length_wrapped_image;
          [exact L | exact Hwf | | ]; rewrite length_map, length_seq; reflexivity ].
    do 2 eexists. split; [reflexivity|]. intros w2.
    apply (parse_wrapped_key L sk (Some pw) (rounds := 0%Z)); try assumption.
    + rewrite length_map, length_seq. reflexivity.
    + rewrite length_map, length_seq. reflexivity.
    + reflexivity.
    + intros w0. eexists. reflexivity.
  - (* a passphrase: 42 rounds of bcrypt *)
    apply Nat.eqb_neq in Epw.
    unfold kdf at 1. cbn [Z.eqb]. unfold symencryptraw. mrun.
    destruct (bcrypt_pbkdf (c_str pw) (map (rng w) (seq (rng_pos w) 16))
                           SYMKEYBYTES (to_unsigned 42)) as [symkey|] eqn:Eb.
    2:{ exfalso. revert Eb. apply bcrypt_pbkdf_total.
        - unfold strlen in Epw. destruct (c_str pw); [simpl in Epw; lia | discriminate].
        - discriminate.
        - unfold SYMKEYBYTES. lia.
        - vm_compute. discriminate. }
    change (lit "SECRET KEY") with (kind_name SECRET_KEY).
    rewrite encodekey_armored;
      [ | exact Hnul | exact Hlen
        | apply length_wrapped_image;
          [exact L | exact Hwf | | ]; rewrite length_map, length_seq; reflexivity ].
    do 2 eexists. split; [reflexivity|]. intros w2.
    apply (parse_wrapped_key L sk (Some pw) (rounds := 42%Z)); try assumption.
    + rewrite length_map, length_seq. reflexivity.
    + rewrite length_map, length_seq. reflexivity.
    + reflexivity.
    + intros w0. unfold kdf. cbn [Z.eqb]. mrun. rewrite Eb. eexists. reflexivity.
Qed.

End SeckeyArmor.

(** ** Reading a whole file *)

Lemma readall_loop_sound (h : handle) fuel :
  forall k rest msg space alloc,
    length rest < fuel ->
    (0 < space \/ (space = 0 /\ 0 < Z.of_nat (length msg)))%Z ->
    (Z.of_nat (length msg) + space + 1 <= alloc)%Z ->
    msg ++ rest = h_data h ->
    match readall_loop fuel h k rest msg space alloc with
    | Read_done rv m len =>
        (rv = 0%Z /\ m = Some (h_data h ++ [NUL])
         /\ len = Z.of_nat (length (h_data h)))
        \/ ((rv = (-2)%Z \/ rv = (-3)%Z) /\ m = None /\ len = 0%Z)
    | _ => False
    end.
Proof.
  induction fuel as [|fuel IH]; intros k rest msg space alloc Hf Hs Ha Hd; [lia|].
  cbn [readall_loop].
  set (msglen := Z.of_nat (length msg)) in *.
  destruct ((space =? 0)%Z && (maxmsgsize <? msglen * 2)%Z) eqn:Eg.
  { right. auto. }
  set (alloc' := if (space =? 0)%Z then (msglen + msglen + 1)%Z else alloc).
  set (space' := if (space =? 0)%Z then msglen else space).
  assert (Hs' : (0 < space')%Z).
  { unfold space'. destruct (space =? 0)%Z eqn:E; [apply Z.eqb_eq in E | apply Z.eqb_neq in E]; lia. }
  assert (Ha' : (msglen + space' + 1 <= alloc')%Z).
  { unfold space', alloc'. destruct (space =? 0)%Z; lia. }
  replace (alloc' <? msglen + space')%Z with false by (symmetry; apply Z.ltb_ge; lia).
  destruct (match h_error h with Some e => e =? k | None => false end).
  { right. auto. }
  set (x := Nat.min (Z.to_nat space') (Nat.min (S (h_chunk h k)) (length rest))).
  destruct (x =? 0) eqn:Ex.
  - apply Nat.eqb_eq in Ex.
    assert (Hrest : rest = []).
    { destruct rest; [reflexivity|]. exfalso. unfold x in Ex. cbn [length] in Ex. lia. }
    replace (alloc' <=? msglen)%Z with false by (symmetry; apply Z.leb_gt; lia).
    left. subst rest. rewrite app_nil_r in Hd. subst msg. auto.
  - apply Nat.eqb_neq in Ex.
    assert (Hx : x <= length rest /\ (Z.of_nat x <= space')%Z) by (unfold x; lia).
    apply IH.
    + rewrite length_skipn. lia.
    + rewrite length_app, length_firstn. lia.
    + rewrite length_app, length_firstn. fold msglen. lia.
    + rewrite <- app_assoc, firstn_skipn. exact Hd.
Qed.

Lemma readall_loop_complete (h : handle) fuel :
  forall k rest msg space alloc,
    h_error h = None ->
    length rest < fuel ->
    (0 < space \/ (space = 0 /\ 0 < Z.of_nat (length msg)))%Z ->
    (Z.of_nat (length msg) + space + 1 <= alloc)%Z ->
    msg ++ rest = h_data h ->
    (Z.of_nat (length (h_data h)) <= 2 ^ 29 \/ Z.of_nat (length rest) < space)%Z ->
    readall_loop fuel h k rest msg space alloc
    = Read_done 0 (Some (h_data h ++ [NUL])) (Z.of_nat (length (h_data h))).
Proof.
  induction fuel as [|fuel IH]; intros k rest msg space alloc He Hf Hs Ha Hd Hb; [lia|].
  cbn [readall_loop]. rewrite He.
  set (msglen := Z.of_nat (length msg)) in *.
  assert (Hlen : Z.of_nat (length (h_data h)) = (msglen + Z.of_nat (length rest))%Z).
  { rewrite <- Hd, length_app. unfold msglen. lia. }
  replace ((space =? 0)%Z && (maxmsgsize <? msglen * 2)%Z) with false.
  2:{ symmetry. apply andb_false_iff.
      destruct (space =? 0)%Z eqn:E; [right | now left].
      apply Z.eqb_eq in E. apply Z.ltb_ge. unfold maxmsgsize.
      change (2 ^ 30)%Z with 1073741824%Z. change (2 ^ 29)%Z with 536870912%Z in Hb. lia. }
  set (alloc' := if (space =? 0)%Z then (msglen + msglen + 1)%Z else alloc).
  set (space' := if (space =? 0)%Z then msglen else space).
  assert (Hs' : (0 < space')%Z).
  { unfold space'. destruct (space =? 0)%Z eqn:E; [apply Z.eqb_eq in E | apply Z.eqb_neq in E]; lia. }
  assert (Ha' : (msglen + space' + 1 <= alloc')%Z).
  { unfold space', alloc'. destruct (space =? 0)%Z; lia. }
  assert (Hb' : (Z.of_nat (length (h_data h)) <= 2 ^ 29 \/ Z.of_nat (length rest) < space')%Z).
  { unfold space'. destruct (space =? 0)%Z eqn:E; [apply Z.eqb_eq in E | exact Hb]. lia. }
  replace (alloc' <? msglen + space')%Z with false by (symmetry; apply Z.ltb_ge; lia).
  set (x := Nat.min (Z.to_nat space') (Nat.min (S (h_chunk h k)) (length rest))).
  destruct (x =? 0) eqn:Ex.
  - apply Nat.eqb_eq in Ex.
    assert (Hrest : rest = []).
    { destruct rest; [reflexivity|]. exfalso. unfold x in Ex. cbn [length] in Ex. lia. }
    replace (alloc' <=? msglen)%Z with false by (symmetry; apply Z.leb_gt; lia).
    subst rest. rewrite app_nil_r in Hd. subst msg. reflexivity.
  - apply Nat.eqb_neq in Ex.
    assert (Hx : x <= length rest /\ (Z.of_nat x <= space')%Z) by (unfold x; lia).
    apply IH.
    + exact He.
    + rewrite length_skipn. lia.
    + rewrite length_app, length_firstn. lia.
    + rewrite length_app, length_firstn. fold msglen. lia.
    + rewrite <- app_assoc, firstn_skipn. exact Hd.
    + rewrite length_skipn. lia.
Qed.

(** The sizes that [fstat] reports are values of [off_t]. *)
Lemma readall_space (sb : stat) :
  (- 2 ^ 63 <= st_size sb < 2 ^ 63)%Z ->
  (maxmsgsize <? st_size sb mod 2 ^ 64)%Z = false ->
  (0 <= st_size sb <= 2 ^ 30)%Z.
Proof.
  intros Hr H. apply Z.ltb_ge in H. unfold maxmsgsize in H.
  change (2 ^ 63)%Z with 9223372036854775808%Z in Hr.
  change (2 ^ 64)%Z with 18446744073709551616%Z in H.
  change (2 ^ 30)%Z with 1073741824%Z in *. lia.
Qed.

(** A file that opens, whose reads do not fail and whose size is within
    the bounds of [readall], is read whole. *)
Lemma readall_complete (o : os) filename h :
  xopen o filename = Fd h -> h_error h = None ->
  (forall sb, h_fstat h = Some sb -> st_isreg sb = true ->
              (0 <= st_size sb <= 2 ^ 30)%Z) ->
  (Z.of_nat (length (h_data h)) <= 2 ^ 29)%Z
  \/ (exists sb, h_fstat h = Some sb /\ st_isreg sb = true
                 /\ (Z.of_nat (length (h_data h)) <= st_size sb)%Z) ->
  readall o filename
  = Read_done 0 (Some (h_data h ++ [NUL])) (Z.of_nat (length (h_data h))).
Proof.
  intros Ex He Hreg Hsize. unfold readall. rewrite Ex.
  assert (Hloop : forall space,
            (0 < space)%Z ->
            (Z.of_nat (length (h_data h)) <= 2 ^ 29
             \/ Z.of_nat (length (h_data h)) < space)%Z ->
            readall_loop (S (length (h_data h))) h 0 (h_data h) [] space (space + 1)
            = Read_done 0 (Some (h_data h ++ [NUL])) (Z.of_nat (length (h_data h)))).
  { intros space Hs Hb. apply readall_loop_complete; try assumption.
    - lia.
    - left. exact Hs.
    - cbn [length]. lia.
    - reflexivity. }
  destruct (h_fstat h) as [sb|] eqn:Est.
  + destruct (st_isreg sb) eqn:Er.
    * specialize (Hreg sb eq_refl Er).
      replace (maxmsgsize <? st_size sb mod 2 ^ 64)%Z with false.
      2:{ symmetry. apply Z.ltb_ge. unfold maxmsgsize.
          change (2 ^ 30)%Z with 1073741824%Z in *.
          change (2 ^ 64)%Z with 18446744073709551616%Z.
          rewrite Z.mod_small by lia. lia. }
      apply Hloop; [lia|].
      destruct Hsize as [Hsize|(sb' & Hsb & _ & Hsz)]; [now left|].
      right. injection Hsb as <-. lia.
    * apply Hloop; [lia|].
      destruct Hsize as [Hsize|(sb' & Hsb & Hr' & _)]; [now left|].
      injection Hsb as <-. congruence.
  + apply Hloop; [lia|].
    destruct Hsize as [Hsize|(sb' & Hsb & _)]; [now left | discriminate].
Qed.

Lemma slice_length off n (a : bytes) : off + n <= length a -> length (slice off n a) = n.
Proof. intros H. unfold slice. rewrite length_firstn, length_skipn. lia. Qed.


(** A regular file of at most [2^30] bytes is read whole; a larger one is
    turned away. *)
Lemma readall_regular (o : os) filename text :
  regular_file o filename text -> (Z.of_nat (length text) <= 2 ^ 30)%Z ->
  readall o filename = Read_done 0 (Some (text ++ [NUL])) (Z.of_nat (length text)).
Proof.
  intros (h & Hx & Hd & He & sb & Hs & Hr & Hsz) Hlen. rewrite <- Hd in *.
  apply readall_complete; try assumption.
  - intros sb' Hs' _. rewrite Hs in Hs'. injection Hs' as <-. lia.
  - right. exists sb. repeat split; try assumption. lia.
Qed.

Lemma readall_too_large (o : os) filename text :
  regular_file o filename text -> (2 ^ 30 < Z.of_nat (length text) < 2 ^ 63)%Z ->
  readall o filename = Read_done (-2) None 0.
Proof.
  intros (h & Hx & Hd & He & sb & Hs & Hr & Hsz) Hlen.
  unfold readall. rewrite Hx, Hs, Hr.
  replace (maxmsgsize <? st_size sb mod 2 ^ 64)%Z with true; [reflexivity|].
  symmetry. apply Z.ltb_lt. rewrite Hsz. unfold maxmsgsize.
  change (2 ^ 30)%Z with 1073741824%Z in *.
  change (2 ^ 63)%Z with 9223372036854775808%Z in *.
  change (2 ^ 64)%Z with 18446744073709551616%Z.
  rewrite Z.mod_small by lia. lia.
Qed.

Lemma readallorfail_read (o : os) filename d len w :
  readall o filename = Read_done 0 (Some d) len ->
  readallorfail o filename w = (Done (d, len), w).
Proof. intros H. unfold readallorfail. rewrite H. reflexivity. Qed.

Lemma readallorfail_regular (o : os) filename text w :
  regular_file o filename text -> (Z.of_nat (length text) <= 2 ^ 30)%Z ->
  readallorfail o filename w = (Done (text ++ [NUL], Z.of_nat (length text)), w).
Proof. intros H1 H2. apply readallorfail_read. now apply readall_regular. Qed.

Lemma readallorfail_too_large (o : os) filename text w :
  regular_file o filename text -> (2 ^ 30 < Z.of_nat (length text) < 2 ^ 63)%Z ->
  readallorfail o filename w = (Errx "is too large", w).
Proof.
  intros H1 H2. unfold readallorfail. rewrite (readall_too_large H1 H2). reflexivity.
Qed.

Lemma readallorfail_inv (o : os) filename w d len w' :
  readallorfail o filename w = (Done (d, len), w') ->
  readall o filename = Read_done 0 (Some d) len /\ w' = w.
Proof.
  unfold readallorfail, stuck, errx, ret.
  destruct (readall o filename) as [rv m l| |]; try discriminate.
  destruct (rv =? 0)%Z eqn:E.
  - apply Z.eqb_eq in E. subst rv. destruct m as [m|]; [|discriminate].
    intros H. injection H as <- <- <-. split; reflexivity.
  - destruct (rv =? -1)%Z; [discriminate|]. destruct (rv =? -2)%Z; discriminate.
Qed.

(** ** What the loaders return *)

Lemma scan_word_forallb (P : ascii -> bool) n s :
  forallb P s = true -> forallb P (scan_word n s) = true.
Proof.
  revert s. induction n as [|n IH]; intros [|c s] H; try reflexivity.
  cbn [scan_word]. destruct (isspace c); [reflexivity|].
  cbn [forallb] in H |- *. apply andb_true_iff in H. destruct H as [H1 H2].
  now rewrite H1, IH.
Qed.

Lemma scan_word_nospace n s : nospace (scan_word n s) = true.
Proof.
  revert s. induction n as [|n IH]; intros [|c s]; try reflexivity.
  cbn [scan_word]. destruct (isspace c) eqn:E; [reflexivity|].
  unfold nospace in *. cbn [forallb]. now rewrite E, IH.
Qed.

Lemma scan_word_length n s : length (scan_word n s) <= n.
Proof.
  revert s. induction n as [|n IH]; intros [|c s]; cbn [scan_word length]; try lia.
  destruct (isspace c); cbn [length]; [lia|]. specialize (IH s). lia.
Qed.

Lemma skip_space_forallb (P : ascii -> bool) s :
  forallb P s = true -> forallb P (skip_space s) = true.
Proof.
  induction s as [|c s IH]; intros H; [reflexivity|].
  cbn [skip_space]. destruct (isspace c); [|exact H].
  apply IH. cbn [forallb] in H. apply andb_true_iff in H. tauto.
Qed.

(** An identity of one word: from 1 to 63 bytes, none of them white space
    or NUL. *)
Lemma sscanf_ident_word buf ident :
  sscanf_ident buf = Some ident ->
  nospace ident = true /\ nonul ident = true /\ 1 <= length ident <= 63.
Proof.
  unfold sscanf_ident. destruct (prefixb _ _); [|discriminate].
  pose proof (scan_word_nospace 63 (skip_space (skipn 6 (c_str buf)))) as H1.
  pose proof (scan_word_length 63 (skip_space (skipn 6 (c_str buf)))) as H2.
  assert (H3 : nonul (scan_word 63 (skip_space (skipn 6 (c_str buf)))) = true).
  { apply scan_word_forallb, skip_space_forallb. apply nonul_skipn, nonul_c_str. }
  destruct (scan_word 63 _) as [|c l]; [discriminate|].
  intros H. injection H as <-. cbn [length] in *. repeat split; try assumption; lia.
Qed.

Lemma readident_inv buf w ident rest w' :
  readident buf w = (Done (ident, rest), w') ->
  w' = w /\ nospace ident = true /\ nonul ident = true /\ 1 <= length ident <= 63.
Proof.
  unfold readident. destruct (sscanf_ident buf) as [i|] eqn:E; [|discriminate].
  destruct (strchr _ _); [|discriminate].
  unfold ret. intros H. injection H as <- <- <-.
  split; [reflexivity|]. now apply sscanf_ident_word with (buf := buf).
Qed.

(** What [parsekeydata] stores when it returns: [keylen] bytes and an
    identity of one word. *)
Lemma parsekeydata_inv keydata keytype keylen w key ident w' :
  parsekeydata keydata keytype keylen w = (Done (key, ident), w') ->
  w' = w /\ length key = keylen
  /\ nospace ident = true /\ nonul ident = true /\ 1 <= length ident <= 63.
Proof.
  unfold parsekeydata.
  destruct (negb (strncmp_eq (strdup keydata) _)); [discriminate|].
  destruct (negb (strncmp_eq _ keytype)); [discriminate|].
  destruct (strstr _ _) as [e|]; [|discriminate].
  destruct (strchr _ _) as [b|]; [|discriminate].
  unfold bind.
  destruct (readident _ w) as [[[i r]|msg] w1] eqn:E; [|discriminate].
  apply readident_inv in E. destruct E as (-> & Hw).
  destruct (reopb64_pton r keylen) as [k|]; [|discriminate].
  destruct (length k =? keylen) eqn:El; [|discriminate].
  apply Nat.eqb_eq in El. unfold ret. intros H. injection H as <- <- <-.
  auto.
Qed.

(** The secret key that [reop_getseckey] returns has an identity of one
    word and a random id of 8 bytes. *)
Lemma reop_getseckey_inv {C : Crypto} (o : os) seckeyfile password w sk w' :
  reop_getseckey o seckeyfile password w = (Done (Some sk), w') ->
  nospace (sec_ident sk) = true /\ nonul (sec_ident sk) = true
  /\ 1 <= length (sec_ident sk) <= 63
  /\ length (sec_randomid sk) = 8.
Proof.
  unfold reop_getseckey.
  destruct (match seckeyfile with Some f => Some f | None => _ end) as [f|];
    [|discriminate].
  destruct (readall_msg (readall o f)) as [keydata|]; [|discriminate].
  unfold bind.
  destruct (parsekeydata keydata _ seckeysize w) as [[[img ident]|msg] w1] eqn:E;
    [|discriminate].
  apply parsekeydata_inv in E. destruct E as (-> & Hlen & Hs & Hn & Hl).
  unfold decryptseckey.
  destruct (negb (memcmp_eq 2 _ KDFALG)).
  { unfold ret. cbn [negb Z.eqb]. discriminate. }
  unfold bind.
  destruct (kdf _ _ _ _ _ w) as [[symkey|msg] w2]; [|discriminate].
  destruct (symdecryptraw _ _ _ _ w2) as [[[rv buf]|msg] w3]; [|discriminate].
  destruct (negb (rv =? 0)%Z) eqn:Erv; unfold ret.
  - rewrite Erv. discriminate.
  - cbn [negb Z.eqb]. intros H. injection H as <- <-.
    cbn [sec_ident sec_randomid seckey_of_image].
    repeat split; try assumption; try lia.
    apply slice_length. rewrite Hlen. unfold seckeysize. lia.
Qed.

Lemma nospace_ident_unmarked ident : nospace ident = true -> ident_unmarked ident = true.
Proof.
  intros H. unfold ident_unmarked. rewrite (nospace_ident_line _ H).
  rewrite (find_sub_forallb (fun c => negb (isspace c))
             (lit "-----BEGIN REOP SIGNATURE-----") ident)
    by (reflexivity || exact H).
  reflexivity.
Qed.

Lemma length_c_str_le s : length (c_str s) <= length s.
Proof.
  induction s as [|c s IH]; [reflexivity|].
  cbn [c_str]. destruct (Ascii.eqb c NUL); cbn [length]; lia.
Qed.

(** The string that [encodekey] returns fits its buffer of 1024 bytes. *)
Lemma encodekey_length info key ident w text w' :
  encodekey info key ident w = (Done text, w') -> length text <= 1023.
Proof.
  unfold encodekey, uninitialised, bind, ret.
  destruct (reopb64_ntop key 1024); [|discriminate].
  match goal with |- context [strdup ?b] => set (body := b) end.
  intros H. assert (Ht : text = strdup body) by congruence.
  assert (Hb : length body <= 1023)
    by (unfold body, snprintf; rewrite length_firstn; lia).
  pose proof (length_c_str_le body). rewrite Ht. unfold strdup. lia.
Qed.


(** ** Embedded signatures *)

Lemma c_str_skipn k s : k <= strlen s -> c_str (skipn k s) = skipn k (c_str s).
Proof.
  unfold strlen. revert k. induction s as [|c s IH]; intros k Hk.
  - destruct k; reflexivity.
  - destruct k as [|k]; [reflexivity|].
    cbn [c_str] in Hk |- *. destruct (Ascii.eqb c NUL).
    + simpl in Hk. lia.
    + cbn [skipn]. apply IH. simpl in Hk. lia.
Qed.

Lemma find_sub_Some_inv n s p :
  find_sub n s = Some p -> prefixb n (skipn p s) = true.
Proof.
  revert p. induction s as [|c s IH]; intros p; cbn [find_sub].
  - destruct (prefixb n []) eqn:E; [|discriminate].
    intros H. injection H as <-. exact E.
  - destruct (prefixb n (c :: s)) eqn:E.
    + intros H. injection H as <-. exact E.
    + destruct (find_sub n s) as [k|]; [|discriminate].
      intros H. injection H as <-. cbn [skipn]. now apply IH.
Qed.

Lemma find_sub_None_inv n s q :
  find_sub n s = None -> prefixb n (skipn q s) = false.
Proof.
  revert q. induction s as [|c s IH]; intros q; cbn [find_sub].
  - destruct (prefixb n []) eqn:E; [discriminate|].
    intros _. destruct q; exact E.
  - destruct (prefixb n (c :: s)) eqn:E; [discriminate|].
    destruct (find_sub n s) as [k|]; [discriminate|].
    intros _. destruct q as [|q]; [exact E|]. cbn [skipn]. now apply IH.
Qed.

Lemma find_sub_found n s p :
  prefixb n (skipn p s) = true -> exists p0, find_sub n s = Some p0.
Proof.
  intros H. destruct (find_sub n s) as [p0|] eqn:E; [now exists p0|].
  rewrite (find_sub_None_inv _ _ p E) in H. discriminate.
Qed.

Lemma prefixb_inside n s p :
  n <> [] -> prefixb n (skipn p s) = true -> p < length s.
Proof.
  intros Hn H. destruct (Nat.lt_ge_cases p (length s)) as [Hlt|Hge]; [exact Hlt|].
  rewrite skipn_all2 in H by exact Hge. destruct n; [congruence | discriminate].
Qed.

(** The scan of [verifyembedded] ends on the last occurrence. *)
Lemma last_sig_loop_last n msg :
  n <> [] ->
  forall fuel p,
    prefixb n (skipn p (c_str msg)) = true ->
    strlen msg - p <= fuel ->
    last_occurrence n (c_str msg) (last_sig_loop fuel msg n p).
Proof.
  intros Hn. induction fuel as [|fuel IH]; intros p Hp Hfuel.
  - apply prefixb_inside in Hp; [|exact Hn]. unfold strlen in Hfuel. lia.
  - pose proof (prefixb_inside _ _ Hn Hp) as Hlt.
    cbn [last_sig_loop]. unfold strstr.
    rewrite c_str_skipn by (unfold strlen; lia).
    destruct (find_sub n (skipn (p + 1) (c_str msg))) as [k|] eqn:E.
    + apply IH.
      * apply find_sub_Some_inv in E. rewrite skipn_skipn in E.
        now replace (p + 1 + k) with (k + (p + 1)) by lia.
      * unfold strlen in *. lia.
    + split; [exact Hp|]. intros q Hq.
      replace q with ((q - (p + 1)) + (p + 1)) by lia.
      rewrite <- skipn_skipn. now apply find_sub_None_inv.
Qed.

Lemma last_occurrence_unique n s p q :
  last_occurrence n s p -> last_occurrence n s q -> p = q.
Proof.
  intros [Hp Hp'] [Hq Hq'].
  destruct (Nat.lt_trichotomy p q) as [H|[H|H]]; [|exact H|].
  - rewrite (Hp' q H) in Hq. discriminate.
  - rewrite (Hq' p H) in Hp. discriminate.
Qed.

Lemma find_sub_sig_begin X :
  find_sub beginsig (skipn 1 (begin_line (kind_name SIGNATURE)) ++ lit "ident:" ++ X)
  = option_map (fun k => length (skipn 1 (begin_line (kind_name SIGNATURE)) ++ lit "ident:") + k)
               (find_sub beginsig X).
Proof. cbn. destruct (find_sub _ X); reflexivity. Qed.

Lemma find_sub_sig_end : find_sub beginsig (endkey ++ lit "SIGNED MESSAGE-----" ++ [NL]) = None.
Proof. reflexivity. Qed.

(** In a signed message the signature opener occurs last where the
    signature block starts. *)
Lemma last_occurrence_block m ident payload :
  find_chr NL ident = None ->
  find_sub (lit "-----BEGIN REOP SIGNATURE-----") ident = None ->
  find_chr DASH payload = None ->
  last_occurrence beginsig
    (m ++ armor_head (kind_name SIGNATURE) ident payload
       ++ endkey ++ lit "SIGNED MESSAGE-----" ++ [NL])
    (length m).
Proof.
  intros Hnl Hbegin Hdash. split.
  - rewrite skipn_app_exact by reflexivity.
    unfold armor_head. rewrite <- app_assoc.
    change (begin_line (kind_name SIGNATURE)) with beginsig.
    apply prefixb_refl_app.
  - intros q Hq.
    replace q with ((q - (length m + 1)) + 1 + length m) by lia.
    rewrite <- skipn_skipn, skipn_app_exact by reflexivity.
    rewrite <- skipn_skipn. apply find_sub_None_inv.
    rewrite armor_head_eq, <- !app_assoc.
    change (skipn 1 (begin_line (kind_name SIGNATURE) ++
              lit "ident:" ++ ident ++ (NL :: payload) ++ endkey ++
              lit "SIGNED MESSAGE-----" ++ [NL]))
      with (skipn 1 (begin_line (kind_name SIGNATURE)) ++
              lit "ident:" ++ (ident ++ NL :: (payload ++ endkey ++
              lit "SIGNED MESSAGE-----" ++ [NL]))).
    rewrite find_sub_sig_begin.
    unfold beginsig.
    rewrite find_sub_skip_line; [| discriminate | reflexivity | exact Hbegin].
    change (lit "-----BEGIN REOP SIGNATURE-----" ++ [NL])
      with (DASH :: lit "----BEGIN REOP SIGNATURE-----" ++ [NL]).
    rewrite find_sub_skip_free by exact Hdash.
    change (DASH :: lit "----BEGIN REOP SIGNATURE-----" ++ [NL]) with beginsig.
    rewrite find_sub_sig_end. reflexivity.
Qed.

Lemma sig_of_image_image s ident :
  length (sig_sigalg s) = 2 -> length (sig_randomid s) = 8 -> length (sig_sig s) = 64 ->
  sig_of_image (sig_image s) ident
  = mkSig (sig_sigalg s) (sig_randomid s) (sig_sig s) ident.
Proof.
  intros H1 H2 H3. unfold sig_of_image, sig_image.
  rewrite <- (app_nil_r (sig_sig s)) at 1 2 3.
  f_equal;
    repeat (first [ rewrite slice_app_l by assumption; reflexivity
                  | rewrite slice_app_r by lia; rewrite ?H1, ?H2; cbn [Nat.sub] ]).
Qed.

Lemma ident_unmarked_inv ident :
  ident_unmarked ident = true ->
  find_chr NL ident = None /\ find_sub endkey ident = None
  /\ find_sub (lit "-----BEGIN REOP SIGNATURE-----") ident = None.
Proof.
  unfold ident_unmarked. intros H. apply andb_true_iff in H. destruct H as [H1 H2].
  apply ident_line_inv in H1. destruct H1 as [Ha Hb].
  destruct (find_sub (lit "-----BEGIN REOP SIGNATURE-----") ident); [discriminate|]. auto.
Qed.

Section Embedded.

Context {C : Crypto}.

(** The file that [writesignedmsg] writes. *)
Lemma writesignedmsg_text sig ident m w :
  nonul ident = true -> length ident <= 63 ->
  length (sig_image sig) = sigsize ->
  writesignedmsg sig ident m w
  = (Done (beginmsg ++ m
           ++ armor_head (kind_name SIGNATURE) ident (payload_of (sig_image sig))
           ++ endkey ++ lit "SIGNED MESSAGE-----" ++ [NL]), w).
Proof.
  intros Hi Hlen Himg. unfold writesignedmsg.
  destruct (b64_length_kind SIGNATURE (sig_image sig) Himg) as (Hn1 & Hn2 & _ & _).
  cbv zeta in Hn1, Hn2.
  unfold reopb64_ntop.
  replace (length (b64_encode (sig_image sig)) <? 1024) with true
    by (symmetry; apply Nat.ltb_lt; lia).
  change (c_str (snprintf 1024 (lit "-----BEGIN REOP SIGNED MESSAGE-----" ++ [NL])))
    with beginmsg.
  change (c_str (snprintf 1024 (lit "-----END REOP SIGNED MESSAGE-----" ++ [NL])))
    with (endkey ++ lit "SIGNED MESSAGE-----" ++ [NL]).
  rewrite (c_str_id ident) by exact Hi.
  assert (H2 : c_str (snprintf 1024 (lit "-----BEGIN REOP SIGNATURE-----" ++ [NL]
                                      ++ lit "ident:" ++ ident ++ [NL]))
               = begin_line (kind_name SIGNATURE) ++ lit "ident:" ++ ident ++ [NL]).
  { unfold snprintf. rewrite firstn_all2.
    - rewrite c_str_id; [reflexivity|]. rewrite !nonul_app, Hi. reflexivity.
    - rewrite !length_app. cbn [length lit list_ascii_of_string Nat.sub]. lia. }
  rewrite H2.
  unfold writeb64data, strlen. rewrite c_str_id by apply nonul_b64_encode.
  fold (payload_of (sig_image sig)).
  unfold ret, armor_head. rewrite <- !app_assoc. reflexivity.
Qed.

(** C8, as amended.  [verifyembedded] takes as the message the bytes
    between the end of the [SIGNED MESSAGE] opener line and the last
    occurrence of the [SIGNATURE] opener line in the text of the file (the
    bytes before its first NUL).  So a message without NUL bytes, signed
    in embedded form with a secret key that [reop_getseckey] loaded and
    kept in a regular file of [2^30] bytes at most, verifies under the
    public half of the signer's pair, found for the identity that the
    signature names, and the message verified is the whole plaintext,
    also when the plaintext contains signature opener lines of its own.
    A signed file of more than [2^30] bytes is turned away as too
    large. *)
Theorem embedded_signature_last_opener (L : CryptoLaws C) :
  (forall o pubkeyfile sigfile w span w',
     verifyembedded o pubkeyfile sigfile w = (Done span, w') ->
     exists msgdata len p,
       readall o sigfile = Read_done 0 (Some msgdata) len
       /\ last_occurrence beginsig (c_str (skipn 36 msgdata)) p
       /\ span = firstn p (skipn 36 msgdata))
  /\ (forall o seckeyfile sk pk m w0 w,
        reop_getseckey o seckeyfile None w0 = (Done (Some sk), w) ->
        key_pair pk sk ->
        nonul m = true ->
        exists file w1,
          signfile_embedded (Some sk) m w = (Done file, w1)
          /\ forall o' pubkeyfile sigfile w2,
               regular_file o' sigfile file ->
               (Z.of_nat (length file) <= 2 ^ 30)%Z ->
               reop_getpubkey o' pubkeyfile (Some (sec_ident sk)) w2
               = (Done (Some pk), w2) ->
               fst (verifyembedded o' pubkeyfile sigfile w2) = Done m)
  /\ (forall o pubkeyfile sigfile file w,
        regular_file o sigfile file ->
        (2 ^ 30 < Z.of_nat (length file) < 2 ^ 63)%Z ->
        verifyembedded o pubkeyfile sigfile w = (Errx "is too large", w)).
Proof.
  split; [|split].
  - intros o pubkeyfile sigfile w span w' H. unfold verifyembedded in H.
    unfold bind at 1 in H.
    destruct (readallorfail o sigfile w) as [[[msgdata len]|e] w0] eqn:Er;
      [|discriminate].
    apply readallorfail_inv in Er. destruct Er as [Er ->].
    destruct (strncmp_eq msgdata _); cbn [negb] in H; [|discriminate].
    destruct (strstr (skipn 36 msgdata) _) as [p0|] eqn:E; [|discriminate].
    unfold bind in H.
    destruct (reop_parsesig _ w) as [[sig|e] w1]; [|discriminate].
    destruct (reop_getpubkey o pubkeyfile _ w1) as [[[pub|]|e] w2]; try discriminate.
    destruct (reop_verify _ _ _ w2) as [[rv|e] w3]; [|discriminate].
    destruct rv; try discriminate.
    unfold ret in H. injection H as <- _.
    exists msgdata, len. eexists. split; [exact Er|]. split; [|reflexivity].
    apply last_sig_loop_last.
    + discriminate.
    + now apply find_sub_Some_inv.
    + lia.
  - intros o seckeyfile sk pk m w0 w Hload Hpair Hm.
    destruct (reop_getseckey_inv _ _ _ _ Hload) as (Hs & Hnul & [Hne Hlen] & Hrid).
    destruct Hpair as (_ & Hrand & _ & _ & (seedS & HpkS & HskS) & _).
    destruct (ident_unmarked_inv _ (nospace_ident_unmarked _ Hs)) as (Hnl & Hend & Hbegin).
    unfold signfile_embedded, reop_sign, signraw. mrun.
    cbn [sig_ident].
    rewrite strlcpy_id by (try assumption; unfold IDENTLEN; lia).
    set (ident := sec_ident sk) in *.
    assert (Hrid' : memcpy (sec_randomid sk) RANDOMIDLEN = sec_randomid sk)
      by (unfold memcpy; apply firstn_all2; unfold RANDOMIDLEN; lia).
    rewrite Hrid'.
    set (sig := mkSig (memcpy SIGALG 2) (sec_randomid sk)
                      (crypto_sign_detached m (sec_sigkey sk)) ident).
    assert (Himg : length (sig_image sig) = sigsize).
    { unfold sig_image, sig. cbn [sig_sigalg sig_randomid sig_sig].
      rewrite !length_app, sign_length, Hrid. reflexivity. }
    rewrite writesignedmsg_text by assumption.
    do 2 eexists. split; [reflexivity|].
    intros o' pubkeyfile sigfile w2 Hfile Hsize Hget.
    set (payload := payload_of (sig_image sig)) in *.
    set (block := armor_head (kind_name SIGNATURE) ident payload
                  ++ endkey ++ lit "SIGNED MESSAGE-----" ++ [NL]) in *.
    assert (Hblock : nonul block = true).
    { unfold block, armor_head, begin_line. rewrite !nonul_app, Hnul.
      cbn [nonul forallb]. fold (nonul payload). unfold payload.
      rewrite nonul_payload. reflexivity. }
    assert (Hmb : nonul (m ++ block) = true) by now rewrite nonul_app, Hm, Hblock.
    unfold verifyembedded. unfold bind at 1.
    rewrite (readallorfail_regular w2 Hfile Hsize).
    (* the opener of the file *)
    replace (strncmp_eq ((beginmsg ++ m ++ block) ++ [NUL])
                        (lit "-----BEGIN REOP SIGNED MESSAGE-----" ++ [NL])) with true.
    2:{ symmetry. unfold strncmp_eq. rewrite c_str_app_nul.
        - apply prefixb_refl_app.
        - rewrite nonul_app, Hmb. reflexivity. }
    cbn [negb].
    assert (Hmsg : skipn 36 ((beginmsg ++ m ++ block) ++ [NUL]) = (m ++ block) ++ [NUL]).
    { rewrite <- app_assoc. now apply skipn_app_exact. }
    rewrite Hmsg.
    assert (Hc : c_str ((m ++ block) ++ [NUL]) = m ++ block)
      by now apply c_str_app_nul.
    (* the last signature opener *)
    pose proof (last_occurrence_block m ident payload Hnl Hbegin (nodash_payload _))
      as Hlast.
    fold block in Hlast.
    destruct (find_sub_found beginsig (m ++ block) (length m) (proj1 Hlast)) as [p0 E].
    unfold strstr at 1. rewrite Hc.
    change (lit "-----BEGIN REOP SIGNATURE-----" ++ [NL]) with beginsig.
    rewrite E.
    assert (Hp : last_sig_loop (strlen ((m ++ block) ++ [NUL]))
                               ((m ++ block) ++ [NUL]) beginsig p0 = length m).
    { apply last_occurrence_unique with (n := beginsig) (s := m ++ block);
        [|exact Hlast].
      rewrite <- Hc at 1. apply last_sig_loop_last.
      - discriminate.
      - rewrite Hc. now apply find_sub_Some_inv.
      - lia. }
    rewrite Hp.
    assert (Hsk : skipn (length m) ((m ++ block) ++ [NUL]) = block ++ [NUL]).
    { rewrite <- app_assoc. now apply skipn_app_exact. }
    assert (Hf : firstn (length m) ((m ++ block) ++ [NUL]) = m).
    { rewrite <- app_assoc. now apply firstn_app_exact. }
    rewrite Hsk, Hf.
    (* the signature block *)
    unfold bind, reop_parsesig, bind.
    change (lit "SIGNATURE") with (kind_name SIGNATURE).
    rewrite <- Himg.
    rewrite parsekeydata_armored
      with (ident := ident) (payload := payload)
           (Z := lit "SIGNED MESSAGE-----" ++ [NL]) (key := sig_image sig);
      [ | now apply c_str_app_nul | exact Hnl | exact Hend | apply nodash_payload
        | apply decode_payload | rewrite Himg; unfold sigsize; lia ].
    rewrite skip_space_word;
      [ | exact Hs | destruct ident; [simpl in Hne; lia | discriminate] ].
    rewrite scan_word_line by assumption.
    rewrite sig_of_image_image; [ | reflexivity | exact Hrid | apply sign_length ].
    cbn [ret sig_ident]. rewrite Hget.
    (* the signature *)
    unfold reop_verify, verifyraw.
    cbn [sig_randomid sig_sig sig].
    rewrite Hrand, memcmp_eq_refl. cbn [negb]. mrun.
    rewrite HpkS, HskS, sign_verify. reflexivity.
  - intros o pubkeyfile sigfile file w Hfile Hsize. unfold verifyembedded.
    unfold bind at 1. rewrite (readallorfail_too_large w Hfile Hsize). reflexivity.
Qed.

End Embedded.

(** ** Public keys and signatures through the armor *)

Lemma pubkey_of_image_image k ident :
  length (pub_sigalg k) = 2 -> length (pub_encalg k) = 2 ->
  length (pub_randomid k) = 8 -> length (pub_sigkey k) = 32 ->
  length (pub_enckey k) = 32 ->
  pubkey_of_image (pubkey_image k) ident
  = mkPubkey (pub_sigalg k) (pub_encalg k) (pub_randomid k) (pub_sigkey k)
             (pub_enckey k) ident.
Proof.
  intros H1 H2 H3 H4 H5. unfold pubkey_of_image, pubkey_image.
  rewrite <- (app_nil_r (pub_enckey k)) at 1 2 3 4 5.
  f_equal;
    repeat (first [ rewrite slice_app_l by assumption; reflexivity
                  | rewrite slice_app_r by lia;
                    rewrite ?H1, ?H2, ?H3, ?H4; cbn [Nat.sub] ]).
Qed.

Lemma pubkey_wf_inv k :
  pubkey_wf k = true ->
  length (pub_sigalg k) = 2 /\ length (pub_encalg k) = 2
  /\ length (pub_randomid k) = 8 /\ length (pub_sigkey k) = 32
  /\ length (pub_enckey k) = 32 /\ nonul (pub_ident k) = true
  /\ length (pub_ident k) <= 63.
Proof.
  unfold pubkey_wf. rewrite !andb_true_iff, !Nat.eqb_eq, Nat.leb_le.
  intros H. unfold RANDOMIDLEN, SIGPUBLICBYTES, ENCPUBLICBYTES, IDENTLEN in H.
  cbn [Nat.sub] in H. tauto.
Qed.

Lemma sig_wf_inv s :
  sig_wf s = true ->
  length (sig_sigalg s) = 2 /\ length (sig_randomid s) = 8
  /\ length (sig_sig s) = 64 /\ nonul (sig_ident s) = true
  /\ length (sig_ident s) <= 63.
Proof.
  unfold sig_wf. rewrite !andb_true_iff, !Nat.eqb_eq, Nat.leb_le.
  intros H. unfold RANDOMIDLEN, SIGBYTES, IDENTLEN in H.
  cbn [Nat.sub] in H. tauto.
Qed.

(** A block that [encodekey] made under an identity of one word, parsed
    back. *)
Lemma encode_parse_word kind key ident w :
  nonul ident = true -> length ident <= 63 -> length key = kind_size kind ->
  nospace ident = true -> 1 <= length ident ->
  (text <- encodekey (kind_name kind) key ident ;;
   parsekeydata text (kind_name kind) (kind_size kind)) w
  = (Done (key, ident), w).
Proof.
  intros Hi Hlen Hkey Hs Hne. unfold bind.
  rewrite encodekey_armored by assumption.
  rewrite parsekeydata_encoded by (try assumption; now apply nospace_ident_line).
  rewrite skip_space_word; [| exact Hs | destruct ident; [simpl in Hne; lia | discriminate]].
  rewrite scan_word_line by assumption. reflexivity.
Qed.

(** X1.  A public key whose members have their declared sizes and whose
    identity is one word (1 to 63 bytes, no white space) is returned
    unchanged, every member of it, by [reop_parsepubkey] from the text
    that [reop_encodepubkey] made of it. *)
Theorem pubkey_encode_parse_roundtrip pk w :
  pubkey_wf pk = true ->
  nospace (pub_ident pk) = true -> 1 <= length (pub_ident pk) ->
  (text <- reop_encodepubkey pk ;; reop_parsepubkey text) w = (Done pk, w).
Proof.
  intros Hwf Hs Hne.
  destruct (pubkey_wf_inv pk Hwf) as (H1 & H2 & H3 & H4 & H5 & Hi & Hlen).
  assert (Himg : length (pubkey_image pk) = kind_size PUBLIC_KEY).
  { unfold pubkey_image. rewrite !length_app. cbn [kind_size]. unfold pubkeysize. lia. }
  pose proof (@encode_parse_word PUBLIC_KEY (pubkey_image pk) (pub_ident pk) w
                Hi Hlen Himg Hs Hne) as E.
  unfold bind in E |- *. unfold reop_encodepubkey, reop_parsepubkey, bind.
  cbn [kind_name kind_size] in E.
  destruct (encodekey (lit "PUBLIC KEY") (pubkey_image pk) (pub_ident pk) w)
    as [[text|msg] w1]; [|discriminate].
  rewrite E. unfold ret. rewrite pubkey_of_image_image by assumption.
  destruct pk; reflexivity.
Qed.

(** X2.  The same for a signature: [reop_parsesig] returns, member for
    member, the signature that [reop_encodesig] encoded, when its members
    have their declared sizes and its identity is one word. *)
Theorem sig_encode_parse_roundtrip sig w :
  sig_wf sig = true ->
  nospace (sig_ident sig) = true -> 1 <= length (sig_ident sig) ->
  (text <- reop_encodesig sig ;; reop_parsesig text) w = (Done sig, w).
Proof.
  intros Hwf Hs Hne.
  destruct (sig_wf_inv sig Hwf) as (H1 & H2 & H3 & Hi & Hlen).
  assert (Himg : length (sig_image sig) = kind_size SIGNATURE).
  { unfold sig_image. rewrite !length_app. cbn [kind_size]. unfold sigsize. lia. }
  pose proof (@encode_parse_word SIGNATURE (sig_image sig) (sig_ident sig) w
                Hi Hlen Himg Hs Hne) as E.
  unfold bind in E |- *. unfold reop_encodesig, reop_parsesig, bind.
  cbn [kind_name kind_size] in E.
  destruct (encodekey (lit "SIGNATURE") (sig_image sig) (sig_ident sig) w)
    as [[text|msg] w1]; [|discriminate].
  rewrite E. unfold ret. rewrite sig_of_image_image by assumption.
  destruct sig; reflexivity.
Qed.

(** X3.  A block that [encodekey] made for one kind of structure is
    rejected by [parsekeydata] when it is asked for another kind: the
    process exits with "invalid key data", whatever the block holds. *)
Theorem armored_block_of_other_kind_is_rejected kind kind' key ident w :
  kind <> kind' ->
  nonul ident = true -> length ident <= 63 -> length key = kind_size kind ->
  (text <- encodekey (kind_name kind) key ident ;;
   parsekeydata text (kind_name kind') (kind_size kind')) w
  = (Errx "invalid key data", w).
Proof.
  intros Hk Hi Hlen Hkey. unfold bind.
  rewrite encodekey_armored by assumption.
  unfold parsekeydata, strdup.
  rewrite (c_str_id (armored (kind_name kind) ident (payload_of key)))
    by now apply nonul_armored.
  unfold armored, armor_head, begin_line, strncmp_eq.
  destruct kind, kind'; try congruence; reflexivity.
Qed.

(** ** Detached signatures *)

Section Detached.

Context {C : Crypto}.


(** X5.  [verifysimple] returns (and prints its message) only when the
    signature file was read and parsed, a public key was found for the
    identity the signature names, the random ids of key and signature
    agree, and the verification primitive accepted the signature bytes
    for this very message under the signing key of that public key.  In
    every other case the process exits through [errx]. *)
Theorem verifysimple_returns_only_if_verified
    (getpubkey : bytes -> M (option reop_pubkey)) msg sigdata quiet w out w' :
  verifysimple getpubkey msg sigdata quiet w = (Done out, w') ->
  exists text sig pub w1 w2,
    sigdata = Some text
    /\ reop_parsesig text w = (Done sig, w1)
    /\ getpubkey (sig_ident sig) w1 = (Done (Some pub), w2)
    /\ firstn RANDOMIDLEN (pub_randomid pub) = firstn RANDOMIDLEN (sig_randomid sig)
    /\ crypto_sign_verify_detached (sig_sig sig) msg (pub_sigkey pub) = true
    /\ out = verified_message quiet.
Proof.
  unfold verifysimple, readsigfile, bind. intros H.
  destruct sigdata as [text|]; [|discriminate].
  destruct (reop_parsesig text w) as [[sig|e] w1] eqn:E1; [|discriminate].
  destruct (getpubkey (sig_ident sig) w1) as [[[pub|]|e] w2] eqn:E2; try discriminate.
  unfold reop_verify, verifyraw in H.
  destruct (memcmp_eq RANDOMIDLEN (pub_randomid pub) (sig_randomid sig)) eqn:E3;
    cbn [negb] in H; [|discriminate].
  revert H. mrun.
  destruct (crypto_sign_verify_detached (sig_sig sig) msg (pub_sigkey pub)) eqn:E4;
    cbn [Z.eqb]; [|discriminate].
  intros H. injection H as <- _.
  exists text, sig, pub, w1, w2.
  apply memcmp_eq_true in E3. auto 10.
Qed.

End Detached.

(** ** Passphrases and symmetric envelopes *)

Lemma rounds_42_stored : to_int (ntohl (htonl 42)) = 42%Z.
Proof. reflexivity. Qed.

Lemma randombytes_nonempty (f : nat -> ascii) p n : 1 <= n -> map f (seq p n) <> [].
Proof. destruct n; [lia|]. discriminate. Qed.

Lemma c_str_firstn n s : c_str (firstn n (c_str s)) = firstn n (c_str s).
Proof. apply c_str_id, nonul_firstn, nonul_c_str. Qed.

Section Passphrase.

Context {C : Crypto}.

Lemma kdf_given salt rounds p confirm keylen w :
  rounds <> 0%Z ->
  kdf salt rounds (Some p) confirm keylen w = kdf_with p salt rounds keylen w.
Proof.
  intros Hr. unfold kdf, kdf_with. apply Z.eqb_neq in Hr. rewrite Hr. mrun.
  destruct (bcrypt_pbkdf _ _ _ _); reflexivity.
Qed.

Lemma kdf_environment salt rounds p confirm keylen w :
  rounds <> 0%Z -> env_REOP_PASSPHRASE w = Some p ->
  kdf salt rounds None confirm keylen w = kdf_with p salt rounds keylen w.
Proof.
  intros Hr He. destruct w as [r rp tr env t st].
  cbn [env_REOP_PASSPHRASE] in He. subst env.
  unfold kdf, kdf_with. apply Z.eqb_neq in Hr. rewrite Hr. mrun.
  destruct (bcrypt_pbkdf _ _ _ _); reflexivity.
Qed.

(** X6.  Where [kdf] takes the passphrase from, for a number of rounds
    other than 0: from its argument when one is given; else from
    [REOP_PASSPHRASE] when that is set, and in both cases the terminal is
    not read; else from the terminal, of whose entry the first 1023 bytes
    are kept, entered once, or twice alike when confirmation is asked.
    At the terminal a failed read, of the entry or of its confirmation,
    ends the process with "unable to read passphrase", an empty entry
    with "please provide a password", and a confirmation that differs
    with "passwords don't match"; in none of these cases is
    [bcrypt_pbkdf] called. *)
Theorem kdf_passphrase_sources salt rounds keylen :
  rounds <> 0%Z ->
  (forall p confirm w,
     kdf salt rounds (Some p) confirm keylen w = kdf_with p salt rounds keylen w)
  /\ (forall p confirm w,
        env_REOP_PASSPHRASE w = Some p ->
        kdf salt rounds None confirm keylen w = kdf_with p salt rounds keylen w)
  /\ (forall confirm w,
        env_REOP_PASSPHRASE w = None ->
        (tty w = [] \/ exists rest, tty w = None :: rest) ->
        fst (kdf salt rounds None confirm keylen w) = Errx "unable to read passphrase"
        /\ trace (snd (kdf salt rounds None confirm keylen w)) = trace w)
  /\ (forall confirm s rest w,
        env_REOP_PASSPHRASE w = None -> tty w = Some s :: rest -> strlen s = 0 ->
        fst (kdf salt rounds None confirm keylen w) = Errx "please provide a password"
        /\ trace (snd (kdf salt rounds None confirm keylen w)) = trace w)
  /\ (forall s rest w,
        env_REOP_PASSPHRASE w = None -> tty w = Some s :: rest -> 1 <= strlen s ->
        (rest = [] \/ exists rest', rest = None :: rest') ->
        fst (kdf salt rounds None true keylen w) = Errx "unable to read passphrase"
        /\ trace (snd (kdf salt rounds None true keylen w)) = trace w)
  /\ (forall s s2 rest w,
        env_REOP_PASSPHRASE w = None -> tty w = Some s :: Some s2 :: rest ->
        1 <= strlen s ->
        firstn 1023 (c_str s) <> firstn 1023 (c_str s2) ->
        fst (kdf salt rounds None true keylen w) = Errx "passwords don't match"
        /\ trace (snd (kdf salt rounds None true keylen w)) = trace w)
  /\ (forall s s2 rest w,
        env_REOP_PASSPHRASE w = None -> tty w = Some s :: Some s2 :: rest ->
        1 <= strlen s ->
        firstn 1023 (c_str s) = firstn 1023 (c_str s2) ->
        fst (kdf salt rounds None true keylen w)
        = fst (kdf_with (firstn 1023 (c_str s)) salt rounds keylen w)
        /\ tty (snd (kdf salt rounds None true keylen w)) = rest)
  /\ (forall s rest w,
        env_REOP_PASSPHRASE w = None -> tty w = Some s :: rest -> 1 <= strlen s ->
        fst (kdf salt rounds None false keylen w)
        = fst (kdf_with (firstn 1023 (c_str s)) salt rounds keylen w)
        /\ tty (snd (kdf salt rounds None false keylen w)) = rest).
Proof.
  intros Hr.
  assert (Hne : forall s, 1 <= strlen s -> (length (firstn 1023 (c_str s)) =? 0) = false).
  { intros s Hs. apply Nat.eqb_neq. rewrite length_firstn. unfold strlen in Hs. lia. }
  split; [|split; [|split; [|split; [|split; [|split; [|split]]]]]].
  - intros p confirm w. now apply kdf_given.
  - intros p confirm w He. now apply kdf_environment.
  - intros confirm w He Ht. unfold kdf. apply Z.eqb_neq in Hr. rewrite Hr. mrun.
    rewrite He. mrun. unfold readpassphrase.
    destruct Ht as [Ht|[rest Ht]]; rewrite Ht; split; reflexivity.
  - intros confirm s rest w He Ht Hs. unfold kdf. apply Z.eqb_neq in Hr. rewrite Hr. mrun.
    rewrite He. mrun. unfold readpassphrase. rewrite Ht.
    cbn [option_map Nat.sub]. unfold strlen. rewrite c_str_firstn.
    unfold strlen in Hs. apply length_zero_iff_nil in Hs. rewrite Hs.
    rewrite firstn_nil. split; reflexivity.
  - intros s rest w He Ht Hs Hrest. unfold kdf. apply Z.eqb_neq in Hr. rewrite Hr. mrun.
    rewrite He. mrun. unfold readpassphrase. rewrite Ht.
    cbn [option_map Nat.sub tty]. unfold strlen. rewrite c_str_firstn, (Hne s Hs).
    mrun. cbn [option_map Nat.sub tty].
    destruct Hrest as [->|[rest' ->]]; split; reflexivity.
  - intros s s2 rest w He Ht Hs Hd. unfold kdf. apply Z.eqb_neq in Hr. rewrite Hr. mrun.
    rewrite He. mrun. unfold readpassphrase. rewrite Ht.
    cbn [option_map Nat.sub tty]. unfold strlen. rewrite c_str_firstn, (Hne s Hs).
    mrun. cbn [option_map Nat.sub tty].
    apply bytes_eqb_neq in Hd. rewrite Hd. split; reflexivity.
  - intros s s2 rest w He Ht Hs Hd. unfold kdf, kdf_with.
    apply Z.eqb_neq in Hr. rewrite Hr. mrun.
    rewrite He. mrun. unfold readpassphrase. rewrite Ht.
    cbn [option_map Nat.sub tty]. unfold strlen. rewrite c_str_firstn, (Hne s Hs).
    mrun. cbn [option_map Nat.sub tty].
    rewrite <- Hd, bytes_eqb_refl. mrun. rewrite ?c_str_firstn.
    destruct (bcrypt_pbkdf (firstn 1023 (c_str s)) salt keylen (to_unsigned rounds));
      split; reflexivity.
  - intros s rest w He Ht Hs. unfold kdf, kdf_with.
    apply Z.eqb_neq in Hr. rewrite Hr. mrun.
    rewrite He. mrun. unfold readpassphrase. rewrite Ht.
    cbn [option_map Nat.sub tty]. unfold strlen. rewrite c_str_firstn, (Hne s Hs).
    mrun. rewrite ?c_str_firstn.
    destruct (bcrypt_pbkdf (firstn 1023 (c_str s)) salt keylen (to_unsigned rounds));
      split; reflexivity.
Qed.

(** X7.  A symmetric envelope opens under the passphrase it was made
    with: [reop_symencrypt] under a passphrase of at least one byte
    returns an envelope, and [reop_symdecrypt] returns [REOP_D_OK] with
    the message restored when the same passphrase is in
    [REOP_PASSPHRASE], or is typed at the terminal and has 1023 bytes at
    most (the terminal keeps no more of an entry).  The [password]
    argument of [reop_symdecrypt] plays no part: with the environment
    unset and no terminal the process exits with "unable to read
    passphrase" whatever that argument is. *)
Theorem symencrypt_symdecrypt_roundtrip (L : CryptoLaws C) msg p w :
  1 <= strlen p ->
  exists symmsg c w1,
    reop_symencrypt msg (Some p) w = (Done (symmsg, c), w1)
    /\ (forall pwarg w2,
          env_REOP_PASSPHRASE w2 = Some p ->
          fst (reop_symdecrypt symmsg pwarg c w2) = Done (REOP_D_OK, msg))
    /\ (forall pwarg rest w2,
          env_REOP_PASSPHRASE w2 = None -> tty w2 = Some p :: rest ->
          strlen p <= 1023 ->
          fst (reop_symdecrypt symmsg pwarg c w2) = Done (REOP_D_OK, msg))
    /\ (forall pwarg w2,
          env_REOP_PASSPHRASE w2 = None -> tty w2 = [] ->
          fst (reop_symdecrypt symmsg pwarg c w2) = Errx "unable to read passphrase").
Proof.
  intros Hp. unfold reop_symencrypt. mrun.
  set (salt := map (rng w) (seq (rng_pos w) 16)).
  rewrite kdf_given by discriminate. unfold kdf_with.
  assert (Hpne : c_str p <> []).
  { unfold strlen in Hp. destruct (c_str p); [simpl in Hp; lia | discriminate]. }
  assert (Hsalt : salt <> []) by (apply randombytes_nonempty; lia).
  destruct (bcrypt_pbkdf (c_str p) salt SYMKEYBYTES (to_unsigned 42)) as [key|] eqn:Ek.
  2:{ exfalso. revert Ek. apply bcrypt_pbkdf_total; try assumption.
      - unfold SYMKEYBYTES. lia.
      - unfold to_unsigned. cbn. lia. }
  unfold symencryptraw. mrun.
  do 3 eexists. split; [reflexivity|].
  assert (Hopen : forall pwarg w2,
            kdf salt 42 None false SYMKEYBYTES w2
            = (Done key, logged w2 (Call_bcrypt_pbkdf (c_str p) salt SYMKEYBYTES
                                                       (to_unsigned 42))) ->
            fst (reop_symdecrypt
                   (mkSymmsg (memcpy SYMALG 2) (memcpy KDFALG 2) (htonl 42) salt
                      (map (rng w) (seq (rng_pos w + 16) SYMNONCEBYTES))
                      (snd (crypto_secretbox_detached msg
                              (map (rng w) (seq (rng_pos w + 16) SYMNONCEBYTES)) key)))
                   pwarg
                   (fst (crypto_secretbox_detached msg
                           (map (rng w) (seq (rng_pos w + 16) SYMNONCEBYTES)) key)) w2)
            = Done (REOP_D_OK, msg)).
  { intros pwarg w2 Hk. unfold reop_symdecrypt.
    cbn [sym_kdfalg sym_kdfrounds sym_salt sym_nonce sym_tag].
    rewrite memcmp_eq_memcpy_l. cbn [negb]. rewrite rounds_42_stored.
    unfold bind at 1. rewrite Hk. unfold symdecryptraw. mrun.
    rewrite secretbox_open_seal. reflexivity. }
  split; [|split].
  - intros pwarg w2 He. apply Hopen.
    rewrite kdf_environment with (p := p) by (assumption || discriminate).
    unfold kdf_with. now rewrite Ek.
  - intros pwarg rest w2 He Ht Hlen. unfold reop_symdecrypt.
    cbn [sym_kdfalg sym_kdfrounds sym_salt sym_nonce sym_tag].
    rewrite memcmp_eq_memcpy_l. cbn [negb]. rewrite rounds_42_stored.
    unfold kdf. cbn [Z.eqb]. mrun. rewrite He. mrun.
    unfold readpassphrase. rewrite Ht. cbn [option_map Nat.sub tty].
    unfold strlen. rewrite c_str_firstn.
    rewrite firstn_all2 by (unfold strlen in Hlen; lia).
    replace (length (c_str p) =? 0) with false
      by (symmetry; apply Nat.eqb_neq; unfold strlen in Hp; lia).
    mrun. rewrite c_str_idem, Ek. unfold symdecryptraw. mrun.
    rewrite secretbox_open_seal. reflexivity.
  - intros pwarg w2 He Ht. unfold reop_symdecrypt.
    cbn [sym_kdfalg sym_kdfrounds sym_salt sym_nonce sym_tag].
    rewrite memcmp_eq_memcpy_l. cbn [negb]. rewrite rounds_42_stored.
    unfold kdf. cbn [Z.eqb]. mrun. rewrite He. mrun.
    unfold readpassphrase. rewrite Ht. reflexivity.
Qed.

End Passphrase.

(** ** Envelopes and the keys they name *)

Section Addressing.

Context {C : Crypto}.

(** X8.  The envelope that [reop_pubencrypt] makes names the recipient's
    public key and the sender's secret key by their random ids, and
    [reop_pubdecrypt] opens it for no other pair: given a secret key whose
    random id is not the recipient's, or a public key whose random id is
    not the sender's, it returns [REOP_D_MISMATCH], leaves the buffer as
    it was and makes no call to the library. *)
Theorem pubdecrypt_other_keys_mismatch pubR secS m w :
  exists encmsg c w1,
    reop_pubencrypt pubR secS m w = (Done (encmsg, c), w1)
    /\ forall pub sec buf w2,
         firstn RANDOMIDLEN (sec_randomid sec) <> firstn RANDOMIDLEN (pub_randomid pubR)
         \/ firstn RANDOMIDLEN (pub_randomid pub) <> firstn RANDOMIDLEN (sec_randomid secS) ->
         reop_pubdecrypt encmsg pub sec buf w2 = (Done (REOP_D_MISMATCH, buf), w2).
Proof.
  unfold reop_pubencrypt, crypto_box_keypair, pubencryptraw. mrun.
  do 3 eexists. split; [reflexivity|].
  intros pub sec buf w2 H. unfold reop_pubdecrypt.
  cbn [enc_pubrandomid enc_secrandomid].
  replace (negb (memcmp_eq RANDOMIDLEN (memcpy (pub_randomid pubR) RANDOMIDLEN)
                           (sec_randomid sec))
           || negb (memcmp_eq RANDOMIDLEN (memcpy (sec_randomid secS) RANDOMIDLEN)
                              (pub_randomid pub))) with true; [reflexivity|].
  symmetry. apply orb_true_iff. unfold memcpy.
  destruct H as [H|H]; [left|right]; apply negb_true_iff, memcmp_eq_false;
    rewrite firstn_firstn, Nat.min_id; congruence.
Qed.

End Addressing.

(** ** Encrypted files *)

Lemma ntohl_htonl x : (0 <= x < 2 ^ 32)%Z -> ntohl (htonl x) = x.
Proof.
  intros H. unfold ntohl, htonl. rewrite Z.mod_small by exact H.
  cbn [map firstn fold_left].
  rewrite !N_ascii_embedding.
  2-5: (apply N2Z.inj_lt; rewrite Z2N.id by (apply Z.mod_pos_bound; lia);
        change (Z.of_N 256) with 256%Z; apply Z.mod_pos_bound; lia).
  rewrite !Z2N.id by (apply Z.mod_pos_bound; lia).
  change (2 ^ 32)%Z with 4294967296%Z in H.
  change (2 ^ (8 * 3))%Z with 16777216%Z. change (2 ^ (8 * 2))%Z with 65536%Z.
  change (2 ^ (8 * 1))%Z with 256%Z. change (2 ^ (8 * 0))%Z with 1%Z.
  lia.
Qed.

Lemma firstn_strlen s : firstn (strlen s) s = c_str s.
Proof.
  unfold strlen. induction s as [|c s IH]; [reflexivity|].
  cbn [c_str]. destruct (Ascii.eqb c NUL); [reflexivity|].
  cbn [length firstn]. now rewrite IH.
Qed.

Lemma header_size_inv hdr n :
  header_size hdr = Some n ->
  (n = symmsgsize \/ n = encmsgsize \/ n = oldencmsgsize \/ n = oldekcmsgsize).
Proof.
  unfold header_size. intros H.
  repeat match type of H with
         | (if ?c then _ else _) = _ => destruct c
         end; inversion H; auto.
Qed.

(** What [writeencfile] writes. *)
Lemma writeencfile_binary hdr ident msg w :
  writeencfile hdr ident msg true w = (Done (binary_envelope hdr (c_str ident) msg), w).
Proof.
  unfold writeencfile, binary_envelope, ret. rewrite firstn_strlen. reflexivity.
Qed.

Lemma writeencfile_armored hdr ident msg w :
  length hdr <= 765 -> strlen ident <= 1000 ->
  writeencfile hdr ident msg false w
  = (Done (armored_envelope hdr (c_str ident) msg), w).
Proof.
  intros Hh Hi. unfold writeencfile, reopb64_ntop.
  rewrite !b64_encode_length.
  replace (4 * ((length msg + 2) / 3) <? (length msg + 2) / 3 * 4 + 1) with true
    by (symmetry; apply Nat.ltb_lt; lia).
  replace (4 * ((length hdr + 2) / 3) <? 1024) with true
    by (symmetry; apply Nat.ltb_lt; lia).
  unfold writeb64data, strlen. rewrite !(c_str_id (b64_encode _)) by apply nonul_b64_encode.
  fold (payload_of hdr). fold (payload_of msg).
  assert (H2 : c_str (snprintf 1024 (lit "ident:" ++ c_str ident ++ [NL]))
               = lit "ident:" ++ c_str ident ++ [NL]).
  { unfold snprintf. rewrite firstn_all2.
    - apply c_str_id. rewrite !nonul_app, nonul_c_str. reflexivity.
    - rewrite !length_app. cbn [length lit list_ascii_of_string Nat.sub].
      unfold strlen in Hi. lia. }
  rewrite H2. unfold ret, armored_envelope, armored_body, beginencmsg, begindata, endencmsg.
  change (c_str (snprintf 1024 (lit "-----BEGIN REOP ENCRYPTED MESSAGE-----" ++ [NL])))
    with (lit "-----BEGIN REOP ENCRYPTED MESSAGE-----" ++ [NL]).
  change (c_str (snprintf 1024 (lit "-----BEGIN REOP ENCRYPTED MESSAGE DATA-----" ++ [NL])))
    with (lit "-----BEGIN REOP ENCRYPTED MESSAGE DATA-----" ++ [NL]).
  change (c_str (snprintf 1024 (lit "-----END REOP ENCRYPTED MESSAGE-----" ++ [NL])))
    with (lit "-----END REOP ENCRYPTED MESSAGE-----" ++ [NL]).
  rewrite <- !app_assoc. cbn [app]. rewrite <- ?app_assoc. reflexivity.
Qed.

(** The first half of [decrypt] on a binary envelope. *)
Lemma decrypt_binary_envelope hdr0 hdr ident msg w :
  header_size hdr = Some (length hdr) ->
  nonul ident = true -> length ident <= 63 ->
  decrypt_binary hdr0 (binary_envelope hdr ident msg ++ [NUL])
                 (length (binary_envelope hdr ident msg)) w
  = (Done (hdr_store hdr0 hdr, length hdr, ident, msg), w).
Proof.
  intros Hh Hi Hlen.
  pose proof (header_size_inv _ Hh) as Hn.
  assert (Hn2 : 2 <= length hdr)
    by (unfold symmsgsize, encmsgsize, oldencmsgsize, oldekcmsgsize in Hn; lia).
  set (I := htonl (Z.of_nat (length ident))).
  assert (HI : length I = 4) by reflexivity.
  assert (HA : length REOP_BINARY = 4) by reflexivity.
  assert (Hfile : length (binary_envelope hdr ident msg)
                  = 4 + length hdr + 4 + length ident + length msg).
  { unfold binary_envelope. rewrite !length_app. fold I. lia. }
  assert (E1 : skipn 4 (binary_envelope hdr ident msg ++ [NUL])
               = hdr ++ I ++ ident ++ msg ++ [NUL]).
  { unfold binary_envelope. rewrite <- !app_assoc. now apply skipn_app_exact. }
  assert (E2 : skipn (4 + length hdr) (binary_envelope hdr ident msg ++ [NUL])
               = I ++ ident ++ msg ++ [NUL]).
  { rewrite Nat.add_comm, <- skipn_skipn, E1. now apply skipn_app_exact. }
  assert (E3 : skipn (4 + length hdr + 4) (binary_envelope hdr ident msg ++ [NUL])
               = ident ++ msg ++ [NUL]).
  { rewrite Nat.add_comm, <- skipn_skipn, E2. now apply skipn_app_exact. }
  assert (E4 : skipn (4 + length hdr + 4 + length ident)
                     (binary_envelope hdr ident msg ++ [NUL])
               = msg ++ [NUL]).
  { rewrite Nat.add_comm, <- skipn_skipn, E3. now apply skipn_app_exact. }
  assert (Ealg : forall X, memcmp_eq 2 (skipn 4 (binary_envelope hdr ident msg ++ [NUL])) X
                           = memcmp_eq 2 hdr X).
  { intros X. rewrite E1. unfold memcmp_eq. f_equal.
    rewrite firstn_app. replace (2 - length hdr) with 0 by lia.
    rewrite firstn_O, app_nil_r. reflexivity. }
  unfold decrypt_binary. cbv zeta. rewrite !Ealg.
  assert (Hcopy :
    (if memcmp_eq 2 hdr SYMALG
     then if length (binary_envelope hdr ident msg) <? 4 + symmsgsize
          then errx "invalid encrypted message"
          else ret (hdr_store hdr0
                      (memcpy (skipn 4 (binary_envelope hdr ident msg ++ [NUL])) symmsgsize),
                    symmsgsize)
     else if memcmp_eq 2 hdr ENCALG
     then if length (binary_envelope hdr ident msg) <? 4 + encmsgsize
          then errx "invalid encrypted message"
          else ret (hdr_store hdr0
                      (memcpy (skipn 4 (binary_envelope hdr ident msg ++ [NUL])) encmsgsize),
                    encmsgsize)
     else if memcmp_eq 2 hdr OLDENCALG
     then if length (binary_envelope hdr ident msg) <? 4 + oldencmsgsize
          then errx "invalid encrypted message"
          else ret (hdr_store hdr0
                      (memcpy (skipn 4 (binary_envelope hdr ident msg ++ [NUL])) oldencmsgsize),
                    oldencmsgsize)
     else if memcmp_eq 2 hdr OLDEKCALG
     then if length (binary_envelope hdr ident msg) <? 4 + oldekcmsgsize
          then errx "invalid encrypted message"
          else ret (hdr_store hdr0
                      (memcpy (skipn 4 (binary_envelope hdr ident msg ++ [NUL])) oldekcmsgsize),
                    oldekcmsgsize)
     else errx "invalid encrypted message") w
    = (Done (hdr_store hdr0 hdr, length hdr), w)).
  { assert (Hc : forall n, n = length hdr ->
        (if length (binary_envelope hdr ident msg) <? 4 + n
         then errx "invalid encrypted message"
         else ret (hdr_store hdr0
                     (memcpy (skipn 4 (binary_envelope hdr ident msg ++ [NUL])) n), n)) w
        = (Done (hdr_store hdr0 hdr, length hdr), w)).
    { intros n ->. replace (length (binary_envelope hdr ident msg) <? 4 + length hdr)
        with false by (symmetry; apply Nat.ltb_ge; lia).
      rewrite E1. unfold memcpy. rewrite firstn_app_exact by reflexivity. reflexivity. }
    unfold header_size in Hh.
    destruct (memcmp_eq 2 hdr SYMALG); [apply Hc; congruence|].
    destruct (memcmp_eq 2 hdr ENCALG); [apply Hc; congruence|].
    destruct (memcmp_eq 2 hdr OLDENCALG); [apply Hc; congruence|].
    destruct (memcmp_eq 2 hdr OLDEKCALG); [apply Hc; congruence|].
    discriminate. }
  unfold bind at 1. rewrite Hcopy.
  replace (length (binary_envelope hdr ident msg) <? 4 + length hdr + 4)
    with false by (symmetry; apply Nat.ltb_ge; lia).
  rewrite E2.
  assert (Hid : Z.to_nat (ntohl (memcpy (I ++ ident ++ msg ++ [NUL]) 4)) = length ident).
  { unfold memcpy. rewrite firstn_app_exact by reflexivity.
    unfold I. rewrite ntohl_htonl.
    - apply Nat2Z.id.
    - change (2 ^ 32)%Z with 4294967296%Z. lia. }
  rewrite !Hid.
  replace (IDENTLEN <=? length ident) with false
    by (symmetry; apply Nat.leb_gt; unfold IDENTLEN; lia).
  replace (length (binary_envelope hdr ident msg) <? 4 + length hdr + 4 + length ident)
    with false by (symmetry; apply Nat.ltb_ge; lia).
  rewrite E3, E4. unfold memcpy.
  rewrite (@firstn_app_exact _ ident (msg ++ [NUL]) (length ident)) by reflexivity.
  rewrite c_str_app_nul by exact Hi.
  rewrite firstn_app_exact by lia. reflexivity.
Qed.

Lemma length_payload key : 4 * ((length key + 2) / 3) <= length (payload_of key).
Proof.
  unfold payload_of. rewrite <- b64_encode_length.
  generalize (b64_encode key). intros t.
  assert (H : forall rem s, length s <= rem -> length s <= length (writeb64data_loop rem s)).
  { induction rem as [|rem IH]; intros s Hs.
    - destruct s; simpl in *; lia.
    - destruct s as [|c s]; [simpl; lia|].
      cbn [writeb64data_loop]. set (u := c :: s) in *.
      rewrite length_app. cbn [length].
      specialize (IH (skipn 76 u)). rewrite length_skipn in IH.
      rewrite length_firstn.
      assert (1 <= length u) by (unfold u; simpl; lia). lia. }
  apply H. lia.
Qed.

Lemma find_sub_prefix n s : find_sub n (n ++ s) = Some 0.
Proof.
  pose proof (prefixb_refl_app n s) as H.
  destruct (n ++ s); cbn [find_sub]; now rewrite H.
Qed.

(** A needle is found right after a text that does not contain its first
    byte. *)
Lemma find_sub_after_free h n a s :
  find_chr h a = None -> find_sub (h :: n) (a ++ (h :: n) ++ s) = Some (length a).
Proof.
  intros Ha. rewrite find_sub_skip_free by exact Ha.
  rewrite find_sub_prefix. cbn [option_map]. f_equal. lia.
Qed.

(** The first half of [decrypt] on an armored envelope: the identity is
    the word that [sscanf] reads on the identity line. *)
Lemma decrypt_armored_envelope hdr0 hdr ident msg w :
  nonul ident = true -> find_chr NL ident = None ->
  length hdr <= hdrsize_max ->
  decrypt_armored hdr0 (armored_envelope hdr ident msg ++ [NUL]) w
  = (Done (hdr_store hdr0 hdr, length hdr,
           scan_word 63 (skip_space (ident ++ NL :: armored_body hdr msg)), msg), w).
Proof.
  intros Hi Hnl Hh.
  set (P := armored_body hdr msg).
  set (R := payload_of msg ++ endencmsg).
  assert (HP : P = payload_of hdr ++ begindata ++ R) by reflexivity.
  assert (HR : nonul R = true).
  { unfold R. rewrite nonul_app, nonul_payload. reflexivity. }
  assert (HPn : nonul P = true).
  { rewrite HP, !nonul_app, nonul_payload, HR. reflexivity. }
  assert (Hfile : nonul (armored_envelope hdr ident msg) = true).
  { unfold armored_envelope. fold P. rewrite !nonul_app, Hi.
    cbn [nonul forallb]. fold (nonul P). rewrite HPn. reflexivity. }
  unfold decrypt_armored.
  change (lit "-----BEGIN REOP ENCRYPTED MESSAGE-----" ++ [NL]) with beginencmsg.
  change (lit "-----BEGIN REOP ENCRYPTED MESSAGE DATA-----" ++ [NL]) with begindata.
  change (lit "-----END REOP ENCRYPTED MESSAGE-----" ++ [NL]) with endencmsg.
  replace (strncmp_eq (armored_envelope hdr ident msg ++ [NUL]) beginencmsg) with true.
  2:{ symmetry. unfold strncmp_eq. rewrite c_str_app_nul by exact Hfile.
      apply prefixb_refl_app. }
  cbn [negb].
  assert (Hskip : skipn (strlen beginencmsg) (armored_envelope hdr ident msg ++ [NUL])
                  = lit "ident:" ++ ident ++ NL :: P ++ NUL :: []).
  { unfold armored_envelope. fold P. rewrite <- !app_assoc.
    rewrite skipn_app_exact by reflexivity. reflexivity. }
  rewrite Hskip. unfold bind at 1.
  rewrite readident_line; [ | exact Hi | exact HPn | exact Hnl | ].
  2:{ rewrite HP, !strip_space_app. intros H.
      apply app_eq_nil in H. destruct H as [_ H].
      apply app_eq_nil in H. destruct H as [H _]. discriminate H. }
  (* the opener of the data *)
  assert (Hdash : forall key, find_chr DASH (payload_of key) = None)
    by apply nodash_payload.
  assert (Hfind : strstr (P ++ [NUL]) begindata = Some (length (payload_of hdr))).
  { unfold strstr. rewrite c_str_app_nul by exact HPn. rewrite HP.
    apply (@find_sub_after_free DASH
             (lit "----BEGIN REOP ENCRYPTED MESSAGE DATA-----" ++ [NL])). apply Hdash. }
  rewrite Hfind.
  assert (Hpoke : poke (P ++ [NUL]) (length (payload_of hdr)) NUL
                  = payload_of hdr ++ NUL :: skipn 1 (begindata ++ R ++ [NUL])).
  { rewrite HP, <- !app_assoc. apply poke_app. }
  rewrite Hpoke.
  unfold reopb64_pton at 1.
  rewrite c_str_app_nul by apply nonul_payload.
  rewrite decode_payload.
  replace (length hdr <=? hdrsize_max) with true by (symmetry; now apply Nat.leb_le).
  assert (Hskip2 : skipn (length (payload_of hdr) + strlen begindata)
                         (payload_of hdr ++ NUL :: skipn 1 (begindata ++ R ++ [NUL]))
                   = R ++ [NUL]).
  { rewrite Nat.add_comm, <- skipn_skipn, skipn_app_exact by reflexivity. reflexivity. }
  rewrite Hskip2.
  assert (Hfind2 : strstr (R ++ [NUL]) endencmsg = Some (length (payload_of msg))).
  { unfold strstr. rewrite c_str_app_nul by exact HR. unfold R.
    rewrite <- (app_nil_r endencmsg).
    apply (@find_sub_after_free DASH
             (lit "----END REOP ENCRYPTED MESSAGE-----" ++ [NL])). apply Hdash. }
  rewrite Hfind2.
  assert (Hpoke2 : poke (R ++ [NUL]) (length (payload_of msg)) NUL
                   = payload_of msg ++ NUL :: skipn 1 (endencmsg ++ [NUL])).
  { unfold R. rewrite <- !app_assoc. apply poke_app. }
  rewrite Hpoke2.
  unfold reopb64_pton, strlen.
  rewrite c_str_app_nul by apply nonul_payload.
  rewrite decode_payload.
  replace (length msg <=? (length (payload_of msg) + 3) / 4 * 3 + 1) with true.
  2:{ symmetry. apply Nat.leb_le. pose proof (length_payload msg). lia. }
  reflexivity.
Qed.

(** ** Encrypting a file, then decrypting it *)

Lemma slice_store off n hdr0 b :
  off + n <= length b -> slice off n (hdr_store hdr0 b) = slice off n b.
Proof.
  intros H. unfold slice, hdr_store.
  rewrite skipn_app, firstn_app, length_skipn.
  replace (n - (length b - off)) with 0 by lia.
  rewrite firstn_O, app_nil_r. reflexivity.
Qed.

Lemma memcmp_store n hdr0 b X :
  n <= length b -> memcmp_eq n (hdr_store hdr0 b) X = memcmp_eq n b X.
Proof.
  intros H. unfold memcmp_eq, hdr_store. f_equal.
  rewrite firstn_app. replace (n - length b) with 0 by lia.
  rewrite firstn_O, app_nil_r. reflexivity.
Qed.

Lemma symmsg_of_image_image m :
  length (sym_symalg m) = 2 -> length (sym_kdfalg m) = 2 ->
  length (sym_kdfrounds m) = 4 -> length (sym_salt m) = 16 ->
  length (sym_nonce m) = 24 -> length (sym_tag m) = 16 ->
  symmsg_of_image (symmsg_image m) = m.
Proof.
  intros H1 H2 H3 H4 H5 H6. unfold symmsg_of_image, symmsg_image.
  rewrite <- (app_nil_r (sym_tag m)) at 1 2 3 4 5 6.
  destruct m as [a b c d e f]. cbn [sym_symalg sym_kdfalg sym_kdfrounds sym_salt
    sym_nonce sym_tag] in *.
  f_equal;
    repeat (first [ rewrite slice_app_l by assumption; reflexivity
                  | rewrite slice_app_r by lia;
                    rewrite ?H1, ?H2, ?H3, ?H4, ?H5; cbn [Nat.sub] ]).
Qed.

Lemma symmsg_of_image_store hdr0 b :
  symmsgsize <= length b -> symmsg_of_image (hdr_store hdr0 b) = symmsg_of_image b.
Proof.
  unfold symmsgsize. intros H. unfold symmsg_of_image.
  rewrite !slice_store by lia. reflexivity.
Qed.

Lemma oldencmsg_of_image_image m :
  length (old_encalg m) = 2 -> length (old_secrandomid m) = 8 ->
  length (old_pubrandomid m) = 8 -> length (old_nonce m) = 24 ->
  length (old_tag m) = 16 ->
  oldencmsg_of_image (oldencmsg_image m) = m.
Proof.
  intros H1 H2 H3 H4 H5. unfold oldencmsg_of_image, oldencmsg_image.
  rewrite <- (app_nil_r (old_tag m)) at 1 2 3 4 5.
  destruct m as [a b c d e]. cbn [old_encalg old_secrandomid old_pubrandomid
    old_nonce old_tag] in *.
  f_equal;
    repeat (first [ rewrite slice_app_l by assumption; reflexivity
                  | rewrite slice_app_r by lia;
                    rewrite ?H1, ?H2, ?H3, ?H4; cbn [Nat.sub] ]).
Qed.

Lemma oldencmsg_of_image_store hdr0 b :
  oldencmsgsize <= length b -> oldencmsg_of_image (hdr_store hdr0 b) = oldencmsg_of_image b.
Proof.
  unfold oldencmsgsize. intros H. unfold oldencmsg_of_image.
  rewrite !slice_store by lia. reflexivity.
Qed.

(** The members of an [eC] header recovered from the union; the identity
    member lies beyond the bytes stored. *)
Lemma encmsg_of_image_store hdr0 m :
  length (enc_encalg m) = 2 -> length (enc_secrandomid m) = 8 ->
  length (enc_pubrandomid m) = 8 -> length (enc_ephpubkey m) = 32 ->
  length (enc_ephnonce m) = 24 -> length (enc_ephtag m) = 16 ->
  length (enc_nonce m) = 24 -> length (enc_tag m) = 16 ->
  encmsg_of_image (hdr_store hdr0 (encmsg_image m))
  = mkEncmsg (enc_encalg m) (enc_secrandomid m) (enc_pubrandomid m) (enc_ephpubkey m)
             (enc_ephnonce m) (enc_ephtag m) (enc_nonce m) (enc_tag m)
             (c_str (slice 130 64 (hdr_store hdr0 (encmsg_image m)))).
Proof.
  intros H1 H2 H3 H4 H5 H6 H7 H8.
  assert (Hlen : length (encmsg_image m) = 130).
  { unfold encmsg_image. rewrite !length_app. lia. }
  unfold encmsg_of_image at 1. rewrite !slice_store by lia.
  unfold encmsg_image.
  rewrite <- (app_nil_r (enc_tag m)) at 1 2 3 4 5 6 7 8.
  f_equal;
    repeat (first [ rewrite slice_app_l by assumption; reflexivity
                  | rewrite slice_app_r by lia;
                    rewrite ?H1, ?H2, ?H3, ?H4, ?H5, ?H6, ?H7; cbn [Nat.sub] ]).
Qed.

Section Envelopes.

Context {C : Crypto}.

(** [decrypt] on the two layouts: the first half hands the header, the
    identity and the message bytes to the second. *)
Lemma decrypt_binary_file (getpubkey : bytes -> M (option reop_pubkey))
    (getseckey : M (option reop_seckey)) hdr ident msg w :
  header_size hdr = Some (length hdr) ->
  nonul ident = true -> length ident <= 63 ->
  decrypt_encdata getpubkey getseckey (binary_envelope hdr ident msg ++ [NUL])
                  (length (binary_envelope hdr ident msg)) w
  = decrypt_message getpubkey getseckey
      (hdr_store (map (stack w) (seq 0 hdrsize_max)) hdr) (length hdr) ident msg w.
Proof.
  intros Hh Hi Hlen. unfold decrypt_encdata, uninitialised. unfold bind at 1 2.
  pose proof (header_size_inv _ Hh) as Hn.
  replace ((6 <=? length (binary_envelope hdr ident msg))
           && memcmp_eq 4 (binary_envelope hdr ident msg ++ [NUL]) REOP_BINARY)
    with true.
  - rewrite decrypt_binary_envelope by assumption. reflexivity.
  - symmetry. apply andb_true_iff. split.
    + apply Nat.leb_le. unfold binary_envelope. rewrite !length_app.
      unfold symmsgsize, encmsgsize, oldencmsgsize, oldekcmsgsize in Hn. lia.
    + apply memcmp_eq_true. unfold binary_envelope. rewrite <- app_assoc.
      rewrite firstn_app_exact by reflexivity. reflexivity.
Qed.

Lemma decrypt_armored_file (getpubkey : bytes -> M (option reop_pubkey))
    (getseckey : M (option reop_seckey)) hdr ident msg w :
  nonul ident = true -> find_chr NL ident = None ->
  length hdr <= hdrsize_max ->
  decrypt_encdata getpubkey getseckey (armored_envelope hdr ident msg ++ [NUL])
                  (length (armored_envelope hdr ident msg)) w
  = decrypt_message getpubkey getseckey
      (hdr_store (map (stack w) (seq 0 hdrsize_max)) hdr) (length hdr)
      (scan_word 63 (skip_space (ident ++ NL :: armored_body hdr msg))) msg w.
Proof.
  intros Hi Hnl Hlen. unfold decrypt_encdata, uninitialised. unfold bind at 1 2.
  replace (memcmp_eq 4 (armored_envelope hdr ident msg ++ [NUL]) REOP_BINARY)
    with false.
  - rewrite andb_false_r. rewrite decrypt_armored_envelope by assumption. reflexivity.
  - symmetry. apply memcmp_eq_false. discriminate.
Qed.

(** [decrypt] on a regular file of at most [2^30] bytes, and on a larger
    one. *)
Lemma decrypt_regular (o : os) pubkeyfile seckeyfile encfile file w :
  regular_file o encfile file -> (Z.of_nat (length file) <= 2 ^ 30)%Z ->
  decrypt o pubkeyfile seckeyfile encfile w
  = decrypt_encdata (fun ident => reop_getpubkey o pubkeyfile (Some ident))
                    (reop_getseckey o seckeyfile None)
                    (file ++ [NUL]) (length file) w.
Proof.
  intros Hf Hl. unfold decrypt. unfold bind at 1.
  rewrite (readallorfail_regular w Hf Hl). now rewrite Nat2Z.id.
Qed.

Lemma decrypt_too_large (o : os) pubkeyfile seckeyfile encfile file w :
  regular_file o encfile file -> (2 ^ 30 < Z.of_nat (length file) < 2 ^ 63)%Z ->
  decrypt o pubkeyfile seckeyfile encfile w = (Errx "is too large", w).
Proof.
  intros Hf Hl. unfold decrypt. unfold bind at 1.
  now rewrite (readallorfail_too_large w Hf Hl).
Qed.

(** What [reop_symencrypt] returns when [kdf] finds the passphrase [p]. *)
Lemma reop_symencrypt_with (L : CryptoLaws C) msg pw p w :
  (forall salt, kdf salt 42 pw true SYMKEYBYTES
                    (snd (randombytes 16 w))
                = kdf_with p salt 42 SYMKEYBYTES (snd (randombytes 16 w))) ->
  1 <= strlen p ->
  exists key salt nonce w1,
    reop_symencrypt msg pw w
    = (Done (mkSymmsg (memcpy SYMALG 2) (memcpy KDFALG 2) (htonl 42) salt nonce
                      (snd (crypto_secretbox_detached msg nonce key)),
             fst (crypto_secretbox_detached msg nonce key)), w1)
    /\ bcrypt_pbkdf (c_str p) salt SYMKEYBYTES (to_unsigned 42) = Some key
    /\ length salt = 16 /\ length nonce = 24.
Proof.
  intros Hk Hp. unfold reop_symencrypt. unfold bind at 1.
  cbn [randombytes]. unfold randombytes in Hk. cbn [snd] in Hk.
  set (salt := map (rng w) (seq (rng_pos w) 16)).
  unfold bind at 1. rewrite Hk. unfold kdf_with.
  assert (Hpne : c_str p <> []).
  { unfold strlen in Hp. destruct (c_str p); [simpl in Hp; lia | discriminate]. }
  assert (Hsalt : salt <> []) by (apply randombytes_nonempty; lia).
  destruct (bcrypt_pbkdf (c_str p) salt SYMKEYBYTES (to_unsigned 42)) as [key|] eqn:Ek.
  2:{ exfalso. revert Ek. apply bcrypt_pbkdf_total; try assumption.
      - unfold SYMKEYBYTES. lia.
      - unfold to_unsigned. cbn. lia. }
  unfold symencryptraw. mrun.
  exists key, salt. do 2 eexists. split; [reflexivity|].
  split; [exact Ek|]. split; unfold salt; now rewrite length_map, length_seq.
Qed.

(** What [reop_symdecrypt] returns when [kdf] yields [key]. *)
Lemma reop_symdecrypt_with sm pwarg key c w :
  firstn 2 (sym_kdfalg sm) = KDFALG ->
  fst (kdf (sym_salt sm) (to_int (ntohl (sym_kdfrounds sm))) None false SYMKEYBYTES w)
  = Done key ->
  fst (reop_symdecrypt sm pwarg c w)
  = match crypto_secretbox_open_detached c (sym_tag sm) (sym_nonce sm) key with
    | Some m => Done (REOP_D_OK, m)
    | None => Done (REOP_D_FAIL, c)
    end.
Proof.
  intros Ha Hk. unfold reop_symdecrypt.
  rewrite (proj2 (memcmp_eq_true 2 (sym_kdfalg sm) KDFALG)) by exact Ha.
  cbn [negb]. unfold bind at 1.
  destruct (kdf _ _ _ _ _ w) as [[k|e] w1]; cbn [fst] in Hk; [|discriminate].
  injection Hk as ->. unfold symdecryptraw. mrun.
  destruct (crypto_secretbox_open_detached _ _ _ _); reflexivity.
Qed.

(** X9.  A file encrypted under a passphrase is decrypted to itself:
    with a passphrase of at least one byte in [REOP_PASSPHRASE],
    [symencrypt] writes an envelope, binary or armored, from which
    [decrypt], reading it from a regular file of [2^30] bytes at most
    with the same passphrase in the environment, writes back exactly the
    message (any bytes).  No key is loaded for it.  An envelope file of
    more than [2^30] bytes is turned away as too large. *)
Theorem symmetric_file_roundtrip (L : CryptoLaws C) msg binary p w :
  env_REOP_PASSPHRASE w = Some p -> 1 <= strlen p ->
  exists file w1,
    symencrypt msg binary w = (Done file, w1)
    /\ (forall (o : os) pubkeyfile seckeyfile encfile w2,
          regular_file o encfile file ->
          (Z.of_nat (length file) <= 2 ^ 30)%Z ->
          env_REOP_PASSPHRASE w2 = Some p ->
          fst (decrypt o pubkeyfile seckeyfile encfile w2) = Done msg)
    /\ (forall (o : os) pubkeyfile seckeyfile encfile w2,
          regular_file o encfile file ->
          (2 ^ 30 < Z.of_nat (length file) < 2 ^ 63)%Z ->
          decrypt o pubkeyfile seckeyfile encfile w2 = (Errx "is too large", w2)).
Proof.
  intros He Hp. unfold symencrypt. unfold bind at 1.
  destruct (@reop_symencrypt_with L msg None p w) as (key & salt & nonce & w1 & Henc & Ek & Hs & Hn).
  { intros salt. apply kdf_environment; [discriminate | exact He]. }
  { exact Hp. }
  rewrite Henc.
  set (sm := mkSymmsg (memcpy SYMALG 2) (memcpy KDFALG 2) (htonl 42) salt nonce
                      (snd (crypto_secretbox_detached msg nonce key))).
  set (c := fst (crypto_secretbox_detached msg nonce key)).
  assert (Hsm : symmsg_of_image (symmsg_image sm) = sm).
  { apply symmsg_of_image_image; try reflexivity; try assumption.
    apply secretbox_tag_length. }
  assert (Himg : length (symmsg_image sm) = symmsgsize).
  { unfold symmsg_image, sm. cbn [sym_symalg sym_kdfalg sym_kdfrounds sym_salt
      sym_nonce sym_tag]. rewrite !length_app, Hs, Hn, secretbox_tag_length. reflexivity. }
  assert (Hhs : header_size (symmsg_image sm) = Some (length (symmsg_image sm))).
  { rewrite Himg. reflexivity. }
  assert (Hmsg : forall getpubkey getseckey ident w2,
            env_REOP_PASSPHRASE w2 = Some p ->
            fst (decrypt_message getpubkey getseckey
                   (hdr_store (map (stack w2) (seq 0 hdrsize_max)) (symmsg_image sm))
                   (length (symmsg_image sm)) ident c w2) = Done msg).
  { intros getpubkey getseckey ident w2 He2. unfold decrypt_message.
    rewrite memcmp_store by (rewrite Himg; unfold symmsgsize; lia).
    replace (memcmp_eq 2 (symmsg_image sm) SYMALG) with true by reflexivity.
    rewrite Himg, Nat.eqb_refl. cbn [negb].
    rewrite symmsg_of_image_store by (rewrite Himg; lia).
    rewrite Hsm. unfold bind.
    assert (Hd : fst (reop_symdecrypt sm None c w2) = Done (REOP_D_OK, msg)).
    { rewrite (@reop_symdecrypt_with sm None key c w2).
      - unfold sm, c. cbn [sym_tag sym_nonce].
        rewrite secretbox_open_seal. reflexivity.
      - reflexivity.
      - cbn [sm sym_salt sym_kdfrounds]. rewrite rounds_42_stored.
        rewrite kdf_environment with (p := p) by (assumption || discriminate).
        unfold kdf_with. now rewrite Ek. }
    destruct (reop_symdecrypt sm None c w2) as [[[rv m]|e] w3]; cbn [fst] in Hd;
      [|discriminate].
    injection Hd as -> ->. reflexivity. }
  destruct binary.
  - rewrite writeencfile_binary. do 2 eexists. split; [reflexivity|]. split.
    + intros o pubkeyfile seckeyfile encfile w2 Hf Hl He2.
      rewrite (decrypt_regular _ _ w2 Hf Hl).
      rewrite decrypt_binary_file; [ | exact Hhs | reflexivity | simpl; lia ].
      now apply Hmsg.
    + intros o pubkeyfile seckeyfile encfile w2 Hf Hl.
      now apply decrypt_too_large with (file := binary_envelope (symmsg_image sm)
                                                   (lit "<symmetric>") c).
  - rewrite writeencfile_armored;
      [ | rewrite Himg; unfold symmsgsize; lia | cbn; lia ].
    do 2 eexists. split; [reflexivity|]. split.
    + intros o pubkeyfile seckeyfile encfile w2 Hf Hl He2.
      rewrite (decrypt_regular _ _ w2 Hf Hl).
      rewrite decrypt_armored_file;
        [ | reflexivity | reflexivity | rewrite Himg; unfold symmsgsize, hdrsize_max; lia ].
      now apply Hmsg.
    + intros o pubkeyfile seckeyfile encfile w2 Hf Hl.
      now apply decrypt_too_large with (file := armored_envelope (symmsg_image sm)
                                                   (lit "<symmetric>") c).
Qed.

(** What [reop_pubencrypt] returns: the envelope names the recipient's
    public key and the sender's secret key, and carries two boxes, the
    message under the ephemeral secret key and the ephemeral public key
    under the sender's. *)
Lemma reop_pubencrypt_run pubR secS m w :
  exists seed nonce1 nonce2 w1,
    reop_pubencrypt pubR secS m w
    = (Done (mkEncmsg (memcpy ENCALG 2) (memcpy (sec_randomid secS) RANDOMIDLEN)
               (memcpy (pub_randomid pubR) RANDOMIDLEN)
               (fst (crypto_box_detached (fst (box_keypair_from seed)) nonce2
                       (pub_enckey pubR) (sec_enckey secS)))
               nonce2
               (snd (crypto_box_detached (fst (box_keypair_from seed)) nonce2
                       (pub_enckey pubR) (sec_enckey secS)))
               nonce1
               (snd (crypto_box_detached m nonce1 (pub_enckey pubR)
                       (snd (box_keypair_from seed))))
               (strlcpy (sec_ident secS) IDENTLEN),
             fst (crypto_box_detached m nonce1 (pub_enckey pubR)
                    (snd (box_keypair_from seed)))), w1)
    /\ length nonce1 = ENCNONCEBYTES /\ length nonce2 = ENCNONCEBYTES.
Proof.
  unfold reop_pubencrypt, crypto_box_keypair, pubencryptraw. mrun.
  do 4 eexists. split; [reflexivity|].
  split; now rewrite length_map, length_seq.
Qed.

(** X10.  A file encrypted to a recipient is decrypted to itself by the
    recipient: [pubencrypt] with the recipient's public key and the
    sender's secret key, as [reop_getpubkey] and [reop_getseckey] load
    them, writes an envelope, binary or armored, from which [decrypt],
    reading it from a regular file of [2^30] bytes at most and loading
    the sender's public key for the identity that the envelope names and
    the recipient's secret key, writes back exactly the message.  An
    envelope file of more than [2^30] bytes is turned away as too
    large. *)
Theorem pubencrypt_file_roundtrip (L : CryptoLaws C) (B : BoxLaws C) (o : os)
    pubkeyfileR identR seckeyfileS pkR skS pkS skR msg binary w w0 :
  reop_getpubkey o pubkeyfileR identR w = (Done (Some pkR), w) ->
  reop_getseckey o seckeyfileS None w = (Done (Some skS), w0) ->
  key_pair pkS skS -> key_pair pkR skR ->
  exists file w1,
    pubencrypt (reop_getpubkey o pubkeyfileR identR)
               (reop_getseckey o seckeyfileS None) msg binary w = (Done file, w1)
    /\ (forall (o' : os) pubkeyfile seckeyfile encfile w2 w3,
          regular_file o' encfile file ->
          (Z.of_nat (length file) <= 2 ^ 30)%Z ->
          reop_getpubkey o' pubkeyfile (Some (sec_ident skS)) w2 = (Done (Some pkS), w2) ->
          reop_getseckey o' seckeyfile None w2 = (Done (Some skR), w3) ->
          fst (decrypt o' pubkeyfile seckeyfile encfile w2) = Done msg)
    /\ (forall (o' : os) pubkeyfile seckeyfile encfile w2,
          regular_file o' encfile file ->
          (2 ^ 30 < Z.of_nat (length file) < 2 ^ 63)%Z ->
          decrypt o' pubkeyfile seckeyfile encfile w2 = (Errx "is too large", w2)).
Proof.
  intros HpR HsS PS PR.
  destruct (reop_getseckey_inv _ _ _ _ HsS) as (Hs & HnulS & [Hne HlenS] & HS).
  destruct PS as (_ & HrandS & HaS1 & HaS2 & _ & (eS & HpkS & HskS)).
  destruct PR as (HR & HrandR & HaR1 & HaR2 & _ & (eR & HpkR & HskR)).
  unfold RANDOMIDLEN in HR.
  destruct (ident_line_inv _ (nospace_ident_line _ Hs)) as [Hnl _].
  unfold pubencrypt. unfold bind at 1. rewrite HpR. unfold bind at 1. rewrite HsS.
  rewrite HaR1, HaS2, !memcmp_eq_refl. cbn [negb].
  unfold bind at 1.
  destruct (reop_pubencrypt_run pkR skS msg w0)
    as (seed & nonce1 & nonce2 & wE & Henc & Hn1 & Hn2).
  rewrite Henc. cbn [enc_ident].
  rewrite strlcpy_id by (try assumption; unfold IDENTLEN; lia).
  assert (HrS : memcpy (sec_randomid skS) RANDOMIDLEN = sec_randomid skS)
    by (apply firstn_all2; unfold RANDOMIDLEN; lia).
  assert (HrR : memcpy (pub_randomid pkR) RANDOMIDLEN = pub_randomid pkR)
    by (apply firstn_all2; unfold RANDOMIDLEN; lia).
  rewrite HrS, HrR, HpkR, HskS.
  set (idS := sec_ident skS) in *.
  set (c := fst (crypto_box_detached msg nonce1 (fst (box_keypair_from eR))
                   (snd (box_keypair_from seed)))).
  set (em := mkEncmsg (memcpy ENCALG 2) (sec_randomid skS) (pub_randomid pkR)
               (fst (crypto_box_detached (fst (box_keypair_from seed)) nonce2
                       (fst (box_keypair_from eR)) (snd (box_keypair_from eS))))
               nonce2
               (snd (crypto_box_detached (fst (box_keypair_from seed)) nonce2
                       (fst (box_keypair_from eR)) (snd (box_keypair_from eS))))
               nonce1
               (snd (crypto_box_detached msg nonce1 (fst (box_keypair_from eR))
                       (snd (box_keypair_from seed)))) idS).
  assert (Heph : length (enc_ephpubkey em) = 32).
  { cbn [em enc_ephpubkey]. rewrite box_length. apply box_keypair_length. }
  assert (Himg : length (encmsg_image em) = encmsgsize).
  { unfold encmsg_image. rewrite !length_app, Heph. cbn [em enc_encalg enc_secrandomid
      enc_pubrandomid enc_ephnonce enc_ephtag enc_nonce enc_tag].
    rewrite !box_tag_length, HS, HR, Hn1, Hn2. reflexivity. }
  assert (Hhs : header_size (encmsg_image em) = Some (length (encmsg_image em))).
  { rewrite Himg. reflexivity. }
  assert (Hmsg : forall (o' : os) pubkeyfile seckeyfile w2 w3,
            reop_getpubkey o' pubkeyfile (Some idS) w2 = (Done (Some pkS), w2) ->
            reop_getseckey o' seckeyfile None w2 = (Done (Some skR), w3) ->
            fst (decrypt_message (fun ident => reop_getpubkey o' pubkeyfile (Some ident))
                   (reop_getseckey o' seckeyfile None)
                   (hdr_store (map (stack w2) (seq 0 hdrsize_max)) (encmsg_image em))
                   (length (encmsg_image em)) idS c w2) = Done msg).
  { intros o' pubkeyfile seckeyfile w2 w3 Hget Hsec. unfold decrypt_message.
    rewrite !memcmp_store by (rewrite Himg; unfold encmsgsize; lia).
    replace (memcmp_eq 2 (encmsg_image em) SYMALG) with false by reflexivity.
    replace (memcmp_eq 2 (encmsg_image em) ENCALG) with true by reflexivity.
    rewrite Himg, Nat.eqb_refl. cbn [negb].
    rewrite encmsg_of_image_store;
      [ | reflexivity | exact HS | exact HR | exact Heph | exact Hn2
        | apply box_tag_length | exact Hn1 | apply box_tag_length ].
    unfold bind at 1. rewrite Hget. unfold bind at 1. rewrite Hsec.
    unfold reop_pubdecrypt, pubdecryptraw.
    cbn [em enc_pubrandomid enc_secrandomid enc_ephpubkey enc_ephnonce
         enc_ephtag enc_nonce enc_tag].
    rewrite HrandS, <- HrandR, HaS1, HaR2, HpkS, HskR.
    rewrite !memcmp_eq_refl. cbn [negb orb].
    mrun. rewrite box_open_seal. cbn [Z.eqb negb]. unfold c. rewrite box_open_seal.
    reflexivity. }
  destruct binary.
  - rewrite writeencfile_binary. rewrite (c_str_id idS) by exact HnulS.
    do 2 eexists. split; [reflexivity|]. split.
    + intros o' pubkeyfile seckeyfile encfile w2 w3 Hf Hl Hget Hsec.
      rewrite (decrypt_regular _ _ w2 Hf Hl).
      rewrite decrypt_binary_file; [ | exact Hhs | exact HnulS | lia ].
      now apply Hmsg with (w3 := w3).
    + intros o' pubkeyfile seckeyfile encfile w2 Hf Hl.
      now apply decrypt_too_large with (file := binary_envelope (encmsg_image em) idS c).
  - rewrite writeencfile_armored;
      [ | rewrite Himg; unfold encmsgsize; lia
        | unfold strlen; rewrite c_str_id by exact HnulS; lia ].
    rewrite (c_str_id idS) by exact HnulS.
    do 2 eexists. split; [reflexivity|]. split.
    + intros o' pubkeyfile seckeyfile encfile w2 w3 Hf Hl Hget Hsec.
      rewrite (decrypt_regular _ _ w2 Hf Hl).
      rewrite decrypt_armored_file;
        [ | exact HnulS | exact Hnl
          | rewrite Himg; unfold encmsgsize, hdrsize_max; lia ].
      rewrite skip_space_word;
        [ | exact Hs | destruct idS; [simpl in Hne; lia | discriminate] ].
      rewrite scan_word_line by assumption.
      now apply Hmsg with (w3 := w3).
    + intros o' pubkeyfile seckeyfile encfile w2 Hf Hl.
      now apply decrypt_too_large with (file := armored_envelope (encmsg_image em) idS c).
Qed.

(** X11.  The same for the version 1.0 format: the [CS] envelope that
    [v1pubencrypt] writes with the recipient's public and the sender's
    secret key, as the loaders return them, is decrypted by [decrypt],
    reading it from a regular file of [2^30] bytes at most and loading
    the sender's public and the recipient's secret key, to exactly the
    message, in the binary and in the armored format. *)
Theorem v1pubencrypt_file_roundtrip (L : CryptoLaws C) (B : BoxLaws C) (o : os)
    pubkeyfileR identR seckeyfileS pkR skS pkS skR msg binary w w0 :
  reop_getpubkey o pubkeyfileR identR w = (Done (Some pkR), w) ->
  reop_getseckey o seckeyfileS None w = (Done (Some skS), w0) ->
  key_pair pkS skS -> key_pair pkR skR ->
  exists file w1,
    v1pubencrypt (reop_getpubkey o pubkeyfileR identR)
                 (reop_getseckey o seckeyfileS None) msg binary w = (Done file, w1)
    /\ (forall (o' : os) pubkeyfile seckeyfile encfile w2 w3,
          regular_file o' encfile file ->
          (Z.of_nat (length file) <= 2 ^ 30)%Z ->
          reop_getpubkey o' pubkeyfile (Some (sec_ident skS)) w2 = (Done (Some pkS), w2) ->
          reop_getseckey o' seckeyfile None w2 = (Done (Some skR), w3) ->
          fst (decrypt o' pubkeyfile seckeyfile encfile w2) = Done msg)
    /\ (forall (o' : os) pubkeyfile seckeyfile encfile w2,
          regular_file o' encfile file ->
          (2 ^ 30 < Z.of_nat (length file) < 2 ^ 63)%Z ->
          decrypt o' pubkeyfile seckeyfile encfile w2 = (Errx "is too large", w2)).
Proof.
  intros HpR HsS PS PR.
  destruct (reop_getseckey_inv _ _ _ _ HsS) as (Hs & HnulS & [Hne HlenS] & HS).
  destruct PS as (_ & HrandS & HaS1 & HaS2 & _ & (eS & HpkS & HskS)).
  destruct PR as (HR & HrandR & HaR1 & HaR2 & _ & (eR & HpkR & HskR)).
  unfold RANDOMIDLEN in HR.
  destruct (ident_line_inv _ (nospace_ident_line _ Hs)) as [Hnl _].
  unfold v1pubencrypt. unfold bind at 1. rewrite HpR. unfold bind at 1. rewrite HsS.
  rewrite HaR1, HaS2, !memcmp_eq_refl. cbn [negb].
  unfold pubencryptraw. mrun.
  assert (HrS : memcpy (sec_randomid skS) RANDOMIDLEN = sec_randomid skS)
    by (apply firstn_all2; unfold RANDOMIDLEN; lia).
  assert (HrR : memcpy (pub_randomid pkR) RANDOMIDLEN = pub_randomid pkR)
    by (apply firstn_all2; unfold RANDOMIDLEN; lia).
  rewrite HrS, HrR, HpkR, HskS.
  set (idS := sec_ident skS) in *.
  match goal with
  | |- context [crypto_box_detached msg ?n _ _] => set (nonce := n)
  end.
  assert (Hn : length nonce = ENCNONCEBYTES)
    by (unfold nonce; now rewrite length_map, length_seq).
  set (c := fst (crypto_box_detached msg nonce (fst (box_keypair_from eR))
                   (snd (box_keypair_from eS)))).
  set (om := mkOldencmsg (memcpy OLDENCALG 2) (sec_randomid skS) (pub_randomid pkR) nonce
               (snd (crypto_box_detached msg nonce (fst (box_keypair_from eR))
                       (snd (box_keypair_from eS))))).
  assert (Hom : oldencmsg_of_image (oldencmsg_image om) = om).
  { apply oldencmsg_of_image_image; try reflexivity; try assumption.
    apply box_tag_length. }
  assert (Himg : length (oldencmsg_image om) = oldencmsgsize).
  { unfold oldencmsg_image. rewrite !length_app.
    cbn [om old_encalg old_secrandomid old_pubrandomid old_nonce old_tag].
    rewrite box_tag_length, HS, HR, Hn. reflexivity. }
  assert (Hhs : header_size (oldencmsg_image om) = Some (length (oldencmsg_image om))).
  { rewrite Himg. reflexivity. }
  assert (Hmsg : forall (o' : os) pubkeyfile seckeyfile w2 w3,
            reop_getpubkey o' pubkeyfile (Some idS) w2 = (Done (Some pkS), w2) ->
            reop_getseckey o' seckeyfile None w2 = (Done (Some skR), w3) ->
            fst (decrypt_message (fun ident => reop_getpubkey o' pubkeyfile (Some ident))
                   (reop_getseckey o' seckeyfile None)
                   (hdr_store (map (stack w2) (seq 0 hdrsize_max)) (oldencmsg_image om))
                   (length (oldencmsg_image om)) idS c w2) = Done msg).
  { intros o' pubkeyfile seckeyfile w2 w3 Hget Hsec. unfold decrypt_message.
    rewrite !memcmp_store by (rewrite Himg; unfold oldencmsgsize; lia).
    replace (memcmp_eq 2 (oldencmsg_image om) SYMALG) with false by reflexivity.
    replace (memcmp_eq 2 (oldencmsg_image om) ENCALG) with false by reflexivity.
    replace (memcmp_eq 2 (oldencmsg_image om) OLDENCALG) with true by reflexivity.
    rewrite Himg, Nat.eqb_refl. cbn [negb].
    rewrite oldencmsg_of_image_store by (rewrite Himg; lia).
    rewrite Hom.
    unfold bind at 1. rewrite Hget. unfold bind at 1. rewrite Hsec.
    unfold decrypt_oldencmsg, pubdecryptraw.
    cbn [om old_pubrandomid old_secrandomid old_nonce old_tag].
    rewrite HrandS, <- HrandR, HaS1, HaR2, HpkS, HskR.
    rewrite !memcmp_eq_refl. cbn [negb orb].
    destruct (memcmp_eq RANDOMIDLEN (pub_randomid pkR) (sec_randomid skS)) eqn:Eid.
    - replace (memcmp_eq RANDOMIDLEN (sec_randomid skS) (pub_randomid pkR)) with true.
      2:{ symmetry. apply memcmp_eq_true. apply memcmp_eq_true in Eid. congruence. }
      mrun. unfold c. rewrite box_open_seal. reflexivity.
    - mrun. unfold c. rewrite box_open_seal. reflexivity. }
  destruct binary.
  - rewrite writeencfile_binary. rewrite (c_str_id idS) by exact HnulS.
    do 2 eexists. split; [reflexivity|]. split.
    + intros o' pubkeyfile seckeyfile encfile w2 w3 Hf Hl Hget Hsec.
      rewrite (decrypt_regular _ _ w2 Hf Hl).
      rewrite decrypt_binary_file; [ | exact Hhs | exact HnulS | lia ].
      now apply Hmsg with (w3 := w3).
    + intros o' pubkeyfile seckeyfile encfile w2 Hf Hl.
      now apply decrypt_too_large with (file := binary_envelope (oldencmsg_image om) idS c).
  - rewrite writeencfile_armored;
      [ | rewrite Himg; unfold oldencmsgsize; lia
        | unfold strlen; rewrite c_str_id by exact HnulS; lia ].
    rewrite (c_str_id idS) by exact HnulS.
    do 2 eexists. split; [reflexivity|]. split.
    + intros o' pubkeyfile seckeyfile encfile w2 w3 Hf Hl Hget Hsec.
      rewrite (decrypt_regular _ _ w2 Hf Hl).
      rewrite decrypt_armored_file;
        [ | exact HnulS | exact Hnl
          | rewrite Himg; unfold oldencmsgsize, hdrsize_max; lia ].
      rewrite skip_space_word;
        [ | exact Hs | destruct idS; [simpl in Hne; lia | discriminate] ].
      rewrite scan_word_line by assumption.
      now apply Hmsg with (w3 := w3).
    + intros o' pubkeyfile seckeyfile encfile w2 Hf Hl.
      now apply decrypt_too_large with (file := armored_envelope (oldencmsg_image om) idS c).
Qed.

End Envelopes.

(** ** What [decrypt] accepts *)

Lemma c_str_snoc_nul s : c_str (s ++ [NUL]) = c_str s.
Proof.
  induction s as [|c s IH]; [reflexivity|].
  cbn [app c_str]. destruct (Ascii.eqb c NUL); [reflexivity|]. now rewrite IH.
Qed.

Lemma slice_app_inside off n (a b : bytes) :
  off + n <= length a -> slice off n (a ++ b) = slice off n a.
Proof.
  intros H. unfold slice. rewrite skipn_app, firstn_app, length_skipn.
  replace (n - (length a - off)) with 0 by lia.
  rewrite firstn_O, app_nil_r. reflexivity.
Qed.

Lemma slice_split off n (a : bytes) :
  skipn off a = slice off n a ++ skipn (off + n) a.
Proof.
  unfold slice. rewrite Nat.add_comm, <- skipn_skipn. symmetry. apply firstn_skipn.
Qed.

Lemma memcmp_firstn k n a X : n <= k -> memcmp_eq n (firstn k a) X = memcmp_eq n a X.
Proof.
  intros H. unfold memcmp_eq. rewrite firstn_firstn.
  now replace (Nat.min n k) with n by lia.
Qed.

Section Accepts.

Context {C : Crypto}.

(** X12.  [decrypt] turns away, with "invalid encrypted message" and
    before any key is loaded or any call is made to the library, every
    file that opens neither with the four bytes of a binary envelope (or
    has fewer than 6 bytes) nor with the opener line of an armored one;
    the empty file is one such. *)
Theorem decrypt_rejects_other_files (o : os) pubkeyfile seckeyfile encfile contents w :
  readall o encfile = Read_done 0 (Some (contents ++ [NUL])) (Z.of_nat (length contents)) ->
  length contents < 6 \/ firstn 4 contents <> REOP_BINARY ->
  prefixb beginencmsg (c_str contents) = false ->
  decrypt o pubkeyfile seckeyfile encfile w = (Errx "invalid encrypted message", w).
Proof.
  intros Hr Hb Ha. unfold decrypt. unfold bind at 1.
  rewrite (@readallorfail_read o encfile _ _ w Hr), Nat2Z.id.
  unfold decrypt_encdata, uninitialised. unfold bind at 1 2.
  replace ((6 <=? length contents) && memcmp_eq 4 (contents ++ [NUL]) REOP_BINARY)
    with false.
  - unfold decrypt_armored, strncmp_eq. rewrite c_str_snoc_nul.
    change (lit "-----BEGIN REOP ENCRYPTED MESSAGE-----" ++ [NL]) with beginencmsg.
    rewrite Ha. reflexivity.
  - symmetry. apply andb_false_iff.
    destruct (Nat.lt_ge_cases (length contents) 6) as [Hlt|Hge].
    + left. apply Nat.leb_gt. exact Hlt.
    + right. apply memcmp_eq_false. destruct Hb as [Hb|Hb]; [lia|].
      rewrite firstn_app. replace (4 - length contents) with 0 by lia.
      rewrite firstn_O, app_nil_r. exact Hb.
Qed.

(** X13.  What the binary reader accepts is the layout that
    [writeencfile] writes: whenever the first half of [decrypt] returns
    on a binary envelope, the file is its four opening bytes, a header
    with one of the four tags and the size that goes with the tag, a
    length in four bytes (most significant first), an identity of that
    many bytes, fewer than 64, and the message; nothing is read beyond
    the end of the file. *)
Theorem binary_envelope_layout hdr0 contents w hdr hdrsize ident msg w' :
  decrypt_binary hdr0 (contents ++ [NUL]) (length contents) w
  = (Done (hdr, hdrsize, ident, msg), w') ->
  exists h lenbytes idbytes,
    contents = firstn 4 contents ++ h ++ lenbytes ++ idbytes ++ msg
    /\ length (firstn 4 contents) = 4
    /\ header_size h = Some (length h)
    /\ hdrsize = length h /\ hdr = hdr_store hdr0 h
    /\ length lenbytes = 4 /\ ntohl lenbytes = Z.of_nat (length idbytes)
    /\ length idbytes < IDENTLEN
    /\ ident = c_str idbytes
    /\ w' = w.
Proof.
  intros H. unfold decrypt_binary in H. cbv zeta in H.
  set (E := contents ++ [NUL]) in *. set (n := length contents) in *.
  assert (Hgen : forall K,
    2 <= K ->
    (4 + K <= n -> header_size (slice 4 K contents) = Some K) ->
    ('(hdr1, hdrsize1) <-
        (if n <? 4 + K
         then errx "invalid encrypted message"
         else ret (hdr_store hdr0 (memcpy (skipn 4 E) K), K)) ;;
     (if n <? 4 + hdrsize1 + 4
      then errx "invalid encrypted message"
      else
        if IDENTLEN <=? Z.to_nat (ntohl (memcpy (skipn (4 + hdrsize1) E) 4))
        then errx "invalid encrypted message"
        else
          if n <? 4 + hdrsize1 + 4
                  + Z.to_nat (ntohl (memcpy (skipn (4 + hdrsize1) E) 4))
          then errx "invalid encrypted message"
          else
            ret (hdr1, hdrsize1,
                 c_str (memcpy (skipn (4 + hdrsize1 + 4) E)
                          (Z.to_nat (ntohl (memcpy (skipn (4 + hdrsize1) E) 4)))
                        ++ [NUL]),
                 firstn (n - (4 + hdrsize1 + 4
                              + Z.to_nat (ntohl (memcpy (skipn (4 + hdrsize1) E) 4))))
                   (skipn (4 + hdrsize1 + 4
                           + Z.to_nat (ntohl (memcpy (skipn (4 + hdrsize1) E) 4)))
                      E)))) w
    = (Done (hdr, hdrsize, ident, msg), w') ->
    exists h lenbytes idbytes,
      contents = firstn 4 contents ++ h ++ lenbytes ++ idbytes ++ msg
      /\ length (firstn 4 contents) = 4
      /\ header_size h = Some (length h)
      /\ hdrsize = length h /\ hdr = hdr_store hdr0 h
      /\ length lenbytes = 4 /\ ntohl lenbytes = Z.of_nat (length idbytes)
      /\ length idbytes < IDENTLEN
      /\ ident = c_str idbytes
      /\ w' = w).
  { intros K HK Hhs H1. unfold bind in H1.
    destruct (n <? 4 + K) eqn:B1; [discriminate|]. apply Nat.ltb_ge in B1.
    specialize (Hhs B1). unfold ret in H1.
    destruct (n <? 4 + K + 4) eqn:B2; [discriminate|]. apply Nat.ltb_ge in B2.
    fold (slice (4 + K) 4 E) in H1. fold (slice 4 K E) in H1.
    unfold memcpy in H1. fold (slice (4 + K) 4 E) in H1. fold (slice 4 K E) in H1.
    assert (S1 : slice 4 K E = slice 4 K contents) by (apply slice_app_inside; lia).
    assert (S2 : slice (4 + K) 4 E = slice (4 + K) 4 contents)
      by (apply slice_app_inside; lia).
    rewrite S1, S2 in H1.
    set (idl := Z.to_nat (ntohl (slice (4 + K) 4 contents))) in *.
    destruct (IDENTLEN <=? idl) eqn:B3; [discriminate|]. apply Nat.leb_gt in B3.
    destruct (n <? 4 + K + 4 + idl) eqn:B4; [discriminate|]. apply Nat.ltb_ge in B4.
    fold (slice (4 + K + 4) idl E) in H1.
    fold (slice (4 + K + 4 + idl) (n - (4 + K + 4 + idl)) E) in H1.
    assert (S3 : slice (4 + K + 4) idl E = slice (4 + K + 4) idl contents)
      by (apply slice_app_inside; lia).
    assert (S4 : slice (4 + K + 4 + idl) (n - (4 + K + 4 + idl)) E
                 = skipn (4 + K + 4 + idl) contents).
    { unfold E. rewrite slice_app_inside by (fold n; lia). unfold slice.
      apply firstn_all2. rewrite length_skipn. fold n. lia. }
    rewrite S3, S4 in H1.
    injection H1 as <- <- <- <- <-.
    exists (slice 4 K contents), (slice (4 + K) 4 contents),
           (slice (4 + K + 4) idl contents).
    assert (L1 : length (slice 4 K contents) = K) by (apply slice_length; lia).
    assert (L2 : length (slice (4 + K) 4 contents) = 4) by (apply slice_length; lia).
    assert (L3 : length (slice (4 + K + 4) idl contents) = idl)
      by (apply slice_length; lia).
    split.
    { rewrite <- (firstn_skipn 4 contents) at 1. f_equal.
      rewrite (slice_split 4 K). f_equal.
      rewrite (slice_split (4 + K) 4). f_equal.
      apply (slice_split (4 + K + 4) idl). }
    split; [rewrite length_firstn; lia|].
    split; [now rewrite L1|].
    split; [now rewrite L1|].
    split; [reflexivity|].
    split; [exact L2|].
    split.
    { rewrite L3. unfold idl. rewrite Z2Nat.id; [reflexivity|].
      unfold ntohl. generalize (firstn 4 (slice (4 + K) 4 contents)).
      intros l. assert (Hf : forall acc, (0 <= acc)%Z ->
        (0 <= fold_left (fun a c => a * 256 + Z.of_N (N_of_ascii c)) l acc)%Z).
      { induction l as [|c l IH]; intros acc Ha; [exact Ha|].
        cbn [fold_left]. apply IH. lia. }
      apply Hf. lia. }
    split; [now rewrite L3|].
    split; [apply c_str_snoc_nul | reflexivity]. }
  assert (Halg : forall K X, 2 <= K ->
            memcmp_eq 2 (skipn 4 E) X = memcmp_eq 2 (slice 4 K E) X).
  { intros K X HK. unfold slice. now rewrite memcmp_firstn. }
  destruct (memcmp_eq 2 (skipn 4 E) SYMALG) eqn:A1.
  { apply (Hgen symmsgsize); [unfold symmsgsize; lia | | exact H].
    intros B. unfold header_size.
    rewrite <- (@slice_app_inside 4 symmsgsize contents [NUL]) by (fold n; lia).
    fold E. rewrite <- (Halg symmsgsize) by (unfold symmsgsize; lia).
    now rewrite A1. }
  destruct (memcmp_eq 2 (skipn 4 E) ENCALG) eqn:A2.
  { apply (Hgen encmsgsize); [unfold encmsgsize; lia | | exact H].
    intros B. unfold header_size.
    rewrite <- (@slice_app_inside 4 encmsgsize contents [NUL]) by (fold n; lia).
    fold E. rewrite <- !(Halg encmsgsize) by (unfold encmsgsize; lia).
    now rewrite A1, A2. }
  destruct (memcmp_eq 2 (skipn 4 E) OLDENCALG) eqn:A3.
  { apply (Hgen oldencmsgsize); [unfold oldencmsgsize; lia | | exact H].
    intros B. unfold header_size.
    rewrite <- (@slice_app_inside 4 oldencmsgsize contents [NUL]) by (fold n; lia).
    fold E. rewrite <- !(Halg oldencmsgsize) by (unfold oldencmsgsize; lia).
    now rewrite A1, A2, A3. }
  destruct (memcmp_eq 2 (skipn 4 E) OLDEKCALG) eqn:A4.
  { apply (Hgen oldekcmsgsize); [unfold oldekcmsgsize; lia | | exact H].
    intros B. unfold header_size.
    rewrite <- (@slice_app_inside 4 oldekcmsgsize contents [NUL]) by (fold n; lia).
    fold E. rewrite <- !(Halg oldekcmsgsize) by (unfold oldekcmsgsize; lia).
    now rewrite A1, A2, A3, A4. }
  discriminate.
Qed.

End Accepts.

(** ** What [decrypt] writes *)

Section Writes.

Context {C : Crypto}.







End Writes.

(** ** Lines of 76 bytes *)

Lemma writeb64data_loop_length rem :
  forall s, length s <= rem ->
    length (writeb64data_loop rem s) = length s + (length s + 75) / 76.
Proof.
  induction rem as [|rem IH]; intros s Hs.
  - destruct s; [reflexivity | simpl in Hs; lia].
  - destruct s as [|c s]; [reflexivity|].
    cbn [writeb64data_loop]. set (u := c :: s) in *.
    assert (Hu : 1 <= length u) by (unfold u; simpl; lia).
    rewrite length_app. cbn [length].
    rewrite IH by (rewrite length_skipn; lia).
    rewrite length_firstn, length_skipn.
    lia.
Qed.

Lemma writeb64data_loop_byte rem :
  forall s i, length s <= rem -> i < length s ->
    nth (i + i / 76) (writeb64data_loop rem s) NUL = nth i s NUL.
Proof.
  induction rem as [|rem IH]; intros s i Hs Hi.
  - lia.
  - destruct s as [|c s]; [simpl in Hi; lia|].
    cbn [writeb64data_loop]. set (u := c :: s) in *.
    destruct (Nat.lt_ge_cases i 76) as [Hlt|Hge].
    + rewrite Nat.div_small by lia. rewrite Nat.add_0_r.
      rewrite app_nth1 by (rewrite length_firstn; lia).
      rewrite <- (firstn_skipn 76 u) at 2.
      rewrite app_nth1 by (rewrite length_firstn; lia). reflexivity.
    + assert (Hd : i / 76 = (i - 76) / 76 + 1) by lia.
      rewrite app_nth2 by (rewrite length_firstn; lia).
      rewrite length_firstn.
      replace (Nat.min 76 (length u)) with 76 by lia.
      replace (i + i / 76 - 76) with (S (i - 76 + (i - 76) / 76)) by lia.
      cbn [nth].
      rewrite IH by (rewrite length_skipn; lia).
      rewrite <- (firstn_skipn 76 u) at 2.
      rewrite app_nth2 by (rewrite length_firstn; lia).
      rewrite length_firstn.
      replace (Nat.min 76 (length u)) with 76 by lia. reflexivity.
Qed.

Lemma writeb64data_loop_break rem :
  forall s p, length s <= rem ->
    p < length (writeb64data_loop rem s) ->
    p mod 77 = 76 \/ p + 1 = length (writeb64data_loop rem s) ->
    nth p (writeb64data_loop rem s) NUL = NL.
Proof.
  induction rem as [|rem IH]; intros s p Hs Hp Hb.
  - simpl in Hp. lia.
  - destruct s as [|c s]; [simpl in Hp; lia|].
    cbn [writeb64data_loop] in *. set (u := c :: s) in *.
    assert (Hu : 1 <= length u) by (unfold u; simpl; lia).
    rewrite length_app in Hp, Hb. cbn [length] in Hp, Hb.
    rewrite length_firstn in Hp, Hb.
    destruct (Nat.le_gt_cases 76 (length u)) as [Hge|Hlt].
    + replace (Nat.min 76 (length u)) with 76 in Hp, Hb by lia.
      destruct (Nat.lt_trichotomy p 76) as [H|[H|H]].
      * exfalso. destruct Hb as [Hb|Hb]; [|lia].
        rewrite Nat.mod_small in Hb by lia. lia.
      * subst p. rewrite app_nth2 by (rewrite length_firstn; lia).
        rewrite length_firstn. replace (Nat.min 76 (length u)) with 76 by lia.
        reflexivity.
      * rewrite app_nth2 by (rewrite length_firstn; lia).
        rewrite length_firstn. replace (Nat.min 76 (length u)) with 76 by lia.
        replace (p - 76) with (S (p - 77)) by lia. cbn [nth].
        apply IH; [rewrite length_skipn; lia | lia |].
        destruct Hb as [Hb|Hb]; [left | right]; lia.
    + replace (Nat.min 76 (length u)) with (length u) in Hp, Hb by lia.
      assert (Hskip : skipn 76 u = []) by (apply skipn_all2; lia).
      rewrite Hskip, writeb64data_loop_nil in Hp, Hb |- *. cbn [length] in Hp, Hb.
      assert (p = length u).
      { destruct Hb as [Hb|Hb]; [|lia].
        rewrite Nat.mod_small in Hb by lia. lia. }
      subst p. rewrite app_nth2 by (rewrite length_firstn; lia).
      rewrite length_firstn. replace (Nat.min 76 (length u)) with (length u) by lia.
      rewrite Nat.sub_diag. reflexivity.
Qed.

(** X15.  What [writeb64data] writes of a string: every byte of the
    string, the byte at offset [i] at offset [i + i / 76] of the output; a
    line break after every 76 bytes and after the last byte; nothing else
    (the output has one byte more per line begun), and nothing at all for
    the empty string. *)
Theorem writeb64data_lines b64 :
  length (writeb64data b64) = strlen b64 + (strlen b64 + 75) / 76
  /\ (forall i, i < strlen b64 ->
        nth (i + i / 76) (writeb64data b64) NUL = nth i (c_str b64) NUL)
  /\ (forall p, p < length (writeb64data b64) ->
        p mod 77 = 76 \/ p + 1 = length (writeb64data b64) ->
        nth p (writeb64data b64) NUL = NL)
  /\ (strlen b64 = 0 -> writeb64data b64 = []).
Proof.
  unfold writeb64data, strlen. split; [|split; [|split]].
  - now apply writeb64data_loop_length.
  - intros i Hi. now apply writeb64data_loop_byte.
  - intros p Hp Hb. now apply writeb64data_loop_break.
  - intros H. now rewrite H.
Qed.

Lemma size_t_lines_wide len :
  1 <= len -> (Z.of_nat len < 2 ^ 64)%Z ->
  Z.to_nat (((Z.of_nat len - 1) mod 2 ^ 64) / 76)%Z = (len - 1) / 76.
Proof.
  intros H1 H2. change (2 ^ 64)%Z with 18446744073709551616%Z in *.
  rewrite Z.mod_small by lia. lia.
Qed.

Lemma c_str_app a b : nonul a = true -> c_str (a ++ b) = a ++ c_str b.
Proof.
  induction a as [|c a IH]; simpl; [reflexivity|].
  intros H. apply andb_true_iff in H. destruct H as [H1 H2].
  apply negb_true_iff in H1. rewrite H1. now rewrite IH.
Qed.

(** [wraplines] on a buffer that holds the string [t], whose last line is
    not a full one; the length is any that a [size_t] holds. *)
Lemma wraplines_wrapped_wide t junk space :
  nonul t = true ->
  1 <= length t -> (Z.of_nat (length t) < 2 ^ 64)%Z ->
  (length t - 1) / 76 = 0 \/ length t mod 76 <> 0 ->
  length t + (length t - 1) / 76 + 1 <= space ->
  length (t ++ NUL :: junk) = space ->
  c_str (wraplines (t ++ NUL :: junk) space) = wrapped ((length t - 1) / 76) t.
Proof.
  intros Hnul H1 H2 Hfull Hspace HB. unfold wraplines, strlen.
  rewrite c_str_app_nul by exact Hnul. rewrite size_t_lines_wide by assumption.
  replace (space <? length t + (length t - 1) / 76 + 1) with false
    by (symmetry; apply Nat.ltb_ge; lia).
  set (B := t ++ NUL :: junk) in *.
  destruct ((length t - 1) / 76) as [|n] eqn:EN.
  - cbn [wraplines_loop wrapped]. unfold B. now apply c_str_app_nul.
  - assert (Hr : 76 * S n + 1 <= length t /\ length t <= 76 * S n + 75).
    { destruct Hfull as [?|Hfull]; [discriminate|]. lia. }
    cbn [wraplines_loop].
    replace (if length t - (76 * S n - 1) <? 76 then length t - (76 * S n - 1) else 76)
      with (length t - 76 * S n + 1)
      by (destruct (length t - (76 * S n - 1) <? 76) eqn:E;
          [lia | apply Nat.ltb_ge in E; lia]).
    rewrite wraplines_round by lia.
    replace (76 * S n - 1 + 1) with (76 * S n) by lia.
    replace (76 * S n - 1 + S n + (length t - 76 * S n + 1) + 1)
      with (length t + S n + 1) by lia.
    assert (E2 : firstn (length t - 76 * S n + 1) (skipn (76 * S n) B)
                 = skipn (76 * S n) t ++ [NUL]).
    { unfold B. rewrite skipn_app.
      replace (76 * S n - length t) with 0 by lia. cbn [skipn].
      rewrite firstn_app, length_skipn.
      replace (length t - 76 * S n + 1 - (length t - 76 * S n)) with 1 by lia.
      rewrite firstn_all2 by (rewrite length_skipn; lia). reflexivity. }
    assert (E3 : exists stale', length stale' = n
                  /\ firstn (76 * S n - 1 + S n) B = firstn (76 * (n + 1)) t ++ stale').
    { exists (firstn n (skipn (76 * (n + 1)) B)). split.
      - rewrite length_firstn, length_skipn. lia.
      - replace (76 * S n - 1 + S n) with (76 * (n + 1) + n) by lia.
        rewrite firstn_add. f_equal.
        unfold B. rewrite firstn_app.
        replace (76 * (n + 1) - length t) with 0 by lia.
        rewrite firstn_O, app_nil_r. reflexivity. }
    destruct E3 as (stale' & Hs' & E3).
    rewrite E2, E3, <- !app_assoc.
    rewrite (wraplines_loop_rest t (k := n) stale' _ Hs') by lia.
    cbn [app wrapped].
    replace (lines_upto n t ++ NL :: skipn (76 * S n) t ++ NUL :: skipn (length t + S n + 1) B)
      with ((lines_upto n t ++ NL :: skipn (76 * S n) t) ++ NUL :: skipn (length t + S n + 1) B)
      by (now rewrite <- app_assoc).
    apply c_str_app_nul.
    apply (nonul_wrapped (S n) t Hnul).
Qed.

(** [wraplines] on a buffer that holds a string of [k] full lines: the
    last round moves 77 bytes, the last line and the byte before it, and
    not the NUL. *)
Lemma wraplines_full t junk space k :
  nonul t = true ->
  length t = 76 * k -> 2 <= k -> (Z.of_nat (length t) < 2 ^ 64)%Z ->
  length t + (k - 1) + 1 <= space ->
  length (t ++ NUL :: junk) = space ->
  wraplines (t ++ NUL :: junk) space
  = wrapped (k - 1) t ++ skipn (k - 2) junk.
Proof.
  intros Hnul Hlen Hk Hsize Hspace HB. unfold wraplines, strlen.
  rewrite c_str_app_nul by exact Hnul. rewrite size_t_lines_wide by (assumption || lia).
  assert (Hnum : (length t - 1) / 76 = k - 1) by lia.
  rewrite Hnum.
  replace (space <? length t + (k - 1) + 1) with false
    by (symmetry; apply Nat.ltb_ge; lia).
  set (B := t ++ NUL :: junk) in *.
  destruct k as [|[|n]]; [lia | lia |].
  replace (S (S n) - 1) with (S n) by lia. replace (S (S n) - 2) with n by lia.
  cbn [wraplines_loop].
  replace (length t - (76 * S n - 1) <? 76) with false
    by (symmetry; apply Nat.ltb_ge; lia).
  rewrite wraplines_round by lia.
  replace (76 * S n - 1 + 1) with (76 * S n) by lia.
  replace (76 * S n - 1 + S n + 76 + 1) with (length t + 1 + n) by lia.
  assert (E1 : skipn (length t + 1 + n) B = skipn n junk).
  { unfold B. rewrite Nat.add_comm, <- skipn_skipn.
    replace (t ++ NUL :: junk) with ((t ++ [NUL]) ++ junk)
      by (rewrite <- app_assoc; reflexivity).
    rewrite skipn_app_exact by (rewrite length_app; cbn [length]; lia). reflexivity. }
  assert (E2 : firstn 76 (skipn (76 * S n) B) = skipn (76 * S n) t).
  { unfold B. rewrite skipn_app.
    replace (76 * S n - length t) with 0 by lia. cbn [skipn].
    apply firstn_app_exact. rewrite length_skipn. lia. }
  assert (E3 : exists stale', length stale' = n
                /\ firstn (76 * S n - 1 + S n) B = firstn (76 * (n + 1)) t ++ stale').
  { exists (firstn n (skipn (76 * (n + 1)) B)). split.
    - rewrite length_firstn, length_skipn. lia.
    - replace (76 * S n - 1 + S n) with (76 * (n + 1) + n) by lia.
      rewrite firstn_add. f_equal.
      unfold B. rewrite firstn_app.
      replace (76 * (n + 1) - length t) with 0 by lia.
      rewrite firstn_O, app_nil_r. reflexivity. }
  destruct E3 as (stale' & Hs' & E3).
  rewrite E1, E2, E3, <- !app_assoc.
  rewrite (wraplines_loop_rest t (k := n) stale' _ Hs') by lia.
  cbn [app wrapped]. rewrite <- app_assoc. reflexivity.
Qed.

(** X16.  [wraplines] leaves the buffer as it was when the string is
    empty or when the wrapped string and its NUL do not fit in [space]
    bytes.  Otherwise, for a string whose last line is not a full one
    (at most 76 bytes in all, or a length that is no multiple of 76), the
    string it leaves, followed by a line break, is byte for byte what
    [writeb64data] writes of the string: the two ways in which [reop.c]
    breaks base64 into lines agree. *)
Theorem wraplines_agrees_with_writeb64data str space :
  (strlen str = 0 -> (Z.of_nat space < 2 ^ 57)%Z -> wraplines str space = str)
  /\ (1 <= strlen str -> (Z.of_nat (strlen str) < 2 ^ 64)%Z ->
      space < strlen str + (strlen str - 1) / 76 + 1 ->
      wraplines str space = str)
  /\ (forall t junk,
        str = t ++ NUL :: junk -> nonul t = true ->
        1 <= length t -> (Z.of_nat (length t) < 2 ^ 64)%Z ->
        length t <= 76 \/ length t mod 76 <> 0 ->
        length t + (length t - 1) / 76 + 1 <= space ->
        length str = space ->
        c_str (wraplines str space) ++ [NL] = writeb64data str).
Proof.
  split; [|split].
  - intros H0 Hs. unfold wraplines. rewrite H0.
    replace (space <? _) with true; [reflexivity|].
    symmetry. apply Nat.ltb_lt.
    change (2 ^ 57)%Z with 144115188075855872%Z in Hs.
    change (Z.of_nat 0 - 1)%Z with (-1)%Z.
    change ((-1) mod 2 ^ 64)%Z with 18446744073709551615%Z.
    change (18446744073709551615 / 76)%Z with 242720316759336205%Z.
    lia.
  - intros H1 H2 Hs. unfold wraplines.
    rewrite size_t_lines_wide by assumption.
    replace (space <? _) with true; [reflexivity|].
    symmetry. now apply Nat.ltb_lt.
  - intros t junk -> Hnul H1 H2 Hfull Hspace HB.
    rewrite wraplines_wrapped_wide; try assumption.
    + unfold writeb64data, strlen. rewrite c_str_app_nul by exact Hnul.
      apply wrapped_lines; lia.
    + lia.
Qed.

(** X17.  The one case in which [wraplines] does not leave a string: when
    the length is a multiple of 76, twice 76 at least, the last round of
    its loop moves the last line without the NUL and nothing is written
    after the line.  The buffer then holds the wrapped string followed, at
    once, by the bytes that were in the buffer beyond it; read as a
    string, the wrapped text runs on into them. *)
Theorem wraplines_full_last_line_is_not_terminated t junk space k :
  nonul t = true ->
  length t = 76 * k -> 2 <= k -> (Z.of_nat (length t) < 2 ^ 64)%Z ->
  length t + (k - 1) + 1 <= space ->
  length (t ++ NUL :: junk) = space ->
  wraplines (t ++ NUL :: junk) space = wrapped (k - 1) t ++ skipn (k - 2) junk
  /\ c_str (wraplines (t ++ NUL :: junk) space)
     = wrapped (k - 1) t ++ c_str (skipn (k - 2) junk).
Proof.
  intros Hnul Hlen Hk Hsize Hspace HB.
  rewrite wraplines_full with (k := k) by assumption.
  split; [reflexivity|].
  apply c_str_app. now apply nonul_wrapped.
Qed.

(** ** Reading a file *)

(** X18.  [readall] reads the whole file, whatever the size that [fstat]
    reported and however the bytes arrive: it never writes beyond the
    buffer it allocated, its loop ends, and when it returns 0 the buffer
    holds every byte of the file, in order, followed by a NUL, and the
    length is their number.  Otherwise it returns -1, -2 or -3 and leaves
    a null buffer and a zero length.  It does return 0 when no read fails,
    a regular file is reported to have [2^30] bytes at most, and the file
    has no more than [2^29] bytes or no more than reported. *)
Theorem readall_reads_the_whole_file (o : os) filename :
  (forall h sb, xopen o filename = Fd h -> h_fstat h = Some sb ->
                (- 2 ^ 63 <= st_size sb < 2 ^ 63)%Z) ->
  (exists rv m len,
      readall o filename = Read_done rv m len
      /\ ((rv = 0%Z /\ exists h, xopen o filename = Fd h
                                 /\ m = Some (h_data h ++ [NUL])
                                 /\ len = Z.of_nat (length (h_data h)))
          \/ ((rv = (-1)%Z \/ rv = (-2)%Z \/ rv = (-3)%Z) /\ m = None /\ len = 0%Z)))
  /\ (forall h,
        xopen o filename = Fd h -> h_error h = None ->
        (forall sb, h_fstat h = Some sb -> st_isreg sb = true ->
                    (0 <= st_size sb <= 2 ^ 30)%Z) ->
        (Z.of_nat (length (h_data h)) <= 2 ^ 29)%Z
        \/ (exists sb, h_fstat h = Some sb /\ st_isreg sb = true
                       /\ (Z.of_nat (length (h_data h)) <= st_size sb)%Z) ->
        readall o filename
        = Read_done 0 (Some (h_data h ++ [NUL])) (Z.of_nat (length (h_data h)))).
Proof.
  intros Hrange. split.
  - unfold readall. destruct (xopen o filename) as [h|n] eqn:Ex.
    + specialize (Hrange h).
      assert (Hloop : forall space, (0 < space)%Z ->
        exists rv m len,
          readall_loop (S (length (h_data h))) h 0 (h_data h) [] space (space + 1)
          = Read_done rv m len
          /\ ((rv = 0%Z /\ exists h', Fd h = Fd h'
                                      /\ m = Some (h_data h' ++ [NUL])
                                      /\ len = Z.of_nat (length (h_data h')))
              \/ ((rv = (-1)%Z \/ rv = (-2)%Z \/ rv = (-3)%Z) /\ m = None /\ len = 0%Z))).
      { intros space Hs.
        assert (H := @readall_loop_sound h (S (length (h_data h))) 0 (h_data h) []
                       space (space + 1)).
        assert (H1 : length (h_data h) < S (length (h_data h))) by lia.
        assert (H2 : (0 < space \/ space = 0 /\ 0 < Z.of_nat (length (@nil ascii)))%Z)
          by (left; exact Hs).
        assert (H3 : (Z.of_nat (length (@nil ascii)) + space + 1 <= space + 1)%Z)
          by (cbn [length]; lia).
        specialize (H H1 H2 H3 eq_refl).
        destruct (readall_loop _ h 0 (h_data h) [] space (space + 1)) as [rv m len| |];
          [|contradiction|contradiction].
        exists rv, m, len. split; [reflexivity|].
        destruct H as [(Hrv & Hm & Hl)|(Hrv & Hm & Hl)].
        - left. split; [exact Hrv|]. exists h. auto.
        - right. split; [tauto | auto]. }
      destruct (h_fstat h) as [sb|].
      * destruct (st_isreg sb).
        -- destruct (maxmsgsize <? st_size sb mod 2 ^ 64)%Z eqn:E.
           ++ exists (-2)%Z, None, 0%Z. split; [reflexivity|]. right. auto.
           ++ apply Hloop.
              pose proof (@readall_space sb (Hrange sb eq_refl eq_refl) E). lia.
        -- apply Hloop. lia.
      * apply Hloop. lia.
    + destruct (n =? -1)%Z.
      * exists (-1)%Z, None, 0%Z. split; [reflexivity|]. right. auto.
      * exists (-3)%Z, None, 0%Z. split; [reflexivity|]. right. auto.
  - intros h. apply readall_complete.
Qed.

(** ** The key ring *)

Lemma fgets_line line rest :
  find_chr NL line = None -> length line < 1023 ->
  fgets 1024 (line ++ NL :: rest) = Some (line ++ [NL; NUL], rest).
Proof.
  intros Hnl Hlen. unfold fgets.
  destruct (line ++ NL :: rest) as [|c s] eqn:E.
  { destruct line; discriminate. }
  rewrite <- E. cbn [Nat.sub].
  assert (Hf : firstn 1023 (line ++ NL :: rest)
               = line ++ NL :: firstn (1022 - length line) rest).
  { rewrite firstn_app, firstn_all2 by lia. f_equal.
    replace (1023 - length line) with (S (1022 - length line)) by lia. reflexivity. }
  rewrite Hf, find_chr_app by exact Hnl.
  cbn [find_chr]. rewrite Ascii.eqb_refl. cbn [option_map].
  rewrite Nat.add_0_r.
  replace (line ++ NL :: rest) with ((line ++ [NL]) ++ rest)
    by (rewrite <- app_assoc; reflexivity).
  rewrite firstn_app_exact, skipn_app_exact
    by (rewrite length_app; cbn [length]; lia).
  rewrite <- app_assoc. reflexivity.
Qed.

(** [readident] on the identity line of a block, for an identity of one
    word. *)
Lemma readident_word ident rest w :
  nonul ident = true -> nospace ident = true ->
  1 <= length ident -> length ident <= 63 ->
  readident (lit "ident:" ++ ident ++ NL :: rest) w = (Done (ident, rest), w).
Proof.
  intros Hi Hs Hne Hlen. unfold readident, sscanf_ident.
  assert (Hc : c_str (lit "ident:" ++ ident ++ NL :: rest)
               = lit "ident:" ++ ident ++ NL :: c_str rest).
  { replace (lit "ident:" ++ ident ++ NL :: rest)
      with ((lit "ident:" ++ ident ++ [NL]) ++ rest)
      by (rewrite <- !app_assoc; reflexivity).
    rewrite c_str_app by (rewrite !nonul_app, Hi; reflexivity).
    rewrite <- !app_assoc. reflexivity. }
  rewrite Hc. rewrite prefixb_refl_app.
  rewrite skipn_app_exact by reflexivity.
  rewrite skip_space_word; [| exact Hs | destruct ident; [simpl in Hne; lia | discriminate]].
  rewrite scan_word_line by assumption.
  assert (Hnl : find_chr NL ident = None)
    by (apply (find_chr_forallb _ NL ident Hs); reflexivity).
  assert (Hchr : strchr (skipn 1 (lit "ident:" ++ ident ++ NL :: rest)) NL
                 = Some (5 + length ident)).
  { unfold strchr. change (skipn 1 (lit "ident:" ++ ident ++ NL :: rest))
      with (lit "dent:" ++ ident ++ NL :: rest).
    replace (lit "dent:" ++ ident ++ NL :: rest)
      with ((lit "dent:" ++ ident ++ [NL]) ++ rest)
      by (rewrite <- !app_assoc; reflexivity).
    rewrite c_str_app by (rewrite !nonul_app, Hi; reflexivity).
    rewrite <- !app_assoc.
    rewrite (app_assoc (lit "dent:") ident).
    rewrite find_chr_app.
    - cbn [app find_chr]. rewrite Ascii.eqb_refl. cbn [option_map].
      rewrite length_app. f_equal. cbn [length lit list_ascii_of_string]. lia.
    - rewrite find_chr_app by reflexivity. rewrite Hnl. reflexivity. }
  rewrite Hchr.
  assert (Hrest : skipn (1 + (5 + length ident) + 1) (lit "ident:" ++ ident ++ NL :: rest)
                  = rest).
  { replace (lit "ident:" ++ ident ++ NL :: rest)
      with ((lit "ident:" ++ ident ++ [NL]) ++ rest)
      by (rewrite <- !app_assoc; reflexivity).
    apply skipn_app_exact.
    rewrite !length_app. cbn [length lit list_ascii_of_string]. lia. }
  rewrite Hrest.
  destruct ident as [|c i']; [simpl in Hne; lia | reflexivity].
Qed.

Lemma forallb_firstn (A : Type) (P : A -> bool) n (l : list A) :
  forallb P l = true -> forallb P (firstn n l) = true.
Proof.
  intros H. rewrite <- (firstn_skipn n l), forallb_app in H.
  now apply andb_true_iff in H.
Qed.

Lemma forallb_skipn (A : Type) (P : A -> bool) n (l : list A) :
  forallb P l = true -> forallb P (skipn n l) = true.
Proof.
  intros H. rewrite <- (firstn_skipn n l), forallb_app in H.
  now apply andb_true_iff in H.
Qed.

Lemma alphabet_no_break s : forallb b64_alphabet s = true -> find_chr NL s = None.
Proof.
  intros H. apply find_chr_forallb with (P := b64_alphabet); [exact H | reflexivity].
Qed.

Lemma alphabet_nonul s : forallb b64_alphabet s = true -> nonul s = true.
Proof.
  intros H. unfold nonul. rewrite forallb_forall in H |- *. intros c Hc.
  apply H, b64_alphabet_plain in Hc. destruct Hc as (_ & Hc & _). now rewrite Hc.
Qed.

(** The inner loop of [findpubkey] over the lines of a payload and the
    closing line: the lines are gathered in [buf]. *)
Lemma findpubkey_key_payload rem :
  forall s buf fuel identbuf rest w,
    length s <= rem ->
    forallb b64_alphabet s = true ->
    nonul buf = true ->
    length buf + length (writeb64data_loop rem s) <= 1023 ->
    length (writeb64data_loop rem s) + 30 <= fuel ->
    findpubkey_key fuel
      (writeb64data_loop rem s ++ (lit "-----END REOP PUBLIC KEY-----" ++ [NL]) ++ rest)
      false identbuf buf w
    = (Done (Some (identbuf, buf ++ writeb64data_loop rem s, rest)), w).
Proof.
  assert (Hend : forall buf fuel identbuf rest w,
    1 <= fuel ->
    findpubkey_key fuel ((lit "-----END REOP PUBLIC KEY-----" ++ [NL]) ++ rest)
      false identbuf buf w
    = (Done (Some (identbuf, buf, rest)), w)).
  { intros buf fuel identbuf rest w Hf. destruct fuel as [|fuel]; [lia|].
    cbn [findpubkey_key]. rewrite <- app_assoc. cbn [app].
    change (lit "-----END REOP PUBLIC KEY-----" ++ NL :: rest)
      with (lit "-----END REOP PUBLIC KEY-----" ++ NL :: rest).
    rewrite fgets_line by (reflexivity || (cbn; lia)).
    reflexivity. }
  induction rem as [|rem IH]; intros s buf fuel identbuf rest w Hs Ha Hb Hlen Hf.
  - cbn [writeb64data_loop app]. rewrite app_nil_r. apply Hend. lia.
  - destruct s as [|c s'].
    { cbn [writeb64data_loop app]. rewrite app_nil_r. apply Hend. lia. }
    cbn [writeb64data_loop] in *. set (s := c :: s') in *.
    assert (Hline : forallb b64_alphabet (firstn 76 s) = true)
      by now apply forallb_firstn.
    rewrite length_app in Hlen, Hf. cbn [length] in Hlen, Hf.
    destruct fuel as [|fuel]; [lia|].
    cbn [findpubkey_key]. rewrite <- app_assoc. cbn [app].
    rewrite fgets_line;
      [ | now apply alphabet_no_break | rewrite length_firstn; lia ].
    replace (strncmp_eq (firstn 76 s ++ [NL; NUL])
                        (lit "-----END REOP PUBLIC KEY-----" ++ [NL])) with false.
    2:{ symmetry. unfold strncmp_eq, s. cbn [firstn app c_str].
        assert (Hc : b64_alphabet c = true).
        { unfold s in Ha. cbn [forallb] in Ha. now apply andb_true_iff in Ha. }
        apply b64_alphabet_plain in Hc. destruct Hc as (_ & Hn & Hd).
        rewrite Hn. cbn [prefixb lit list_ascii_of_string app].
        fold DASH. rewrite Ascii.eqb_sym, Hd. reflexivity. }
    assert (Hcat : strlcat buf (firstn 76 s ++ [NL; NUL]) 1024
                   = buf ++ firstn 76 s ++ [NL]).
    { unfold strlcat. rewrite (c_str_id buf) by exact Hb.
      replace (firstn 76 s ++ [NL; NUL]) with ((firstn 76 s ++ [NL]) ++ NUL :: [])
        by (rewrite <- app_assoc; reflexivity).
      rewrite c_str_app_nul.
      - apply firstn_all2. rewrite !length_app. cbn [length Nat.sub]. lia.
      - rewrite nonul_app. rewrite alphabet_nonul by exact Hline. reflexivity. }
    rewrite Hcat.
    rewrite IH.
    + rewrite <- !app_assoc. reflexivity.
    + rewrite length_skipn. unfold s in *. cbn [length] in *. lia.
    + now apply forallb_skipn.
    + rewrite !nonul_app, Hb. rewrite alphabet_nonul by exact Hline. reflexivity.
    + rewrite !length_app. cbn [length]. lia.
    + lia.
Qed.

Lemma ring_key_inv k :
  ring_key k = true ->
  pubkey_wf k = true /\ nospace (pub_ident k) = true /\ 1 <= length (pub_ident k).
Proof.
  unfold ring_key. rewrite !andb_true_iff, Nat.leb_le. tauto.
Qed.

Lemma pubkey_block_lines k rest :
  pubkey_block k ++ rest
  = lit "-----BEGIN REOP PUBLIC KEY-----" ++ NL
    :: lit "ident:" ++ pub_ident k ++ NL
    :: payload_of (pubkey_image k)
    ++ (lit "-----END REOP PUBLIC KEY-----" ++ [NL]) ++ rest.
Proof.
  unfold pubkey_block, armored, armor_head, begin_line, endkey.
  cbn [kind_name]. rewrite <- ?app_assoc. cbn [app lit list_ascii_of_string].
  rewrite <- ?app_assoc. reflexivity.
Qed.

(** The inner loop of [findpubkey] over a block of the ring, after its
    opener line. *)
Lemma findpubkey_key_block k rest fuel identbuf w :
  ring_key k = true ->
  length (lit "ident:" ++ pub_ident k ++ NL
          :: payload_of (pubkey_image k)
          ++ (lit "-----END REOP PUBLIC KEY-----" ++ [NL]) ++ rest) <= fuel ->
  findpubkey_key fuel
    (lit "ident:" ++ pub_ident k ++ NL
     :: payload_of (pubkey_image k)
     ++ (lit "-----END REOP PUBLIC KEY-----" ++ [NL]) ++ rest)
    true identbuf [] w
  = (Done (Some (pub_ident k, payload_of (pubkey_image k), rest)), w).
Proof.
  intros Hk Hf. apply ring_key_inv in Hk. destruct Hk as (Hwf & Hs & Hne).
  destruct (pubkey_wf_inv k Hwf) as (H1 & H2 & H3 & H4 & H5 & Hi & Hlen).
  assert (Hnl : find_chr NL (pub_ident k) = None)
    by (apply (find_chr_forallb _ NL (pub_ident k) Hs); reflexivity).
  rewrite !length_app in Hf. cbn [length] in Hf. rewrite !length_app in Hf.
  cbn [length lit list_ascii_of_string] in Hf.
  destruct fuel as [|fuel]; [lia|].
  cbn [findpubkey_key].
  rewrite (app_assoc (lit "ident:") (pub_ident k)).
  rewrite fgets_line.
  2:{ rewrite find_chr_app by reflexivity. now rewrite Hnl. }
  2:{ rewrite length_app. cbn [length lit list_ascii_of_string]. lia. }
  rewrite <- app_assoc. cbn [app].
  unfold bind. rewrite readident_word by assumption.
  change (payload_of (pubkey_image k)) with
    (writeb64data_loop (length (b64_encode (pubkey_image k))) (b64_encode (pubkey_image k))).
  assert (Hp : length (writeb64data_loop (length (b64_encode (pubkey_image k)))
                                         (b64_encode (pubkey_image k))) <= 208).
  { pose proof (length_lines (length (b64_encode (pubkey_image k)))
                             (b64_encode (pubkey_image k))) as Hl.
    rewrite b64_encode_length in Hl at 2.
    assert (length (pubkey_image k) = 76)
      by (unfold pubkey_image; rewrite !length_app; lia).
    lia. }
  rewrite findpubkey_key_payload.
  - reflexivity.
  - apply Nat.le_refl.
  - apply b64_encode_alphabet.
  - reflexivity.
  - cbn [length]. lia.
  - unfold payload_of in Hf. lia.
Qed.

Lemma findpubkey_loop_ring ident w ks :
  forall fuel,
    forallb ring_key (map snd ks) = true ->
    length (keyring_text ks) <= fuel ->
    findpubkey_loop fuel (keyring_text ks) ident w
    = (Done (find (fun k => bytes_eqb (c_str ident) (pub_ident k)) (map snd ks)), w).
Proof.
  induction ks as [|[blank k] ks IH]; intros fuel Hks Hf.
  - destruct fuel; reflexivity.
  - cbn [map snd forallb] in Hks. apply andb_true_iff in Hks. destruct Hks as [Hk Hks].
    cbn [keyring_text map snd find].
    revert fuel Hf. induction blank as [|blank IHb]; intros fuel Hf.
    + cbn [keyring_text repeat app] in *.
      pose proof (ring_key_inv k Hk) as (Hwf & Hs & Hne).
      destruct (pubkey_wf_inv k Hwf) as (H1 & H2 & H3 & H4 & H5 & Hi & Hlen).
      rewrite pubkey_block_lines in *.
      set (inner := lit "ident:" ++ pub_ident k ++ NL
                    :: payload_of (pubkey_image k)
                    ++ (lit "-----END REOP PUBLIC KEY-----" ++ [NL]) ++ keyring_text ks) in *.
      rewrite length_app in Hf. cbn [length] in Hf.
      destruct fuel as [|fuel]; [lia|].
      cbn [findpubkey_loop].
      rewrite fgets_line by (reflexivity || (cbn; lia)).
      match goal with
      | |- context [if ?c then findpubkey_loop _ _ _ else _] =>
          replace c with false by reflexivity
      end.
      replace (strncmp_eq _ _) with true by reflexivity.
      cbn [negb]. unfold bind at 1.
      unfold inner. rewrite findpubkey_key_block; [ | exact Hk | apply Nat.le_refl ].
      rewrite (c_str_id (pub_ident k)) by exact Hi.
      destruct (bytes_eqb (c_str ident) (pub_ident k)) eqn:Eid.
      * unfold reopb64_pton. rewrite c_str_id by apply nonul_payload.
        rewrite decode_payload.
        assert (Himg : length (pubkey_image k) = pubkeysize).
        { unfold pubkey_image, pubkeysize. rewrite !length_app. lia. }
        rewrite Himg, Nat.leb_refl. cbv iota beta. rewrite Himg, Nat.eqb_refl.
        rewrite pubkey_of_image_image by assumption.
        rewrite strlcpy_id by (assumption || (unfold IDENTLEN; lia)).
        destruct k; reflexivity.
      * apply IH; [exact Hks|].
        unfold inner in Hf. rewrite !length_app in Hf. cbn [length] in Hf.
        rewrite !length_app in Hf. lia.
    + cbn [keyring_text repeat app] in *. cbn [length] in Hf.
      destruct fuel as [|fuel]; [lia|].
      cbn [findpubkey_loop].
      match goal with
      | |- context [fgets 1024 (NL :: ?rest)] =>
          pose proof (@fgets_line [] rest eq_refl ltac:(cbn; lia)) as Hg
      end.
      cbn [app] in Hg. rewrite Hg.
      replace (Ascii.eqb NL NUL || Ascii.eqb NL NL) with true by reflexivity.
      apply IHb. lia.
Qed.

(** ** Keys loaded from files *)

(** [parsekeydata] works on a copy of the string in its buffer. *)
Lemma parsekeydata_file text keytype keylen :
  parsekeydata (text ++ [NUL]) keytype keylen = parsekeydata text keytype keylen.
Proof. unfold parsekeydata, strdup. rewrite c_str_snoc_nul. reflexivity. Qed.

Lemma readall_key_file (o : os) filename text :
  regular_file o filename text -> length text <= 1023 ->
  readall_msg (readall o filename) = Some (text ++ [NUL]).
Proof.
  intros Hf Hlen. rewrite (readall_regular Hf); [reflexivity|].
  change (2 ^ 30)%Z with 1073741824%Z. lia.
Qed.

(** X19.  [reop_getpubkey] without a key file and with an identity looks
    the identity up in the key ring [~/.reop/pubkeyring]: of the keys of
    the ring, in their order, it returns the first whose identity is the
    one asked for, and null when there is none.  The ring is one that
    holds blocks written by [reop_encodepubkey], each after any number of
    empty lines, of keys with an identity of one word. *)
Theorem keyring_lookup_returns_first_match (o : os) ks name ident w :
  gethomefile o (lit "pubkeyring") 1024 = Some name ->
  os_fopen o name = Some (keyring_text ks) ->
  forallb ring_key (map snd ks) = true ->
  reop_getpubkey o None (Some ident) w
  = (Done (find (fun k => bytes_eqb (c_str ident) (pub_ident k)) (map snd ks)), w).
Proof.
  intros Hn Hf Hks. unfold reop_getpubkey, findpubkey. rewrite Hn, Hf.
  now apply findpubkey_loop_ring.
Qed.

(** X20.  A public key saved is the key loaded: when the file that
    [reop_getpubkey] reads (the one named, or [~/.reop/pubkey] when none is
    named and no identity is given) holds the text that [reop_encodepubkey]
    made of a key with an identity of one word, [reop_getpubkey] returns
    that key, every member of it. *)
Theorem saved_pubkey_loads_back (o : os) pk pubfile ident name w :
  pubkey_wf pk = true ->
  nospace (pub_ident pk) = true -> 1 <= length (pub_ident pk) ->
  (pubfile = None -> ident = None) ->
  match pubfile with
  | Some f => Some f
  | None => gethomefile o (lit "pubkey") 1024
  end = Some name ->
  exists text,
    reop_encodepubkey pk w = (Done text, w)
    /\ (regular_file o name text ->
        forall w2, reop_getpubkey o pubfile ident w2 = (Done (Some pk), w2)).
Proof.
  intros Hwf Hs Hne Hid Hname.
  destruct (pubkey_wf_inv pk Hwf) as (H1 & H2 & H3 & H4 & H5 & Hi & Hlen).
  assert (Himg : length (pubkey_image pk) = kind_size PUBLIC_KEY).
  { unfold pubkey_image. rewrite !length_app. cbn [kind_size]. unfold pubkeysize. lia. }
  assert (Henc : reop_encodepubkey pk w
                 = (Done (armored (kind_name PUBLIC_KEY) (pub_ident pk)
                                  (payload_of (pubkey_image pk))), w)).
  { unfold reop_encodepubkey. change (lit "PUBLIC KEY") with (kind_name PUBLIC_KEY).
    now apply encodekey_armored. }
  eexists. split; [exact Henc|]. intros Hfile w2.
  assert (Hread := @readall_key_file o name _ Hfile
                     (@encodekey_length _ _ _ _ _ _ Henc)).
  assert (Hgo : reop_getpubkey o pubfile ident
                = match readall_msg (readall o name) with
                  | None => ret None
                  | Some keydata =>
                      '(img, ident) <- parsekeydata keydata (lit "PUBLIC KEY") pubkeysize ;;
                      ret (Some (pubkey_of_image img ident))
                  end).
  { unfold reop_getpubkey. destruct pubfile as [f|].
    - injection Hname as ->. reflexivity.
    - rewrite (Hid eq_refl), Hname. reflexivity. }
  rewrite Hgo, Hread, parsekeydata_file. unfold bind.
  change (lit "PUBLIC KEY") with (kind_name PUBLIC_KEY).
  change pubkeysize with (kind_size PUBLIC_KEY).
  rewrite parsekeydata_encoded by (try assumption; now apply nospace_ident_line).
  rewrite skip_space_word;
    [| exact Hs | destruct (pub_ident pk); [simpl in Hne; lia | discriminate]].
  rewrite scan_word_line by assumption.
  unfold ret. rewrite pubkey_of_image_image by assumption.
  destruct pk; reflexivity.
Qed.

Section Loading.

Context {C : Crypto}.

(** X21.  A secret key saved is the key loaded: when the file that
    [reop_getseckey] reads (the one named, or [~/.reop/seckey]) holds the
    text that [reop_encodeseckey] made, under a passphrase, of the secret
    key of a generated pair with an identity of one word, [reop_getseckey]
    under the same passphrase returns a key with the signing key, the
    encryption key, the random id and the identity that were saved. *)
Theorem saved_seckey_loads_back (L : CryptoLaws C) (o : os) kp pw secfile name w :
  generated kp ->
  nospace (sec_ident (seckey kp)) = true -> 1 <= length (sec_ident (seckey kp)) ->
  match secfile with
  | Some f => Some f
  | None => gethomefile o (lit "seckey") 1024
  end = Some name ->
  exists text w1,
    reop_encodeseckey (seckey kp) (Some pw) w = (Done text, w1)
    /\ (regular_file o name text ->
        forall w2, exists sk w3,
          reop_getseckey o secfile (Some pw) w2 = (Done (Some sk), w3)
          /\ sec_sigkey sk = sec_sigkey (seckey kp)
          /\ sec_enckey sk = sec_enckey (seckey kp)
          /\ sec_randomid sk = sec_randomid (seckey kp)
          /\ sec_ident sk = sec_ident (seckey kp)).
Proof.
  intros G Hs Hne Hname.
  assert (Hwf := generated_seckey_wf L G).
  set (sk := seckey kp) in *.
  destruct (seckey_wf_inv sk Hwf) as (H1 & H2 & H3 & H4 & H5 & H6 & H7 & Hnul & Hlen).
  assert (Hparse : forall rounds salt nonce symkey,
    length salt = 16 -> length nonce = 24 ->
    to_int (ntohl (htonl rounds)) = rounds ->
    (forall w, exists w', kdf salt rounds (Some pw) false SYMKEYBYTES w = (Done symkey, w')) ->
    let box := crypto_secretbox_detached (sec_sigkey sk ++ sec_enckey sk) nonce symkey in
    let copy := mkSeckey (sec_sigalg sk) (sec_encalg sk) (sec_symalg sk) (sec_kdfalg sk)
                         (sec_randomid sk) (htonl rounds) salt nonce (snd box)
                         (firstn SIGSECRETBYTES (fst box)) (skipn SIGSECRETBYTES (fst box))
                         (sec_ident sk) in
    let text := armored (kind_name SECRET_KEY) (sec_ident sk) (payload_of (seckey_image copy)) in
    length text <= 1023 ->
    regular_file o name text ->
    forall w2, exists sk' w3,
      reop_getseckey o secfile (Some pw) w2 = (Done (Some sk'), w3)
      /\ sec_sigkey sk' = sec_sigkey sk /\ sec_enckey sk' = sec_enckey sk
      /\ sec_randomid sk' = sec_randomid sk /\ sec_ident sk' = sec_ident sk).
  { intros rounds salt nonce symkey Hsalt Hnonce Hrounds Hk box copy text Htext Hfile w2.
    assert (Hread := @readall_key_file o name _ Hfile Htext).
    assert (Hbox : length (fst box) = 96).
    { unfold box. rewrite secretbox_length, length_app. lia. }
    assert (Htag : length (snd box) = 16) by apply secretbox_tag_length.
    assert (Hcopy : length (seckey_image copy) = kind_size SECRET_KEY).
    { unfold copy. now apply length_wrapped_image. }
    unfold reop_getseckey. rewrite Hname, Hread, parsekeydata_file. unfold bind.
    change (lit "SECRET KEY") with (kind_name SECRET_KEY).
    change seckeysize with (kind_size SECRET_KEY).
    unfold text.
    rewrite parsekeydata_encoded by (try assumption; now apply nospace_ident_line).
    rewrite skip_space_word;
      [| exact Hs | destruct (sec_ident sk); [simpl in Hne; lia | discriminate]].
    rewrite scan_word_line by (try assumption; lia).
    rewrite seckey_of_image_image; unfold copy;
      cbn [sec_sigalg sec_encalg sec_symalg sec_kdfalg sec_randomid sec_kdfrounds
           sec_salt sec_nonce sec_tag sec_sigkey sec_enckey]; try assumption;
      try apply length_htonl; try (now rewrite H4);
      try (unfold SIGSECRETBYTES; rewrite ?length_firstn, ?length_skipn; lia).
    unfold decryptseckey.
    cbn [sec_sigalg sec_encalg sec_symalg sec_kdfalg sec_randomid sec_kdfrounds
         sec_salt sec_nonce sec_tag sec_sigkey sec_enckey sec_ident].
    rewrite H4, memcmp_eq_refl. cbn [negb]. rewrite Hrounds.
    destruct (Hk w2) as [w' Hk']. unfold bind. rewrite Hk'.
    unfold symdecryptraw, bind, log, ret. rewrite firstn_skipn.
    unfold box. rewrite secretbox_open_seal. cbn [Z.eqb negb].
    do 2 eexists. split; [reflexivity|].
    cbn [sec_sigkey sec_enckey sec_randomid sec_ident]. unfold SIGSECRETBYTES.
    repeat split.
    - now apply firstn_app_exact.
    - now apply skipn_app_exact. }
  unfold reop_encodeseckey, encryptseckey.
  destruct (strlen pw =? 0) eqn:Epw.
  - unfold kdf, symencryptraw. cbn [Z.eqb]. mrun.
    change (lit "SECRET KEY") with (kind_name SECRET_KEY).
    match goal with
    | |- exists text w1, encodekey ?i ?k ?id ?w0 = _ /\ _ =>
        assert (Henc : encodekey i k id w0
                       = (Done (armored i id (payload_of k)), w0))
    end.
    { apply encodekey_armored;
        [ exact Hnul | exact Hlen
        | apply length_wrapped_image;
          [exact L | exact Hwf | | ]; rewrite length_map, length_seq; reflexivity ]. }
    rewrite Henc. do 2 eexists. split; [reflexivity|]. intros Hfile.
    refine (Hparse 0%Z _ _ _ _ _ _ _ _ Hfile).
    + rewrite length_map, length_seq. reflexivity.
    + rewrite length_map, length_seq. reflexivity.
    + reflexivity.
    + intros w0. eexists. reflexivity.
    + exact (encodekey_length _ _ _ _ Henc).
  - apply Nat.eqb_neq in Epw.
    unfold kdf at 1. cbn [Z.eqb]. unfold symencryptraw. mrun.
    destruct (bcrypt_pbkdf (c_str pw) (map (rng w) (seq (rng_pos w) 16))
                           SYMKEYBYTES (to_unsigned 42)) as [symkey|] eqn:Eb.
    2:{ exfalso. revert Eb. apply bcrypt_pbkdf_total.
        - unfold strlen in Epw. destruct (c_str pw); [simpl in Epw; lia | discriminate].
        - discriminate.
        - unfold SYMKEYBYTES. lia.
        - vm_compute. discriminate. }
    change (lit "SECRET KEY") with (kind_name SECRET_KEY).
    match goal with
    | |- exists text w1, encodekey ?i ?k ?id ?w0 = _ /\ _ =>
        assert (Henc : encodekey i k id w0
                       = (Done (armored i id (payload_of k)), w0))
    end.
    { apply encodekey_armored;
        [ exact Hnul | exact Hlen
        | apply length_wrapped_image;
          [exact L | exact Hwf | | ]; rewrite length_map, length_seq; reflexivity ]. }
    rewrite Henc. do 2 eexists. split; [reflexivity|]. intros Hfile.
    refine (Hparse 42%Z _ _ _ _ _ _ _ _ Hfile).
    + rewrite length_map, length_seq. reflexivity.
    + rewrite length_map, length_seq. reflexivity.
    + reflexivity.
    + intros w0. unfold kdf. cbn [Z.eqb]. mrun. rewrite Eb. eexists. reflexivity.
    + exact (encodekey_length _ _ _ _ Henc).
Qed.

End Loading.

(** ** The command line *)

Lemma main_option_inv ch a v :
  match main_option ch a v with
  | inl e => e = Usage None
  | inr v' =>
      existsb (Ascii.eqb ch) option_letters = true
      /\ m_verb v' = match verb_of_letter ch with
                     | Some vb => vb
                     | None => m_verb v
                     end
      /\ (verb_of_letter ch <> None -> m_verb v = NONE)
      /\ m_pubkeyfile v' = (if Ascii.eqb ch "p" then Some a else m_pubkeyfile v)
      /\ m_seckeyfile v' = (if Ascii.eqb ch "s" then Some a else m_seckeyfile v)
      /\ m_msgfile v' = (if Ascii.eqb ch "m" then Some a else m_msgfile v)
      /\ m_xfile v' = (if Ascii.eqb ch "x" then Some a else m_xfile v)
      /\ m_ident v' = (if Ascii.eqb ch "i" then Some a else m_ident v)
      /\ m_sockname v' = (if Ascii.eqb ch "z" then Some a else m_sockname v)
      /\ m_password v' = (if Ascii.eqb ch "n" then Some [] else m_password v)
      /\ m_embedded v' = (Ascii.eqb ch "e" || m_embedded v)
      /\ m_quiet v' = (Ascii.eqb ch "q" || m_quiet v)
      /\ m_v1compat v' = (Ascii.eqb ch "1" || m_v1compat v)
      /\ m_binary v' = (Ascii.eqb ch "b" || m_binary v)
  end.
Proof.
  destruct v as [p s m x i e q v1 pw z b verb].
  destruct ch as [[|] [|] [|] [|] [|] [|] [|] [|]];
    try reflexivity;
    cbn; try (destruct verb; cbn); try reflexivity;
    repeat split; try reflexivity; try discriminate; try (intros _; reflexivity);
    intros H; exfalso; apply H; reflexivity.
Qed.

Lemma last_arg_cons ch c a opts d :
  or_else (last_arg ch ((c, a) :: opts)) d
  = or_else (last_arg ch opts) (if Ascii.eqb c ch then Some a else d).
Proof.
  cbn [last_arg]. destruct (last_arg ch opts); [reflexivity|].
  destruct (Ascii.eqb c ch); reflexivity.
Qed.

Lemma given_cons ch c a opts d :
  (given ch ((c, a) :: opts) || d) = (given ch opts || (Ascii.eqb c ch || d)).
Proof.
  unfold given. cbn [existsb fst].
  destruct (Ascii.eqb c ch), (existsb _ opts), d; reflexivity.
Qed.

(** The loop over the options ends in [usage(NULL)] or leaves, in each
    variable, the argument of the last occurrence of its letter. *)
Lemma main_options_inv opts :
  forall v,
    match main_options opts v with
    | inl e => e = Usage None
    | inr v' =>
        forallb (fun op => existsb (Ascii.eqb (fst op)) option_letters) opts = true
        /\ (verbs_given opts = [] /\ m_verb v' = m_verb v
            \/ verbs_given opts = [m_verb v'] /\ m_verb v = NONE)
        /\ m_pubkeyfile v' = or_else (last_arg "p" opts) (m_pubkeyfile v)
        /\ m_seckeyfile v' = or_else (last_arg "s" opts) (m_seckeyfile v)
        /\ m_msgfile v' = or_else (last_arg "m" opts) (m_msgfile v)
        /\ m_xfile v' = or_else (last_arg "x" opts) (m_xfile v)
        /\ m_ident v' = or_else (last_arg "i" opts) (m_ident v)
        /\ m_sockname v' = or_else (last_arg "z" opts) (m_sockname v)
        /\ m_password v' = (if given "n" opts then Some [] else m_password v)
        /\ m_embedded v' = (given "e" opts || m_embedded v)
        /\ m_quiet v' = (given "q" opts || m_quiet v)
        /\ m_v1compat v' = (given "1" opts || m_v1compat v)
        /\ m_binary v' = (given "b" opts || m_binary v)
    end.
Proof.
  induction opts as [|[ch a] opts IH]; intros v.
  - cbn. repeat split; auto.
  - cbn [main_options]. pose proof (main_option_inv ch a v) as H1.
    destruct (main_option ch a v) as [e|v1]; [exact H1|].
    destruct H1 as (Hk & Hverb & Hnone & Hp & Hs & Hm & Hx & Hi & Hz & Hn & He & Hq & H1' & Hb).
    specialize (IH v1). destruct (main_options opts v1) as [e|v']; [exact IH|].
    destruct IH as (Ik & Iverb & Ip & Is & Im & Ix & Ii & Iz & In' & Ie & Iq & I1 & Ib).
    rewrite !last_arg_cons, !given_cons.
    rewrite <- Hp, <- Hs, <- Hm, <- Hx, <- Hi, <- Hz, <- He, <- Hq, <- H1', <- Hb.
    split; [cbn [forallb fst]; now rewrite Hk, Ik|].
    split.
    { cbn [verbs_given]. destruct (verb_of_letter ch) as [vb|] eqn:Ev.
      - assert (Hv0 : m_verb v = NONE) by (apply Hnone; discriminate).
        assert (Hvb : vb <> NONE)
          by (intros ->; revert Ev; clear;
              destruct ch as [[|] [|] [|] [|] [|] [|] [|] [|]]; discriminate).
        destruct Iverb as [[Iv1 Iv2]|[Iv1 Iv2]].
        + right. rewrite Iv1, Iv2, Hverb. auto.
        + exfalso. apply Hvb. congruence.
      - rewrite Hverb in Iverb. exact Iverb. }
    repeat split; try assumption.
    unfold given in *. cbn [existsb fst]. rewrite In', Hn.
    destruct (Ascii.eqb ch "n") eqn:E1.
    + apply Ascii.eqb_eq in E1. subst ch. cbn.
      destruct (existsb _ opts); reflexivity.
    + replace (Ascii.eqb ch "n") with false. cbn [orb]. reflexivity.
Qed.

(** What [main] does after the loop, case by case. *)
Ltac main_cases :=
  repeat (cbv beta iota in *;
          match goal with
          | H : context [match ?x with _ => _ end] |- _ => is_var x; destruct x
          | H : context [if ?b then _ else _] |- _ => destruct b
          | H : context [match os_HOME ?o with _ => _ end] |- _ => destruct (os_HOME o)
          | |- context [match ?x with _ => _ end] => is_var x; destruct x
          | |- context [if ?b then _ else _] => destruct b
          | |- context [match os_HOME ?o with _ => _ end] => destruct (os_HOME o)
          end).

(** X22.  [main] calls a command only when exactly one of the letters
    [-D -E -G -S -V -Z] was given, and then the command of that letter
    (none for [-Z]), no letter without a case was met and no operand was
    left.  With no such letter or more than one, with a letter that has
    no case, or with an operand left, it ends in [usage(NULL)]. *)
Theorem main_needs_exactly_one_verb (o : os) USER mkdir_fails opts operands :
  (forall c, main o USER mkdir_fails opts operands = Calls c ->
     verbs_given opts = [command_verb c] /\ operands = 0
     /\ forallb (fun op => existsb (Ascii.eqb (fst op)) option_letters) opts = true)
  /\ (length (verbs_given opts) <> 1 ->
      main o USER mkdir_fails opts operands = Usage None)
  /\ (forallb (fun op => existsb (Ascii.eqb (fst op)) option_letters) opts = false ->
      main o USER mkdir_fails opts operands = Usage None)
  /\ (operands <> 0 -> main o USER mkdir_fails opts operands = Usage None).
Proof.
  unfold main. pose proof (main_options_inv opts main_vars0) as H.
  destruct (main_options opts main_vars0) as [e|v']; [subst e|].
  { split; [intros c Hc; discriminate | repeat split; reflexivity]. }
  destruct H as (Hk & Hverb & _). cbn [main_vars0 m_verb] in Hverb.
  destruct v' as [p s m x i e q v1 pw z b verb]. cbn [m_verb] in Hverb.
  split; [|split; [|split]].
  - intros c Hc. destruct (operands =? 0) eqn:Eo; [|discriminate].
    apply Nat.eqb_eq in Eo. cbn [negb] in Hc.
    assert (Hv : verb = command_verb c).
    { clear Hverb Hk Eo. destruct verb; main_cases; try discriminate;
        injection Hc as <-; reflexivity. }
    split; [|split; [exact Eo | exact Hk]].
    destruct Hverb as [[_ Hn]|[Hv1 _]].
    + exfalso. subst verb. destruct c; discriminate.
    + now rewrite Hv1, Hv.
  - intros Hlen. destruct Hverb as [[_ ->]|[Hv1 _]].
    + destruct (operands =? 0); reflexivity.
    + rewrite Hv1 in Hlen. cbn in Hlen. lia.
  - intros Hf. congruence.
  - intros Ho. apply Nat.eqb_neq in Ho. rewrite Ho. reflexivity.
Qed.

Ltac cases_in H :=
  repeat (cbv beta iota in H;
          match type of H with
          | context [match ?x with _ => _ end] => is_var x; destruct x
          | context [if ?b then _ else _] => destruct b
          | context [match os_HOME ?o with _ => _ end] => destruct (os_HOME o)
          end).

Lemma or_else_None (A : Type) (x : option A) : or_else x None = x.
Proof. destruct x; reflexivity. Qed.

Lemma snprintf_fits n text : length text < n -> snprintf n text = text.
Proof. intros H. unfold snprintf. apply firstn_all2. lia. Qed.

(** X23.  What [main] passes to the command it calls: each file name is
    the argument of the last occurrence of its letter; the commands that
    read a message are called with one; the file that goes with a message
    is the argument of [-x] or else the name of the message file with
    [.enc] or [.sig] appended, which is refused for the message [-] and
    for a name that would not fit 1024 bytes; encryption is symmetric
    only when none of [-p], [-i] and [-s] is given, and to a public key
    in the version 1.0 format only with [-1]; keys are generated under
    the identity of [-i], else of [USER], else [unknown], and only with
    both or neither of [-p] and [-s]. *)
Theorem main_passes_file_names (o : os) USER mkdir_fails opts operands c :
  main o USER mkdir_fails opts operands = Calls c ->
  let p := last_arg "p" opts in
  let s := last_arg "s" opts in
  let m := last_arg "m" opts in
  let i := last_arg "i" opts in
  let named (suffix : bytes) :=
    last_arg "x" opts = None ->
    forall msg, m = Some msg ->
                bytes_eqb (c_str msg) (lit "-") = false /\ strlen msg + 4 < 1024 in
  match c with
  | Run_decrypt p' s' m' x' =>
      p' = p /\ s' = s /\ m' = m /\ m <> None
      /\ x' = xfile_for opts (lit ".enc") /\ named (lit ".enc")
  | Run_pubencrypt p' i' s' m' x' b =>
      p' = p /\ i' = i /\ s' = s /\ m' = m /\ m <> None
      /\ x' = xfile_for opts (lit ".enc") /\ named (lit ".enc")
      /\ b = given "b" opts /\ given "1" opts = false /\ (p <> None \/ i <> None)
  | Run_v1pubencrypt p' i' s' m' x' b =>
      p' = p /\ i' = i /\ s' = s /\ m' = m /\ m <> None
      /\ x' = xfile_for opts (lit ".enc") /\ named (lit ".enc")
      /\ b = given "b" opts /\ given "1" opts = true /\ (p <> None \/ i <> None)
  | Run_symencrypt m' x' b =>
      m' = m /\ m <> None
      /\ x' = xfile_for opts (lit ".enc") /\ named (lit ".enc")
      /\ b = given "b" opts /\ p = None /\ i = None /\ s = None
  | Run_generate p' s' i' pw =>
      p' = p /\ s' = s /\ (p = None <-> s = None)
      /\ i' = Some (match i with
                    | Some a => a
                    | None => match USER with
                              | Some u => u
                              | None => lit "unknown"
                              end
                    end)
      /\ pw = (if given "n" opts then Some [] else None)
  | Run_signfile s' m' x' e =>
      s' = s /\ m' = m /\ m <> None
      /\ x' = xfile_for opts (lit ".sig") /\ named (lit ".sig")
      /\ e = given "e" opts
  | Run_verifysimple p' m' x' q =>
      p' = p /\ m' = m /\ m <> None
      /\ x' = xfile_for opts (lit ".sig") /\ named (lit ".sig")
      /\ q = given "q" opts
  | Run_verifyembedded p' x' q =>
      p' = p /\ m = None /\ x' = last_arg "x" opts /\ x' <> None
      /\ q = given "q" opts
  end.
Proof.
  unfold main. pose proof (main_options_inv opts main_vars0) as H.
  destruct (main_options opts main_vars0) as [e|v']; [subst e; discriminate|].
  destruct H as (_ & _ & Hp & Hs & Hm & Hx & Hi & _ & Hn & He & Hq & H1 & Hb).
  destruct v' as [p s m x i e q v1 pw z b verb].
  cbn [main_vars0 m_pubkeyfile m_seckeyfile m_msgfile m_xfile m_ident m_password
       m_embedded m_quiet m_v1compat m_binary] in *.
  rewrite or_else_None in Hp, Hs, Hm, Hx, Hi. rewrite orb_false_r in He, Hq, H1, Hb.
  unfold xfile_for. rewrite <- Hp, <- Hs, <- Hm, <- Hi, <- Hx, <- He, <- Hq, <- H1, <- Hb.
  clear Hp Hs Hm Hx Hi He Hq H1 Hb.
  destruct (given "n" opts); subst pw;
  intros Hc; destruct (operands =? 0); try discriminate; cbn [negb] in Hc;
    destruct verb; try discriminate;
    destruct m as [msg|]; destruct x as [xf|]; try discriminate;
    cbv beta iota in Hc;
    try (destruct (bytes_eqb (c_str msg) (lit "-")) eqn:Edash; [discriminate|]);
    try (destruct (1024 <=? strlen msg + 4) eqn:Efit; [discriminate|];
         apply Nat.leb_gt in Efit;
         rewrite snprintf_fits in Hc
           by (rewrite length_app; unfold strlen in Efit; cbn [length lit
                 list_ascii_of_string]; lia));
    cases_in Hc; try discriminate; injection Hc as <-;
    cbn [or_else option_map];
    repeat split; try reflexivity; try discriminate; try tauto;
    try (intros Hx' msg' Hm'; try discriminate Hx';
         injection Hm' as <-; split; [assumption | lia]);
    try (left; discriminate); try (right; discriminate).
  all: try match goal with H : Some _ = None |- _ => discriminate H end.
  all: match goal with H : Some _ = Some _ |- _ => injection H as <- end.
  all: assumption || lia.
Qed.

(** ** The theorems at concrete inputs *)

Import Examples FileExamples.

#[local] Existing Instance Toy.crypto.

Lemma alice_generated : generated (C := Toy.crypto) alice.
Proof. exists (lit "alice"), Toy.world0, world1. reflexivity. Qed.

Lemma bob_generated : generated (C := Toy.crypto) bob.
Proof. exists (lit "bob"), world1, world2. reflexivity. Qed.

Lemma sign_verify_roundtrip_witness :
  exists sig w1,
    reop_sign (C := Toy.crypto) (seckey alice) hello world2 = (Done sig, w1)
    /\ forall w2, fst (reop_verify (pubkey alice) hello sig w2) = Done REOP_V_OK.
Proof.
  apply (@sign_verify_roundtrip Toy.crypto ToyFacts.laws alice hello world2).
  exact alice_generated.
Defined.

Lemma pubencrypt_pubdecrypt_roundtrip_witness :
  exists encmsg c w1,
    reop_pubencrypt (C := Toy.crypto) (pubkey bob) (seckey alice) (lit "secret") world2
    = (Done (encmsg, c), w1)
    /\ enc_encalg encmsg = ENCALG
    /\ forall w2,
         fst (reop_pubdecrypt encmsg (pubkey alice) (seckey bob) c w2)
         = Done (REOP_D_OK, lit "secret").
Proof.
  apply (@pubencrypt_pubdecrypt_roundtrip Toy.crypto ToyFacts.laws alice bob
           (lit "secret") world2).
  - exact alice_generated.
  - exact bob_generated.
Defined.

Lemma verify_depends_only_on_ids_and_keys_witness :
  reop_verify (C := Toy.crypto) (pubkey alice) hello hello_sig world2
  = reop_verify (C := Toy.crypto) (pubkey alice) hello hello_sig_XX world2.
Proof.
  apply (@verify_depends_only_on_ids_and_keys Toy.crypto
           (pubkey alice) (pubkey alice) hello_sig hello_sig_XX hello world2);
    reflexivity.
Defined.


Lemma legacy_CS_swapped_pair_skips_secrandomid_witness :
  firstn RANDOMIDLEN (old_secrandomid stray_envelope)
    <> firstn RANDOMIDLEN (pub_randomid (pubkey alice))
  /\ firstn RANDOMIDLEN (old_secrandomid stray_envelope)
    <> firstn RANDOMIDLEN (sec_randomid (seckey bob))
  /\ decrypt_oldencmsg (C := Toy.crypto) stray_envelope
       (Some (pubkey alice)) (Some (seckey bob)) (lit "terces") world2
     = (Done (lit "secret"),
        logged world2
          (Call_box_open_detached (lit "terces") (old_tag stray_envelope)
             (old_nonce stray_envelope) (pub_enckey (pubkey alice))
             (sec_enckey (seckey bob)))).
Proof.
  split; [discriminate|]. split; [discriminate|].
  apply (@legacy_CS_swapped_pair_skips_secrandomid Toy.crypto stray_envelope
           (pubkey alice) (seckey bob) (lit "terces") world2).
  - discriminate.
  - reflexivity.
  - reflexivity.
  - reflexivity.
Defined.

Lemma zero_round_key_opens_under_any_passphrase_witness :
  (exists sk' w1 salt nonce,
     encryptseckey (C := Toy.crypto) (seckey alice) (Some []) world2 = (Done sk', w1)
     /\ ntohl (sec_kdfrounds sk') = 0%Z
     /\ trace w1 = trace world2 ++
                   [Call_randombytes 16; Call_randombytes SYMNONCEBYTES;
                    Call_secretbox_detached
                      (sec_sigkey (seckey alice) ++ sec_enckey (seckey alice))
                      nonce (zeros SYMKEYBYTES)]
     /\ sec_salt sk' = salt /\ sec_nonce sk' = nonce
     /\ forall pw w2,
        exists sk'',
          decryptseckey sk' pw w2 =
          (Done (0%Z, sk''),
           logged w2 (Call_secretbox_open_detached
                        (sec_sigkey sk' ++ sec_enckey sk') (sec_tag sk') nonce
                        (zeros SYMKEYBYTES)))
          /\ sec_sigkey sk'' = sec_sigkey (seckey alice)
          /\ sec_enckey sk'' = sec_enckey (seckey alice))
  /\ (seckey_wf (seckey alice) = true -> ident_line (sec_ident (seckey alice)) = true ->
      exists text w1,
        reop_encodeseckey (seckey alice) (Some []) world2 = (Done text, w1)
        /\ forall pw w2,
           exists sk' w3,
             reop_parseseckey text pw w2 = (Done (Some sk'), w3)
             /\ sec_sigkey sk' = sec_sigkey (seckey alice)
             /\ sec_enckey sk' = sec_enckey (seckey alice)).
Proof.
  apply (@zero_round_key_opens_under_any_passphrase Toy.crypto ToyFacts.laws
           (seckey alice) [] world2); reflexivity.
Defined.

(** C1, refuted as stated: Alice's secret key, encoded under the empty
    passphrase, is parsed under the passphrase [x] without an
    authentication failure, and the secret keys come back. *)
Lemma empty_passphrase_key_parses_under_other_passphrase :
  lit "x" <> []
  /\ exists k,
       alice_unlocked = Done (Some k)
       /\ sec_sigkey k = sec_sigkey (seckey alice)
       /\ sec_enckey k = sec_enckey (seckey alice).
Proof.
  split; [discriminate|]. eexists. split; [vm_compute; reflexivity|].
  split; reflexivity.
Qed.

(** C9, refuted as stated: the identity [John Doe] has 8 bytes, and the
    identity parsed from the key encoded with it is [John]; the empty
    identity comes back as the start of the payload. *)
Lemma ident_of_two_words_is_cut :
  (exists k,
     john_again = Done k
     /\ pub_ident john = lit "John Doe"
     /\ pub_ident k = lit "John")
  /\ (exists k,
        anonymous_again = Done k
        /\ pub_ident anonymous = []
        /\ pub_ident k = firstn 63 (payload_of (pubkey_image anonymous))).
Proof.
  split; eexists; (split; [vm_compute; reflexivity|]); split; reflexivity.
Qed.

Lemma ident_roundtrip_of_words_witness :
  (ident_line (lit "alice") = true ->
   (text <- encodekey (kind_name PUBLIC_KEY) (pubkey_image (pubkey alice)) (lit "alice") ;;
    parsekeydata text (kind_name PUBLIC_KEY) (kind_size PUBLIC_KEY)) world2
   = (Done (pubkey_image (pubkey alice),
            scan_word 63 (skip_space (lit "alice" ++ NL
                                      :: payload_of (pubkey_image (pubkey alice))))),
      world2))
  /\ (nospace (lit "alice") = true -> 1 <= length (lit "alice") ->
      (text <- encodekey (kind_name PUBLIC_KEY) (pubkey_image (pubkey alice)) (lit "alice") ;;
       parsekeydata text (kind_name PUBLIC_KEY) (kind_size PUBLIC_KEY)) world2
      = (Done (pubkey_image (pubkey alice), lit "alice"), world2)).
Proof.
  apply (@ident_roundtrip_of_words PUBLIC_KEY (pubkey_image (pubkey alice))
           (lit "alice") world2); [reflexivity | simpl; lia | reflexivity].
Defined.

(** C5, refuted as stated: the secret key of a pair generated under an
    identity of two lines, encoded under a passphrase, is not parsed back
    under the same passphrase, the process exits on the payload; under an
    identity that contains the closing marker it exits on the header. *)
Lemma seckey_with_two_line_ident_is_not_parsed :
  (sec_ident (seckey carol) = two_lines
   /\ carol_again = Errx "invalid b64 encoding")
  /\ (sec_ident (seckey dave) = end_marked
      /\ dave_again = Errx "invalid header").
Proof. repeat split; vm_compute; reflexivity. Qed.

Lemma seckey_encode_parse_roundtrip_witness :
  exists text w1,
    reop_encodeseckey (seckey alice) (Some (lit "pw")) world2 = (Done text, w1)
    /\ forall w2,
       exists sk' w3,
         reop_parseseckey text (Some (lit "pw")) w2 = (Done (Some sk'), w3)
         /\ sec_sigkey sk' = sec_sigkey (seckey alice)
         /\ sec_enckey sk' = sec_enckey (seckey alice).
Proof.
  apply (@seckey_encode_parse_roundtrip Toy.crypto ToyFacts.laws
           (seckey alice) (lit "pw") world2); reflexivity.
Defined.

(** The keys that the loaders return from the disk are the two halves of
    Alice's pair, and of Bob's. *)
Lemma alice_key_pair : key_pair (C := Toy.crypto) alice_pub alice_sec.
Proof.
  destruct (generated_inv alice_generated)
    as (sS & sE & rid & ident & Heq & Hrid & _).
  assert (H1 : pub_sigkey alice_pub = pub_sigkey (pubkey alice)) by reflexivity.
  assert (H2 : sec_sigkey alice_sec = sec_sigkey (seckey alice))
    by (vm_compute; reflexivity).
  assert (H3 : pub_enckey alice_pub = pub_enckey (pubkey alice)) by reflexivity.
  assert (H4 : sec_enckey alice_sec = sec_enckey (seckey alice))
    by (vm_compute; reflexivity).
  rewrite Heq in H1, H2, H3, H4. cbn [pubkey seckey pub_sigkey sec_sigkey
    pub_enckey sec_enckey] in H1, H2, H3, H4.
  repeat split; try (vm_compute; reflexivity).
  - exists sS. split; assumption.
  - exists sE. split; assumption.
Qed.

Lemma bob_key_pair : key_pair (C := Toy.crypto) bob_pub bob_sec.
Proof.
  destruct (generated_inv bob_generated)
    as (sS & sE & rid & ident & Heq & Hrid & _).
  assert (H1 : pub_sigkey bob_pub = pub_sigkey (pubkey bob)) by reflexivity.
  assert (H2 : sec_sigkey bob_sec = sec_sigkey (seckey bob))
    by (vm_compute; reflexivity).
  assert (H3 : pub_enckey bob_pub = pub_enckey (pubkey bob)) by reflexivity.
  assert (H4 : sec_enckey bob_sec = sec_enckey (seckey bob))
    by (vm_compute; reflexivity).
  rewrite Heq in H1, H2, H3, H4. cbn [pubkey seckey pub_sigkey sec_sigkey
    pub_enckey sec_enckey] in H1, H2, H3, H4.
  repeat split; try (vm_compute; reflexivity).
  - exists sS. split; assumption.
  - exists sE. split; assumption.
Qed.

(** C8, refuted as stated: a message that contains a signature opener line
    and a NUL byte, signed in embedded form with the key in
    [~/.reop/seckey], is not verified: the scan stops at the NUL and takes
    the opener of the message for that of the signature. *)
Lemma embedded_message_with_NUL_is_not_verified :
  sign_and_verify binary_body = Errx "invalid key data".
Proof. vm_compute. reflexivity. Qed.

Lemma embedded_signature_last_opener_witness :
  exists file w1,
    signfile_embedded (Some alice_sec) decoy_body
                      (snd (reop_getseckey disk None None world2)) = (Done file, w1)
    /\ forall (o' : os) pubkeyfile sigfile w2,
         regular_file o' sigfile file ->
         (Z.of_nat (length file) <= 2 ^ 30)%Z ->
         reop_getpubkey o' pubkeyfile (Some (sec_ident alice_sec)) w2
         = (Done (Some alice_pub), w2) ->
         fst (verifyembedded o' pubkeyfile sigfile w2) = Done decoy_body.
Proof.
  apply (proj1 (proj2 (@embedded_signature_last_opener Toy.crypto ToyFacts.laws))
           disk None alice_sec alice_pub decoy_body world2
           (snd (reop_getseckey disk None None world2))).
  - vm_compute. reflexivity.
  - exact alice_key_pair.
  - reflexivity.
Defined.

(** The same on the disk: the message with an opener line of its own,
    signed with the key in [~/.reop/seckey] and kept in [msg.sig], is
    verified whole with the key that the ring holds for [alice]. *)
Lemma embedded_decoy_is_verified : sign_and_verify decoy_body = Done decoy_body.
Proof. vm_compute. reflexivity. Qed.

(** ** The further theorems at concrete inputs *)

Import FileExamples.

Lemma toy_box_laws : BoxLaws Toy.crypto.
Proof.
  split.
  - intros. unfold crypto_box_detached, Toy.crypto, Toy.box, Toy.secretbox.
    cbn [fst]. apply length_rev.
  - intros. unfold crypto_box_detached, Toy.crypto, Toy.box, Toy.secretbox.
    cbn [snd]. apply ToyFacts.pad_length.
Qed.

Lemma pubkey_encode_parse_roundtrip_witness :
  (text <- reop_encodepubkey (pubkey alice) ;; reop_parsepubkey text) world2
  = (Done (pubkey alice), world2).
Proof.
  apply (@pubkey_encode_parse_roundtrip (pubkey alice) world2);
    [reflexivity | reflexivity | simpl; lia].
Defined.

Lemma sig_encode_parse_roundtrip_witness :
  (text <- reop_encodesig hello_sig ;; reop_parsesig text) world2
  = (Done hello_sig, world2).
Proof.
  apply (@sig_encode_parse_roundtrip hello_sig world2);
    [reflexivity | reflexivity | simpl; lia].
Defined.

Lemma armored_block_of_other_kind_is_rejected_witness :
  (text <- encodekey (kind_name PUBLIC_KEY) (pubkey_image (pubkey alice)) (lit "alice") ;;
   parsekeydata text (kind_name SIGNATURE) (kind_size SIGNATURE)) world2
  = (Errx "invalid key data", world2).
Proof.
  apply (@armored_block_of_other_kind_is_rejected PUBLIC_KEY SIGNATURE
           (pubkey_image (pubkey alice)) (lit "alice") world2);
    [discriminate | reflexivity | simpl; lia | reflexivity].
Defined.


(** The same on the disk: the signature file of [binary_body], kept in
    [body.sig], is verified with the key that the ring holds for
    [alice]. *)
Lemma detached_signature_is_verified :
  fst (verifysimple
         (fun ident => reop_getpubkey (disk_with (lit "body.sig") binary_body_sigfile)
                                      None (Some ident))
         binary_body
         (readall_msg (readall (disk_with (lit "body.sig") binary_body_sigfile)
                               (lit "body.sig")))
         false world2)
  = Done (verified_message false).
Proof. vm_compute. reflexivity. Qed.

Lemma verifysimple_returns_only_if_verified_witness :
  exists text sig pub w1 w2,
    Some (binary_body_sigfile ++ [NUL]) = Some text
    /\ reop_parsesig text world2 = (Done sig, w1)
    /\ reop_getpubkey disk None (Some (sig_ident sig)) w1 = (Done (Some pub), w2)
    /\ firstn RANDOMIDLEN (pub_randomid pub) = firstn RANDOMIDLEN (sig_randomid sig)
    /\ crypto_sign_verify_detached (sig_sig sig) binary_body (pub_sigkey pub) = true
    /\ verified_message false = verified_message false.
Proof.
  apply (@verifysimple_returns_only_if_verified Toy.crypto
           (fun ident => reop_getpubkey disk None (Some ident)) binary_body
           (Some (binary_body_sigfile ++ [NUL])) false world2 (verified_message false)
           (snd (verifysimple (fun ident => reop_getpubkey disk None (Some ident))
                   binary_body (Some (binary_body_sigfile ++ [NUL])) false world2))).
  vm_compute. reflexivity.
Defined.

Lemma kdf_passphrase_sources_witness :
  (forall p confirm w,
     kdf (lit "salt") 42 (Some p) confirm SYMKEYBYTES w
     = kdf_with p (lit "salt") 42 SYMKEYBYTES w)
  /\ (forall p confirm w,
        env_REOP_PASSPHRASE w = Some p ->
        kdf (lit "salt") 42 None confirm SYMKEYBYTES w
        = kdf_with p (lit "salt") 42 SYMKEYBYTES w)
  /\ (forall confirm w,
        env_REOP_PASSPHRASE w = None ->
        (tty w = [] \/ exists rest, tty w = None :: rest) ->
        fst (kdf (lit "salt") 42 None confirm SYMKEYBYTES w)
        = Errx "unable to read passphrase"
        /\ trace (snd (kdf (lit "salt") 42 None confirm SYMKEYBYTES w)) = trace w)
  /\ (forall confirm s rest w,
        env_REOP_PASSPHRASE w = None -> tty w = Some s :: rest -> strlen s = 0 ->
        fst (kdf (lit "salt") 42 None confirm SYMKEYBYTES w)
        = Errx "please provide a password"
        /\ trace (snd (kdf (lit "salt") 42 None confirm SYMKEYBYTES w)) = trace w)
  /\ (forall s rest w,
        env_REOP_PASSPHRASE w = None -> tty w = Some s :: rest -> 1 <= strlen s ->
        (rest = [] \/ exists rest', rest = None :: rest') ->
        fst (kdf (lit "salt") 42 None true SYMKEYBYTES w)
        = Errx "unable to read passphrase"
        /\ trace (snd (kdf (lit "salt") 42 None true SYMKEYBYTES w)) = trace w)
  /\ (forall s s2 rest w,
        env_REOP_PASSPHRASE w = None -> tty w = Some s :: Some s2 :: rest ->
        1 <= strlen s ->
        firstn 1023 (c_str s) <> firstn 1023 (c_str s2) ->
        fst (kdf (lit "salt") 42 None true SYMKEYBYTES w) = Errx "passwords don't match"
        /\ trace (snd (kdf (lit "salt") 42 None true SYMKEYBYTES w)) = trace w)
  /\ (forall s s2 rest w,
        env_REOP_PASSPHRASE w = None -> tty w = Some s :: Some s2 :: rest ->
        1 <= strlen s ->
        firstn 1023 (c_str s) = firstn 1023 (c_str s2) ->
        fst (kdf (lit "salt") 42 None true SYMKEYBYTES w)
        = fst (kdf_with (firstn 1023 (c_str s)) (lit "salt") 42 SYMKEYBYTES w)
        /\ tty (snd (kdf (lit "salt") 42 None true SYMKEYBYTES w)) = rest)
  /\ (forall s rest w,
        env_REOP_PASSPHRASE w = None -> tty w = Some s :: rest -> 1 <= strlen s ->
        fst (kdf (lit "salt") 42 None false SYMKEYBYTES w)
        = fst (kdf_with (firstn 1023 (c_str s)) (lit "salt") 42 SYMKEYBYTES w)
        /\ tty (snd (kdf (lit "salt") 42 None false SYMKEYBYTES w)) = rest).
Proof.
  apply (@kdf_passphrase_sources Toy.crypto (lit "salt") 42%Z SYMKEYBYTES).
  discriminate.
Defined.

(** Runs of [kdf] at the terminal: the passphrase entered twice gives the
    key that the passphrase as argument gives; a confirmation that
    differs, a confirmation that cannot be read, an empty entry and no
    terminal end the process. *)
Lemma kdf_terminal_runs :
  fst (kdf (lit "salt") 42 None true SYMKEYBYTES
           (world_tty [Some (lit "pw"); Some (lit "pw")]))
  = fst (kdf (lit "salt") 42 (Some (lit "pw")) true SYMKEYBYTES world2)
  /\ fst (kdf (lit "salt") 42 None false SYMKEYBYTES (world_tty [Some (lit "pw")]))
     = fst (kdf (lit "salt") 42 (Some (lit "pw")) true SYMKEYBYTES world2)
  /\ (exists key, fst (kdf (lit "salt") 42 (Some (lit "pw")) true SYMKEYBYTES world2)
                  = Done key)
  /\ fst (kdf (lit "salt") 42 None true SYMKEYBYTES
              (world_tty [Some (lit "pw"); Some (lit "pv")]))
     = Errx "passwords don't match"
  /\ fst (kdf (lit "salt") 42 None true SYMKEYBYTES (world_tty [Some (lit "pw")]))
     = Errx "unable to read passphrase"
  /\ fst (kdf (lit "salt") 42 None true SYMKEYBYTES (world_tty [Some []]))
     = Errx "please provide a password"
  /\ fst (kdf (lit "salt") 42 None true SYMKEYBYTES (world_tty []))
     = Errx "unable to read passphrase".
Proof.
  repeat split; try (vm_compute; reflexivity).
  eexists. vm_compute. reflexivity.
Qed.

Lemma symencrypt_symdecrypt_roundtrip_witness :
  exists symmsg c w1,
    reop_symencrypt (lit "secret") (Some (lit "pw")) world2 = (Done (symmsg, c), w1)
    /\ (forall pwarg w2,
          env_REOP_PASSPHRASE w2 = Some (lit "pw") ->
          fst (reop_symdecrypt symmsg pwarg c w2) = Done (REOP_D_OK, lit "secret"))
    /\ (forall pwarg rest w2,
          env_REOP_PASSPHRASE w2 = None -> tty w2 = Some (lit "pw") :: rest ->
          strlen (lit "pw") <= 1023 ->
          fst (reop_symdecrypt symmsg pwarg c w2) = Done (REOP_D_OK, lit "secret"))
    /\ (forall pwarg w2,
          env_REOP_PASSPHRASE w2 = None -> tty w2 = [] ->
          fst (reop_symdecrypt symmsg pwarg c w2) = Errx "unable to read passphrase").
Proof.
  apply (@symencrypt_symdecrypt_roundtrip Toy.crypto ToyFacts.laws (lit "secret")
           (lit "pw") world2).
  vm_compute. lia.
Defined.

Lemma symmetric_file_roundtrip_witness :
  exists file w1,
    symencrypt (lit "secret") false world_pw = (Done file, w1)
    /\ (forall (o : os) pubkeyfile seckeyfile encfile w2,
          regular_file o encfile file ->
          (Z.of_nat (length file) <= 2 ^ 30)%Z ->
          env_REOP_PASSPHRASE w2 = Some (lit "pw") ->
          fst (decrypt o pubkeyfile seckeyfile encfile w2) = Done (lit "secret"))
    /\ (forall (o : os) pubkeyfile seckeyfile encfile w2,
          regular_file o encfile file ->
          (2 ^ 30 < Z.of_nat (length file) < 2 ^ 63)%Z ->
          decrypt o pubkeyfile seckeyfile encfile w2 = (Errx "is too large", w2)).
Proof.
  apply (@symmetric_file_roundtrip Toy.crypto ToyFacts.laws (lit "secret") false
           (lit "pw") world_pw).
  - reflexivity.
  - vm_compute. lia.
Defined.

(** The same on the disk: the armored envelope of [secret], kept in
    [secret.enc], is decrypted with the passphrase in the environment. *)
Lemma symmetric_file_is_decrypted :
  fst (decrypt (disk_with (lit "secret.enc")
                  (value [] (symencrypt (lit "secret") false world_pw)))
               None None (lit "secret.enc") world_pw)
  = Done (lit "secret").
Proof. vm_compute. reflexivity. Qed.

Lemma pubencrypt_file_roundtrip_witness :
  exists file w1,
    pubencrypt (reop_getpubkey disk (Some (lit "bob.pub")) None)
               (reop_getseckey disk None None) (lit "secret") false world2
    = (Done file, w1)
    /\ (forall (o' : os) pubkeyfile seckeyfile encfile w2 w3,
          regular_file o' encfile file ->
          (Z.of_nat (length file) <= 2 ^ 30)%Z ->
          reop_getpubkey o' pubkeyfile (Some (sec_ident alice_sec)) w2
          = (Done (Some alice_pub), w2) ->
          reop_getseckey o' seckeyfile None w2 = (Done (Some bob_sec), w3) ->
          fst (decrypt o' pubkeyfile seckeyfile encfile w2) = Done (lit "secret"))
    /\ (forall (o' : os) pubkeyfile seckeyfile encfile w2,
          regular_file o' encfile file ->
          (2 ^ 30 < Z.of_nat (length file) < 2 ^ 63)%Z ->
          decrypt o' pubkeyfile seckeyfile encfile w2 = (Errx "is too large", w2)).
Proof.
  apply (@pubencrypt_file_roundtrip Toy.crypto ToyFacts.laws toy_box_laws disk
           (Some (lit "bob.pub")) None None bob_pub alice_sec alice_pub bob_sec
           (lit "secret") false world2 (snd (reop_getseckey disk None None world2))).
  - vm_compute. reflexivity.
  - vm_compute. reflexivity.
  - exact alice_key_pair.
  - exact bob_key_pair.
Defined.

(** The same on the disk: Alice encrypts [secret] to Bob; Bob, with his
    passphrase in the environment, decrypts the armored file, finding
    Alice's key in the key ring by the identity that the file names. *)
Lemma pubencrypt_file_is_decrypted :
  fst (decrypt (disk_with (lit "secret.enc")
                  (value [] (pubencrypt (reop_getpubkey disk (Some (lit "bob.pub")) None)
                                        (reop_getseckey disk None None)
                                        (lit "secret") false world2)))
               None (Some (lit "bob.sec")) (lit "secret.enc") world_pw)
  = Done (lit "secret").
Proof. vm_compute. reflexivity. Qed.

Lemma v1pubencrypt_file_roundtrip_witness :
  exists file w1,
    v1pubencrypt (reop_getpubkey disk (Some (lit "bob.pub")) None)
                 (reop_getseckey disk None None) (lit "secret") false world2
    = (Done file, w1)
    /\ (forall (o' : os) pubkeyfile seckeyfile encfile w2 w3,
          regular_file o' encfile file ->
          (Z.of_nat (length file) <= 2 ^ 30)%Z ->
          reop_getpubkey o' pubkeyfile (Some (sec_ident alice_sec)) w2
          = (Done (Some alice_pub), w2) ->
          reop_getseckey o' seckeyfile None w2 = (Done (Some bob_sec), w3) ->
          fst (decrypt o' pubkeyfile seckeyfile encfile w2) = Done (lit "secret"))
    /\ (forall (o' : os) pubkeyfile seckeyfile encfile w2,
          regular_file o' encfile file ->
          (2 ^ 30 < Z.of_nat (length file) < 2 ^ 63)%Z ->
          decrypt o' pubkeyfile seckeyfile encfile w2 = (Errx "is too large", w2)).
Proof.
  apply (@v1pubencrypt_file_roundtrip Toy.crypto ToyFacts.laws toy_box_laws disk
           (Some (lit "bob.pub")) None None bob_pub alice_sec alice_pub bob_sec
           (lit "secret") false world2 (snd (reop_getseckey disk None None world2))).
  - vm_compute. reflexivity.
  - vm_compute. reflexivity.
  - exact alice_key_pair.
  - exact bob_key_pair.
Defined.

Lemma v1pubencrypt_file_is_decrypted :
  fst (decrypt (disk_with (lit "secret.enc")
                  (value [] (v1pubencrypt (reop_getpubkey disk (Some (lit "bob.pub")) None)
                                          (reop_getseckey disk None None)
                                          (lit "secret") false world2)))
               None (Some (lit "bob.sec")) (lit "secret.enc") world_pw)
  = Done (lit "secret").
Proof. vm_compute. reflexivity. Qed.

Lemma decrypt_rejects_other_files_witness :
  decrypt (disk_with (lit "empty.enc") []) None None (lit "empty.enc") world2
  = (Errx "invalid encrypted message", world2).
Proof.
  apply (@decrypt_rejects_other_files Toy.crypto (disk_with (lit "empty.enc") [])
           None None (lit "empty.enc") [] world2).
  - vm_compute. reflexivity.
  - left. simpl. lia.
  - reflexivity.
Defined.

Lemma binary_envelope_layout_witness :
  exists h lenbytes idbytes,
    handmade_envelope = firstn 4 handmade_envelope ++ h ++ lenbytes ++ idbytes ++ lit "data"
    /\ length (firstn 4 handmade_envelope) = 4
    /\ header_size h = Some (length h)
    /\ 58 = length h /\ hdr_store [] handmade_header = hdr_store [] h
    /\ length lenbytes = 4 /\ ntohl lenbytes = Z.of_nat (length idbytes)
    /\ length idbytes < IDENTLEN
    /\ lit "bob" = c_str idbytes
    /\ world2 = world2.
Proof.
  apply (@binary_envelope_layout [] handmade_envelope world2
           (hdr_store [] handmade_header) 58 (lit "bob") (lit "data") world2).
  vm_compute. reflexivity.
Defined.


Lemma wraplines_full_last_line_is_not_terminated_witness :
  wraplines (two_full_lines ++ NUL :: two_full_lines_junk) 160
  = wrapped (2 - 1) two_full_lines ++ skipn (2 - 2) two_full_lines_junk
  /\ c_str (wraplines (two_full_lines ++ NUL :: two_full_lines_junk) 160)
     = wrapped (2 - 1) two_full_lines ++ c_str (skipn (2 - 2) two_full_lines_junk).
Proof.
  apply (@wraplines_full_last_line_is_not_terminated two_full_lines two_full_lines_junk 160 2).
  - reflexivity.
  - reflexivity.
  - lia.
  - vm_compute. reflexivity.
  - vm_compute. lia.
  - reflexivity.
Defined.

Lemma readall_reads_the_whole_file_witness :
  (exists rv m len,
      readall disk (lit "/home/u/.reop/pubkey") = Read_done rv m len
      /\ ((rv = 0%Z /\ exists h, xopen disk (lit "/home/u/.reop/pubkey") = Fd h
                                 /\ m = Some (h_data h ++ [NUL])
                                 /\ len = Z.of_nat (length (h_data h)))
          \/ ((rv = (-1)%Z \/ rv = (-2)%Z \/ rv = (-3)%Z) /\ m = None /\ len = 0%Z)))
  /\ (forall h,
        xopen disk (lit "/home/u/.reop/pubkey") = Fd h -> h_error h = None ->
        (forall sb, h_fstat h = Some sb -> st_isreg sb = true ->
                    (0 <= st_size sb <= 2 ^ 30)%Z) ->
        (Z.of_nat (length (h_data h)) <= 2 ^ 29)%Z
        \/ (exists sb, h_fstat h = Some sb /\ st_isreg sb = true
                       /\ (Z.of_nat (length (h_data h)) <= st_size sb)%Z) ->
        readall disk (lit "/home/u/.reop/pubkey")
        = Read_done 0 (Some (h_data h ++ [NUL])) (Z.of_nat (length (h_data h)))).
Proof.
  apply (@readall_reads_the_whole_file disk (lit "/home/u/.reop/pubkey")).
  intros h sb Hx Hs. vm_compute in Hx. injection Hx as <-.
  injection Hs as <-. vm_compute. split; [discriminate | reflexivity].
Defined.

Lemma keyring_lookup_returns_first_match_witness :
  reop_getpubkey disk None (Some (lit "bob")) world2
  = (Done (find (fun k => bytes_eqb (c_str (lit "bob")) (pub_ident k)) (map snd ring)),
     world2).
Proof.
  apply (@keyring_lookup_returns_first_match disk ring (lit "/home/u/.reop/pubkeyring")
           (lit "bob") world2); reflexivity.
Defined.

Lemma saved_pubkey_loads_back_witness :
  exists text,
    reop_encodepubkey (pubkey alice) world2 = (Done text, world2)
    /\ (regular_file disk (lit "/home/u/.reop/pubkey") text ->
        forall w2, reop_getpubkey disk None None w2 = (Done (Some (pubkey alice)), w2)).
Proof.
  apply (@saved_pubkey_loads_back disk (pubkey alice) None None
           (lit "/home/u/.reop/pubkey") world2).
  - reflexivity.
  - reflexivity.
  - simpl. lia.
  - reflexivity.
  - reflexivity.
Defined.

Lemma saved_seckey_loads_back_witness :
  exists text w1,
    reop_encodeseckey (seckey bob) (Some (lit "pw")) world2 = (Done text, w1)
    /\ (regular_file disk (lit "bob.sec") text ->
        forall w2, exists sk w3,
          reop_getseckey disk (Some (lit "bob.sec")) (Some (lit "pw")) w2
          = (Done (Some sk), w3)
          /\ sec_sigkey sk = sec_sigkey (seckey bob)
          /\ sec_enckey sk = sec_enckey (seckey bob)
          /\ sec_randomid sk = sec_randomid (seckey bob)
          /\ sec_ident sk = sec_ident (seckey bob)).
Proof.
  apply (@saved_seckey_loads_back Toy.crypto ToyFacts.laws disk bob (lit "pw")
           (Some (lit "bob.sec")) (lit "bob.sec") world2).
  - exact bob_generated.
  - reflexivity.
  - simpl. lia.
  - reflexivity.
Defined.

Lemma main_passes_file_names_witness :
  Some (lit "bob.pub") = last_arg "p" encrypt_to_bob
  /\ None = last_arg "i" encrypt_to_bob
  /\ None = last_arg "s" encrypt_to_bob
  /\ Some (lit "msg") = last_arg "m" encrypt_to_bob
  /\ last_arg "m" encrypt_to_bob <> None
  /\ Some (lit "msg.enc") = xfile_for encrypt_to_bob (lit ".enc")
  /\ (last_arg "x" encrypt_to_bob = None ->
      forall msg, last_arg "m" encrypt_to_bob = Some msg ->
                  bytes_eqb (c_str msg) (lit "-") = false /\ strlen msg + 4 < 1024)
  /\ false = given "b" encrypt_to_bob
  /\ given "1" encrypt_to_bob = false
  /\ (last_arg "p" encrypt_to_bob <> None \/ last_arg "i" encrypt_to_bob <> None).
Proof.
  apply (@main_passes_file_names disk None (fun _ => false) encrypt_to_bob 0
           encrypt_to_bob_call).
  vm_compute. reflexivity.
Defined.
